(* ===== verification/_CoqProject ===== *)
-Q . S2P
Prelude.v
Layout.v
V2Messages.v
V1Messages.v
Float32.v
Fix32.v
Unicode.v
Utf8.v
V1Server.v
V1History.v
V2Server.v
V2Accept.v
V2Discovery.v
V2Reading.v
V2Threads.v
V2History.v
Fairness.v
Control.v
V2Shutdown.v
V1Shutdown.v
Shutdown.v
Races.v
V2Service.v
V1Service.v
V1Control.v
V2Control.v
Handler.v
ForegroundOverride.v
InjectDll.v
Wintab.v
WintabTablet.v
TabletProofs.v
TabletLife.v
Packets.v
Main.v
Process.v
ProcessLife.v
