(* ===== verification/Prelude.v ===== *)
(** * wintab-adapter: a verification development

    wintab-adapter is a Windows program that reads a graphics tablet through the
    WinTab interface of its driver and offers the pen to other programs over the
    OTD-IPC protocol.

    ** The program and its parts

    [main] (src/src/main.cpp) starts a server for the current protocol
    ([V2Server], a Unix socket) and, on request, one for the deprecated protocol
    ([V1Server], a named pipe), and puts them behind a [MultiHandler].  It then
    creates a [WintabTablet], which opens a WinTab context, tells the handler the
    device, and turns each message of its window into a pen state for the handler.
    Each server has an accept thread and a ping thread besides the thread that
    calls it.  Some drivers only serve the foreground window: for those the
    tablet loads a library into the driver process ([InjectDll]), whose hooks
    answer with the adapter's window as long as the adapter lives
    ([ForegroundOverride]).

    ** Files

    Each file models the sources named with it; inside a file a Module of the
    same name (V2 and V1 for the messages) holds the definitions, which keep the
    names of the source.

    - Prelude: machine integers at their width, text, results and the monad.
    - Layout: the layout of C++ structs; the class [Wire] of what can be encoded
      to and decoded from the bytes of an object.
    - V2Messages, V1Messages (src/include/OTDIPC and its V1): the messages.
    - Float32: the [float] conversions and the subtraction of the tablet.
    - Fix32 (src/include/wintab/WINTAB.H): the fixed-point macros.
    - Unicode: a reference decoder and encoder for UTF-8 and UTF-16.
    - Utf8 (src/src/utf8.cpp): text conversion.
    - V1Server (src/src/V1Server.cpp): all of the v1 server and its threads;
      V1History what a client gets in a run of them.
    - V2Server, V2Accept, V2Discovery (src/src/V2Server.cpp): sending; accepting
      and reading; start, stop and discovery.  V2Reading has the theorems on
      reading, V2Threads the interleavings of the three threads, V2History what
      a client gets in a run of them.
    - Fairness: fair runs, the rule by which they reach a goal, and connections
      that block.  V2Shutdown and V1Shutdown ([Stop] of src/src/V2Server.cpp and
      src/src/V1Server.cpp): where the threads are, and what they wait for.
      Shutdown: both servers while [main] destroys them.  V2Service and V1Service:
      the same positions before [Stop] is called, with the calls of [SetDevice]
      and [SetState].
    - Control: when an operation follows a relation between positions.  V1Control
      and V2Control: the loops of the servers follow V1Shutdown and V2Shutdown.
    - Races: the handles [mPipe] and [mClientSocket], with every read of them and
      every call on them as a step.
    - Handler (src/src/IHandler.hpp, src/src/main.cpp): the interface and every
      handler.
    - ForegroundOverride (src/src/ForegroundOverride.cpp,
      src/src/ForegroundOverrideDll.cpp): the shared objects and the hooks.
    - InjectDll (src/src/InjectDll.cpp): process search and injection.
    - Wintab (src/include/wintab): constants, structs and the driver.
    - WintabTablet (src/src/WintabTablet.cpp): the tablet; its theorems are in
      TabletProofs, those on its context and its mutex in TabletLife.
    - Packets (src/include/wintab/PKTDEF.H): the packet structs as functions of the
      macros, and packets stored in them.
    - Main (src/src/main.cpp): the program, from its arguments to its exit code.
    - Process: tablet, servers and all threads together, one step at a time;
      ProcessLife goes on to the end of [main], with the destructors as steps.

    ** How the code is modelled

    An object is a record of its members.  An operation is a function of type
    [ST S A]: it takes the state and returns a value, throws an exception, does
    something the language leaves undefined ([Undef], with the reason), or runs
    out of fuel.  Undefined behaviour is modelled where the source can reach it:
    accesses outside a buffer, an empty optional, signed overflow, a conversion
    or a shift out of range, a null function pointer, a dangling object.

    Code that is not part of the repository is an interface: a class whose
    members answer each call from the list of the calls made so far ([PipeOS],
    [SocketOS], [InjectOS], [WintabDriver], [KernelCalls], [CodePage]) or from a
    state of their own ([MinHook]).  A theorem for all instances holds for every
    behaviour of that code.  Where a theorem needs documented behaviour, the
    contract is a class of its own ([RecvContract], [RecvBytes], [CodePageSpec],
    [DriverTypes], [MinHookSpec], [StopContract], [ServerContract]) and a concrete
    instance shows that it can hold.  [SaneDriver] is more than WinTab documents
    (every function exported, no negative distance, texts that fit); it is used
    only for what the tablet holds until it is destroyed ([TabletLife],
    [ProcessLife]) and for the constructor that throws.  Everything else about the
    tablet is for [DriverTypes], with what a driver can provoke named in the
    statement ([TabletProofs.blamed], [TabletProofs.fault]).  The contract between the tablet and its
    handlers is [Handler.HandlerSpec]: the theorems on the tablet are proved
    against it, and the servers, [MultiHandler] and [DeviceLogger] satisfy it.

    Threads are step relations ([V1Server.step], [V2Threads.step],
    [ForegroundOverride.step]); a theorem on reachable states holds for every
    interleaving.  Their steps have labels, and a history is the list of the
    labels of a run.  In [Main] the threads of the servers act between two window
    messages, by any number of those steps; in [Process] they act between any two
    calls of the main thread.  [V2Shutdown] and [V1Shutdown] have a coarser state,
    the positions of the threads and what a connection holds, and steps that are
    not enabled while a call blocks; there a run is an infinite sequence, and
    termination is proved for the runs that are fair.  That these positions are
    those of the code is a theorem: the calls made by the loops of V1Server,
    V2Server and V2Accept are those of a path of the positions ([V1Control],
    [V2Control]).  What a client can count on is proved of the same runs: [response]
    of Fairness gives that something happens again and again, [lasso_run] runs that
    show that the hypotheses can hold.  [Races] is finer than the other
    relations: a send, a reset and a move are split where another thread can act.

    ** What the theorems show

    - Program: [main] returns with everything closed, and the ways in which it may
      not are named ([Main.main_ends]); Ctrl+C at any time ends the loop with the
      next wait ([Main.ctrl_c_ends_loop]).
    - Process: clients get the states of the tablet, all of them and in order
      ([Process.clients_follow_pen]); the main thread is never stuck
      ([Process.main_thread_never_stuck]); the steps are those of the program
      ([Process.process_refines_program]).  On the way out every object gives back
      what it holds, and a client that stays connected gets every state between
      one point and any later one ([ProcessLife.process_ends]).
    - Serving: in fair runs the next client of either server is accepted and
      greeted ([V2Service.v2_next_client_greeted],
      [V1Service.v1_next_client_greeted]), clients are pinged again and again
      ([V2Service.v2_pings_recur]), one client at a time.
    - Stopping: [Stop] of each server returns in fair runs, and what it waits for
      when the client is not fair ([V2Shutdown], [V1Shutdown]); the program is left
      in fair runs, the v1 server first, and waits for a v1 client otherwise
      ([Shutdown]); the threads behave as these models say ([V1Control],
      [V2Control]).
    - Handles of clients are closed once and none is lost as long as no two threads
      replace the member at once; otherwise they can be closed twice, used after
      they are closed, or lost ([Races]).
    - Messages and texts: what each operation sends ([Handler.messages_typed]), the
      conversions there and back ([Utf8]).
    - Tablet: what it does is defined but for what the driver provokes
      ([TabletProofs.tablet_safe]), one context that is closed by the destructor
      ([TabletLife.tablet_life]), and the meaning of packets, express keys and
      texts; coordinates are exact below 2^24 points and otherwise within the
      rounding of a float ([TabletProofs.packet_position_bound]); the packets of its
      own contexts fit the struct, those of others may not ([Packets]); the
      fixed-point macros against exact arithmetic ([Fix32.fix32_correct]).
    - v2 server: no client misses the current device, and the stream is framed
      exactly when no send is cut short ([V2Threads]); reading is safe and ends ([V2Reading]); what is published,
      and when, and the bound on the socket path ([V2Discovery]); what a state
      looks like on the wire
      ([V2Server]); which states a client has been sent ([V2History]).
    - v1 server: handles are used only while open and closed once, messages are
      well-formed, states are converted as the protocols require ([V1Server]),
      and which states a client has been sent ([V1History]).
    - Hijacking: nothing is leaked in the driver process ([InjectDll]); the hooks
      follow the adapter and never call a null pointer ([ForegroundOverride]).
    - Several theorems describe behaviour the code does not intend, each with its
      exact conditions: reads in pieces, undersized headers, disconnected
      clients, the late Hello, the dangling tablet, the empty identifier, express
      keys from 16 on, the last process of the list.

    ** Bounds and fuel

    Loops without a bound in the source take fuel, and the theorems say how much
    is enough: reading a message needs one unit per byte asked for, the outer
    loops as many rounds as there are calls before stopping is requested, the
    scan of the extensions and the process query as many as the driver and the
    kernel make them.  The message loop takes the list of its waits; a run that is
    never asked to end waits for ever.  Running out of fuel is a result of its own
    and never counted as returning.

    ** Not modelled

    - Data races in the sense of the C++ memory model: the servers share members
      between threads without locks, and a step of V1Server and V2Threads is one
      send with the reads it depends on.  Races splits it for the handles, with
      resets and moves; partial effects on the other members ([mDevice],
      [mV1Device]) are not seen.
    - Blocking, where operations are functions: a call of the system returns.  The
      joins of [V2Discovery.Stop] and [V1Server.Stop] are arguments; in [Main] they
      are any steps of the server's threads, or do not end, which is an outcome of
      its own.  ProcessLife has the order of the waits, and that they end is in
      V2Shutdown, V1Shutdown and Shutdown, which leave out what is sent and
      received; a connection there has room for a number of messages, and a new
      pipe for two.
    - Clients that do not read: the theorems on greeting and pinging assume that
      the client concerned takes what it is sent.  A connection that is always
      filled again by another thread keeps a sender waiting in a fair run too.
    - Messages the driver sends to the window during a call of the adapter: the
      window procedure would run inside that call.
    - A message queue that is never empty: the loop looks at the exit event only
      when it has emptied the queue, which each wait of the model gives in full.
    - An exception that leaves a thread (the pipe of the v1 server cannot be
      created) ends the process; such a step does not exist in the relations.
    - Exhaustion of memory, the conversion of paths to the code page, rooted
      right-hand sides of the path operator, errors of [std::filesystem::exists]
      and [absolute], and output to the console other than what clients and
      drivers provoke.
    - The argument parser, the inside of MinHook, the build scripts; the parts of
      the WinTab headers the code does not use, among them the macros that form
      prefixed names.  What remains of the sources are declarations without
      behaviour of their own: include lines, namespaces, class bodies whose members
      are modelled where they are defined, and assertions checked by the compiler.

    ** Left to do

    The members other than the handles below the granularity of a send, and the
    window procedure called back during a call to the driver. *)

From Stdlib Require Export ZArith Lia.
From stdpp Require Export base tactics list strings relations.

#[global] Open Scope Z_scope.

(** ** Machine integers

    A C++ integer of width [w] is a [Z]; the conversions the source performs
    ([static_cast], assignment to a narrower type, unsigned arithmetic) are
    written out with the functions below. *)

Definition wrap (w z : Z) : Z := z mod 2 ^ w.
Definition u8 (z : Z) : Z := wrap 8 z.
Definition u16 (z : Z) : Z := wrap 16 z.
Definition u32 (z : Z) : Z := wrap 32 z.
Definition u64 (z : Z) : Z := wrap 64 z.
(** Conversion to a two's complement type of width [w]. *)
Definition swrap (w z : Z) : Z := (z + 2 ^ (w - 1)) mod 2 ^ w - 2 ^ (w - 1).
Definition s32 (z : Z) : Z := swrap 32 z.
(** [char] is signed on the compiler the project targets. *)
Definition schar (b : Z) : Z := swrap 8 b.

(** The program is built for 32-bit and for 64-bit Windows; [size_t] has the
    width of a pointer. *)
Class Arch := {
  ArchBitness : Z;
  arch_width : ArchBitness = 32 \/ ArchBitness = 64
}.
Definition size_t `{Arch} (z : Z) : Z := wrap ArchBitness z.

Definition arch64 : Arch := {| ArchBitness := 64; arch_width := or_intror eq_refl |}.
Definition arch32 : Arch := {| ArchBitness := 32; arch_width := or_introl eq_refl |}.

Definition is_u (w z : Z) : Prop := 0 <= z < 2 ^ w.
Definition is_s (w z : Z) : Prop := - 2 ^ (w - 1) <= z < 2 ^ (w - 1).
Definition is_ub (w z : Z) : bool := (0 <=? z) && (z <? 2 ^ w).
Definition is_sb (w z : Z) : bool := (- 2 ^ (w - 1) <=? z) && (z <? 2 ^ (w - 1)).

Declare Scope cint_scope.
Delimit Scope cint_scope with cint.
Infix ".&" := Z.land (at level 40, left associativity) : cint_scope.
Infix ".|" := Z.lor (at level 50, left associativity) : cint_scope.
Infix ".^" := Z.lxor (at level 50, left associativity) : cint_scope.
Infix "<<" := Z.shiftl (at level 40, left associativity) : cint_scope.
Infix ">>" := Z.shiftr (at level 40, left associativity) : cint_scope.
#[global] Open Scope cint_scope.

(** A C++ condition on an integer: anything but zero is true. *)
Definition truthy (z : Z) : bool := negb (z =? 0).
Definition b2z (b : bool) : Z := if b then 1 else 0.

(** ** Bytes and text *)

Abbreviation bytes := (list Z).

Definition is_byte (b : Z) : Prop := is_u 8 b.

(** The bytes of a string literal, without its terminator. *)
Definition str (s : string) : bytes :=
  map (fun c => Z.of_N (Ascii.N_of_ascii c)) (String.list_ascii_of_string s).

(** Little-endian bytes of the low [8 * n] bits of [z]. *)
Fixpoint le_bytes (n : nat) (z : Z) : bytes :=
  match n with
  | O => []
  | S n => z mod 256 :: le_bytes n (z / 256)
  end.

Fixpoint le_value (bs : bytes) : Z :=
  match bs with
  | [] => 0
  | b :: bs => b + 256 * le_value bs
  end.

(** [std::ranges::fill(dest, 0)] and then [copy_n(src, min(src.size(), N))]
    on an array of [N] elements. *)
Definition fill_copy (N : nat) (src : bytes) : bytes :=
  take N src ++ replicate (N - length src) 0.

(** [std::ranges::find(a, 0)]: the elements before the first zero, all of them
    when there is none. *)
Fixpoint until_nul (a : bytes) : bytes :=
  match a with
  | [] => []
  | c :: a => if c =? 0 then [] else c :: until_nul a
  end.

(** The [n] elements from offset [off]. *)
Definition slice (off n : nat) (bs : bytes) : bytes := take n (drop off bs).

(** ** Results of stateful code

    A C++ member function runs on the state of its object.  It returns
    normally, throws (the state then keeps what was written before the throw),
    or does something the language leaves undefined.  [NoFuel] is the result of
    a loop whose bound was too small; the theorems on loops say which bound is
    enough. *)

Inductive exn :=
  | RuntimeError (what : string)   (* std::runtime_error *)
  | LogicError (what : string)     (* std::logic_error *)
  | FilesystemError (code : Z)     (* std::filesystem::filesystem_error *)
  | WilError (code : Z)            (* wil::ResultException, THROW_LAST_ERROR & co *)
  | PointerThrown (what : string). (* throw new T: the thrown object is a pointer *)

(** The error of a system call as WIL throws it. *)
Definition HRESULT_FROM_WIN32 (x : Z) : Z :=
  if x <=? 0 then u32 x else (x .& 0xFFFF) .| 0x80070000.
Definition win32_error (error : Z) : exn := WilError (HRESULT_FROM_WIN32 error).

(** What [catch (const std::exception&)] matches. *)
Definition std_exception (e : exn) : bool :=
  match e with PointerThrown _ => false | _ => true end.

Inductive ub :=
  | EmptyOptional      (* operator-> on an empty std::optional *)
  | OutOfBounds        (* access outside an array or buffer *)
  | BadFloatToInt      (* float outside the range of the integer type *)
  | BadShift           (* shift count not below the width *)
  | SignedOverflow     (* overflow of a signed type *)
  | NullCall           (* call through a null function pointer *)
  | DanglingPointer.   (* access to an object that was destroyed *)

Inductive res (S A : Type) :=
  | Ret (a : A) (s : S)
  | Exn (e : exn) (s : S)
  | Undef (u : ub)
  | NoFuel.
Arguments Ret {S A} a s.
Arguments Exn {S A} e s.
Arguments Undef {S A} u.
Arguments NoFuel {S A}.

Definition ST (S A : Type) : Type := S -> res S A.

Definition st_ret {S A} (a : A) : ST S A := fun s => Ret a s.
Definition st_bind {S A B} (m : ST S A) (k : A -> ST S B) : ST S B :=
  fun s => match m s with
           | Ret a s' => k a s'
           | Exn e s' => Exn e s'
           | Undef u => Undef u
           | NoFuel => NoFuel
           end.
Definition throw {S A} (e : exn) : ST S A := fun s => Exn e s.
Definition undef {S A} (u : ub) : ST S A := fun _ => Undef u.
Definition nofuel {S A} : ST S A := fun _ => NoFuel.
Definition gets {S A} (f : S -> A) : ST S A := fun s => Ret (f s) s.
Definition modify {S} (f : S -> S) : ST S unit := fun s => Ret tt (f s).
Definition when {S} (b : bool) (m : ST S unit) : ST S unit :=
  if b then m else st_ret tt.

Declare Scope st_scope.
Delimit Scope st_scope with st.
Notation "'let*' x ':=' m 'in' k" := (st_bind m (fun x => k))
  (at level 10, x pattern, m at level 100, k at level 200) : st_scope.
Notation "m ;; k" := (st_bind m (fun _ => k))
  (at level 100, k at level 200, right associativity) : st_scope.
#[global] Open Scope st_scope.

(** Run [m] on a part of the state. *)
Definition zoom {S T A} (get : S -> T) (set : T -> S -> S) (m : ST T A) : ST S A :=
  fun s => match m (get s) with
           | Ret a t => Ret a (set t s)
           | Exn e t => Exn e (set t s)
           | Undef u => Undef u
           | NoFuel => NoFuel
           end.

(** The result is a normal return (so: no exception, no undefined behaviour)
    with a state and value that satisfy [Q]. *)
Definition returns {S A} (r : res S A) (Q : A -> S -> Prop) : Prop :=
  match r with Ret a s => Q a s | _ => False end.

(** The result is not undefined behaviour. *)
Definition defined {S A} (r : res S A) : Prop :=
  match r with Undef _ => False | _ => True end.

(** The state a run leaves behind, by return or by exception, satisfies [P], and
    nothing undefined happened. *)
Definition leaves {S A} (r : res S A) (P : S -> Prop) : Prop :=
  match r with Ret _ s | Exn _ s => P s | Undef _ => False | NoFuel => True end.

(** ** Automation *)

Create HintDb cint.
Create Rewrite HintDb bytes.

(** Unfold the state monad and reduce. *)
Ltac st_unfold :=
  unfold st_bind, st_ret, throw, undef, nofuel, gets, modify, when, zoom in *;
  cbn beta iota in *.

(** Destruct the scrutinee of a [match] or [if] in the goal. *)
Ltac case_goal :=
  match goal with
  | |- context [match ?x with _ => _ end] =>
      lazymatch x with
      | context [match _ with _ => _ end] => fail
      | _ => let E := fresh "E" in destruct x eqn:E
      end
  end.

Ltac const_pow :=
  change (2 ^ 8) with 256 in *; change (2 ^ 16) with 65536 in *;
  change (2 ^ 32) with 4294967296 in *;
  change (2 ^ 64) with 18446744073709551616 in *;
  change (2 ^ 31) with 2147483648 in *; change (2 ^ 7) with 128 in *;
  change (32 - 1) with 31 in *; change (8 - 1) with 7 in *.

(** Bounds of the machine integers, by linear arithmetic. *)
Ltac cint_lia :=
  unfold is_byte, is_u, is_s, u8, u16, u32, u64, s32, schar, wrap, swrap in *;
  const_pow; Z.div_mod_to_equations; lia.

(** ** Lemmas on machine integers *)

Lemma wrap_bounds w z : 0 <= w -> is_u w (wrap w z).
Proof. intros; unfold is_u, wrap; apply Z.mod_pos_bound; lia. Qed.

Lemma wrap_small w z : is_u w z -> wrap w z = z.
Proof. apply Z.mod_small. Qed.

Lemma wrap_idem w z : wrap w (wrap w z) = wrap w z.
Proof. apply Z.mod_mod_divide, Z.divide_refl. Qed.

Lemma u8_bounds z : is_u 8 (u8 z). Proof. by apply wrap_bounds. Qed.
Lemma u16_bounds z : is_u 16 (u16 z). Proof. by apply wrap_bounds. Qed.
Lemma u32_bounds z : is_u 32 (u32 z). Proof. by apply wrap_bounds. Qed.
Lemma u64_bounds z : is_u 64 (u64 z). Proof. by apply wrap_bounds. Qed.
#[export] Hint Resolve u8_bounds u16_bounds u32_bounds u64_bounds : cint.

Lemma s32_small z : is_s 32 z -> s32 z = z.
Proof. intros; cint_lia. Qed.

Lemma wrap_testbit w z i : 0 <= w -> 0 <= i ->
  Z.testbit (wrap w z) i = (i <? w) && Z.testbit z i.
Proof.
  intros Hw Hi; unfold wrap.
  destruct (Z.ltb_spec i w) as [H|H]; cbn [andb].
  - by apply Z.mod_pow2_bits_low.
  - apply Z.mod_pow2_bits_high; lia.
Qed.

Lemma testbit_one_shl n i : 0 <= n -> 0 <= i -> Z.testbit (1 << n) i = (i =? n).
Proof.
  intros Hn Hi; rewrite Z.shiftl_spec by lia; destruct (Z.eqb_spec i n) as [->|Hne]; [by rewrite Z.sub_diag|].
  destruct (Z.neg_nonneg_cases (i - n)); [by apply Z.testbit_neg_r|].
  change 1 with (Z.ones 1); apply Z.ones_spec_high; lia.
Qed.

(** A number is in [0, 2^w) when it is non-negative and has no bit from [w]. *)
Lemma is_u_testbit w z : 0 <= w -> 0 <= z ->
  (forall i, w <= i -> Z.testbit z i = false) -> is_u w z.
Proof.
  intros Hw Hz Hb; split; [done|].
  enough (z = wrap w z) as -> by (apply wrap_bounds; lia).
  apply Z.bits_inj'; intros i Hi; rewrite wrap_testbit by lia.
  destruct (Z.ltb_spec i w); cbn [andb]; auto.
Qed.

Lemma is_u_high w z i : 0 <= w -> is_u w z -> w <= i -> Z.testbit z i = false.
Proof.
  intros Hw Hz Hi; rewrite <- (wrap_small w z) by done.
  rewrite wrap_testbit by lia; destruct (Z.ltb_spec i w); [lia|done].
Qed.

Lemma is_u_land w a b : 0 <= w -> is_u w a -> 0 <= b -> is_u w (a .& b).
Proof.
  intros Hw Ha Hb; apply is_u_testbit; [done|apply Z.land_nonneg; unfold is_u in *; lia|].
  intros i Hi; rewrite Z.land_spec, (is_u_high w) by done; done.
Qed.

Lemma is_u_lor w a b : 0 <= w -> is_u w a -> is_u w b -> is_u w (a .| b).
Proof.
  intros Hw Ha Hb; apply is_u_testbit; [done|apply Z.lor_nonneg; unfold is_u in *; lia|].
  intros i Hi; rewrite Z.lor_spec, !(is_u_high w) by done; done.
Qed.

Lemma is_u_lxor w a b : 0 <= w -> is_u w a -> is_u w b -> is_u w (a .^ b).
Proof.
  intros Hw Ha Hb; apply is_u_testbit; [done| |].
  - apply Z.lxor_nonneg; unfold is_u in *; lia.
  - intros i Hi; rewrite Z.lxor_spec, !(is_u_high w) by done; done.
Qed.
#[export] Hint Resolve is_u_land is_u_lor is_u_lxor : cint.
#[export] Hint Extern 1 (0 <= _) => lia : cint.

Lemma is_u_weaken v w z : v <= w -> is_u v z -> is_u w z.
Proof.
  intros Hvw [H0 H1]; split; [done|].
  apply Z.lt_le_trans with (2 ^ v); [done|].
  destruct (Z.neg_nonneg_cases v); [rewrite Z.pow_neg_r in * by lia; lia|].
  apply Z.pow_le_mono_r; lia.
Qed.

(** ** Lemmas on bytes *)

Lemma length_le_bytes n z : length (le_bytes n z) = n.
Proof. revert z; induction n; intros; cbn; auto. Qed.

Lemma le_value_le_bytes n z : is_u (8 * Z.of_nat n) z -> le_value (le_bytes n z) = z.
Proof.
  revert z; induction n as [|n IH]; intros z [H0 H1]; cbn [le_bytes le_value].
  - change (2 ^ (8 * Z.of_nat 0)) with 1 in H1; lia.
  - rewrite IH.
    + pose proof (Z.div_mod z 256); lia.
    + replace (8 * Z.of_nat (S n)) with (8 + 8 * Z.of_nat n) in H1 by lia.
      rewrite Z.pow_add_r in H1 by lia; change (2 ^ 8) with 256 in H1.
      split; [apply Z.div_pos; lia|].
      apply Z.div_lt_upper_bound; lia.
Qed.

Lemma le_bytes_are_bytes n z : Forall is_byte (le_bytes n z).
Proof.
  revert z; induction n; intros; cbn; constructor; auto.
  unfold is_byte, is_u; apply Z.mod_pos_bound; lia.
Qed.

Lemma le_bytes_le_value bs : Forall is_byte bs -> le_bytes (length bs) (le_value bs) = bs.
Proof.
  induction 1 as [|b bs Hb Hbs IH]; [done|]; cbn [le_value length le_bytes].
  rewrite (Z.mul_comm 256), Z_mod_plus_full, Z.div_add, Z.div_small, Z.mod_small by (done || lia).
  by rewrite Z.add_0_l, IH.
Qed.

Lemma le_value_bound bs : Forall is_byte bs -> is_u (8 * Z.of_nat (length bs)) (le_value bs).
Proof.
  induction 1 as [|b bs Hb Hbs IH]; [done|]; cbn [le_value length]; unfold is_byte, is_u in *.
  replace (8 * Z.of_nat (S (length bs))) with (8 + 8 * Z.of_nat (length bs)) by lia.
  rewrite Z.pow_add_r by lia; change (2 ^ 8) with 256 in *; lia.
Qed.

Lemma le_bytes_period n z k : le_bytes n (z + k * 2 ^ (8 * Z.of_nat n)) = le_bytes n z.
Proof.
  revert z k; induction n as [|n IH]; intros z k; [done|]; cbn [le_bytes].
  replace (8 * Z.of_nat (S n)) with (8 + 8 * Z.of_nat n) by lia.
  rewrite Z.pow_add_r by lia; change (2 ^ 8) with 256.
  replace (z + k * (256 * 2 ^ (8 * Z.of_nat n))) with (z + (k * 2 ^ (8 * Z.of_nat n)) * 256) by ring.
  by rewrite Z_mod_plus_full, Z.div_add, IH.
Qed.

Lemma s32_range z : is_s 32 (s32 z).
Proof.
  unfold is_s, s32, swrap; pose proof (Z.mod_pos_bound (z + 2 ^ (32 - 1)) (2 ^ 32)); lia.
Qed.

(** A 32-bit member read as signed holds the same bytes. *)
Lemma le_bytes_s32 z : is_u 32 z -> le_bytes 4 (s32 z) = le_bytes 4 z.
Proof.
  intros [H0 H1]; rewrite <- (le_bytes_period 4 z (if z <? 2 ^ 31 then 0 else -1)); f_equal.
  unfold s32, swrap; change (8 * Z.of_nat 4) with 32; change (32 - 1) with 31.
  destruct (Z.ltb_spec z (2 ^ 31)).
  - rewrite Z.mod_small by lia; lia.
  - rewrite (Z.mod_eq _ (2 ^ 32)) by lia.
    replace ((z + 2 ^ 31) / 2 ^ 32) with 1 by (apply Z.div_unique with (z - 2 ^ 31); lia); lia.
Qed.

Lemma length_fill_copy N src : length (fill_copy N src) = N.
Proof. unfold fill_copy; rewrite length_app, length_take, length_replicate; lia. Qed.

#[export] Hint Rewrite length_le_bytes length_fill_copy : bytes.

Lemma until_nul_app_nul s t : Forall (fun c => c <> 0) s -> until_nul (s ++ 0 :: t) = s.
Proof.
  induction 1 as [|c s Hc Hs IH]; cbn; [done|].
  destruct (Z.eqb_spec c 0); [lia|by rewrite IH].
Qed.

Lemma until_nul_nonzero a : Forall (fun c => c <> 0) (until_nul a).
Proof.
  induction a as [|c a IH]; cbn; [constructor|].
  destruct (Z.eqb_spec c 0); constructor; auto.
Qed.

Lemma until_nul_id a : Forall (fun c => c <> 0) a -> until_nul a = a.
Proof.
  induction 1 as [|c s Hc Hs IH]; cbn; [done|].
  destruct (Z.eqb_spec c 0); [lia|by rewrite IH].
Qed.

Lemma length_until_nul a : (length (until_nul a) <= length a)%nat.
Proof. induction a as [|c a IH]; cbn; [done|]; destruct (c =? 0); cbn; lia. Qed.

(** Reading back a text written to a fixed array gives its first [N]
    characters. *)
Lemma until_nul_fill_copy N src : Forall (fun c => c <> 0) src ->
  until_nul (fill_copy N src) = take N src.
Proof.
  intros Hs; unfold fill_copy.
  assert (Forall (fun c => c <> 0) (take N src)) as Ht by by apply Forall_take.
  destruct (decide (length src < N)%nat) as [Hlt|Hge].
  - destruct (N - length src)%nat as [|k] eqn:Ek; [lia|]; cbn [replicate].
    by apply until_nul_app_nul.
  - replace (N - length src)%nat with 0%nat by lia.
    cbn [replicate]; rewrite app_nil_r; by apply until_nul_id.
Qed.

Lemma length_slice off n bs : (off + n <= length bs)%nat -> length (slice off n bs) = n.
Proof. intros; unfold slice; rewrite length_take, length_drop; lia. Qed.

Lemma slice_app_here a b c n : n = length b -> slice (length a) n (a ++ b ++ c) = b.
Proof. intros ->; unfold slice; rewrite drop_app_length, take_app_length; done. Qed.

(** ** Lemmas on results *)

Lemma returns_defined {S A} (r : res S A) Q : returns r Q -> defined r.
Proof. by destruct r. Qed.

Lemma returns_weaken {S A} (r : res S A) (P Q : A -> S -> Prop) :
  returns r P -> (forall a s, P a s -> Q a s) -> returns r Q.
Proof. destruct r; cbn; auto. Qed.

Lemma returns_bind {S A B} (m : ST S A) (k : A -> ST S B) s P Q :
  returns (m s) P -> (forall a s', P a s' -> returns (k a s') Q) ->
  returns (st_bind m k s) Q.
Proof. unfold st_bind; destruct (m s); cbn; auto; contradiction. Qed.

(** A run that returns with [P] or throws with [E]. *)
Definition ends {S A} (r : res S A) (P : A -> S -> Prop) (E : exn -> S -> Prop) : Prop :=
  match r with Ret a s => P a s | Exn e s => E e s | _ => False end.

Lemma ends_bind {S A B} (m : ST S A) (k : A -> ST S B) s Q P E :
  returns (m s) Q -> (forall a s', Q a s' -> ends (k a s') P E) -> ends (st_bind m k s) P E.
Proof. unfold st_bind; destruct (m s); cbn; auto; contradiction. Qed.

Lemma ends_bind_exn {S A B} (m : ST S A) (k : A -> ST S B) s Q P E :
  ends (m s) Q E -> (forall a s', Q a s' -> ends (k a s') P E) -> ends (st_bind m k s) P E.
Proof. unfold st_bind; destruct (m s); cbn; auto; contradiction. Qed.

Lemma ends_leaves {S A} (r : res S A) (P : S -> Prop) :
  ends r (fun _ s => P s) (fun _ s => P s) -> leaves r P.
Proof. by destruct r. Qed.

Lemma ends_weaken {S A} (r : res S A) P E (P' : A -> S -> Prop) (E' : exn -> S -> Prop) :
  ends r P E -> (forall a s, P a s -> P' a s) -> (forall e s, E e s -> E' e s) -> ends r P' E'.
Proof. destruct r; cbn; auto. Qed.

Lemma returns_ends {S A} (r : res S A) P E : returns r P -> ends r P E.
Proof. by destruct r. Qed.

(** A run that returns with [P], throws with [E] or is undefined for the reason
    [B]. *)
Definition within {S A} (r : res S A) (P : A -> S -> Prop) (E : exn -> S -> Prop) (B : ub -> Prop) : Prop :=
  match r with Ret a s => P a s | Exn e s => E e s | Undef u => B u | NoFuel => False end.

Lemma within_bind {S A B} (m : ST S A) (k : A -> ST S B) s Q P E U :
  within (m s) Q E U -> (forall a s', Q a s' -> within (k a s') P E U) -> within (st_bind m k s) P E U.
Proof. unfold st_bind; destruct (m s); cbn; auto; contradiction. Qed.

Lemma within_weaken {S A} (r : res S A) P E U (P' : A -> S -> Prop) (E' : exn -> S -> Prop) (U' : ub -> Prop) :
  within r P E U -> (forall a s, P a s -> P' a s) -> (forall e s, E e s -> E' e s) ->
  (forall u, U u -> U' u) -> within r P' E' U'.
Proof. destruct r; cbn; auto. Qed.

Lemma returns_within {S A} (r : res S A) P E U : returns r P -> within r P E U.
Proof. by destruct r. Qed.

Lemma within_ends {S A} (r : res S A) P E U : within r P E U -> (forall u, ~ U u) -> ends r P E.
Proof. destruct r; cbn; naive_solver. Qed.

Lemma within_returns {S A} (r : res S A) P U :
  within r P (fun _ _ => False) U -> (forall u, ~ U u) -> returns r P.
Proof. destruct r; cbn; naive_solver. Qed.

Lemma returns_inv {S A} (r : res S A) Q :
  returns r Q -> exists a s, r = Ret a s /\ Q a s.
Proof. destruct r; cbn; try contradiction; eauto. Qed.

Lemma returns_leaves {S A} (r : res S A) Q P :
  returns r Q -> (forall a s, Q a s -> P s) -> leaves r P.
Proof. destruct r; cbn; naive_solver. Qed.

Lemma leaves_bind {S A B} (m : ST S A) (k : A -> ST S B) s (P Q : S -> Prop) :
  leaves (m s) P -> (forall s', P s' -> Q s') -> (forall a s', P s' -> leaves (k a s') Q) ->
  leaves (st_bind m k s) Q.
Proof. unfold st_bind; destruct (m s); cbn; auto. Qed.

Lemma arch_bounds `{Arch} z : is_u 64 (size_t z) /\ is_u ArchBitness (size_t z).
Proof.
  unfold size_t; split; [|destruct arch_width as [->| ->]; by apply wrap_bounds].
  destruct arch_width as [->| ->]; [|by apply wrap_bounds].
  apply (is_u_weaken 32); [lia|by apply wrap_bounds].
Qed.

Lemma bind_Ret {S A B} (m : ST S A) (k : A -> ST S B) s b s' :
  st_bind m k s = Ret b s' -> exists a s1, m s = Ret a s1 /\ k a s1 = Ret b s'.
Proof. unfold st_bind; destruct (m s); try done; eauto. Qed.
