(* ===== verification/Layout.v ===== *)
(** * Layout of C++ structs

    The messages of src/include/OTDIPC are C++ structs that the servers send as
    the bytes they have in memory.  This file models the layout rules of the
    ABI the project is built for (each member at the next offset aligned for
    it, the size rounded up to the largest alignment, a base class first) and
    the [Wire] interface the message files implement: a struct as its members,
    encoded to and decoded from the bytes of an object.  The contents of the
    padding bytes are not specified by the language: they are a parameter
    [pad], and nothing below depends on it. *)

From S2P Require Import Prelude.

#[local] Open Scope nat_scope.

Record field := Field { fsize : nat; falign : nat }.

Definition align_up (a n : nat) : nat := (n + a - 1) / a * a.

Fixpoint offsets (off : nat) (fs : list field) : list nat :=
  match fs with
  | [] => []
  | f :: fs => let o := align_up (falign f) off in o :: offsets (o + fsize f) fs
  end.

Fixpoint end_offset (off : nat) (fs : list field) : nat :=
  match fs with
  | [] => off
  | f :: fs => end_offset (align_up (falign f) off + fsize f) fs
  end.

Definition max_align (fs : list field) : nat :=
  foldr (fun f a => Nat.max (falign f) a) 1 fs.

Definition struct_size (fs : list field) : nat :=
  align_up (max_align fs) (end_offset 0 fs).

(** The padding bytes from offset [lo] up to [hi]. *)
Definition padding (pad : nat -> Z) (lo hi : nat) : bytes := pad <$> seq lo (hi - lo).

Fixpoint put_fields (pad : nat -> Z) (off : nat) (fs : list field) (vs : list bytes) : bytes :=
  match fs, vs with
  | f :: fs, v :: vs =>
      let o := align_up (falign f) off in
      padding pad off o ++ v ++ put_fields pad (o + fsize f) fs vs
  | _, _ => []
  end.

Definition struct_bytes (pad : nat -> Z) (fs : list field) (vs : list bytes) : bytes :=
  put_fields pad 0 fs vs ++ padding pad (end_offset 0 fs) (struct_size fs).

Definition get_fields (fs : list field) (bs : bytes) : list bytes :=
  zip_with (fun o f => slice o (fsize f) bs) (offsets 0 fs) fs.

Definition fits (fs : list field) (vs : list bytes) : Prop :=
  Forall2 (fun f v => length v = fsize f) fs vs.

(** ** Members of the types the messages use *)

Definition f_u8 : field := Field 1 1.
Definition f_bool : field := Field 1 1.
Definition f_u16 : field := Field 2 2.
Definition f_u32 : field := Field 4 4.
Definition f_u64 : field := Field 8 8.
Definition f_float : field := Field 4 4.
Definition f_chars (n : nat) : field := Field n 1.
Definition f_wchars (n : nat) : field := Field (2 * n) 2.

Definition put_u (n : nat) (z : Z) : bytes := le_bytes n z.
Definition put_bool (b : bool) : bytes := [b2z b].
Definition put_wchars (ws : list Z) : bytes := ws ≫= le_bytes 2.

Definition get_bool (bs : bytes) : bool := truthy (le_value bs).
Fixpoint get_wchars (n : nat) (bs : bytes) : list Z :=
  match n with
  | O => []
  | S n => le_value (take 2 bs) :: get_wchars n (drop 2 bs)
  end.

(** ** The interface of a message *)

Class Wire (T : Type) := {
  wire_fields : list field;
  wire_put : T -> list bytes;
  wire_get : list bytes -> option T;
  wire_wf : T -> Prop
}.
Arguments wire_fields T {_}.

Definition aligned (fs : list field) : Prop := Forall (fun f => 0 < falign f) fs.

Class WireOk (T : Type) `{Wire T} := {
  wire_aligned : aligned (wire_fields T);
  wire_put_fits : forall m, wire_wf m -> fits (wire_fields T) (wire_put m);
  wire_get_put : forall m, wire_wf m -> wire_get (wire_put m) = Some m
}.

(** [sizeof(T)], and an object of type [T] as the bytes of its storage. *)
Definition sizeof (T : Type) `{Wire T} : Z := Z.of_nat (struct_size (wire_fields T)).
Definition encode {T : Type} `{Wire T} (pad : nat -> Z) (m : T) : bytes :=
  struct_bytes pad (wire_fields T) (wire_put m).
Definition decode {T : Type} `{Wire T} (bs : bytes) : option T :=
  wire_get (get_fields (wire_fields T) bs).

#[global] Arguments encode : simpl never.
#[global] Arguments decode : simpl never.
#[global] Arguments sizeof : simpl never.

(** [data->messageType] and [data->size] of the header at the start of a
    message: its first two 32-bit members. *)
Definition type_at (data : bytes) : Z := le_value (slice 0 4 data).
Definition size_at (data : bytes) : Z := le_value (slice 4 4 data).

(** A message starts with a header whose members are [msg_type] and
    [msg_size]. *)
Class Message (T : Type) `{WireOk T} := {
  msg_type : T -> Z;
  msg_size : T -> Z;
  msg_type_at : forall pad m, wire_wf m -> type_at (encode pad m) = msg_type m;
  msg_size_at : forall pad m, wire_wf m -> size_at (encode pad m) = msg_size m
}.

(** ** The layout rules *)

Lemma align_up_ge a n : 0 < a -> n <= align_up a n.
Proof.
  intros Ha; unfold align_up.
  pose proof (Nat.div_mod_eq (n + a - 1) a); pose proof (Nat.mod_upper_bound (n + a - 1) a).
  nia.
Qed.

Lemma align_up_lt a n : 0 < a -> align_up a n < n + a.
Proof.
  intros Ha; unfold align_up.
  pose proof (Nat.div_mod_eq (n + a - 1) a); nia.
Qed.

Lemma align_up_divide a n : Nat.divide a (align_up a n).
Proof. unfold align_up; apply Nat.divide_factor_r. Qed.

Lemma max_align_pos fs : 0 < max_align fs.
Proof. unfold max_align; induction fs; cbn; lia. Qed.

Lemma end_offset_ge off fs : aligned fs -> off <= end_offset off fs.
Proof.
  intros H; revert off; induction H as [|f fs Hf Hfs IH]; intros off; cbn; [lia|].
  specialize (IH (align_up (falign f) off + fsize f)).
  pose proof (align_up_ge (falign f) off Hf); lia.
Qed.

Lemma struct_size_ge fs : end_offset 0 fs <= struct_size fs.
Proof. apply align_up_ge, max_align_pos. Qed.

Lemma length_padding pad lo hi : length (padding pad lo hi) = hi - lo.
Proof. unfold padding; by rewrite length_fmap, length_seq. Qed.

Lemma length_put_fields pad off fs vs : aligned fs -> fits fs vs ->
  off + length (put_fields pad off fs vs) = end_offset off fs.
Proof.
  intros Ha Hf; revert off; induction Hf as [|f v fs vs Hv Hf IH]; intros off; cbn; [lia|].
  inversion_clear Ha as [|? ? Hp Hq].
  rewrite !length_app, length_padding, Hv.
  pose proof (align_up_ge (falign f) off Hp).
  specialize (IH Hq (align_up (falign f) off + fsize f)); lia.
Qed.

Lemma length_struct_bytes pad fs vs : aligned fs -> fits fs vs ->
  length (struct_bytes pad fs vs) = struct_size fs.
Proof.
  intros Ha Hf; unfold struct_bytes; rewrite length_app, length_padding.
  pose proof (length_put_fields pad 0 fs vs Ha Hf); pose proof (struct_size_ge fs); lia.
Qed.

(** Reading every member at its offset gives back what was stored, whatever
    bytes come before and after the object. *)
Lemma get_put_fields pad pre post fs vs : aligned fs -> fits fs vs ->
  zip_with (fun o f => slice o (fsize f) (pre ++ put_fields pad (length pre) fs vs ++ post))
    (offsets (length pre) fs) fs = vs.
Proof.
  intros Ha Hf; revert pre; induction Hf as [|f v fs vs Hv Hf IH]; intros pre; cbn; [done|].
  inversion_clear Ha as [|? ? Hp Hq].
  set (o := align_up (falign f) (length pre)).
  pose proof (align_up_ge (falign f) (length pre) Hp) as Ho; fold o in Ho.
  set (p := padding pad (length pre) o).
  assert (length (pre ++ p) = o) as Hlen
    by (rewrite length_app; unfold p; rewrite length_padding; lia).
  f_equal.
  - rewrite <- Hlen, <- !app_assoc, (app_assoc pre p), <- Hv.
    by apply slice_app_here.
  - specialize (IH Hq ((pre ++ p) ++ v)).
    rewrite length_app, Hlen, Hv in IH.
    rewrite <- !app_assoc in *; exact IH.
Qed.

Lemma get_struct_bytes pad fs vs post : aligned fs -> fits fs vs ->
  get_fields fs (struct_bytes pad fs vs ++ post) = vs.
Proof.
  intros Ha Hf; unfold get_fields, struct_bytes; rewrite <- app_assoc.
  exact (get_put_fields pad [] _ fs vs Ha Hf).
Qed.

Lemma length_offsets off fs : length (offsets off fs) = length fs.
Proof. revert off; induction fs; intros; cbn; auto. Qed.

(** Members do not overlap, are aligned and lie inside the object. *)
Lemma offsets_spec off fs i o f : aligned fs ->
  offsets off fs !! i = Some o -> fs !! i = Some f ->
  off <= o /\ Nat.divide (falign f) o /\ o + fsize f <= end_offset off fs /\
  (forall j o', i < j -> offsets off fs !! j = Some o' -> o + fsize f <= o').
Proof.
  intros Ha; revert off i o f; induction Ha as [|g fs Hg Ha IH]; intros off i o f Ho Hf; [done|].
  pose proof (align_up_ge (falign g) off Hg) as Hge.
  destruct i as [|i]; cbn in *; simplify_eq.
  - repeat split; [done|apply align_up_divide|apply end_offset_ge; done|].
    intros [|j] o' Hj Hj'; [lia|cbn in Hj'].
    destruct (lookup_lt_is_Some_2 fs j) as [f' Hf'].
    { apply lookup_lt_Some in Hj'; by rewrite length_offsets in Hj'. }
    by destruct (IH _ j o' f' Hj' Hf').
  - destruct (IH _ i o f Ho Hf) as (H1 & H2 & H3 & H4); repeat split; [lia|done|done|].
    intros [|j] o' Hj Hj'; [lia|]; apply (H4 j); [lia|done].
Qed.

Lemma header_struct pad fs vs (a b : Z) : is_u 32 a -> is_u 32 b -> aligned fs -> fits fs vs ->
  type_at (struct_bytes pad (f_u32 :: f_u32 :: fs) (put_u 4 a :: put_u 4 b :: vs)) = a /\
  size_at (struct_bytes pad (f_u32 :: f_u32 :: fs) (put_u 4 a :: put_u 4 b :: vs)) = b.
Proof.
  intros Ha Hb Hal Hf; unfold type_at, size_at.
  set (fs' := f_u32 :: f_u32 :: fs); set (vs' := put_u 4 a :: put_u 4 b :: vs).
  assert (get_fields fs' (struct_bytes pad fs' vs' ++ []) = vs') as Hg.
  { apply get_struct_bytes.
    - by repeat (apply Forall_cons_2; [cbn; lia|]).
    - by repeat (apply Forall2_cons_2; [unfold put_u; by rewrite ?length_le_bytes|]). }
  rewrite app_nil_r in Hg.
  pose proof (f_equal (fun l => l !! 0) Hg) as H0; pose proof (f_equal (fun l => l !! 1) Hg) as H1.
  cbn -[struct_bytes slice put_u] in H0, H1; apply (inj Some) in H0, H1; rewrite H0, H1.
  split; by apply (le_value_le_bytes 4).
Qed.

(** ** What every message gets from the interface *)

Section wire.
Context {T : Type} `{WireOk T} (pad : nat -> Z).
Lemma length_encode (m : T) : wire_wf m -> Z.of_nat (length (encode pad m)) = sizeof T.
Proof.
  intros Hm; unfold encode, sizeof; f_equal.
  apply length_struct_bytes; [apply wire_aligned|by apply wire_put_fits].
Qed.

Lemma decode_encode (m : T) (post : bytes) : wire_wf m -> decode (encode pad m ++ post) = Some m.
Proof.
  intros Hm; unfold decode, encode.
  rewrite get_struct_bytes by (try apply wire_aligned; by apply wire_put_fits).
  by apply wire_get_put.
Qed.
End wire.

(** ** Members round trip *)

Lemma put_wchars_cons w ws : put_wchars (w :: ws) = le_bytes 2 w ++ put_wchars ws.
Proof. done. Qed.

Lemma length_put_wchars ws : length (put_wchars ws) = 2 * length ws.
Proof.
  induction ws as [|w ws IH]; [done|].
  rewrite put_wchars_cons, length_app, length_le_bytes, IH; cbn; lia.
Qed.

Lemma get_put_wchars ws : Forall (is_u 16) ws -> get_wchars (length ws) (put_wchars ws) = ws.
Proof.
  induction 1 as [|w ws Hw Hws IH]; [done|].
  rewrite put_wchars_cons; cbn [length get_wchars].
  rewrite take_app_length' by by rewrite length_le_bytes.
  rewrite drop_app_length' by by rewrite length_le_bytes.
  rewrite le_value_le_bytes by done; f_equal; exact IH.
Qed.

Lemma get_put_bool b : get_bool (put_bool b) = b.
Proof. by destruct b. Qed.

#[export] Hint Rewrite length_put_wchars get_put_bool : bytes.

(** ** Proving that a message implements the interface

    [wire] unfolds the well-formedness of the messages; [tac] splits the
    records nested in the message. *)

Create HintDb wire.

Ltac wire_aligned :=
  repeat (apply Forall_cons_2; [cbn; lia|]); apply Forall_nil_2.

Ltac wire_fits :=
  intros [] Hm; cbn in Hm; autounfold with wire in Hm; cbn in Hm;
  destruct_and?; cbn -[le_bytes put_wchars]; unfold fits;
  repeat (apply Forall2_cons_2;
          [unfold put_u; rewrite ?length_le_bytes, ?length_put_wchars; cbn; lia|]);
  apply Forall2_nil_2.

Ltac wire_round tac :=
  intros [] Hm; cbn in Hm; tac; autounfold with wire in Hm; cbn in Hm;
  destruct_and?; cbn -[le_bytes le_value get_bool put_bool get_wchars put_wchars];
  autounfold with wire; unfold put_u; rewrite ?get_put_bool, ?le_value_le_bytes by done; try done.

Ltac wire_header :=
  intros pad m Hm; pose proof (wire_put_fits m Hm) as Hf;
  cbn in Hm; autounfold with wire in Hm; destruct_and?; unfold encode;
  lazymatch goal with
  | |- type_at _ = _ => refine (proj1 (header_struct pad _ _ _ _ _ _ _ _))
  | |- size_at _ = _ => refine (proj2 (header_struct pad _ _ _ _ _ _ _ _))
  end;
  [done|done|wire_aligned|by do 2 apply Forall2_cons_1 in Hf as [_ Hf]].
