(* ===== verification/V2Messages.v ===== *)
(** * OTD-IPC v2 messages (src/include/OTDIPC)

    The message structs with their default values, the validity mask of the
    pen state and its operators, and the bytes of each message.  A [float]
    member is its 32-bit pattern, a [char] array a list of bytes of the array's
    length. *)

From S2P Require Import Prelude Layout.

Module V2.

(** MessageType.hpp: an [enum class : uint32_t]; a header read from a socket
    can hold any value of the underlying type. *)
Definition MT_DeviceInfo : Z := 1.
Definition MT_State : Z := 2.
Definition MT_Ping : Z := 3.
Definition MT_DebugMessage : Z := 4.
Definition MT_Experimental : Z := 5.
Definition MT_Hello : Z := 6.

Record Header := mkHeader {
  messageType : Z;
  size : Z;
  nonPersistentTabletId : Z
}.

Definition header_fields : list field := [f_u32; f_u32; f_u32].
Definition put_header (h : Header) : list bytes :=
  [put_u 4 (messageType h); put_u 4 (size h); put_u 4 (nonPersistentTabletId h)].
Definition header_wf (h : Header) : Prop :=
  is_u 32 (messageType h) /\ is_u 32 (size h) /\ is_u 32 (nonPersistentTabletId h).

#[global] Instance Header_wire : Wire Header := {
  wire_fields := header_fields;
  wire_put := put_header;
  wire_get := fun l => match l with
    | [a; b; c] => Some (mkHeader (le_value a) (le_value b) (le_value c))
    | _ => None end;
  wire_wf := header_wf
}.

(** [sizeof(Header)]. *)
Definition HEADER_SIZE : Z := 12.

(** ** DeviceInfo *)

Definition PersistentIdMaxLength : nat := 256.
Definition NameMaxLength : nat := 256.

Record DeviceInfo := mkDeviceInfo {
  di_header : Header;
  maxX : Z;
  maxY : Z;
  maxPressure : Z;
  persistentId : bytes;
  name : bytes
}.

Definition deviceinfo_fields : list field :=
  header_fields ++ [f_float; f_float; f_u32; f_chars PersistentIdMaxLength; f_chars NameMaxLength].

Definition deviceinfo_wf (d : DeviceInfo) : Prop :=
  header_wf (di_header d) /\ is_u 32 (maxX d) /\ is_u 32 (maxY d) /\ is_u 32 (maxPressure d) /\
  length (persistentId d) = PersistentIdMaxLength /\ length (name d) = NameMaxLength.

#[global] Instance DeviceInfo_wire : Wire DeviceInfo := {
  wire_fields := deviceinfo_fields;
  wire_put := fun d => put_header (di_header d) ++
    [put_u 4 (maxX d); put_u 4 (maxY d); put_u 4 (maxPressure d); persistentId d; name d];
  wire_get := fun l => match l with
    | [a; b; c; mx; my; mp; p; n] =>
        Some (mkDeviceInfo (mkHeader (le_value a) (le_value b) (le_value c))
                (le_value mx) (le_value my) (le_value mp) p n)
    | _ => None end;
  wire_wf := deviceinfo_wf
}.

(** The default constructor. *)
Definition new_DeviceInfo : DeviceInfo :=
  mkDeviceInfo (mkHeader MT_DeviceInfo (sizeof DeviceInfo) 0) 0 0 0
    (replicate PersistentIdMaxLength 0) (replicate NameMaxLength 0).

Definition GetName (d : DeviceInfo) : bytes := until_nul (name d).
Definition GetPersistentId (d : DeviceInfo) : bytes := until_nul (persistentId d).

(** ** State *)

Module ValidMask.
Definition None : Z := 0.
Definition PositionX : Z := 1 << 0.
Definition PositionY : Z := 1 << 1.
Definition Pressure : Z := 1 << 2.
Definition PenButtons : Z := 1 << 3.
Definition AuxButtons : Z := 1 << 4.
Definition PenIsNearSurface : Z := 1 << 5.
Definition HoverDistance : Z := 1 << 6.
Definition Position : Z := PositionX .| PositionY.
End ValidMask.

Definition mask_or (lhs rhs : Z) : Z := u32 (lhs .| rhs).
Definition mask_and (lhs rhs : Z) : Z := u32 (lhs .& rhs).
Definition mask_not (mask : Z) : Z := u32 (Z.lnot mask).

Record State := mkState {
  st_header : Header;
  validBits : Z;
  x : Z;
  y : Z;
  pressure : Z;
  penButtons : Z;
  auxButtons : Z;
  hoverDistance : Z;
  penIsNearSurface : bool
}.

Definition state_fields : list field :=
  header_fields ++ [f_u32; f_float; f_float; f_u32; f_u32; f_u32; f_u32; f_bool].

Definition state_wf (s : State) : Prop :=
  header_wf (st_header s) /\ is_u 32 (validBits s) /\ is_u 32 (x s) /\ is_u 32 (y s) /\
  is_u 32 (pressure s) /\ is_u 32 (penButtons s) /\ is_u 32 (auxButtons s) /\
  is_u 32 (hoverDistance s).

#[global] Instance State_wire : Wire State := {
  wire_fields := state_fields;
  wire_put := fun s => put_header (st_header s) ++
    [put_u 4 (validBits s); put_u 4 (x s); put_u 4 (y s); put_u 4 (pressure s);
     put_u 4 (penButtons s); put_u 4 (auxButtons s); put_u 4 (hoverDistance s);
     put_bool (penIsNearSurface s)];
  wire_get := fun l => match l with
    | [a; b; c; v; px; py; pr; pb; ab; hd; nr] =>
        Some (mkState (mkHeader (le_value a) (le_value b) (le_value c)) (le_value v)
                (le_value px) (le_value py) (le_value pr) (le_value pb) (le_value ab)
                (le_value hd) (get_bool nr))
    | _ => Datatypes.None end;
  wire_wf := state_wf
}.

Definition new_State : State :=
  mkState (mkHeader MT_State (sizeof State) 0) ValidMask.None 0 0 0 0 0 0 false.

Definition HasData (s : State) (mask : Z) : bool := (mask .& validBits s) =? mask.

(** ** Ping and Hello *)

Record Ping := mkPing { ping_header : Header; sequenceNumber : Z }.

#[global] Instance Ping_wire : Wire Ping := {
  wire_fields := header_fields ++ [f_u64];
  wire_put := fun p => put_header (ping_header p) ++ [put_u 8 (sequenceNumber p)];
  wire_get := fun l => match l with
    | [a; b; c; n] =>
        Some (mkPing (mkHeader (le_value a) (le_value b) (le_value c)) (le_value n))
    | _ => Datatypes.None end;
  wire_wf := fun p => header_wf (ping_header p) /\ is_u 64 (sequenceNumber p)
}.

(** [Ping ping = {}]. *)
Definition new_Ping : Ping := mkPing (mkHeader 0 0 0) 0.

Record Hello := mkHello {
  header : Header;
  protocolVersion : Z;
  humanReadableName : bytes;
  humanReadableVersion : bytes;
  implementationID : bytes;
  compatibilityVersion : Z
}.

Definition hello_wf (h : Hello) : Prop :=
  header_wf (header h) /\ is_u 64 (protocolVersion h) /\
  length (humanReadableName h) = 256%nat /\ length (humanReadableVersion h) = 256%nat /\
  length (implementationID h) = 256%nat /\ is_u 8 (compatibilityVersion h).

#[global] Instance Hello_wire : Wire Hello := {
  wire_fields := header_fields ++ [f_u64; f_chars 256; f_chars 256; f_chars 256; f_u8];
  wire_put := fun h => put_header (header h) ++
    [put_u 8 (protocolVersion h); humanReadableName h; humanReadableVersion h;
     implementationID h; put_u 1 (compatibilityVersion h)];
  wire_get := fun l => match l with
    | [a; b; c; pv; n; v; i; cv] =>
        Some (mkHello (mkHeader (le_value a) (le_value b) (le_value c)) (le_value pv) n v i
                (le_value cv))
    | _ => Datatypes.None end;
  wire_wf := hello_wf
}.

(** [const Header header { MESSAGE_TYPE, sizeof(Hello) }]. *)
Definition hello_header : Header := mkHeader MT_Hello (sizeof Hello) 0.

(** ** DebugMessage: a header followed by [size - sizeof(Header)] characters *)

(** [DebugMessage::message()] of the object at the start of [mem]: the view
    covers [size - sizeof(Header)] characters, computed in [size_t]. *)
Definition message (word : Z) (mem : bytes) (h : Header) : bytes :=
  take (Z.to_nat (wrap word (size h - HEADER_SIZE))) (drop (Z.to_nat HEADER_SIZE) mem).

(** [InitHeader(msg, tabletId, size)] (V2Server.cpp) on the header of a message
    whose type has the [MESSAGE_TYPE] [mt]. *)
Definition init_header (mt tabletId sz : Z) : Header := mkHeader mt (u32 sz) tabletId.

(** The header at the start of the storage of a message. *)
Definition header_at (mem : bytes) : option Header := decode (T := Header) mem.

(** ** Bytes of the messages *)

Lemma v2_header_sizeof : sizeof Header = HEADER_SIZE. Proof. done. Qed.
Lemma v2_deviceinfo_sizeof : sizeof DeviceInfo = 536. Proof. done. Qed.
Lemma v2_state_sizeof : sizeof State = 44. Proof. done. Qed.
Lemma v2_ping_sizeof : sizeof Ping = 24. Proof. done. Qed.
Lemma v2_hello_sizeof : sizeof Hello = 800. Proof. done. Qed.

#[global] Hint Unfold header_wf deviceinfo_wf state_wf hello_wf : wire.

Ltac split_header := repeat match goal with h : Header |- _ => destruct h end.

#[global] Instance Header_wire_ok : WireOk Header.
Proof. split; [wire_aligned|wire_fits|wire_round split_header]. Qed.
#[global] Instance DeviceInfo_wire_ok : WireOk DeviceInfo.
Proof. split; [wire_aligned|wire_fits|wire_round split_header]. Qed.
#[global] Instance State_wire_ok : WireOk State.
Proof. split; [wire_aligned|wire_fits|wire_round split_header]. Qed.
#[global] Instance Ping_wire_ok : WireOk Ping.
Proof. split; [wire_aligned|wire_fits|wire_round split_header]. Qed.
#[global] Instance Hello_wire_ok : WireOk Hello.
Proof. split; [wire_aligned|wire_fits|wire_round split_header]. Qed.

#[global, refine] Instance Header_message : Message Header := {|
  msg_type m := messageType m; msg_size m := size m;
  msg_type_at := _; msg_size_at := _ |}.
Proof. all: wire_header. Defined.

#[global, refine] Instance DeviceInfo_message : Message DeviceInfo := {|
  msg_type m := messageType (di_header m); msg_size m := size (di_header m);
  msg_type_at := _; msg_size_at := _ |}.
Proof. all: wire_header. Defined.

#[global, refine] Instance State_message : Message State := {|
  msg_type m := messageType (st_header m); msg_size m := size (st_header m);
  msg_type_at := _; msg_size_at := _ |}.
Proof. all: wire_header. Defined.

#[global, refine] Instance Ping_message : Message Ping := {|
  msg_type m := messageType (ping_header m); msg_size m := size (ping_header m);
  msg_type_at := _; msg_size_at := _ |}.
Proof. all: wire_header. Defined.

#[global, refine] Instance Hello_message : Message Hello := {|
  msg_type m := messageType (header m); msg_size m := size (header m);
  msg_type_at := _; msg_size_at := _ |}.
Proof. all: wire_header. Defined.

(** ** The validity mask *)

Lemma HasData_spec s mask : HasData s mask = true <->
  forall i, 0 <= i -> Z.testbit mask i = true -> Z.testbit (validBits s) i = true.
Proof.
  unfold HasData; rewrite Z.eqb_eq; split.
  - intros E i Hi Hm; rewrite <- E, Z.land_spec in Hm.
    by apply andb_prop in Hm as [].
  - intros Hs; apply Z.bits_inj'; intros i Hi; rewrite Z.land_spec.
    destruct (Z.testbit mask i) eqn:Em; [|done]; cbn; by apply Hs.
Qed.

Lemma HasData_bit s n : 0 <= n -> HasData s (1 << n) = Z.testbit (validBits s) n.
Proof.
  intros Hn; rewrite Z.shiftl_1_l.
  apply eq_bool_prop_intro; rewrite !Is_true_true, HasData_spec; split.
  - intros Hs; apply Hs; [done|]; by apply Z.pow2_bits_true.
  - intros Hb i Hi Hp; rewrite Z.pow2_bits_eqb in Hp by done.
    by apply Z.eqb_eq in Hp as <-.
Qed.

Lemma HasData_Position s :
  HasData s ValidMask.Position = Z.testbit (validBits s) 0 && Z.testbit (validBits s) 1.
Proof.
  apply eq_bool_prop_intro; rewrite andb_True, !Is_true_true, HasData_spec; split.
  - intros Hs; split; by apply Hs.
  - intros [H0 H1] i Hi Hb.
    destruct (decide (i = 0)) as [->|]; [done|]; destruct (decide (i = 1)) as [->|]; [done|].
    exfalso; revert Hb; rewrite (is_u_high 2); [done|lia|done|lia].
Qed.

Lemma HasData_PositionX s : HasData s ValidMask.PositionX = Z.testbit (validBits s) 0.
Proof. by apply HasData_bit. Qed.
Lemma HasData_PositionY s : HasData s ValidMask.PositionY = Z.testbit (validBits s) 1.
Proof. by apply HasData_bit. Qed.
Lemma HasData_Pressure s : HasData s ValidMask.Pressure = Z.testbit (validBits s) 2.
Proof. by apply HasData_bit. Qed.
Lemma HasData_PenButtons s : HasData s ValidMask.PenButtons = Z.testbit (validBits s) 3.
Proof. by apply HasData_bit. Qed.
Lemma HasData_AuxButtons s : HasData s ValidMask.AuxButtons = Z.testbit (validBits s) 4.
Proof. by apply HasData_bit. Qed.
Lemma HasData_PenIsNearSurface s : HasData s ValidMask.PenIsNearSurface = Z.testbit (validBits s) 5.
Proof. by apply HasData_bit. Qed.
Lemma HasData_HoverDistance s : HasData s ValidMask.HoverDistance = Z.testbit (validBits s) 6.
Proof. by apply HasData_bit. Qed.

Create Rewrite HintDb mask.
#[global] Hint Rewrite HasData_Position HasData_PositionX HasData_PositionY HasData_Pressure
  HasData_PenButtons HasData_AuxButtons HasData_PenIsNearSurface HasData_HoverDistance : mask.

End V2.
