(* ===== verification/V1Messages.v ===== *)
(** * OTD-IPC v1 messages (src/include/OTDIPC/V1)

    The deprecated message structs that [V1Server] still sends to v1 clients.
    They have no constructors: [T ret {}] zero-initialises every member.  A
    [wchar_t] is a 16-bit unit. *)

From S2P Require Import Prelude Layout.

Module V1.

Definition MT_DeviceInfo : Z := 1.
Definition MT_State : Z := 2.
Definition MT_Ping : Z := 3.

Record Header := mkHeader {
  messageType : Z;
  size : Z;
  vid : Z;
  pid : Z
}.

Definition header_fields : list field := [f_u32; f_u32; f_u16; f_u16].
Definition put_header (h : Header) : list bytes :=
  [put_u 4 (messageType h); put_u 4 (size h); put_u 2 (vid h); put_u 2 (pid h)].
Definition header_wf (h : Header) : Prop :=
  is_u 32 (messageType h) /\ is_u 32 (size h) /\ is_u 16 (vid h) /\ is_u 16 (pid h).
Definition get_header (a b c d : bytes) : Header :=
  mkHeader (le_value a) (le_value b) (le_value c) (le_value d).

#[global] Instance Header_wire : Wire Header := {
  wire_fields := header_fields;
  wire_put := put_header;
  wire_get := fun l => match l with
    | [a; b; c; d] => Some (get_header a b c d)
    | _ => None end;
  wire_wf := header_wf
}.

Definition NAME_LENGTH : nat := 64.

Record DeviceInfo := mkDeviceInfo {
  di_header : Header;
  isValid : bool;
  maxX : Z;
  maxY : Z;
  maxPressure : Z;
  name : list Z
}.

Definition deviceinfo_wf (d : DeviceInfo) : Prop :=
  header_wf (di_header d) /\ is_u 32 (maxX d) /\ is_u 32 (maxY d) /\ is_u 32 (maxPressure d) /\
  length (name d) = NAME_LENGTH /\ Forall (is_u 16) (name d).

#[global] Instance DeviceInfo_wire : Wire DeviceInfo := {
  wire_fields := header_fields ++ [f_bool; f_float; f_float; f_u32; f_wchars NAME_LENGTH];
  wire_put := fun d => put_header (di_header d) ++
    [put_bool (isValid d); put_u 4 (maxX d); put_u 4 (maxY d); put_u 4 (maxPressure d);
     put_wchars (name d)];
  wire_get := fun l => match l with
    | [a; b; c; d; v; mx; my; mp; n] =>
        Some (mkDeviceInfo (get_header a b c d) (get_bool v) (le_value mx) (le_value my)
                (le_value mp) (get_wchars NAME_LENGTH n))
    | _ => None end;
  wire_wf := deviceinfo_wf
}.

Record State := mkState {
  st_header : Header;
  positionValid : bool;
  x : Z;
  y : Z;
  pressureValid : bool;
  pressure : Z;
  penButtonsValid : bool;
  penButtons : Z;
  auxButtonsValid : bool;
  auxButtons : Z;
  proximityValid : bool;
  hoverDistance : Z;
  nearProximity : bool
}.

Definition state_wf (s : State) : Prop :=
  header_wf (st_header s) /\ is_u 32 (x s) /\ is_u 32 (y s) /\ is_u 32 (pressure s) /\
  is_u 32 (penButtons s) /\ is_u 32 (auxButtons s) /\ is_u 32 (hoverDistance s).

#[global] Instance State_wire : Wire State := {
  wire_fields := header_fields ++
    [f_bool; f_float; f_float; f_bool; f_u32; f_bool; f_u32; f_bool; f_u32; f_bool; f_u32; f_bool];
  wire_put := fun s => put_header (st_header s) ++
    [put_bool (positionValid s); put_u 4 (x s); put_u 4 (y s);
     put_bool (pressureValid s); put_u 4 (pressure s);
     put_bool (penButtonsValid s); put_u 4 (penButtons s);
     put_bool (auxButtonsValid s); put_u 4 (auxButtons s);
     put_bool (proximityValid s); put_u 4 (hoverDistance s); put_bool (nearProximity s)];
  wire_get := fun l => match l with
    | [a; b; c; d; pv; px; py; rv; r; bv; bb; av; ab; xv; hd; np] =>
        Some (mkState (get_header a b c d) (get_bool pv) (le_value px) (le_value py)
                (get_bool rv) (le_value r) (get_bool bv) (le_value bb) (get_bool av) (le_value ab)
                (get_bool xv) (le_value hd) (get_bool np))
    | _ => None end;
  wire_wf := state_wf
}.

Record Ping := mkPing { ping_header : Header; sequenceNumber : Z }.

#[global] Instance Ping_wire : Wire Ping := {
  wire_fields := header_fields ++ [f_u64];
  wire_put := fun p => put_header (ping_header p) ++ [put_u 8 (sequenceNumber p)];
  wire_get := fun l => match l with
    | [a; b; c; d; n] => Some (mkPing (get_header a b c d) (le_value n))
    | _ => None end;
  wire_wf := fun p => header_wf (ping_header p) /\ is_u 64 (sequenceNumber p)
}.

(** [T ret {}] for each message type. *)
Definition zero_Header : Header := mkHeader 0 0 0 0.
Definition zero_DeviceInfo : DeviceInfo :=
  mkDeviceInfo zero_Header false 0 0 0 (replicate NAME_LENGTH 0).
Definition zero_State : State :=
  mkState zero_Header false 0 0 false 0 false 0 false 0 false 0 false.
Definition zero_Ping : Ping := mkPing zero_Header 0.

Lemma v1_header_sizeof : sizeof Header = 12. Proof. done. Qed.
Lemma v1_deviceinfo_sizeof : sizeof DeviceInfo = 156. Proof. done. Qed.
Lemma v1_state_sizeof : sizeof State = 60. Proof. done. Qed.
Lemma v1_ping_sizeof : sizeof Ping = 24. Proof. done. Qed.

#[global] Hint Unfold header_wf deviceinfo_wf state_wf get_header NAME_LENGTH : wire.

Ltac split_header := repeat match goal with h : Header |- _ => destruct h end.

#[global] Instance Header_wire_ok : WireOk Header.
Proof. split; [wire_aligned|wire_fits|wire_round split_header]. Qed.
#[global] Instance DeviceInfo_wire_ok : WireOk DeviceInfo.
Proof.
  split; [wire_aligned|wire_fits|wire_round split_header].
  match goal with H : length ?n = _ |- _ => rewrite <- H, (get_put_wchars n) end; done.
Qed.
#[global] Instance State_wire_ok : WireOk State.
Proof. split; [wire_aligned|wire_fits|wire_round split_header]. Qed.
#[global] Instance Ping_wire_ok : WireOk Ping.
Proof. split; [wire_aligned|wire_fits|wire_round split_header]. Qed.

#[global, refine] Instance DeviceInfo_message : Message DeviceInfo := {|
  msg_type m := messageType (di_header m); msg_size m := size (di_header m);
  msg_type_at := _; msg_size_at := _ |}.
Proof. all: wire_header. Defined.

#[global, refine] Instance State_message : Message State := {|
  msg_type m := messageType (st_header m); msg_size m := size (st_header m);
  msg_type_at := _; msg_size_at := _ |}.
Proof. all: wire_header. Defined.

#[global, refine] Instance Ping_message : Message Ping := {|
  msg_type m := messageType (ping_header m); msg_size m := size (ping_header m);
  msg_type_at := _; msg_size_at := _ |}.
Proof. all: wire_header. Defined.

End V1.
