(* ===== verification/Float32.v ===== *)
(** * Single-precision floating point

    The coordinates of the messages are C++ [float]s, stored in the model as
    their 32-bit patterns.  The conversions and the subtraction the program
    performs are those of the Standard Library's specification of IEEE 754
    arithmetic, at 24 bits of precision; the lemmas say on which integers they
    are exact. *)

From Stdlib Require Import SpecFloat.
From S2P Require Import Prelude.

Module Float32.

Definition PREC : Z := 24.
Definition EMAX : Z := 128.

(** [static_cast<float>(n)] of an integer. *)
Definition int_to_float (n : Z) : spec_float := binary_normalize PREC EMAX n 0 false.
(** [a - b] of two [float]s. *)
Definition float_sub (a b : spec_float) : spec_float := SFsub PREC EMAX a b.

(** The integer part of a finite number. *)
Definition float_trunc (f : spec_float) : option Z :=
  match f with
  | S754_zero _ => Some 0
  | S754_finite s m e =>
      let a := if 0 <=? e then Z.pos m * 2 ^ e else Z.pos m / 2 ^ (- e) in
      Some (if s then - a else a)
  | _ => None
  end.

(** Conversion to [uint32_t]: undefined ([None]) when the integer part is not a
    value of that type. *)
Definition float_to_u32 (f : spec_float) : option Z :=
  match float_trunc f with
  | Some z => if is_ub 32 z then Some z else None
  | None => None
  end.

(** The bit pattern of a number, and the number of a bit pattern. *)
Definition float_bits (f : spec_float) : Z :=
  u32 match f with
      | S754_zero s => b2z s * 2 ^ 31
      | S754_infinity s => b2z s * 2 ^ 31 + 0x7F800000
      | S754_nan => 0x7FC00000
      | S754_finite s m e =>
          b2z s * 2 ^ 31 +
          (if Z.pos m <? 2 ^ 23 then Z.pos m else (e + 150) * 2 ^ 23 + (Z.pos m - 2 ^ 23))
      end.

Definition float_of_bits (z : Z) : spec_float :=
  let s := Z.testbit z 31 in
  let e := (z >> 23) .& 255 in
  let m := z .& 0x7FFFFF in
  if e =? 255 then (if m =? 0 then S754_infinity s else S754_nan)
  else if e =? 0 then match m with Z.pos p => S754_finite s p (-149) | _ => S754_zero s end
  else match m + 2 ^ 23 with Z.pos p => S754_finite s p (e - 150) | _ => S754_zero s end.

Lemma float_bits_u32 f : is_u 32 (float_bits f).
Proof. apply u32_bounds. Qed.

(** ** Shifts of a significand *)

Definition shl (n : nat) (p : positive) : positive := Nat.iter n xO p.

Lemma shl_value n p : Z.pos (shl n p) = Z.pos p * 2 ^ Z.of_nat n.
Proof.
  induction n as [|n IH]; [cbn; lia|].
  change (shl (S n) p) with (xO (shl n p)).
  rewrite Pos2Z.inj_xO, IH, Nat2Z.inj_succ, Z.pow_succ_r by lia; lia.
Qed.

Lemma shl_add n m p : shl n (shl m p) = shl (n + m) p.
Proof. symmetry; apply Nat.iter_add. Qed.

Lemma digits_shl n p : Z.pos (digits2_pos (shl n p)) = Z.pos (digits2_pos p) + Z.of_nat n.
Proof.
  induction n as [|n IH]; [cbn; lia|].
  change (digits2_pos (shl (S n) p)) with (Pos.succ (digits2_pos (shl n p))); lia.
Qed.

Lemma digits_bounds p : 2 ^ (Z.pos (digits2_pos p) - 1) <= Z.pos p < 2 ^ Z.pos (digits2_pos p).
Proof.
  induction p as [p IH|p IH|]; cbn [digits2_pos]; [| |cbn; lia].
  all: rewrite Pos2Z.inj_succ; set (d := Z.pos (digits2_pos p)) in *.
  all: replace (Z.succ d - 1) with (Z.succ (d - 1)) by lia; rewrite !Z.pow_succ_r by lia; lia.
Qed.

Lemma iter_xO k p : Pos.iter xO p k = shl (Pos.to_nat k) p.
Proof. apply Pos2Nat.inj_iter. Qed.

Lemma iter_pos_nat {A} (f : A -> A) k x : SpecFloat.iter_pos f k x = Nat.iter (Pos.to_nat k) f x.
Proof.
  revert x; induction k as [k IH|k IH|]; intros x; cbn [SpecFloat.iter_pos]; [| |done].
  - rewrite !IH, <- Nat.iter_add, <- Nat.iter_succ_r; f_equal; lia.
  - rewrite !IH, <- Nat.iter_add; f_equal; lia.
Qed.

Definition exactly (m : positive) : shr_record := {| shr_m := Z.pos m; shr_r := false; shr_s := false |}.

Lemma shr_shl j i p e : shr (exactly (shl (j + i) p)) e (Z.of_nat j) = (exactly (shl i p), e + Z.of_nat j).
Proof.
  assert (Nat.iter j shr_1 (exactly (shl (j + i) p)) = exactly (shl i p)) as Hi.
  { induction j as [|j IH]; [done|]; rewrite Nat.iter_succ_r; exact IH. }
  destruct j as [|j]; [cbn; by rewrite Z.add_0_r|].
  change (Z.of_nat (S j)) with (Z.pos (Pos.of_succ_nat j)) at 1; unfold shr.
  rewrite iter_pos_nat, SuccNat2Pos.id_succ, Hi; done.
Qed.

(** ** Integers below 2^24 *)

(** The number [p] as a 24-bit significand and an exponent. *)
Definition digits (p : positive) : Z := Z.pos (digits2_pos p).
Definition normal (s : bool) (p : positive) : spec_float :=
  S754_finite s (shl (Z.to_nat (24 - digits p)) p) (digits p - 24).

Lemma fexp_small d : 1 <= d <= 24 -> fexp PREC EMAX d = d - 24.
Proof. intros; unfold fexp, emin, PREC, EMAX; lia. Qed.

Lemma shr_fexp_shl k p j : digits p <= 24 -> Z.of_nat j = digits p - 24 + Z.of_nat k ->
  shr_fexp PREC EMAX (Z.pos (shl k p)) (- Z.of_nat k) loc_Exact =
  (exactly (shl (Z.to_nat (24 - digits p)) p), digits p - 24).
Proof.
  intros Hd Hj; unfold shr_fexp, Zdigits2; rewrite digits_shl; fold (digits p).
  replace (digits p + Z.of_nat k + - Z.of_nat k) with (digits p) by lia.
  rewrite fexp_small by (unfold digits in *; lia).
  replace (digits p - 24 - - Z.of_nat k) with (Z.of_nat j) by lia.
  change (shr_record_of_loc (Z.pos (shl k p)) loc_Exact) with (exactly (shl k p)).
  replace k with (j + Z.to_nat (24 - digits p))%nat at 1 by lia.
  rewrite shr_shl; f_equal; lia.
Qed.

Lemma round_aux_normal s k p j : digits p <= 24 -> Z.of_nat j = digits p - 24 + Z.of_nat k ->
  binary_round_aux PREC EMAX s (Z.pos (shl k p)) (- Z.of_nat k) loc_Exact = normal s p.
Proof.
  intros Hd Hj; unfold binary_round_aux; rewrite (shr_fexp_shl k p j) by done.
  change (loc_of_shr_record (exactly ?m)) with loc_Exact.
  cbn [round_nearest_even shr_m exactly].
  pose proof (shr_fexp_shl (Z.to_nat (24 - digits p)) p 0 Hd) as H.
  replace (- Z.of_nat (Z.to_nat (24 - digits p))) with (digits p - 24) in H by lia.
  rewrite H by lia; cbn [exactly shr_m].
  destruct (Z.leb_spec (digits p - 24) (EMAX - PREC)); [done|unfold EMAX, PREC in *; lia].
Qed.

(** Rounding [p * 2^k] with the exponent [-k] gives [p], exactly. *)
Lemma binary_round_exact s k p : digits p <= 24 ->
  binary_round PREC EMAX s (shl k p) (- Z.of_nat k) = normal s p.
Proof.
  intros Hd; unfold binary_round; rewrite digits_shl; fold (digits p).
  replace (digits p + Z.of_nat k + - Z.of_nat k) with (digits p) by lia.
  rewrite fexp_small by (unfold digits in *; lia).
  unfold shl_align; destruct (digits p - 24 - - Z.of_nat k) as [|j|j] eqn:Ej.
  - apply (round_aux_normal s k p 0); lia.
  - apply (round_aux_normal s k p (Pos.to_nat j)); lia.
  - rewrite iter_xO, shl_add.
    replace (digits p - 24) with (- Z.of_nat (Pos.to_nat j + k)) by lia.
    apply (round_aux_normal s _ p 0); lia.
Qed.

Lemma digits_range p : Z.pos p < 2 ^ 24 -> 1 <= digits p <= 24.
Proof.
  intros Hp; pose proof (digits_bounds p) as [H _]; fold (digits p) in H.
  split; [unfold digits; lia|]; destruct (Z.le_gt_cases (digits p) 24); [done|].
  assert (2 ^ 24 <= 2 ^ (digits p - 1)) by (apply Z.pow_le_mono_r; lia); lia.
Qed.

Lemma normalize_exact k n : Z.abs n < 2 ^ 24 ->
  binary_normalize PREC EMAX (n * 2 ^ Z.of_nat k) (- Z.of_nat k) false =
  match n with Z0 => S754_zero false | Z.pos p => normal false p | Z.neg p => normal true p end.
Proof.
  intros Hn.
  destruct n as [|p|p]; [done| |].
  - rewrite <- shl_value; cbn [binary_normalize]; apply binary_round_exact, digits_range; lia.
  - change (Z.neg p) with (- Z.pos p); rewrite Z.mul_opp_l, <- shl_value.
    cbn [binary_normalize Z.opp]; apply binary_round_exact, digits_range; lia.
Qed.

Lemma int_to_float_normal n : Z.abs n < 2 ^ 24 ->
  int_to_float n =
  match n with Z0 => S754_zero false | Z.pos p => normal false p | Z.neg p => normal true p end.
Proof.
  intros Hn; rewrite <- (normalize_exact 0) by done; unfold int_to_float; cbn [Z.of_nat Z.opp].
  by rewrite Z.pow_0_r, Z.mul_1_r.
Qed.

(** The significand has exactly 24 bits. *)
Lemma normal_significand p : Z.pos p < 2 ^ 24 ->
  2 ^ 23 <= Z.pos (shl (Z.to_nat (24 - digits p)) p) < 2 ^ 24.
Proof.
  intros Hp; pose proof (digits_range p Hp) as Hd; pose proof (digits_bounds p) as [H1 H2].
  fold (digits p) in H1, H2; rewrite shl_value, Z2Nat.id by lia.
  replace (2 ^ 23) with (2 ^ (digits p - 1) * 2 ^ (24 - digits p)) by (rewrite <- Z.pow_add_r by lia; f_equal; lia).
  replace (2 ^ 24) with (2 ^ digits p * 2 ^ (24 - digits p)) by (rewrite <- Z.pow_add_r by lia; f_equal; lia).
  assert (0 < 2 ^ (24 - digits p)) by (apply Z.pow_pos_nonneg; lia); split; nia.
Qed.

Lemma trunc_normal s p : Z.pos p < 2 ^ 24 ->
  float_trunc (normal s p) = Some (if s then Z.neg p else Z.pos p).
Proof.
  intros Hp; pose proof (digits_range p Hp) as Hd; unfold normal, float_trunc.
  rewrite shl_value, Z2Nat.id by lia.
  assert ((if 0 <=? digits p - 24 then Z.pos p * 2 ^ (24 - digits p) * 2 ^ (digits p - 24)
           else Z.pos p * 2 ^ (24 - digits p) / 2 ^ (- (digits p - 24))) = Z.pos p) as ->; [|by destruct s].
  destruct (Z.leb_spec 0 (digits p - 24)).
  - replace (digits p - 24) with 0 by lia; replace (24 - digits p) with 0 by lia; lia.
  - replace (- (digits p - 24)) with (24 - digits p) by lia.
    apply Z.div_mul, Z.pow_nonzero; lia.
Qed.

(** Every integer below 2^24 in absolute value is a [float]. *)
Lemma int_to_float_exact n : Z.abs n < 2 ^ 24 -> float_trunc (int_to_float n) = Some n.
Proof.
  intros Hn; rewrite int_to_float_normal by done.
  destruct n; [done|rewrite trunc_normal by lia; done..].
Qed.

Lemma shl_align_normal p k : Z.pos p < 2 ^ 24 -> 24 - digits p <= Z.of_nat k ->
  fst (shl_align (shl (Z.to_nat (24 - digits p)) p) (digits p - 24) (- Z.of_nat k)) = shl k p.
Proof.
  intros Hp Hk; pose proof (digits_range p Hp) as Hd; unfold shl_align.
  destruct (- Z.of_nat k - (digits p - 24)) as [|j|j] eqn:Ej; [cbn; f_equal; lia|lia|].
  rewrite iter_xO, shl_add; cbn [fst]; f_equal; lia.
Qed.

Lemma cond_opp_shl (s : bool) k p :
  cond_Zopp s (Z.pos (shl k p)) = (if s then Z.neg p else Z.pos p) * 2 ^ Z.of_nat k.
Proof. rewrite shl_value; destruct s; cbn [cond_Zopp]; lia. Qed.

Lemma sub_normal (s1 : bool) a (s2 : bool) b :
  let x := if s1 then Z.neg a else Z.pos a in let y := if s2 then Z.neg b else Z.pos b in
  Z.pos a < 2 ^ 24 -> Z.pos b < 2 ^ 24 -> Z.abs (x - y) < 2 ^ 24 ->
  float_sub (normal s1 a) (normal s2 b) = int_to_float (x - y).
Proof.
  intros x y Ha Hb Hxy; pose proof (digits_range a Ha); pose proof (digits_range b Hb).
  set (k := Z.to_nat (Z.max (24 - digits a) (24 - digits b))).
  unfold float_sub, normal, SFsub.
  replace (Z.min (digits a - 24) (digits b - 24)) with (- Z.of_nat k) by lia.
  rewrite !shl_align_normal, !cond_opp_shl by lia; fold x y.
  rewrite <- Z.mul_sub_distr_r, normalize_exact by done; by rewrite int_to_float_normal.
Qed.

(** The difference of two such integers is exact when it is one itself. *)
Lemma float_sub_exact x y : Z.abs x < 2 ^ 24 -> Z.abs y < 2 ^ 24 -> Z.abs (x - y) < 2 ^ 24 ->
  float_sub (int_to_float x) (int_to_float y) = int_to_float (x - y).
Proof.
  intros Hx Hy Hxy; rewrite (int_to_float_normal x), (int_to_float_normal y) by done.
  destruct y as [|b|b]; [rewrite Z.sub_0_r, int_to_float_normal by done; by destruct x|..].
  all: destruct x as [|a|a]; [by rewrite int_to_float_normal by done|..].
  - by apply (sub_normal false a false b).
  - by apply (sub_normal true a false b).
  - by apply (sub_normal false a true b).
  - by apply (sub_normal true a true b).
Qed.

(** The bit pattern of a number stands for it. *)
Lemma bits_finite s m e : 2 ^ 23 <= Z.pos m < 2 ^ 24 -> -149 <= e <= 104 ->
  float_of_bits (float_bits (S754_finite s m e)) = S754_finite s m e.
Proof.
  intros Hm He; unfold float_bits; destruct (Z.ltb_spec (Z.pos m) (2 ^ 23)); [lia|].
  set (z := b2z s * 2 ^ 31 + _).
  assert (u32 z = z) as -> by (apply wrap_small; unfold z, is_u, b2z; destruct s; lia).
  unfold float_of_bits.
  assert (Z.testbit z 31 = s) as ->.
  { rewrite Z.testbit_odd, Z.shiftr_div_pow2 by lia.
    replace (z / 2 ^ 31) with (b2z s) by (unfold z, b2z; destruct s; Z.div_mod_to_equations; lia).
    by destruct s. }
  assert ((z >> 23) .& 255 = e + 150) as ->.
  { rewrite Z.shiftr_div_pow2 by lia; change 255 with (Z.ones 8); rewrite Z.land_ones by lia.
    unfold z, b2z; destruct s; Z.div_mod_to_equations; lia. }
  assert (z .& 0x7FFFFF = Z.pos m - 2 ^ 23) as ->.
  { change 0x7FFFFF with (Z.ones 23); rewrite Z.land_ones by lia.
    unfold z, b2z; destruct s; Z.div_mod_to_equations; lia. }
  destruct (Z.eqb_spec (e + 150) 255); [lia|]; destruct (Z.eqb_spec (e + 150) 0); [lia|].
  replace (Z.pos m - 2 ^ 23 + 2 ^ 23) with (Z.pos m) by lia; f_equal; lia.
Qed.

Lemma bits_normal s p : Z.pos p < 2 ^ 24 -> float_of_bits (float_bits (normal s p)) = normal s p.
Proof.
  intros Hp; pose proof (digits_range p Hp); apply bits_finite; [by apply normal_significand|lia].
Qed.

Lemma bits_int_to_float n : Z.abs n < 2 ^ 24 ->
  float_of_bits (float_bits (int_to_float n)) = int_to_float n.
Proof.
  intros Hn; rewrite int_to_float_normal by done.
  destruct n; [done|apply bits_normal; lia..].
Qed.

(** Conversion of such an integer to [uint32_t]: the integer, or undefined when
    it is negative. *)
Lemma float_to_u32_int n : Z.abs n < 2 ^ 24 ->
  float_to_u32 (int_to_float n) = if 0 <=? n then Some n else None.
Proof.
  intros Hn; unfold float_to_u32; rewrite int_to_float_exact by done.
  unfold is_ub; destruct (Z.leb_spec 0 n); cbn [andb]; [|done].
  destruct (Z.ltb_spec n (2 ^ 32)); [done|lia].
Qed.

(** ** Rounding

    Integers beyond 2^24 are rounded to the nearest number with 24 significant
    bits. *)

(** What is left of a significand after a shift by [k]: the bits shifted out are
    [rest], and the record says where [rest] lies between 0 and [2^k]. *)
Definition remainder (k rest : Z) (r : shr_record) : Prop :=
  match shr_r r, shr_s r with
  | false, false => rest = 0
  | false, true => 0 < 2 * rest < 2 ^ k
  | true, false => 2 * rest = 2 ^ k
  | true, true => 2 ^ k < 2 * rest < 2 * 2 ^ k
  end.

Definition shifted (p : Z) (k : Z) (r : shr_record) : Prop :=
  0 <= shr_m r /\ remainder k (p - shr_m r * 2 ^ k) r.

Lemma shr_1_shifted p k r : 0 <= k -> shifted p k r -> shifted p (k + 1) (shr_1 r).
Proof.
  intros Hk [Hm Hr]; assert (0 < 2 ^ k) by (apply Z.pow_pos_nonneg; lia).
  destruct r as [m b c]; unfold shifted, remainder in *; cbn [shr_m shr_r shr_s] in *.
  rewrite Z.add_1_r, Z.pow_succ_r by lia.
  destruct m as [|[q|q|]|q]; cbn [shr_1 shr_m shr_r shr_s orb] in *; [destruct b, c; cbn [orb]; lia|..|lia].
  - rewrite (Pos2Z.inj_xI q) in *; destruct b, c; cbn [orb]; split; nia.
  - rewrite (Pos2Z.inj_xO q) in *; destruct b, c; cbn [orb]; split; nia.
  - destruct b, c; cbn [orb]; split; nia.
Qed.

Lemma shr_shifted p e k : 0 <= k ->
  let '(r, e') := shr (exactly p) e k in shifted (Z.pos p) k r /\ e' = e + k.
Proof.
  intros Hk; assert (forall n, shifted (Z.pos p) (Z.of_nat n) (Nat.iter n shr_1 (exactly p))) as Hn.
  { intros n; induction n as [|n IH]; [unfold shifted, remainder; cbn; lia|].
    rewrite Nat2Z.inj_succ, <- Z.add_1_r; apply shr_1_shifted; [lia|exact IH]. }
  unfold shr; destruct k as [|k|k]; [|split; [|done]|lia].
  - split; [apply (Hn 0%nat)|lia].
  - rewrite iter_pos_nat, <- (positive_nat_Z k); apply Hn.
Qed.

(** To the nearest, to even in the middle. *)
Lemma round_shifted p k r : 0 <= k -> shifted p k r ->
  let m := round_nearest_even (shr_m r) (loc_of_shr_record r) in
  shr_m r <= m <= shr_m r + 1 /\ 2 * Z.abs (m * 2 ^ k - p) <= 2 ^ k.
Proof.
  intros Hk [Hm Hr]; assert (0 < 2 ^ k) by (apply Z.pow_pos_nonneg; lia).
  destruct r as [m b c]; unfold remainder in Hr; cbn [shr_m shr_r shr_s] in *; cbn zeta.
  destruct b, c; cbn [loc_of_shr_record round_nearest_even shr_r shr_s]; try (split; nia).
  destruct (Z.even m); split; nia.
Qed.

Lemma fexp_large d : -125 <= d -> fexp PREC EMAX d = d - 24.
Proof. intros; unfold fexp, emin, PREC, EMAX; lia. Qed.

Lemma digits_unique p d : 2 ^ (d - 1) <= Z.pos p < 2 ^ d -> 0 < d -> digits p = d.
Proof.
  intros [H1 H2] Hd; pose proof (digits_bounds p) as [H3 H4]; fold (digits p) in H3, H4.
  assert (0 < digits p) by (unfold digits; lia).
  assert (d - 1 < digits p) by (apply (Z.pow_lt_mono_r_iff 2); lia).
  assert (digits p - 1 < d) by (apply (Z.pow_lt_mono_r_iff 2); lia); lia.
Qed.

(** The second normalisation, after the significand was rounded up to [2^24]. *)
Lemma renormalize q e : 2 ^ 23 <= Z.pos q <= 2 ^ 24 -> -149 <= e ->
  exists q' e', shr_fexp PREC EMAX (Z.pos q) e loc_Exact = (exactly q', e') /\
    2 ^ 23 <= Z.pos q' < 2 ^ 24 /\ e <= e' <= e + 1 /\ Z.pos q' * 2 ^ (e' - e) = Z.pos q.
Proof.
  intros Hq He; unfold shr_fexp, Zdigits2; fold (digits q).
  change (shr_record_of_loc (Z.pos q) loc_Exact) with (exactly q).
  destruct (decide (Z.pos q = 2 ^ 24)) as [Eq|Hn].
  - assert (q = shl (1 + 23) 1) as -> by (apply Pos2Z.inj; rewrite Eq; done).
    exists (shl 23 1), (e + 1); change (digits (shl (1 + 23) 1)) with 25.
    rewrite fexp_large by lia; replace (25 + e - 24 - e) with (Z.of_nat 1) by lia.
    rewrite shr_shl; split_and!; [done|done|done|lia|lia|].
    by replace (e + 1 - e) with 1 by lia.
  - exists q, e; rewrite (digits_unique q 24) by lia; rewrite fexp_large by lia.
    replace (24 + e - 24 - e) with 0 by lia; cbn [shr]; rewrite Z.sub_diag; split_and!; try lia; done.
Qed.

(** Rounding [p * 2^e] when [p] has [k] bits too many. *)
Lemma round_inexact s p e k : k = digits p - 24 -> 0 < k -> -149 <= e + k <= 102 ->
  exists q f, binary_round PREC EMAX s p e = S754_finite s q f /\ 2 ^ 23 <= Z.pos q < 2 ^ 24 /\
    e + k <= f <= e + k + 1 /\ 2 * Z.abs (Z.pos q * 2 ^ (f - e) - Z.pos p) <= 2 ^ k.
Proof.
  intros Ek Hk He; unfold binary_round; fold (digits p).
  rewrite fexp_large by lia; unfold shl_align.
  destruct (digits p + e - 24 - e) as [|j|j] eqn:Ej; [lia| |lia].
  unfold binary_round_aux; unfold shr_fexp at 1; unfold Zdigits2 at 1; fold (digits p).
  rewrite fexp_large by lia; replace (digits p + e - 24 - e) with k by lia.
  change (shr_record_of_loc (Z.pos p) loc_Exact) with (exactly p).
  pose proof (shr_shifted p e k ltac:(lia)) as Hs.
  destruct (shr (exactly p) e k) as [r e'] eqn:Er; destruct Hs as [Hs ->].
  pose proof (round_shifted (Z.pos p) k r ltac:(lia) Hs) as [Hm Hb]; cbn zeta in Hm, Hb.
  set (m := round_nearest_even _ _) in *.
  assert (2 ^ 23 <= m <= 2 ^ 24) as Hm'.
  { pose proof (digits_bounds p) as [H1 H2]; fold (digits p) in H1, H2; destruct Hs as [H0 Hr].
    assert (0 < 2 ^ k) by (apply Z.pow_pos_nonneg; lia).
    replace (digits p - 1) with (23 + k) in H1 by lia; replace (digits p) with (24 + k) in H2 by lia.
    rewrite Z.pow_add_r in H1, H2 by lia.
    assert (0 <= Z.pos p - shr_m r * 2 ^ k < 2 ^ k) by (unfold remainder in Hr; destruct (shr_r r), (shr_s r); lia).
    split; nia. }
  destruct m as [|q|q]; [lia| |lia].
  destruct (renormalize q (e + k) Hm' ltac:(lia)) as (q' & f & Eq & Hq' & Hf & Ev); rewrite Eq; cbn [shr_m exactly].
  exists q', f; destruct (Z.leb_spec f (EMAX - PREC)); [|unfold EMAX, PREC in *; lia].
  split_and!; [done|lia|lia|lia|lia|].
  replace (f - e) with (f - (e + k) + k) by lia; rewrite Z.pow_add_r by lia.
  by rewrite Z.mul_assoc, Ev.
Qed.

(** A number with at most 24 bits keeps its value. *)
Lemma normal_shr q e : 2 ^ 23 <= Z.pos q < 2 ^ 24 -> -149 <= e ->
  shr_fexp PREC EMAX (Z.pos q) e loc_Exact = (exactly q, e).
Proof.
  intros Hq He; unfold shr_fexp, Zdigits2; fold (digits q).
  change (shr_record_of_loc (Z.pos q) loc_Exact) with (exactly q).
  rewrite (digits_unique q 24) by lia; rewrite fexp_large by lia.
  by replace (24 + e - 24 - e) with 0 by lia.
Qed.

Lemma digits_normal p : digits p <= 24 ->
  2 ^ 23 <= Z.pos (shl (Z.to_nat (24 - digits p)) p) < 2 ^ 24.
Proof.
  intros Hd; pose proof (digits_bounds p) as [_ H]; fold (digits p) in H; apply normal_significand.
  eapply Z.lt_le_trans; [exact H|]; by apply Z.pow_le_mono_r.
Qed.

Lemma round_short s p e : digits p <= 24 -> -125 <= e + digits p <= 128 ->
  binary_round PREC EMAX s p e = S754_finite s (shl (Z.to_nat (24 - digits p)) p) (e + digits p - 24).
Proof.
  intros Hd He; pose proof (digits_normal p Hd) as Hq; set (q := shl _ p) in *.
  unfold binary_round; fold (digits p); rewrite fexp_large by lia.
  assert (shl_align p e (digits p + e - 24) = (q, e + digits p - 24)) as ->.
  { unfold shl_align, q; destruct (digits p + e - 24 - e) as [|j|j] eqn:Ej; [|lia|].
    - replace (24 - digits p) with 0 by lia; cbn; f_equal; lia.
    - rewrite iter_xO; f_equal; [f_equal; lia|lia]. }
  unfold binary_round_aux; rewrite normal_shr by lia; cbn [shr_m exactly].
  change (round_nearest_even (Z.pos q) (loc_of_shr_record (exactly q))) with (Z.pos q).
  rewrite normal_shr by lia; cbn [shr_m exactly].
  destruct (Z.leb_spec (e + digits p - 24) (EMAX - PREC)); [done|unfold EMAX, PREC in *; lia].
Qed.

(** ** Numbers that are integers *)

(** [f] stands for the integer [z]. *)
Definition integral (f : spec_float) (z : Z) : Prop :=
  match f with
  | S754_zero _ => z = 0
  | S754_finite s m e => 2 ^ 23 <= Z.pos m < 2 ^ 24 /\ -23 <= e <= 104 /\
      z * 2 ^ 23 = cond_Zopp s (Z.pos m) * 2 ^ (e + 23)
  | _ => False
  end.

Lemma integral_trunc f z : integral f z -> float_trunc f = Some z.
Proof.
  destruct f as [s|s| |s m e]; cbn [integral float_trunc]; [by intros ->|done|done|].
  intros (Hm & He & Hz).
  assert (Z.pos m * 2 ^ (e + 23) = (if s then - z else z) * 2 ^ 23) as E by (destruct s; cbn [cond_Zopp] in Hz; lia).
  f_equal; destruct (Z.leb_spec 0 e).
  - rewrite Z.pow_add_r, Z.mul_assoc in E by lia; apply Z.mul_reg_r in E; [|done]; destruct s; lia.
  - assert (Z.pos m = (if s then - z else z) * 2 ^ (- e)) as Em.
    { apply (Z.mul_reg_r _ _ (2 ^ (e + 23))); [apply Z.pow_nonzero; lia|].
      rewrite E, <- Z.mul_assoc, <- Z.pow_add_r by lia; do 2 f_equal; lia. }
    rewrite Em, Z.div_mul by (apply Z.pow_nonzero; lia); destruct s; lia.
Qed.

Lemma integral_bits f z : integral f z -> float_of_bits (float_bits f) = f.
Proof.
  destruct f as [s|s| |s m e]; cbn [integral]; [by destruct s|done|done|].
  intros (Hm & He & _); apply bits_finite; lia.
Qed.

(** An error of at most one part in [2^24]. *)
Definition near (z n : Z) : Prop := 2 ^ 24 * Z.abs (z - n) <= Z.abs n.

Lemma near_exact n : near n n.
Proof. unfold near; rewrite Z.sub_diag; cbn; lia. Qed.

Lemma integral_finite s q f z : 2 ^ 23 <= Z.pos q < 2 ^ 24 -> -23 <= f <= 104 ->
  Z.pos q * 2 ^ (f + 23) = z * 2 ^ 23 -> integral (S754_finite s q f) (if s then - z else z).
Proof. intros Hq Hf E; split_and!; try lia; rewrite <- E || idtac; destruct s; cbn [cond_Zopp]; lia. Qed.

(** The size of an integer [d] that is written as [p * 2^e]. *)
Lemma digits_scaled p e d : -23 <= e -> 0 < d < 2 ^ 64 -> Z.pos p * 2 ^ (e + 23) = d * 2 ^ 23 ->
  1 <= digits p + e <= 64.
Proof.
  intros He Hd E; pose proof (digits_bounds p) as [H1 H2]; fold (digits p) in H1, H2.
  assert (0 < digits p) by (unfold digits; lia); assert (0 < 2 ^ (e + 23)) by (apply Z.pow_pos_nonneg; lia).
  split.
  - assert (2 ^ 23 < 2 ^ (digits p + (e + 23))); [rewrite Z.pow_add_r by lia; nia|].
    assert (23 < digits p + (e + 23)) by (apply (Z.pow_lt_mono_r_iff 2); lia); lia.
  - assert (2 ^ (digits p - 1 + (e + 23)) < 2 ^ 87).
    { rewrite Z.pow_add_r by lia; change (2 ^ 87) with (2 ^ 64 * 2 ^ 23); nia. }
    assert (digits p - 1 + (e + 23) < 87) by (apply (Z.pow_lt_mono_r_iff 2); lia); lia.
Qed.

(** The error of a rounding, relative to the number. *)
Lemma near_rounded p e d q f : -23 <= e -> 24 < digits p -> e <= f -> 0 <= f ->
  Z.pos p * 2 ^ (e + 23) = d * 2 ^ 23 ->
  2 * Z.abs (Z.pos q * 2 ^ (f - e) - Z.pos p) <= 2 ^ (digits p - 24) -> near (Z.pos q * 2 ^ f) d.
Proof.
  intros He Hp Hef Hf E Hb; unfold near; pose proof (digits_bounds p) as [H1 _]; fold (digits p) in H1.
  set (w := 2 ^ (e + 23)) in *; assert (0 < w) by (apply Z.pow_pos_nonneg; lia).
  assert (Z.pos q * 2 ^ f * 2 ^ 23 = Z.pos q * 2 ^ (f - e) * w) as Ez.
  { unfold w; rewrite <- !Z.mul_assoc, <- !Z.pow_add_r by lia; do 2 f_equal; lia. }
  replace (digits p - 1) with (digits p - 24 + 23) in H1 by lia; rewrite Z.pow_add_r in H1 by lia.
  set (z := Z.pos q * 2 ^ f) in *; set (u := Z.pos q * 2 ^ (f - e)) in *; set (t := 2 ^ (digits p - 24)) in *.
  assert (Z.abs (z - d) * 2 ^ 23 = Z.abs (u - Z.pos p) * w) as Ed.
  { rewrite <- (Z.abs_eq (2 ^ 23)), <- (Z.abs_eq w), <- !Z.abs_mul by lia; f_equal; nia. }
  assert (0 < d) by nia; nia.
Qed.

(** A number below [2^24] has nothing to round, however it is written. *)
Lemma rounded_exactly p e d q f : -23 <= e -> 24 < digits p -> e + (digits p - 24) <= f < 0 ->
  Z.pos p * 2 ^ (e + 23) = d * 2 ^ 23 ->
  2 * Z.abs (Z.pos q * 2 ^ (f - e) - Z.pos p) <= 2 ^ (digits p - 24) ->
  Z.pos q * 2 ^ (f + 23) = d * 2 ^ 23.
Proof.
  intros He Hp Hf E Hb; set (k := digits p - 24) in *.
  assert (Z.pos p = d * 2 ^ (- e - k) * 2 ^ k) as Ep.
  { apply (Z.mul_reg_r _ _ (2 ^ (e + 23))); [apply Z.pow_nonzero; lia|].
    rewrite E, <- !Z.mul_assoc, <- !Z.pow_add_r by lia; do 2 f_equal; lia. }
  replace (f - e) with (f - e - k + k) in Hb by lia; rewrite Z.pow_add_r, Z.mul_assoc, Ep in Hb by lia.
  assert (0 < 2 ^ k) by (apply Z.pow_pos_nonneg; lia).
  assert (Z.pos q * 2 ^ (f - e - k) = d * 2 ^ (- e - k)) as Eq by nia.
  rewrite <- E, Ep, <- Eq, <- !Z.mul_assoc, <- !Z.pow_add_r by lia; do 2 f_equal; lia.
Qed.

Lemma round_integral s p e d : -23 <= e <= 40 -> 0 < d < 2 ^ 64 -> Z.pos p * 2 ^ (e + 23) = d * 2 ^ 23 ->
  exists z, integral (binary_round PREC EMAX s p e) (if s then - z else z) /\ near z d.
Proof.
  intros He Hd E; pose proof (digits_scaled p e d ltac:(lia) Hd E) as Hs.
  destruct (Z.le_gt_cases (digits p) 24) as [Hp|Hp].
  - exists d; split; [|apply near_exact]; rewrite round_short by lia.
    apply integral_finite; [by apply digits_normal|unfold digits in *; lia|].
    rewrite <- E, shl_value, Z2Nat.id, <- Z.mul_assoc, <- Z.pow_add_r by lia; do 2 f_equal; lia.
  - destruct (round_inexact s p e (digits p - 24) eq_refl ltac:(lia) ltac:(lia)) as (q & f & -> & Hq & Hf & Hb).
    destruct (Z.le_gt_cases 0 f) as [Hf0|Hf0].
    + exists (Z.pos q * 2 ^ f); split; [|by apply (near_rounded p e); try lia].
      apply integral_finite; [done|lia|]; rewrite <- Z.mul_assoc, <- Z.pow_add_r by lia; done.
    + exists d; split; [|apply near_exact]; apply integral_finite; [done|lia|].
      by apply (rounded_exactly p e); try lia.
Qed.

Lemma near_opp z n : near z n -> near (- z) (- n).
Proof. unfold near; intros H; replace (- z - - n) with (- (z - n)) by lia; by rewrite !Z.abs_opp. Qed.

(** The nearest number to an integer that is written as [m * 2^e]. *)
Lemma normalize_near m e d : -23 <= e <= 40 -> Z.abs d < 2 ^ 64 -> m * 2 ^ (e + 23) = d * 2 ^ 23 ->
  exists z, integral (binary_normalize PREC EMAX m e false) z /\ near z d.
Proof.
  intros He Hd E; assert (0 < 2 ^ (e + 23)) by (apply Z.pow_pos_nonneg; lia).
  destruct m as [|p|p]; cbn [binary_normalize].
  - exists 0; split; [done|]; replace d with 0 by nia; apply near_exact.
  - destruct (round_integral false p e d He) as (z & Hz & Hn); [nia|done|by exists z].
  - destruct (round_integral true p e (- d) He) as (z & Hz & Hn); [nia|nia|].
    exists (- z); split; [done|]; apply near_opp in Hn; by rewrite Z.opp_involutive in Hn.
Qed.

(** Conversion of an integer. *)
Lemma int_to_float_near n : Z.abs n < 2 ^ 64 -> exists z, integral (int_to_float n) z /\ near z n.
Proof. intros Hn; by apply normalize_near. Qed.

(** Subtraction of two numbers that are integers. *)
Lemma shl_align_value m e e' : e' <= e -> Z.pos (fst (shl_align m e e')) = Z.pos m * 2 ^ (e - e').
Proof.
  intros He; unfold shl_align; destruct (e' - e) as [|j|j] eqn:Ej; [|lia|]; cbn [fst].
  - replace (e - e') with 0 by lia; lia.
  - rewrite iter_xO, shl_value; do 2 f_equal; lia.
Qed.

Lemma integral_exponent s m e x : integral (S754_finite s m e) x -> Z.abs x < 2 ^ 63 -> e < 40.
Proof.
  intros (Hm & He & Ex) Hx.
  assert (2 ^ (23 + (e + 23)) < 2 ^ 86).
  { rewrite Z.pow_add_r by lia; change (2 ^ 86) with (2 ^ 63 * 2 ^ 23).
    assert (0 < 2 ^ (e + 23)) by (apply Z.pow_pos_nonneg; lia); destruct s; cbn [cond_Zopp] in Ex; nia. }
  assert (23 + (e + 23) < 86) by (apply (Z.pow_lt_mono_r_iff 2); lia); lia.
Qed.

Lemma integral_aligned s m e ez x : integral (S754_finite s m e) x -> -23 <= ez <= e ->
  cond_Zopp s (Z.pos (fst (shl_align m e ez))) * 2 ^ (ez + 23) = x * 2 ^ 23.
Proof.
  intros (Hm & He & Ex) Hz; rewrite Ex, shl_align_value by lia.
  replace (e + 23) with (e - ez + (ez + 23)) by lia; rewrite (Z.pow_add_r 2 (e - ez)) by lia.
  destruct s; cbn [cond_Zopp]; nia.
Qed.

Lemma float_sub_near f g x y : integral f x -> integral g y -> Z.abs x < 2 ^ 63 -> Z.abs y < 2 ^ 63 ->
  exists z, integral (float_sub f g) z /\ near z (x - y).
Proof.
  intros Hx Hy Bx By; unfold float_sub.
  destruct f as [s| | |s m e], g as [s'| | |s' m' e']; try done; cbn [SFsub].
  - exists 0; cbn in Hx, Hy; subst; split; [by destruct s, s'|apply near_exact].
  - exists (- y); cbn in Hx; subst x; change (0 - y) with (- y); split; [|apply near_exact].
    destruct Hy as (Hm & He & Ey); split_and!; try lia; destruct s'; cbn [cond_Zopp negb] in *; lia.
  - exists x; cbn in Hy; subst y; rewrite Z.sub_0_r; split; [done|apply near_exact].
  - pose proof (integral_exponent _ _ _ _ Hx Bx); pose proof (integral_exponent _ _ _ _ Hy By).
    pose proof Hx as (_ & He & _); pose proof Hy as (_ & He' & _).
    apply normalize_near; [lia|lia|].
    rewrite !Z.mul_sub_distr_r, (integral_aligned s m e _ x), (integral_aligned s' m' e' _ y) by (done || lia).
    done.
Qed.

(** A 32-bit integer goes through [float] to an unsigned one exactly when it is
    not negative. *)
Lemma float_to_u32_near n : is_s 32 n ->
  match float_to_u32 (int_to_float n) with Some z => 0 <= n /\ near z n | None => n < 0 end.
Proof.
  unfold is_s; intros Hn; destruct (int_to_float_near n) as (z & Iz & Nz); [lia|].
  unfold float_to_u32; rewrite (integral_trunc _ _ Iz); pose proof Nz as Hz; unfold near in Hz.
  unfold is_ub; destruct (Z.leb_spec 0 z), (Z.ltb_spec z (2 ^ 32)); cbn [andb]; [split; [lia|done]|lia..].
Qed.

End Float32.
