(* ===== verification/Fix32.v ===== *)
(** * Fixed-point numbers

    The macros on [FIX32] of src/include/wintab/WINTAB.H: numbers with 16 bits
    before and 16 bits after the point, in a 32-bit word.  The resolution of an
    axis and the sensitivities of a context are such numbers. *)

From S2P Require Import Prelude.

Module Fix32.

(** [HIWORD] and [LOWORD]. *)
Definition INT (x : Z) : Z := u16 (Z.shiftr (u32 x) 16).
Definition FRAC (x : Z) : Z := u16 x.

(** [CASTFIX32] of an [int]: the product with [65536L] is one of signed 32-bit
    numbers; [None] when it overflows, which the language leaves undefined. *)
Definition CASTFIX32 (x : Z) : option Z := if is_sb 32 (x * 65536) then Some (u32 (x * 65536)) else None.

Definition ROUND (x : Z) : Z := INT x + b2z (FRAC x >? 0x8000).

Definition FIX_MUL (a b : Z) : Z :=
  u32 (u32 (u32 (Z.shiftr (u32 (FRAC a * FRAC b)) 16 + u32 (INT a * FRAC b)) + u32 (INT b * FRAC a))
       + u32 (Z.shiftl (u32 (INT a * INT b)) 16)).

(** The division, one byte of the fraction at a time; [None] when it divides by
    zero. *)
Definition FIX_DIV (a b : Z) : option Z :=
  if b =? 0 then None else
    let temp := u32 (Z.shiftl (a / b) 16) in
    let rem := a mod b in
    let btemp := b in
    let '(rem, btemp) := if INT btemp <? 256 then (u32 (Z.shiftl rem 8), btemp)
                         else (rem, Z.shiftr btemp 8) in
    let temp := u32 (temp + u32 (Z.shiftl (rem / btemp) 8)) in
    let rem := rem mod btemp in
    let rem := u32 (Z.shiftl rem 8) in
    Some (u32 (temp + rem / btemp)).

(** ** The two halves *)

Lemma halves x : is_u 32 x -> x = INT x * 65536 + FRAC x /\ is_u 16 (INT x) /\ is_u 16 (FRAC x).
Proof.
  unfold INT, FRAC, is_u, u16, u32, wrap; intros Hx; rewrite Z.shiftr_div_pow2 by lia.
  change (2 ^ 16) with 65536 in *; change (2 ^ 32) with 4294967296 in *.
  rewrite (Z.mod_small x 4294967296) by lia.
  rewrite (Z.mod_small (x / 65536)) by (split; [apply Z.div_pos; lia|apply Z.div_lt_upper_bound; lia]).
  pose proof (Z.div_mod x 65536); pose proof (Z.mod_pos_bound x 65536).
  assert (0 <= x / 65536 < 65536) by (split; [apply Z.div_pos; lia|apply Z.div_lt_upper_bound; lia]).
  split_and!; lia.
Qed.

(** Sums of words are words. *)
Lemma u32_add_l x y : u32 (u32 x + y) = u32 (x + y).
Proof. unfold u32, wrap; apply Zplus_mod_idemp_l. Qed.
Lemma u32_add_r x y : u32 (x + u32 y) = u32 (x + y).
Proof. unfold u32, wrap; apply Zplus_mod_idemp_r. Qed.

Lemma u32_add_ll x y z : u32 (u32 x + y + z) = u32 (x + y + z).
Proof. by rewrite <- !Z.add_assoc, u32_add_l. Qed.
Lemma u32_add_m x y z : u32 (x + u32 y + z) = u32 (x + y + z).
Proof. by rewrite <- (u32_add_l (x + u32 y)), u32_add_r, u32_add_l. Qed.

Lemma u32_small x : 0 <= x < 2 ^ 32 -> u32 x = x.
Proof. apply Z.mod_small. Qed.

(** ** Multiplication *)

Lemma mul_exact a b : is_u 32 a -> is_u 32 b -> FIX_MUL a b = u32 (a * b / 65536).
Proof.
  intros Ha Hb; destruct (halves a Ha) as (Ea & Ia & Fa), (halves b Hb) as (Eb & Ib & Fb).
  unfold FIX_MUL; set (i := INT a) in *; set (f := FRAC a) in *; set (j := INT b) in *; set (g := FRAC b) in *.
  unfold is_u in *; change (2 ^ 16) with 65536 in *.
  rewrite !(u32_small (_ * _)) by (change (2 ^ 32) with 4294967296; nia).
  rewrite !u32_add_l, !u32_add_ll, !u32_add_r, Z.shiftl_mul_pow2, Z.shiftr_div_pow2 by lia; change (2 ^ 16) with 65536.
  f_equal; clearbody i f j g; subst a b.
  replace ((i * 65536 + f) * (j * 65536 + g)) with (f * g + (i * j * 65536 + i * g + j * f) * 65536) by ring.
  rewrite Z.div_add by lia; ring.
Qed.

(** ** Division *)

(** The next byte of a quotient. *)
Lemma next_byte x d : 0 < d -> x * 256 / d = x / d * 256 + x mod d * 256 / d.
Proof.
  intros Hd; rewrite (Z.div_mod x d) at 1 by lia.
  replace ((d * (x / d) + x mod d) * 256) with (x mod d * 256 + (x / d * 256) * d) by ring.
  rewrite Z.div_add by lia; lia.
Qed.

Lemma shl x n : 0 <= n -> Z.shiftl x n = x * 2 ^ n.
Proof. apply Z.shiftl_mul_pow2. Qed.

Lemma fraction_bound r b : 0 <= r < b -> 0 <= r * 65536 / b < 65536.
Proof. intros Hr; split; [apply Z.div_pos; lia|apply Z.div_lt_upper_bound; lia]. Qed.

Lemma whole_and_fraction a b : 0 < b -> a * 65536 / b = a / b * 65536 + a mod b * 65536 / b.
Proof.
  intros Hb; rewrite (Z.div_mod a b) at 1 by lia.
  replace ((b * (a / b) + a mod b) * 65536) with (a mod b * 65536 + (a / b * 65536) * b) by ring.
  rewrite Z.div_add by lia; lia.
Qed.

(** With a divisor below 2^24 no bit is lost. *)
Lemma div_exact a b : is_u 32 a -> 0 < b < 2 ^ 24 -> FIX_DIV a b = Some (u32 (a * 65536 / b)).
Proof.
  intros Ha Hb; unfold is_u in *; unfold FIX_DIV; destruct (Z.eqb_spec b 0); [lia|].
  assert (is_u 32 b) as Hb32 by (unfold is_u; lia).
  destruct (halves b Hb32) as (Eb & [HI _] & [HF _]).
  destruct (Z.ltb_spec (INT b) 256) as [_|HI']; [|lia]; cbv zeta.
  pose proof (Z.mod_pos_bound a b ltac:(lia)) as Hr; set (r := a mod b) in *.
  rewrite !shl by lia; change (2 ^ 8) with 256; change (2 ^ 16) with 65536.
  rewrite (u32_small (r * 256)) by lia.
  pose proof (Z.mod_pos_bound (r * 256) b ltac:(lia)) as Hr1.
  rewrite (u32_small (r * 256 mod b * 256)) by lia; rewrite u32_add_l, u32_add_ll, u32_add_m.
  rewrite whole_and_fraction by lia; fold r.
  replace (r * 65536) with (r * 256 * 256) by ring; rewrite (next_byte (r * 256) b) by lia.
  by rewrite Z.add_assoc.
Qed.

(** With a larger one eight bits of it are dropped, which costs at most one unit
    in the last place. *)
Lemma coarse_fraction r b : 2 ^ 24 <= b < 2 ^ 32 -> 0 <= r < b ->
  r * 65536 / b <= r * 256 / (b / 256) <= r * 65536 / b + 1.
Proof.
  intros Hb Hr; set (t := b / 256); assert (b = 256 * t + b mod 256) as Eb by (apply Z.div_mod; lia).
  pose proof (Z.mod_pos_bound b 256 ltac:(lia)) as He; set (e := b mod 256) in *.
  assert (65536 <= t) as Ht by (apply Z.div_le_lower_bound; lia).
  pose proof (fraction_bound r b Hr) as Hg; set (g := r * 65536 / b) in *.
  assert (r * 65536 < b * (g + 1)) as Hg1 by (unfold g; pose proof (Z.mul_succ_div_gt (r * 65536) b); lia).
  assert (b * g <= r * 65536) as Hg2 by (apply Z.mul_div_le; lia).
  assert (t * (r * 256 / t) <= r * 256) as Hf by (apply Z.mul_div_le; lia).
  split; [apply Z.div_le_lower_bound; nia|]; set (f := r * 256 / t) in *; clearbody t e g f.
  assert (256 * t * (f - g - 1) < (g + 1) * e) by nia.
  destruct (Z.le_gt_cases f (g + 1)); [done|nia].
Qed.

Lemma div_close a b : is_u 32 a -> 2 ^ 24 <= b < 2 ^ 32 ->
  exists c, FIX_DIV a b = Some c /\ a * 65536 / b <= c <= a * 65536 / b + 1.
Proof.
  intros Ha Hb; unfold is_u in *; unfold FIX_DIV; destruct (Z.eqb_spec b 0); [lia|].
  assert (is_u 32 b) as Hb32 by (unfold is_u; lia).
  destruct (halves b Hb32) as (Eb & [HI _] & [HF HF']).
  change (2 ^ 16) with 65536 in HF'; destruct (Z.ltb_spec (INT b) 256) as [HI'|_]; [lia|]; cbv zeta.
  pose proof (Z.mod_pos_bound a b ltac:(lia)) as Hr; set (r := a mod b) in *.
  rewrite !shl, Z.shiftr_div_pow2 by lia; change (2 ^ 8) with 256; change (2 ^ 16) with 65536.
  pose proof (coarse_fraction r b Hb Hr) as Hc; pose proof (fraction_bound r b Hr) as Hg.
  set (t := b / 256) in *.
  assert (65536 <= t < 2 ^ 24) as Ht by (split; [apply Z.div_le_lower_bound; lia|apply Z.div_lt_upper_bound; lia]).
  pose proof (Z.mod_pos_bound r t ltac:(lia)) as Hr1.
  rewrite (u32_small (r mod t * 256)) by lia; rewrite u32_add_l, u32_add_ll, u32_add_m.
  replace (a / b * 65536 + r / t * 256 + r mod t * 256 / t) with (a / b * 65536 + r * 256 / t)
    by (rewrite (next_byte r t) by lia; lia).
  assert (0 <= a / b < 256) by (split; [apply Z.div_pos; lia|apply Z.div_lt_upper_bound; lia]).
  rewrite u32_small by lia; eexists; split; [done|]; rewrite whole_and_fraction by lia; fold r; lia.
Qed.

(** C26: the fixed-point macros compute what they stand for.  The product is the
    exact one, rounded down to 16 bits after the point, as far as it fits into
    the word.  The quotient is exact in the same sense for divisors below 256,
    and for larger ones at most one unit in the last place too large.  Rounding
    gives a nearest integer, the smaller one of two. *)
Theorem fix32_correct (a b : Z) : is_u 32 a -> is_u 32 b ->
  FIX_MUL a b = u32 (a * b / 65536) /\
  (b = 0 -> FIX_DIV a b = None) /\
  CASTFIX32 256 = Some (2 ^ 24) /\
  (0 < b < 2 ^ 24 -> FIX_DIV a b = Some (u32 (a * 65536 / b))) /\
  (2 ^ 24 <= b -> exists c, FIX_DIV a b = Some c /\ a * 65536 / b <= c <= a * 65536 / b + 1) /\
  (a - 32768 <= ROUND a * 65536 < a + 32768).
Proof.
  intros Ha Hb; split; [|split; [|split; [|split; [|split]]]].
  - by apply mul_exact.
  - by intros ->.
  - reflexivity.
  - by apply div_exact.
  - intros Hb'; apply div_close; [done|]; unfold is_u in Hb; lia.
  - destruct (halves a Ha) as (Ea & _ & HF); unfold ROUND; unfold is_u in HF; change (2 ^ 16) with 65536 in HF.
    destruct (FRAC a >? 0x8000) eqn:E; rewrite Z.gtb_ltb in E; cbn [b2z].
    + apply Z.ltb_lt in E; lia.
    + apply Z.ltb_ge in E; lia.
Qed.

(** 2.5 times 1.5 is 3.75, and 2.5 rounds to 2; 1 by 3 is 0x5555; a quotient a
    little below 1 that comes out as 1. *)
Lemma fix32_correct_witness :
  FIX_MUL 0x28000 0x18000 = 0x3C000 /\ 0x20000 <= ROUND 0x28000 * 65536 < 0x30000 /\
  FIX_DIV 0x10000 0x30000 = Some 0x5555 /\
  exists c, FIX_DIV 0x100FF00 0x100FFFF = Some c /\ 0xFFFF <= c <= 0x10000.
Proof.
  assert (is_u 32 0x28000 /\ is_u 32 0x18000 /\ is_u 32 0x10000 /\ is_u 32 0x30000 /\
          is_u 32 0x100FF00 /\ is_u 32 0x100FFFF) as (H1 & H2 & H3 & H4 & H5 & H6) by (unfold is_u; lia).
  destruct (fix32_correct 0x28000 0x18000 H1 H2) as (HM & _ & _ & _ & _ & HR).
  destruct (fix32_correct 0x10000 0x30000 H3 H4) as (_ & _ & _ & HD & _).
  destruct (fix32_correct 0x100FF00 0x100FFFF H5 H6) as (_ & _ & _ & _ & HC & _).
  split; [exact HM|split; [lia|split]]; [apply HD; vm_compute; auto|apply HC; vm_compute; discriminate].
Defined.

End Fix32.
