(* ===== verification/Unicode.v ===== *)
(** * Unicode text: the reference encoders and decoders

    UTF-8 and UTF-16 as the Unicode standard defines them, on lists of scalar
    values.  The decoders are strict: they reject overlong forms, surrogates in
    UTF-8, unpaired surrogates in UTF-16 and anything truncated.  Both encodings
    have exactly one text per list of scalar values, so that a valid text in one
    of them determines a text in the other. *)

From S2P Require Import Prelude.

Module Unicode.

(** A code point that is not a surrogate. *)
Definition scalar (c : Z) : bool := (0 <=? c) && (c <? 0xD800) || (0xE000 <=? c) && (c <? 0x110000).

(** ** UTF-8 *)

Definition utf8_char (c : Z) : bytes :=
  if c <? 0x80 then [c]
  else if c <? 0x800 then [0xC0 + c / 64; 0x80 + c mod 64]
  else if c <? 0x10000 then [0xE0 + c / 4096; 0x80 + c / 64 mod 64; 0x80 + c mod 64]
  else [0xF0 + c / 262144; 0x80 + c / 4096 mod 64; 0x80 + c / 64 mod 64; 0x80 + c mod 64].
Definition utf8_encode (cs : list Z) : bytes := cs ≫= utf8_char.

Definition tail_byte (b : Z) : bool := (0x80 <=? b) && (b <? 0xC0).
Definition value2 (a b : Z) : Z := (a - 0xC0) * 64 + (b - 0x80).
Definition value3 (a b c : Z) : Z := (a - 0xE0) * 4096 + (b - 0x80) * 64 + (c - 0x80).
Definition value4 (a b c d : Z) : Z :=
  (a - 0xF0) * 262144 + (b - 0x80) * 4096 + (c - 0x80) * 64 + (d - 0x80).

Fixpoint utf8_decode (bs : bytes) : option (list Z) :=
  match bs with
  | [] => Some []
  | a :: r1 =>
      if (0 <=? a) && (a <? 0x80) then cons a <$> utf8_decode r1
      else
        match r1 with
        | [] => None
        | b :: r2 =>
            if (0xC2 <=? a) && (a <? 0xE0) && tail_byte b then cons (value2 a b) <$> utf8_decode r2
            else
              match r2 with
              | [] => None
              | c :: r3 =>
                  if (0xE0 <=? a) && (a <? 0xF0) && tail_byte b && tail_byte c &&
                     (0x800 <=? value3 a b c) && scalar (value3 a b c)
                  then cons (value3 a b c) <$> utf8_decode r3
                  else
                    match r3 with
                    | [] => None
                    | d :: r4 =>
                        if (0xF0 <=? a) && (a <? 0xF8) && tail_byte b && tail_byte c && tail_byte d &&
                           (0x10000 <=? value4 a b c d) && (value4 a b c d <? 0x110000)
                        then cons (value4 a b c d) <$> utf8_decode r4
                        else None
                    end
              end
        end
  end.

(** ** UTF-16 *)

Definition utf16_char (c : Z) : list Z :=
  if c <? 0x10000 then [c] else [0xD800 + (c - 0x10000) / 1024; 0xDC00 + (c - 0x10000) mod 1024].
Definition utf16_encode (cs : list Z) : list Z := cs ≫= utf16_char.

Definition pair_value (w v : Z) : Z := 0x10000 + (w - 0xD800) * 1024 + (v - 0xDC00).

Fixpoint utf16_decode (ws : list Z) : option (list Z) :=
  match ws with
  | [] => Some []
  | w :: r1 =>
      if scalar w && (w <? 0x10000) then cons w <$> utf16_decode r1
      else
        match r1 with
        | [] => None
        | v :: r2 =>
            if (0xD800 <=? w) && (w <? 0xDC00) && (0xDC00 <=? v) && (v <? 0xE000)
            then cons (pair_value w v) <$> utf16_decode r2
            else None
        end
  end.

(** ** From one encoding to the other; [None] for invalid text *)

Definition utf16_of (bs : bytes) : option (list Z) := utf16_encode <$> utf8_decode bs.
Definition utf8_of (ws : list Z) : option bytes := utf8_encode <$> utf16_decode ws.

(** ** The encodings are inverse to each other *)

(** Turn the comparisons of the goal and the context into arithmetic. *)
Ltac unicode_arith :=
  unfold scalar, tail_byte, value2, value3, value4, pair_value, is_byte, is_u in *; const_pow;
  repeat match goal with
  | H : context [_ <=? _] |- _ => rewrite ?Bool.andb_true_iff, ?Bool.orb_true_iff, ?Z.leb_le, ?Z.ltb_lt in H
  | H : context [_ <? _] |- _ => rewrite ?Bool.andb_true_iff, ?Bool.orb_true_iff, ?Z.leb_le, ?Z.ltb_lt in H
  end;
  rewrite ?Bool.andb_true_iff, ?Bool.orb_true_iff, ?Z.leb_le, ?Z.ltb_lt;
  rewrite ?Bool.andb_false_iff, ?Bool.orb_false_iff, ?Z.leb_gt, ?Z.ltb_ge;
  try (Z.div_mod_to_equations; lia).

(** Decide the condition at the head of the goal. *)
Ltac take_branch :=
  match goal with
  | |- (if ?b then _ else _) = _ => assert (b = true) as -> by unicode_arith
  | |- (if ?b then _ else _) = _ => assert (b = false) as -> by unicode_arith
  end; cbn beta iota.

Lemma utf8_decode_char c r : scalar c = true ->
  utf8_decode (utf8_char c ++ r) = cons c <$> utf8_decode r.
Proof.
  intros Hc; unfold utf8_char.
  destruct (Z.ltb_spec c 0x80); [|destruct (Z.ltb_spec c 0x800); [|destruct (Z.ltb_spec c 0x10000)]];
    cbn [app utf8_decode]; repeat take_branch; repeat f_equal; unicode_arith.
Qed.

Lemma utf16_decode_char c r : scalar c = true ->
  utf16_decode (utf16_char c ++ r) = cons c <$> utf16_decode r.
Proof.
  intros Hc; unfold utf16_char; destruct (Z.ltb_spec c 0x10000);
    cbn [app utf16_decode]; repeat take_branch; repeat f_equal; unicode_arith.
Qed.

Lemma utf8_encode_cons c cs : utf8_encode (c :: cs) = utf8_char c ++ utf8_encode cs.
Proof. done. Qed.
Lemma utf16_encode_cons c cs : utf16_encode (c :: cs) = utf16_char c ++ utf16_encode cs.
Proof. done. Qed.

Lemma utf8_decode_encode cs : Forall scalar cs -> utf8_decode (utf8_encode cs) = Some cs.
Proof.
  induction 1 as [|c cs Hc Hcs IH]; [done|]; apply Is_true_true in Hc.
  by rewrite utf8_encode_cons, utf8_decode_char, IH.
Qed.

Lemma utf16_decode_encode cs : Forall scalar cs -> utf16_decode (utf16_encode cs) = Some cs.
Proof.
  induction 1 as [|c cs Hc Hcs IH]; [done|]; apply Is_true_true in Hc.
  by rewrite utf16_encode_cons, utf16_decode_char, IH.
Qed.

(** The units a decoder consumes are those the encoder gives for the value. *)
Lemma utf8_char_2 a b : (0xC2 <=? a) && (a <? 0xE0) && tail_byte b = true ->
  scalar (value2 a b) = true /\ utf8_char (value2 a b) = [a; b].
Proof.
  intros H; split; [unicode_arith|]; unfold utf8_char; repeat take_branch; repeat f_equal; unicode_arith.
Qed.

Lemma utf8_char_3 a b c :
  (0xE0 <=? a) && (a <? 0xF0) && tail_byte b && tail_byte c &&
    (0x800 <=? value3 a b c) && scalar (value3 a b c) = true ->
  scalar (value3 a b c) = true /\ utf8_char (value3 a b c) = [a; b; c].
Proof.
  intros H; split; [unicode_arith|]; unfold utf8_char; repeat take_branch; repeat f_equal; unicode_arith.
Qed.

Lemma utf8_char_4 a b c d :
  (0xF0 <=? a) && (a <? 0xF8) && tail_byte b && tail_byte c && tail_byte d &&
    (0x10000 <=? value4 a b c d) && (value4 a b c d <? 0x110000) = true ->
  scalar (value4 a b c d) = true /\ utf8_char (value4 a b c d) = [a; b; c; d].
Proof.
  intros H; split; [unicode_arith|]; unfold utf8_char; repeat take_branch; repeat f_equal; unicode_arith.
Qed.

Lemma utf16_char_pair w v :
  (0xD800 <=? w) && (w <? 0xDC00) && (0xDC00 <=? v) && (v <? 0xE000) = true ->
  scalar (pair_value w v) = true /\ utf16_char (pair_value w v) = [w; v].
Proof.
  intros H; split; [unicode_arith|]; unfold utf16_char; repeat take_branch; repeat f_equal; unicode_arith.
Qed.

(** One more character in front of a decoded text. *)
Lemma utf8_grow (bs r : bytes) c cs :
  (forall cs', utf8_decode r = Some cs' -> Forall scalar cs' /\ utf8_encode cs' = r) ->
  scalar c = true -> utf8_char c ++ r = bs ->
  cons c <$> utf8_decode r = Some cs -> Forall scalar cs /\ utf8_encode cs = bs.
Proof.
  intros IH Hc Hbs; destruct (utf8_decode r) as [cs'|]; intros [= <-].
  destruct (IH cs' eq_refl) as [Hs He]; rewrite utf8_encode_cons, He; split; [|done].
  constructor; [by apply Is_true_true|done].
Qed.

Lemma utf8_encode_decode bs cs : utf8_decode bs = Some cs -> Forall scalar cs /\ utf8_encode cs = bs.
Proof.
  remember (length bs) as n eqn:Hn; revert bs cs Hn.
  induction (lt_wf n) as [n _ IH]; intros bs cs -> E.
  assert (forall r cs', (length r < length bs)%nat -> utf8_decode r = Some cs' ->
    Forall scalar cs' /\ utf8_encode cs' = r) as IH' by eauto; clear IH.
  destruct bs as [|a r1]; cbn [utf8_decode] in E; [by injection E as <-|].
  destruct (_ && _) eqn:H1 in E.
  { eapply utf8_grow; [| | |exact E]; [intros; apply IH'; [cbn; lia|done]|unicode_arith|].
    assert (utf8_char a = [a]) as -> by (unfold utf8_char; by take_branch); done. }
  clear H1; destruct r1 as [|b r2]; [done|]; destruct (_ && _) eqn:H2 in E.
  { apply utf8_char_2 in H2 as [Hs Hc].
    eapply utf8_grow; [|exact Hs| |exact E]; [intros; apply IH'; [cbn; lia|done]|by rewrite Hc]. }
  clear H2; destruct r2 as [|c r3]; [done|]; destruct (_ && _) eqn:H3 in E.
  { apply utf8_char_3 in H3 as [Hs Hc].
    eapply utf8_grow; [|exact Hs| |exact E]; [intros; apply IH'; [cbn; lia|done]|by rewrite Hc]. }
  clear H3; destruct r3 as [|d r4]; [done|]; destruct (_ && _) eqn:H4 in E; [|done].
  apply utf8_char_4 in H4 as [Hs Hc].
  eapply utf8_grow; [|exact Hs| |exact E]; [intros; apply IH'; [cbn; lia|done]|by rewrite Hc].
Qed.

Lemma utf16_grow (ws r : list Z) c cs :
  (forall cs', utf16_decode r = Some cs' -> Forall scalar cs' /\ utf16_encode cs' = r) ->
  scalar c = true -> utf16_char c ++ r = ws ->
  cons c <$> utf16_decode r = Some cs -> Forall scalar cs /\ utf16_encode cs = ws.
Proof.
  intros IH Hc Hws; destruct (utf16_decode r) as [cs'|]; intros [= <-].
  destruct (IH cs' eq_refl) as [Hs He]; rewrite utf16_encode_cons, He; split; [|done].
  constructor; [by apply Is_true_true|done].
Qed.

Lemma utf16_encode_decode ws cs : utf16_decode ws = Some cs -> Forall scalar cs /\ utf16_encode cs = ws.
Proof.
  remember (length ws) as n eqn:Hn; revert ws cs Hn.
  induction (lt_wf n) as [n _ IH]; intros ws cs -> E.
  assert (forall r cs', (length r < length ws)%nat -> utf16_decode r = Some cs' ->
    Forall scalar cs' /\ utf16_encode cs' = r) as IH' by eauto; clear IH.
  destruct ws as [|w r1]; cbn [utf16_decode] in E; [by injection E as <-|].
  destruct (_ && _) eqn:H1 in E.
  { eapply utf16_grow; [| | |exact E]; [intros; apply IH'; [cbn; lia|done]|unicode_arith|].
    assert (utf16_char w = [w]) as -> by (unfold utf16_char; by take_branch); done. }
  clear H1; destruct r1 as [|v r2]; [done|]; destruct (_ && _) eqn:H2 in E; [|done].
  apply utf16_char_pair in H2 as [Hs Hc].
  eapply utf16_grow; [|exact Hs| |exact E]; [intros; apply IH'; [cbn; lia|done]|by rewrite Hc].
Qed.

(** ** What the conversions preserve *)

Lemma utf8_of_utf16_of bs ws : utf16_of bs = Some ws -> utf8_of ws = Some bs.
Proof.
  unfold utf16_of, utf8_of; destruct (utf8_decode bs) as [cs|] eqn:E; intros [= <-].
  apply utf8_encode_decode in E as [Hs <-]; by rewrite utf16_decode_encode.
Qed.

Lemma utf16_of_utf8_of ws bs : utf8_of ws = Some bs -> utf16_of bs = Some ws.
Proof.
  unfold utf16_of, utf8_of; destruct (utf16_decode ws) as [cs|] eqn:E; intros [= <-].
  apply utf16_encode_decode in E as [Hs <-]; by rewrite utf8_decode_encode.
Qed.

Lemma utf16_units bs ws : utf16_of bs = Some ws -> Forall (is_u 16) ws.
Proof.
  unfold utf16_of; destruct (utf8_decode bs) as [cs|] eqn:E; intros [= <-].
  apply utf8_encode_decode in E as [Hs _]; apply Forall_bind.
  eapply Forall_impl; [exact Hs|]; intros c Hc; apply Is_true_true in Hc; unfold compose, utf16_char.
  destruct (Z.ltb_spec c 0x10000); repeat (apply Forall_cons_2 || apply Forall_nil_2); unicode_arith.
Qed.

Lemma utf8_bytes ws bs : utf8_of ws = Some bs -> Forall is_byte bs.
Proof.
  unfold utf8_of; destruct (utf16_decode ws) as [cs|] eqn:E; intros [= <-].
  apply utf16_encode_decode in E as [Hs _]; apply Forall_bind.
  eapply Forall_impl; [exact Hs|]; intros c Hc; apply Is_true_true in Hc; unfold compose, utf8_char.
  destruct (Z.ltb_spec c 0x80); [|destruct (Z.ltb_spec c 0x800); [|destruct (Z.ltb_spec c 0x10000)]];
    repeat (apply Forall_cons_2 || apply Forall_nil_2); unicode_arith.
Qed.

(** No scalar value has more units in UTF-16 than bytes in UTF-8, nor more than
    three times as many bytes as units. *)
Lemma encoded_lengths cs : Forall scalar cs ->
  (length (utf16_encode cs) <= length (utf8_encode cs) <= 3 * length (utf16_encode cs))%nat.
Proof.
  induction 1 as [|c cs Hc Hcs IH]; [done|].
  rewrite utf8_encode_cons, utf16_encode_cons, !length_app; unfold utf8_char, utf16_char.
  destruct (Z.ltb_spec c 0x80), (Z.ltb_spec c 0x800), (Z.ltb_spec c 0x10000); cbn [length]; lia.
Qed.

Lemma utf16_of_length bs ws : utf16_of bs = Some ws -> (length ws <= length bs <= 3 * length ws)%nat.
Proof.
  unfold utf16_of; destruct (utf8_decode bs) as [cs|] eqn:E; intros [= <-].
  apply utf8_encode_decode in E as [Hs <-]; by apply encoded_lengths.
Qed.

(** Text in the ASCII range is the same in both. *)
Lemma utf16_ascii bs : Forall (is_u 7) bs -> utf16_of bs = Some bs.
Proof.
  intros Hb; unfold utf16_of; assert (utf8_decode bs = Some bs) as ->.
  { induction Hb as [|b bs Hb Hbs IH]; [done|]; cbn [utf8_decode]; take_branch; by rewrite IH. }
  cbn; f_equal; induction Hb as [|b bs Hb Hbs IH]; [done|].
  rewrite utf16_encode_cons, IH; assert (utf16_char b = [b]) as -> by (unfold utf16_char; by take_branch); done.
Qed.

End Unicode.
