(* ===== verification/Utf8.v ===== *)
(** * Text conversion (src/src/utf8.cpp)

    [from_utf8] and [to_utf8] call a Win32 conversion twice: once without a
    buffer for the size, once with a string of that size.  The Win32 functions
    are an interface, [CodePage], with the code page and the flags among the
    arguments; [CodePageSpec] states their documented behaviour for the code page
    and the flags the program passes, and for no others: the conversions of
    Unicode, and failure on invalid text. *)

From S2P Require Import Prelude Unicode.
Import Unicode.

Definition CP_UTF8 : Z := 65001.
Definition MB_ERR_INVALID_CHARS : Z := 0x8.
Definition WC_ERR_INVALID_CHARS : Z := 0x80.

(** A call converts a source of [len] units into a buffer of [cap] units; it
    returns its count and the units it wrote to the start of the buffer.  With
    a capacity of 0 it only computes the size. *)
Class CodePage := {
  MultiByteToWideChar : forall (codepage flags : Z) (src : bytes) (len cap : Z), Z * list Z;
  WideCharToMultiByte : forall (codepage flags : Z) (src : list Z) (len cap : Z), Z * bytes
}.

Section convert.
Context (call : list Z -> Z -> Z -> Z * list Z).

(** The body the two functions share: [convert(nullptr, 0)], then
    [result.resize_and_overwrite(size, convert)].  A negative count is a size no
    string can have.  The callback must not return more than [size], and the
    units it returns must have been written. *)
Definition convert_twice {S} (src : list Z) : ST S (list Z) :=
  match src with
  | [] => st_ret []
  | _ =>
      let len := s32 (u32 (Z.of_nat (length src))) in
      let '(size, _) := call src len 0 in
      let '(count, written) := call src len size in
      if size <? 0 then throw (LogicError "string too long")
      else if (count <? 0) || (size <? count) then undef OutOfBounds
      else if Z.of_nat (length written) <? count then undef OutOfBounds
      else st_ret (take (Z.to_nat count) written)
  end.
End convert.

Definition from_utf8 `{CodePage} {S} (utf8 : bytes) : ST S (list Z) :=
  convert_twice (MultiByteToWideChar CP_UTF8 MB_ERR_INVALID_CHARS) utf8.
Definition to_utf8 `{CodePage} {S} (w : list Z) : ST S bytes :=
  convert_twice (WideCharToMultiByte CP_UTF8 WC_ERR_INVALID_CHARS) w.

(** What Win32 documents of one conversion: the size query returns the number
    of units, a call with a buffer of that size writes them and returns their
    number; the query returns 0 for invalid text when it was asked to fail on
    it. *)
Record Converts (call : list Z -> Z -> Z -> Z * list Z) (f : list Z -> option (list Z)) : Prop := {
  convert_query : forall src, src <> [] ->
    fst (call src (Z.of_nat (length src)) 0) = Z.of_nat (length (default [] (f src)));
  convert_write : forall src dst, src <> [] -> f src = Some dst -> dst <> [] ->
    call src (Z.of_nat (length src)) (Z.of_nat (length dst)) = (Z.of_nat (length dst), dst)
}.

Class CodePageSpec `{CodePage} : Prop := {
  mb_converts : Converts (MultiByteToWideChar CP_UTF8 MB_ERR_INVALID_CHARS) utf16_of;
  wc_converts : Converts (WideCharToMultiByte CP_UTF8 WC_ERR_INVALID_CHARS) utf8_of
}.

(** ** The double call returns the whole converted text, or nothing *)

Lemma convert_twice_spec call f {S} (src : list Z) (s : S) :
  Converts call f -> Z.of_nat (length src) < 2 ^ 31 ->
  f [] = Some [] ->
  convert_twice call src s = Ret (default [] (f src)) s.
Proof.
  intros [Hq Hw] Hlen Hnil; unfold convert_twice.
  destruct src as [|b src']; [by rewrite Hnil|].
  set (src := b :: src') in *.
  assert (s32 (u32 (Z.of_nat (length src))) = Z.of_nat (length src)) as ->.
  { change (2 ^ 31) with 2147483648 in Hlen; cint_lia. }
  destruct (call src (Z.of_nat (length src)) 0) as [size c0] eqn:E0.
  pose proof (Hq src) as Hsize; rewrite E0 in Hsize; cbn [fst] in Hsize.
  specialize (Hsize ltac:(done)); subst size.
  destruct (f src) as [[|w ws]|] eqn:Ef; cbn [from_option id] in *.
  - change (Z.of_nat (length [])) with 0 in *; rewrite E0; cbn [Z.ltb Z.compare orb].
    destruct (Z.ltb_spec (Z.of_nat (length c0)) 0); [lia|done].
  - rewrite (Hw src (w :: ws)) by done.
    destruct (Z.ltb_spec (Z.of_nat (length (w :: ws))) 0); [lia|].
    rewrite !Z.ltb_irrefl, Nat2Z.id; by rewrite take_ge by done.
  - change (Z.of_nat (length [])) with 0 in *; rewrite E0; cbn [Z.ltb Z.compare orb].
    destruct (Z.ltb_spec (Z.of_nat (length c0)) 0); [lia|done].
Qed.

Section spec.
Context `{CodePageSpec}.

Lemma from_utf8_spec {S} (b : bytes) (s : S) : Z.of_nat (length b) < 2 ^ 31 ->
  from_utf8 b s = Ret (default [] (utf16_of b)) s.
Proof. intros; apply convert_twice_spec; auto using mb_converts. Qed.

Lemma to_utf8_spec {S} (w : list Z) (s : S) : Z.of_nat (length w) < 2 ^ 31 ->
  to_utf8 w s = Ret (default [] (utf8_of w)) s.
Proof. intros; apply convert_twice_spec; auto using wc_converts. Qed.

Lemma from_utf8_units b : Forall (is_u 16) (default [] (utf16_of b)).
Proof. destruct (utf16_of b) eqn:E; cbn; [by eapply utf16_units|constructor]. Qed.
End spec.

(** ** A code page that behaves as documented

    Used to show that the hypotheses on [CodePage] can hold. *)

Module Sample.
Definition call (f : list Z -> option (list Z)) (src : list Z) (len cap : Z) : Z * list Z :=
  let dst := default [] (f src) in
  let n := Z.of_nat (length dst) in
  if cap =? 0 then (n, []) else if cap <? n then (0, []) else (n, dst).

(** Only UTF-8, and only with the flag that rejects invalid text. *)
Definition codepage : CodePage := {|
  MultiByteToWideChar cp flags src len cap :=
    if (cp =? CP_UTF8) && (flags =? MB_ERR_INVALID_CHARS) then call utf16_of src len cap else (0, []);
  WideCharToMultiByte cp flags src len cap :=
    if (cp =? CP_UTF8) && (flags =? WC_ERR_INVALID_CHARS) then call utf8_of src len cap else (0, [])
|}.

Lemma call_converts f : Converts (call f) f.
Proof.
  split; [done|]; intros src dst _ Hf Hd; unfold call; rewrite Hf; cbn [from_option id].
  destruct dst as [|d dst]; [done|]; rewrite Z.ltb_irrefl.
  by destruct (Z.eqb_spec (Z.of_nat (length (d :: dst))) 0).
Qed.

Definition spec : @CodePageSpec codepage := @Build_CodePageSpec codepage (call_converts _) (call_converts _).

(** A name with an accent, and one cut in the middle of it. *)
Definition text : bytes := str "Stylet num" ++ [0xC3; 0xA9] ++ str "rique".
Definition cut : bytes := str "Stylet num" ++ [0xC3].
End Sample.

(** ** Properties *)

(** The conversions are those of Unicode.  For every text of less than 2^31
    units the double call does nothing undefined and returns what the reference
    decoder and encoder give: the whole text when it is valid, and the empty
    text, without an error, when it is not. *)
Theorem utf8_reference {HC : CodePage} {HS : CodePageSpec} {S : Type} (text : bytes) (wide : list Z) (s : S) :
  Z.of_nat (length text) < 2 ^ 31 -> Z.of_nat (length wide) < 2 ^ 31 ->
  from_utf8 text s = Ret (match utf8_decode text with Some cs => utf16_encode cs | None => [] end) s /\
  to_utf8 wide s = Ret (match utf16_decode wide with Some cs => utf8_encode cs | None => [] end) s.
Proof.
  intros Ht Hw; rewrite from_utf8_spec, to_utf8_spec by done; unfold utf16_of, utf8_of.
  by destruct (utf8_decode text), (utf16_decode wide).
Qed.

Lemma utf8_reference_witness :
  @from_utf8 Sample.codepage unit Sample.text tt = Ret (str "Stylet num" ++ [0xE9] ++ str "rique") tt /\
  @to_utf8 Sample.codepage unit [0xD83D; 0xDE00] tt = Ret [0xF0; 0x9F; 0x98; 0x80] tt.
Proof. by apply (@utf8_reference Sample.codepage Sample.spec unit Sample.text [0xD83D; 0xDE00] tt). Defined.

(** C17: converting there and back.  A text that is valid UTF-8 comes back unchanged
    from a conversion to UTF-16 and back, and a text that is valid UTF-16 from
    one to UTF-8 and back; an invalid one, such as a name cut in the middle of a
    character, comes back empty, without an error, in either direction. *)
Theorem utf8_roundtrip {HC : CodePage} {HS : CodePageSpec} {S : Type} (text : bytes) (wide : list Z) (s : S) :
  Z.of_nat (length text) < 2 ^ 31 -> 3 * Z.of_nat (length wide) < 2 ^ 31 ->
  (let* w := from_utf8 text in to_utf8 w) s =
    Ret (if decide (is_Some (utf8_decode text)) then text else []) s /\
  (let* t := to_utf8 wide in from_utf8 t) s =
    Ret (if decide (is_Some (utf16_decode wide)) then wide else []) s.
Proof.
  intros Ht Hw; unfold st_bind; split.
  - rewrite from_utf8_spec by lia; assert (forall w, utf16_of text = Some w -> Z.of_nat (length w) < 2 ^ 31) as Hl
      by (intros w E; apply utf16_of_length in E; lia).
    destruct (utf16_of text) as [w|] eqn:E; cbn [from_option id].
    + rewrite to_utf8_spec by auto; rewrite (utf8_of_utf16_of _ _ E); unfold utf16_of in E.
      destruct (utf8_decode text); [by rewrite decide_True by eauto|done].
    + unfold utf16_of in E; rewrite to_utf8_spec by done; cbn.
      destruct (utf8_decode text); [done|by rewrite decide_False by (intros [? ?]; done)].
  - rewrite to_utf8_spec by lia; destruct (utf8_of wide) as [t|] eqn:E; cbn [from_option id].
    + pose proof (utf16_of_utf8_of _ _ E) as E'; pose proof (utf16_of_length _ _ E').
      rewrite from_utf8_spec, E' by lia; unfold utf8_of in E.
      destruct (utf16_decode wide); [by rewrite decide_True by eauto|done].
    + unfold utf8_of in E; rewrite from_utf8_spec by done; cbn.
      destruct (utf16_decode wide); [done|by rewrite decide_False by (intros [? ?]; done)].
Qed.

Lemma utf8_roundtrip_witness :
  ((let* w := @from_utf8 Sample.codepage _ Sample.text in @to_utf8 Sample.codepage _ w) tt = Ret Sample.text tt /\
   (let* t := @to_utf8 Sample.codepage _ [0xD83D; 0xDE00] in @from_utf8 Sample.codepage _ t) tt =
     Ret [0xD83D; 0xDE00] tt) /\
  ((let* w := @from_utf8 Sample.codepage _ Sample.cut in @to_utf8 Sample.codepage _ w) tt = Ret [] tt /\
   (let* t := @to_utf8 Sample.codepage _ [0xD83D] in @from_utf8 Sample.codepage _ t) tt = Ret [] tt).
Proof.
  split; [exact (@utf8_roundtrip Sample.codepage Sample.spec unit Sample.text [0xD83D; 0xDE00] tt eq_refl eq_refl)
         |exact (@utf8_roundtrip Sample.codepage Sample.spec unit Sample.cut [0xD83D] tt eq_refl eq_refl)].
Defined.
