(* ===== verification/V1Server.v ===== *)
(** * The OTD-IPC v1 server (src/src/V1Server.cpp)

    The server offers a named pipe to one client, sends it the device and the
    pen state it is given, and a ping every second.  The state of the object is
    [V1Server]; the pipe functions of Win32 are the interface [PipeOS], which
    answers a call from the calls made so far, so that quantifying over it
    covers every behaviour of the pipe.  Every call is recorded in [trace]. *)

From S2P Require Import Prelude Layout V2Messages V1Messages Unicode Utf8.

Module V1Server.

(** ** Synthesized USB identifiers *)

Definition OffsetBasis : Z := 0x811c9dc5.
Definition Prime : Z := 0x01000193.

(** One round of the loop: [hash ^= c; hash *= Prime] in [uint32_t]. *)
Definition fnv_round (hash c : Z) : Z := u32 ((hash .^ c) * Prime).

Definition fnv1a (persistentId : bytes) : Z := fold_left fnv_round persistentId OffsetBasis.

Definition SynthesizeVidPid (persistentId : bytes) : Z * Z :=
  let hash := fnv1a persistentId in
  (u16 (hash .& 0xFFFF), u16 ((hash >> 16) .& 0xFFFF)).

(** [CreateMessage<T>(vid, pid)]: a zero message with its header filled in;
    the header is the part that does not depend on [T] beyond its
    [MESSAGE_TYPE] and its size. *)
Definition create_header (mt sz vid pid : Z) : V1.Header := V1.mkHeader mt (u32 sz) vid pid.

Definition CreateDeviceInfo (vid pid : Z) : V1.DeviceInfo :=
  let z := V1.zero_DeviceInfo in
  V1.mkDeviceInfo (create_header V1.MT_DeviceInfo (sizeof V1.DeviceInfo) vid pid)
    (V1.isValid z) (V1.maxX z) (V1.maxY z) (V1.maxPressure z) (V1.name z).

Definition CreateState (vid pid : Z) : V1.State :=
  V1.mkState (create_header V1.MT_State (sizeof V1.State) vid pid)
    false 0 0 false 0 false 0 false 0 false 0 false.

Definition CreatePing (vid pid : Z) : V1.Ping :=
  V1.mkPing (create_header V1.MT_Ping (sizeof V1.Ping) vid pid) 0.

(** ** The object and its environment *)

(** The name of the pipe (NamedPipePath.hpp), with the backslashes written as
    character codes; the wide string has the same characters. *)
Definition NamedPipePathA : bytes :=
  [92; 92; 46; 92] ++ str "pipe" ++ [92] ++ str "com.fredemmott.openkneeboard.OTDIPC/v0.1".
Definition NamedPipePathW : list Z := NamedPipePathA.

(** The arguments of [CreateNamedPipeW]; the security attributes are null. *)
Record pipe_args := mkPipeArgs {
  lpName : list Z;
  dwOpenMode : Z;
  dwPipeMode : Z;
  nMaxInstances : Z;
  nOutBufferSize : Z;
  nInBufferSize : Z;
  nDefaultTimeOut : Z
}.

Definition PIPE_ACCESS_DUPLEX : Z := 0x3.
Definition FILE_FLAG_FIRST_PIPE_INSTANCE : Z := 0x80000.
Definition PIPE_WAIT : Z := 0x0.
Definition PIPE_READMODE_MESSAGE : Z := 0x2.
Definition PIPE_TYPE_MESSAGE : Z := 0x4.
Definition PIPE_REJECT_REMOTE_CLIENTS : Z := 0x8.

(** The pipe that [AcceptOnce] creates. *)
Definition server_pipe : pipe_args :=
  mkPipeArgs NamedPipePathW (PIPE_ACCESS_DUPLEX .| FILE_FLAG_FIRST_PIPE_INSTANCE)
    (PIPE_TYPE_MESSAGE .| PIPE_READMODE_MESSAGE .| PIPE_WAIT .| PIPE_REJECT_REMOTE_CLIENTS)
    1 8192 0 0.

Inductive event :=
  | ECreateNamedPipe (args : pipe_args) (r : Z + Z)  (* inl: GetLastError(), inr: the pipe *)
  | EConnectNamedPipe (pipe : Z) (err : option Z)
  | EPeekNamedPipe (pipe : Z) (ok : bool)
  | EWriteFile (pipe : Z) (data : bytes) (written : option Z)
  | ECloseHandle (pipe : Z)
  | ESleep (ms : Z)
  | EStopRequested (b : bool).

Class PipeOS := {
  os_create_pipe : pipe_args -> list event -> Z + Z;
  os_connect_pipe : list event -> Z -> option Z;
  os_peek_pipe : list event -> Z -> bool;
  os_write_file : list event -> Z -> bytes -> option Z;
  os_stop_requested : list event -> bool
}.

Record V1Server := mkV1Server {
  mPipe : option Z;
  mV1Device : V1.DeviceInfo;
  mV1State : V1.State;
  mPingSequenceNumber : Z;
  trace : list event
}.

Definition new_V1Server : V1Server :=
  mkV1Server None V1.zero_DeviceInfo V1.zero_State 0 [].

Definition set_mPipe (p : option Z) (s : V1Server) : V1Server :=
  mkV1Server p (mV1Device s) (mV1State s) (mPingSequenceNumber s) (trace s).
Definition set_mV1Device (d : V1.DeviceInfo) (s : V1Server) : V1Server :=
  mkV1Server (mPipe s) d (mV1State s) (mPingSequenceNumber s) (trace s).
Definition set_mV1State (st : V1.State) (s : V1Server) : V1Server :=
  mkV1Server (mPipe s) (mV1Device s) st (mPingSequenceNumber s) (trace s).
Definition set_mPing (n : Z) (s : V1Server) : V1Server :=
  mkV1Server (mPipe s) (mV1Device s) (mV1State s) n (trace s).
Definition log (e : event) (s : V1Server) : V1Server :=
  mkV1Server (mPipe s) (mV1Device s) (mV1State s) (mPingSequenceNumber s) (trace s ++ [e]).

(** [mPipe.reset()] and [mPipe = std::move(pipe)]: the handle held so far is
    closed. *)
Definition close_pipe (s : V1Server) : V1Server :=
  match mPipe s with
  | Some h => log (ECloseHandle h) s
  | None => s
  end.
Definition reset_mPipe : ST V1Server unit := modify (fun s => set_mPipe None (close_pipe s)).
Definition move_to_mPipe (pipe : Z) : ST V1Server unit :=
  modify (fun s => set_mPipe (Some pipe) (close_pipe s)).

Definition ERROR_ACCESS_DENIED : Z := 5.
Definition ERROR_PIPE_BUSY : Z := 231.
Definition ERROR_PIPE_CONNECTED : Z := 535.

Section server.
Context {HA : Arch} {HP : PipeOS} {HC : CodePage} (pad : nat -> Z).

(** A call to the environment: its answer is a function of the calls so far
    and is recorded. *)
Definition ask {A} (f : list event -> A) (e : A -> event) : ST V1Server A :=
  fun s => let a := f (trace s) in Ret a (log (e a) s).

Definition stop_requested : ST V1Server bool := ask os_stop_requested EStopRequested.
Definition sleep_for (ms : Z) : ST V1Server unit := modify (log (ESleep ms)).

Definition SendRaw (data : bytes) (size : Z) : ST V1Server bool :=
  if negb (size_at data =? size) then throw (LogicError "header size mismatch")
  else
    let* pipe := gets mPipe in
    match pipe with
    | None => st_ret false
    | Some h =>
        let buf := take (Z.to_nat (u32 size)) data in
        let* r := ask (fun t => os_write_file t h buf) (EWriteFile h buf) in
        match r with
        | None => reset_mPipe ;; st_ret false
        | Some written => st_ret (written =? size)
        end
    end.

Definition Send {T} `{Wire T} (data : T) : ST V1Server bool :=
  SendRaw (encode pad data) (sizeof T).

Definition SetDevice (device : V2.DeviceInfo) : ST V1Server unit :=
  let '(vid, pid) := SynthesizeVidPid (V2.GetPersistentId device) in
  let d := CreateDeviceInfo vid pid in
  let d := V1.mkDeviceInfo (V1.di_header d) true (V2.maxX device) (V2.maxY device)
             (V2.maxPressure device) (V1.name d) in
  modify (set_mV1Device d) ;;
  let* name := from_utf8 (V2.GetName device) in
  let d := V1.mkDeviceInfo (V1.di_header d) (V1.isValid d) (V1.maxX d) (V1.maxY d)
             (V1.maxPressure d) (fill_copy V1.NAME_LENGTH name) in
  modify (set_mV1Device d) ;;
  let* _ := Send d in
  st_ret tt.

(** The v1 state built from a v2 state. *)
Definition convert_state (vid pid : Z) (state : V2.State) : V1.State :=
  let z := CreateState vid pid in
  let positionValid := V2.HasData state V2.ValidMask.Position in
  let pressureValid := V2.HasData state V2.ValidMask.Pressure in
  let penButtonsValid := V2.HasData state V2.ValidMask.PenButtons in
  let auxButtonsValid := V2.HasData state V2.ValidMask.AuxButtons in
  let hasProximityData := V2.HasData state V2.ValidMask.PenIsNearSurface
    || V2.HasData state V2.ValidMask.HoverDistance in
  V1.mkState (V1.st_header z)
    positionValid
    (if positionValid then V2.x state else V1.x z)
    (if positionValid then V2.y state else V1.y z)
    pressureValid
    (if pressureValid then V2.pressure state else V1.pressure z)
    penButtonsValid
    (if penButtonsValid then u32 (V2.penButtons state .& u32 (Z.lnot 1)) else V1.penButtons z)
    auxButtonsValid
    (if auxButtonsValid then V2.auxButtons state else V1.auxButtons z)
    hasProximityData
    (if hasProximityData then V2.hoverDistance state else V1.hoverDistance z)
    (if hasProximityData then V2.penIsNearSurface state else V1.nearProximity z).

Definition SetState (state : V2.State) : ST V1Server unit :=
  let* d := gets mV1Device in
  let st := convert_state (V1.vid (V1.di_header d)) (V1.pid (V1.di_header d)) state in
  modify (set_mV1State st) ;;
  let* _ := Send st in
  st_ret tt.

(** [mPipe.get()], the invalid handle when the member is empty. *)
Definition INVALID_HANDLE_VALUE : Z := -1.
Definition pipe_get (pipe : option Z) : Z := default INVALID_HANDLE_VALUE pipe.

(** One round of [while (!st.stop_requested() && mPipe)] of [AcceptOnce]: the
    condition and the sleep, after which [mPipe] is read again for the peek.  The
    results say whether the loop goes on. *)
Definition WatchCheck : ST V1Server bool :=
  let* stop := stop_requested in
  let* pipe := gets mPipe in
  match stop, pipe with
  | false, Some _ => sleep_for 100 ;; st_ret true
  | _, _ => st_ret false
  end.
Definition PeekOnce : ST V1Server bool :=
  let* pipe := gets mPipe in
  ask (fun t => os_peek_pipe t (pipe_get pipe)) (EPeekNamedPipe (pipe_get pipe)).
Definition WatchOnce : ST V1Server bool :=
  let* more := WatchCheck in if more then PeekOnce else st_ret false.

Fixpoint WatchPipe (fuel : nat) : ST V1Server unit :=
  match fuel with
  | O => nofuel
  | S fuel => let* more := WatchOnce in if more then WatchPipe fuel else st_ret tt
  end.

(** [AcceptOnce] up to the loop: the pipe is created, a client connects to it, the
    member takes it over and the device is sent.  [None] and [false] are the early
    returns. *)
Definition CreatePipe : ST V1Server (option Z) :=
  let* r := ask (os_create_pipe server_pipe) (ECreateNamedPipe server_pipe) in
  match r with
  | inl error =>
      if (error =? ERROR_ACCESS_DENIED) || (error =? ERROR_PIPE_BUSY)
      then sleep_for 1000 ;; st_ret None
      else throw (win32_error error)
  | inr pipe => st_ret (Some pipe)
  end.
Definition ConnectPipe (pipe : Z) : ST V1Server bool :=
  let* r := ask (fun t => os_connect_pipe t pipe) (EConnectNamedPipe pipe) in
  let connected := match r with
                   | None => true
                   | Some error => error =? ERROR_PIPE_CONNECTED
                   end in
  if connected then st_ret true else modify (log (ECloseHandle pipe)) ;; st_ret false.
Definition GreetClient : ST V1Server unit :=
  let* d := gets mV1Device in
  when (V1.isValid d) (let* _ := Send d in st_ret tt).

Definition AcceptClient : ST V1Server bool :=
  let* created := CreatePipe in
  match created with
  | None => st_ret false
  | Some pipe =>
      let* connected := ConnectPipe pipe in
      if connected then move_to_mPipe pipe ;; GreetClient ;; st_ret true else st_ret false
  end.

Definition AcceptOnce (fuel : nat) : ST V1Server unit :=
  let* connected := AcceptClient in
  if connected then WatchPipe fuel ;; reset_mPipe else st_ret tt.

(** The loops of the two threads, at most [n] rounds. *)
Fixpoint AcceptLoop (n fuel : nat) : ST V1Server unit :=
  match n with
  | O => nofuel
  | S n =>
      let* stop := stop_requested in
      if stop then st_ret tt else AcceptOnce fuel ;; AcceptLoop n fuel
  end.

Definition PingOnce : ST V1Server unit :=
  sleep_for 1000 ;;
  let* s := gets id in
  let h := V1.di_header (mV1Device s) in
  let seq := size_t (mPingSequenceNumber s + 1) in
  modify (set_mPing seq) ;;
  let msg := CreatePing (V1.vid h) (V1.pid h) in
  let* _ := Send (V1.mkPing (V1.ping_header msg) seq) in
  st_ret tt.

Fixpoint PingLoop (n : nat) : ST V1Server unit :=
  match n with
  | O => nofuel
  | S n =>
      let* stop := stop_requested in
      if stop then st_ret tt else PingOnce ;; PingLoop n
  end.

(** [Stop()]; the two arguments are what the threads of the server do until the
    ping thread, and then the accept thread, has been joined. *)
Definition Stop (join_ping join_accept : ST V1Server unit) : ST V1Server unit :=
  join_ping ;; join_accept ;; reset_mPipe.
End server.

(** ** The threads

    The accept thread, the ping thread and the caller of [SetDevice] and
    [SetState] share the object.  A step is one message sent by the caller, one
    ping, or one part of [AcceptOnce], in any order: the creation of a pipe, the
    connection, the move into the member, the send of the device, the condition of
    the loop, the peek after the sleep, and the reset.  A send, from its look at
    [mPipe] to the reset after a failed write, is one step; Races takes it
    apart. *)

(** Where the accept thread is. *)
Inductive phase :=
  | Accepting | Created (pipe : Z) | Connected (pipe : Z) | Greeting | Watching | Dozing | Leaving | Exited.

(** What a step does: a call of the caller, a new client, or anything else the
    other threads do. *)
Inductive label := LDevice (d : V2.DeviceInfo) | LState (st : V2.State) | LAccept | LOther.
Definition by_caller (l : label) : bool := match l with LAccept | LOther => false | _ => true end.

Inductive lstep `{Arch} `{PipeOS} `{CodePage} (pad : nat -> Z) :
    label -> V1Server * phase -> V1Server * phase -> Prop :=
  | step_set_device d s s' p : V2.deviceinfo_wf d ->
      SetDevice pad d s = Ret tt s' -> lstep pad (LDevice d) (s, p) (s', p)
  | step_set_state st s s' p : V2.state_wf st ->
      SetState pad st s = Ret tt s' -> lstep pad (LState st) (s, p) (s', p)
  | step_ping s s' p : PingOnce pad s = Ret tt s' -> lstep pad LOther (s, p) (s', p)
  | step_create r s s' : CreatePipe s = Ret r s' ->
      lstep pad LOther (s, Accepting) (s', match r with Some pipe => Created pipe | None => Accepting end)
  | step_connect pipe (b : bool) s s' : ConnectPipe pipe s = Ret b s' ->
      lstep pad LOther (s, Created pipe) (s', if b then Connected pipe else Accepting)
  | step_publish pipe s s' : move_to_mPipe pipe s = Ret tt s' ->
      lstep pad LAccept (s, Connected pipe) (s', Greeting)
  | step_greet s s' : GreetClient pad s = Ret tt s' -> lstep pad LOther (s, Greeting) (s', Watching)
  | step_check (b : bool) s s' : WatchCheck s = Ret b s' ->
      lstep pad LOther (s, Watching) (s', if b then Dozing else Leaving)
  | step_peek (b : bool) s s' : PeekOnce s = Ret b s' ->
      lstep pad LOther (s, Dozing) (s', if b then Watching else Leaving)
  | step_leave s s' : reset_mPipe s = Ret tt s' -> lstep pad LOther (s, Leaving) (s', Accepting)
  | step_running s s' : stop_requested s = Ret false s' -> lstep pad LOther (s, Accepting) (s', Accepting)
  | step_exit s s' : stop_requested s = Ret true s' -> lstep pad LOther (s, Accepting) (s', Exited)
  | step_stop s s' : reset_mPipe s = Ret tt s' -> lstep pad LOther (s, Exited) (s', Exited).

Definition step `{Arch} `{PipeOS} `{CodePage} (pad : nat -> Z) (c c' : V1Server * phase) : Prop :=
  exists l, lstep pad l c c'.

Lemma v1_lstep_step `{Arch} `{PipeOS} `{CodePage} pad l c c' : lstep pad l c c' -> step pad c c'.
Proof. by exists l. Qed.

Definition reachable `{Arch} `{PipeOS} `{CodePage} (pad : nat -> Z) : V1Server * phase -> Prop :=
  rtc (step pad) (new_V1Server, Accepting).

(** The pipe handle that is open after a sequence of calls; [None] when a call
    used a handle that is not open, closed one twice or opened a second one.  A
    peek may be made on the invalid handle, which fails. *)
Definition handle_step (held : option Z) (e : event) : option (option Z) :=
  match e with
  | ECreateNamedPipe _ (inr h) => match held with None => Some (Some h) | Some _ => None end
  | EConnectNamedPipe h _ | EWriteFile h _ _ => if decide (held = Some h) then Some held else None
  | EPeekNamedPipe h _ =>
      if decide (held = Some h \/ h = INVALID_HANDLE_VALUE) then Some held else None
  | ECloseHandle h => if decide (held = Some h) then Some None else None
  | ECreateNamedPipe _ (inl _) | ESleep _ | EStopRequested _ => Some held
  end.

Definition discipline (t : list event) : option (option Z) :=
  foldl (fun o e => o ≫= fun held => handle_step held e) (Some None) t.

(** ** The pipe *)

(** The name has the form Windows wants: the prefix of local pipes, then at most
    256 characters in all and no further backslash.  Both spellings of it are the
    same text. *)
Lemma pipe_name_valid : exists name,
  NamedPipePathA = [92; 92; 46; 92] ++ str "pipe" ++ [92] ++ name /\ (92 ∉ name) /\
  (length NamedPipePathA <= 256)%nat /\ Unicode.utf16_of NamedPipePathA = Some NamedPipePathW.
Proof.
  eexists; split_and!; [reflexivity| |apply Nat.leb_le; reflexivity|vm_compute; reflexivity].
  apply (bool_decide_unpack (92 ∉ str "com.fredemmott.openkneeboard.OTDIPC/v0.1")); vm_compute; exact I.
Qed.

(** A client that does not read yet can be sent its device, a state and a ping:
    they fit into the buffer of the pipe. *)
Lemma pipe_has_room :
  sizeof V1.DeviceInfo + sizeof V1.State + sizeof V1.Ping <= nOutBufferSize server_pipe.
Proof. by vm_compute. Qed.

(** ** FNV-1a separates identifiers that differ in one byte *)

(** The inverse of [Prime] modulo [2^32]. *)
Definition PrimeInverse : Z := 0x359c449b.

Lemma prime_cancel a b : is_u 32 a -> is_u 32 b -> u32 (a * Prime) = u32 (b * Prime) -> a = b.
Proof.
  intros Ha Hb Heq.
  assert (forall z, is_u 32 z -> (u32 (z * Prime) * PrimeInverse) mod 2 ^ 32 = z) as Hinv.
  { intros z Hz; unfold u32, wrap; rewrite Z.mul_mod_idemp_l by done.
    replace (z * Prime * PrimeInverse) with (z + (z * 3513497) * 2 ^ 32)
      by (unfold Prime, PrimeInverse; const_pow; lia).
    rewrite Z.mod_add by done; by apply Z.mod_small. }
  by rewrite <- (Hinv a), <- (Hinv b), Heq.
Qed.

Lemma fnv_round_bounds h c : is_u 32 (fnv_round h c).
Proof. apply u32_bounds. Qed.

Lemma fnv_fold_bounds l h : is_u 32 h -> is_u 32 (fold_left fnv_round l h).
Proof. revert h; induction l; intros h Hh; cbn; auto using fnv_round_bounds. Qed.

Lemma fnv1a_bounds id : is_u 32 (fnv1a id).
Proof. by apply fnv_fold_bounds. Qed.

Lemma byte_u32 c : is_byte c -> is_u 32 c.
Proof. by apply is_u_weaken. Qed.

Lemma fnv_round_inj h h' c c' : is_u 32 h -> is_u 32 h' -> is_byte c -> is_byte c' ->
  fnv_round h c = fnv_round h' c' -> h .^ c = h' .^ c'.
Proof. intros; apply prime_cancel; auto using byte_u32 with cint. Qed.

Lemma fnv_fold_inj l h h' : is_u 32 h -> is_u 32 h' -> Forall is_byte l ->
  fold_left fnv_round l h = fold_left fnv_round l h' -> h = h'.
Proof.
  intros Hh Hh' Hl; revert h h' Hh Hh'.
  induction Hl as [|c l Hc Hl IH]; intros h h' Hh Hh' Heq; [done|]; cbn in Heq.
  apply IH in Heq; auto using fnv_round_bounds.
  apply fnv_round_inj in Heq; auto.
  apply (f_equal (Z.lxor c)) in Heq.
  by rewrite !(Z.lxor_comm c), !Z.lxor_assoc, !Z.lxor_nilpotent, !Z.lxor_0_r in Heq.
Qed.

Lemma SynthesizeVidPid_hash id :
  let '(vid, pid) := SynthesizeVidPid id in
  is_u 16 vid /\ is_u 16 pid /\ vid + 65536 * pid = fnv1a id.
Proof.
  unfold SynthesizeVidPid; split; [apply u16_bounds|split; [apply u16_bounds|]].
  pose proof (fnv1a_bounds id) as Hb; set (h := fnv1a id) in *.
  change 65535 with (Z.ones 16); rewrite !Z.land_ones, Z.shiftr_div_pow2 by lia.
  cint_lia.
Qed.

(** ** Messages on the pipe *)

Section messages.
Context {HA : Arch} {HP : PipeOS} {HC : CodePage} (pad : nat -> Z).

(** A message a v1 client can read: its header has the type and the size of the
    struct that follows it. *)
Inductive v1_message : bytes -> Prop :=
  | device_message d : V1.deviceinfo_wf d -> V1.isValid d = true ->
      V1.messageType (V1.di_header d) = V1.MT_DeviceInfo ->
      V1.size (V1.di_header d) = sizeof V1.DeviceInfo -> v1_message (encode pad d)
  | state_message st : V1.state_wf st ->
      V1.messageType (V1.st_header st) = V1.MT_State ->
      V1.size (V1.st_header st) = sizeof V1.State -> v1_message (encode pad st)
  | ping_message p : wire_wf p ->
      V1.messageType (V1.ping_header p) = V1.MT_Ping ->
      V1.size (V1.ping_header p) = sizeof V1.Ping -> v1_message (encode pad p).

Definition write_ok (e : event) : Prop :=
  match e with EWriteFile _ data _ => v1_message data | _ => True end.

Definition device_ok (d : V1.DeviceInfo) : Prop :=
  is_u 16 (V1.vid (V1.di_header d)) /\ is_u 16 (V1.pid (V1.di_header d)) /\
  (V1.isValid d = true -> V1.deviceinfo_wf d /\
    V1.messageType (V1.di_header d) = V1.MT_DeviceInfo /\
    V1.size (V1.di_header d) = sizeof V1.DeviceInfo).

Record inv (s : V1Server) : Prop := {
  inv_device : device_ok (mV1Device s);
  inv_seq : is_u ArchBitness (mPingSequenceNumber s);
  inv_trace : Forall write_ok (trace s)
}.

(** [SendRaw] on a message with a right size field. *)
Lemma Send_eq `{Message T} (m : T) s :
  wire_wf m -> msg_size m = sizeof T -> is_u 32 (sizeof T) ->
  Send pad m s =
  match mPipe s with
  | None => Ret false s
  | Some h =>
      let r := os_write_file (trace s) h (encode pad m) in
      let s' := log (EWriteFile h (encode pad m) r) s in
      match r with
      | None => Ret false (set_mPipe None (log (ECloseHandle h) s'))
      | Some written => Ret (written =? sizeof T) s'
      end
  end.
Proof.
  intros Hm Hs Hn; unfold Send, SendRaw.
  rewrite msg_size_at, Hs, Z.eqb_refl by done; cbn [negb].
  assert (take (Z.to_nat (u32 (sizeof T))) (encode pad m) = encode pad m) as Ht.
  { unfold u32; rewrite (wrap_small _ _ Hn), <- (length_encode pad m Hm), Nat2Z.id.
    by apply take_ge. }
  unfold st_bind, gets; destruct (mPipe s) as [h|] eqn:Ep; [|done].
  unfold ask; rewrite Ht.
  destruct (os_write_file (trace s) h _) as [w|]; [done|].
  unfold reset_mPipe, modify, close_pipe; cbn; by rewrite Ep.
Qed.

(** The effect of sending [m]: nothing without a client; otherwise one write, and
    the client is dropped when it fails. *)
Definition written (m : bytes) (s s' : V1Server) : Prop :=
  match mPipe s with
  | None => s' = s
  | Some h =>
      exists r, let s1 := log (EWriteFile h m r) s in
      s' = match r with None => set_mPipe None (log (ECloseHandle h) s1) | Some _ => s1 end
  end.

Lemma Send_written `{Message T} (m : T) s : wire_wf m -> msg_size m = sizeof T -> is_u 32 (sizeof T) ->
  returns (Send pad m s) (fun _ s' => written (encode pad m) s s').
Proof.
  intros Hm Hs Hn; rewrite Send_eq by done; unfold written; destruct (mPipe s) as [h|]; [|done].
  destruct (os_write_file (trace s) h _) as [w|]; cbn; [by exists (Some w)|by exists None].
Qed.

(** The state after a message was sent: only the pipe and the trace differ. *)
Definition same_object (s s' : V1Server) : Prop :=
  mV1Device s' = mV1Device s /\ mV1State s' = mV1State s /\
  mPingSequenceNumber s' = mPingSequenceNumber s.

Lemma inv_send s s' e : inv s -> write_ok e -> same_object s s' ->
  trace s' = trace s ++ [e] -> inv s'.
Proof.
  intros [Hd Hq Ht] He (E1 & _ & E3) E4; split; rewrite ?E1, ?E3, ?E4; [done|done|].
  apply Forall_app; split; [done|]; by constructor.
Qed.

Lemma Send_inv `{Message T} (m : T) s :
  wire_wf m -> msg_size m = sizeof T -> is_u 32 (sizeof T) -> v1_message (encode pad m) ->
  inv s -> returns (Send pad m s) (fun _ s' => inv s' /\ same_object s s').
Proof.
  intros Hm Hs Hn Hok Hi; rewrite Send_eq by done.
  destruct (mPipe s) as [h|]; [|by split].
  destruct (os_write_file (trace s) h _) as [w|]; cbn; split; try done.
  - by apply (inv_send s _ (EWriteFile h (encode pad m) (Some w))).
  - apply (inv_send (log (EWriteFile h (encode pad m) None) s) _ (ECloseHandle h)); [|done..].
    by apply (inv_send s _ (EWriteFile h (encode pad m) None)).
Qed.

Lemma Send_leaves `{Message T} (m : T) s :
  wire_wf m -> msg_size m = sizeof T -> is_u 32 (sizeof T) -> v1_message (encode pad m) ->
  inv s -> leaves (Send pad m s) inv.
Proof. intros; eapply returns_leaves; [by apply Send_inv|by intros ? ? []]. Qed.

Lemma modify_inv f s : (inv s -> inv (f s)) -> inv s -> leaves (modify f s) inv.
Proof. cbn; auto. Qed.

Lemma log_inv s e : inv s -> write_ok e -> inv (log e s).
Proof. intros; by apply (inv_send s _ e). Qed.

Lemma set_mPipe_inv s p : inv s -> inv (set_mPipe p s).
Proof. by intros []. Qed.

Lemma close_pipe_inv s : inv s -> inv (close_pipe s).
Proof. intros Hi; unfold close_pipe; destruct (mPipe s); [by apply log_inv|done]. Qed.

Lemma create_header_wf mt sz vid pid : is_u 32 mt -> is_u 16 vid -> is_u 16 pid ->
  V1.header_wf (create_header mt sz vid pid).
Proof. intros ? ? ?; refine (conj _ (conj _ (conj _ _))); try done; apply u32_bounds. Qed.

Lemma PingOnce_inv s : inv s -> leaves (PingOnce pad s) inv.
Proof.
  intros Hi; unfold PingOnce.
  apply leaves_bind with inv; [by apply modify_inv; [intros; apply log_inv|]|done|].
  intros _ s1 H1; unfold gets, st_bind at 1; cbn [id].
  set (seq := size_t _).
  pose proof (arch_bounds (mPingSequenceNumber s1 + 1)) as [Hq64 Hq]; fold seq in Hq64, Hq.
  apply leaves_bind with inv; [|done|].
  { apply modify_inv; [|done]; intros [Hd _ Ht]; by split. }
  intros _ s2 H2; destruct (inv_device _ H1) as (Hv & Hp & _).
  apply leaves_bind with inv; [|done|done].
  apply Send_leaves; try done.
  apply ping_message; [|done..]; split; [by apply create_header_wf|done].
Qed.

Context {HS : CodePageSpec}.

Lemma fill_copy_u16 N w : Forall (is_u 16) w -> Forall (is_u 16) (fill_copy N w).
Proof.
  intros Hw; apply Forall_app; split; [by apply Forall_take|].
  apply Forall_replicate; by split.
Qed.

(** The device message [SetDevice] builds and sends. *)
Definition v1_device (device : V2.DeviceInfo) : V1.DeviceInfo :=
  let '(vid, pid) := SynthesizeVidPid (V2.GetPersistentId device) in
  V1.mkDeviceInfo (create_header V1.MT_DeviceInfo (sizeof V1.DeviceInfo) vid pid) true
    (V2.maxX device) (V2.maxY device) (V2.maxPressure device)
    (fill_copy V1.NAME_LENGTH (default [] (Unicode.utf16_of (V2.GetName device)))).

Lemma v1_device_ok device : V2.deviceinfo_wf device ->
  V1.deviceinfo_wf (v1_device device) /\ device_ok (v1_device device) /\
  msg_size (v1_device device) = sizeof V1.DeviceInfo.
Proof.
  intros (_ & Hx & Hy & Hp & _); unfold v1_device.
  pose proof (SynthesizeVidPid_hash (V2.GetPersistentId device)) as Hvp.
  destruct (SynthesizeVidPid _) as [vid pid]; destruct Hvp as (Hv & Hpid & _).
  set (d := V1.mkDeviceInfo _ _ _ _ _ _).
  assert (V1.deviceinfo_wf d) as Hwf; [|done].
  split; [by apply create_header_wf|].
  refine (conj Hx (conj Hy (conj Hp (conj (length_fill_copy _ _) _)))).
  apply fill_copy_u16, from_utf8_units.
Qed.

Lemma SetDevice_eq device s : V2.deviceinfo_wf device ->
  SetDevice pad device s =
  (let* _ := Send pad (v1_device device) in st_ret tt) (set_mV1Device (v1_device device) s).
Proof.
  intros (_ & _ & _ & _ & _ & Hn); unfold SetDevice, v1_device.
  destruct (SynthesizeVidPid _) as [vid pid].
  unfold st_bind, modify; rewrite from_utf8_spec; [done|].
  pose proof (length_until_nul (V2.name device)); rewrite Hn in *.
  unfold V2.GetName, V2.NameMaxLength in *; lia.
Qed.

Lemma SetDevice_inv device s : V2.deviceinfo_wf device -> inv s ->
  returns (SetDevice pad device s) (fun _ s' => inv s' /\ mV1Device s' = v1_device device).
Proof.
  intros Hd [Hi Hq Ht]; destruct (v1_device_ok device Hd) as (Hwf & Hok & Hs).
  rewrite SetDevice_eq by done.
  eapply returns_bind.
  - apply Send_inv; try done.
    apply device_message; try done; by destruct Hok as (_ & _ & Hok); apply Hok.
  - intros b s' [Hi' (E & _)]; split; [done|exact E].
Qed.

Lemma convert_state_wf vid pid st : is_u 16 vid -> is_u 16 pid -> V2.state_wf st ->
  V1.state_wf (convert_state vid pid st).
Proof.
  intros Hv Hp (_ & _ & Hx & Hy & Hpr & Hpb & Hab & Hh).
  split; [by apply create_header_wf|].
  cbn; repeat match goal with |- _ /\ _ => split end;
    match goal with |- is_u 32 (if ?b then _ else _) => destruct b end; try done.
  apply u32_bounds.
Qed.

Lemma SetState_inv st s : V2.state_wf st -> inv s ->
  returns (SetState pad st s) (fun _ s' => inv s' /\
    mV1State s' = convert_state (V1.vid (V1.di_header (mV1Device s)))
                    (V1.pid (V1.di_header (mV1Device s))) st).
Proof.
  intros Hst Hi; destruct (inv_device _ Hi) as (Hv & Hp & _).
  pose proof (convert_state_wf _ _ _ Hv Hp Hst) as Hwf.
  unfold SetState; unfold gets, modify; unfold st_bind at 1 2.
  eapply returns_bind.
  - apply Send_inv; try done; [by apply state_message|by destruct Hi].
  - intros b s' [Hi' (_ & E & _)]; split; [done|exact E].
Qed.

Lemma ask_inv {A} f (e : A -> event) s : (forall a, write_ok (e a)) -> inv s ->
  leaves (ask f e s) inv.
Proof. intros; by apply log_inv. Qed.

Lemma WatchCheck_inv s : inv s -> leaves (WatchCheck s) inv.
Proof.
  intros Hs; apply leaves_bind with inv; [by apply ask_inv|done|]; intros stop s1 H1.
  apply leaves_bind with inv; [done|done|]; intros p s2 H2.
  destruct stop, p as [h|]; try done; apply leaves_bind with inv; [by apply log_inv|done|done].
Qed.

Lemma PeekOnce_inv s : inv s -> leaves (PeekOnce s) inv.
Proof. intros Hs; apply leaves_bind with inv; [done|done|]; intros p s1 H1; by apply ask_inv. Qed.

Lemma WatchOnce_inv s : inv s -> leaves (WatchOnce s) inv.
Proof.
  intros Hs; apply leaves_bind with inv; [by apply WatchCheck_inv|done|].
  intros [] s1 H1; [by apply PeekOnce_inv|done].
Qed.

Lemma CreatePipe_inv s : inv s -> leaves (CreatePipe s) inv.
Proof.
  intros Hs; apply leaves_bind with inv; [by apply ask_inv|done|]; intros [err|pipe] s1 H1; [|done].
  destruct (_ || _); [by apply log_inv|done].
Qed.

Lemma ConnectPipe_inv pipe s : inv s -> leaves (ConnectPipe pipe s) inv.
Proof.
  intros Hs; apply leaves_bind with inv; [by apply ask_inv|done|]; intros r s1 H1.
  destruct (match r with None => true | Some error => error =? ERROR_PIPE_CONNECTED end); [done|by apply log_inv].
Qed.

Lemma GreetClient_inv s : inv s -> leaves (GreetClient pad s) inv.
Proof.
  intros Hs; unfold GreetClient, gets; unfold st_bind at 1.
  destruct (inv_device _ Hs) as (_ & _ & Hd); unfold when.
  destruct (V1.isValid (mV1Device s)) eqn:Ev; [|done].
  destruct (Hd eq_refl) as (Hwf & Ht & Hs').
  apply leaves_bind with inv; [|done|done].
  apply Send_leaves; try done; by apply device_message.
Qed.

Lemma AcceptClient_inv s : inv s -> leaves (AcceptClient pad s) inv.
Proof.
  intros Hs; apply leaves_bind with inv; [by apply CreatePipe_inv|done|]; intros [pipe|] s1 H1; [|done].
  apply leaves_bind with inv; [by apply ConnectPipe_inv|done|]; intros [] s2 H2; [|done].
  apply leaves_bind with inv; [by apply set_mPipe_inv, close_pipe_inv|done|]; intros _ s3 H3.
  by apply leaves_bind with inv; [by apply GreetClient_inv|done|].
Qed.

End messages.

(** ** Handles *)

Section handles.
Context {HA : Arch} {HP : PipeOS} {HC : CodePage} (pad : nat -> Z).

Definition held (s : V1Server) : Prop := discipline (trace s) = Some (mPipe s).

Lemma discipline_log e s :
  discipline (trace (log e s)) = discipline (trace s) ≫= fun h => handle_step h e.
Proof. unfold discipline; cbn; by rewrite foldl_app. Qed.

Lemma held_log e s : held s -> handle_step (mPipe s) e = Some (mPipe s) -> held (log e s).
Proof. unfold held; intros Hh He; rewrite discipline_log, Hh; done. Qed.

Lemma held_close s : held s -> held (set_mPipe None (close_pipe s)).
Proof.
  unfold held, close_pipe; intros Hh; destruct (mPipe s) as [h|] eqn:E; [|done].
  change (discipline (trace (log (ECloseHandle h) s)) = Some None).
  rewrite discipline_log, Hh; cbn; by rewrite decide_True.
Qed.

(** The open pipe is the one of the accept thread's local variable, [l], or else
    the one in the member. *)
Definition holds (l : option Z) (s : V1Server) : Prop :=
  match l with
  | Some h => discipline (trace s) = Some (Some h) /\ mPipe s = None
  | None => held s
  end.

Lemma v1_holds_log l e s :
  handle_step (match l with Some h => Some h | None => mPipe s end) e =
    Some (match l with Some h => Some h | None => mPipe s end) -> holds l s -> holds l (log e s).
Proof.
  destruct l as [h|]; cbn [holds]; intros He Hs; [|by apply held_log].
  destruct Hs as [Hd Hn]; split; [|done]; by rewrite discipline_log, Hd.
Qed.

Lemma Send_holds `{Message T} (m : T) l s :
  wire_wf m -> msg_size m = sizeof T -> is_u 32 (sizeof T) -> holds l s ->
  returns (Send pad m s) (fun _ s' => holds l s' /\ (mPipe s = None -> s' = s)).
Proof.
  intros Hm Hs Hn Hh; rewrite (Send_eq pad m) by done.
  destruct (mPipe s) as [h|] eqn:Ep; [|done].
  destruct l as [h'|]; [destruct Hh as [_ Hh]; congruence|].
  assert (forall r, held (log (EWriteFile h (encode pad m) r) s)) as Hw.
  { intros r; apply held_log; [done|]; rewrite Ep; cbn; by rewrite decide_True. }
  destruct (os_write_file (trace s) h _) as [w|]; cbn; [by split; [apply (Hw (Some w))|]|]; split; [|done].
  pose proof (held_close _ (Hw None)) as Hc.
  unfold close_pipe in Hc; cbn in Hc; by rewrite Ep in Hc.
Qed.

(** What an operation of another thread does to the pipe. *)
Definition pipe_kept (l : option Z) (s : V1Server) (_ : unit) (s' : V1Server) : Prop :=
  holds l s' /\ (mPipe s = None -> mPipe s' = None).

Lemma holds_same l s s' : trace s' = trace s -> mPipe s' = mPipe s -> holds l s -> holds l s'.
Proof. unfold holds, held; intros -> ->; done. Qed.

Lemma Send_pipe `{Message T} (m : T) l s s0 :
  wire_wf m -> msg_size m = sizeof T -> is_u 32 (sizeof T) ->
  holds l s -> (mPipe s0 = None -> mPipe s = None) ->
  returns ((let* _ := Send pad m in st_ret tt) s) (pipe_kept l s0).
Proof.
  intros Hm Hs Hn Hh Hnone; eapply returns_bind; [by apply Send_holds|].
  intros b s' [Hh' Heq]; split; [done|]; intros E.
  specialize (Hnone E); by rewrite (Heq Hnone).
Qed.

Context {HS : CodePageSpec}.

Lemma SetDevice_pipe l d s : V2.deviceinfo_wf d -> holds l s ->
  returns (SetDevice pad d s) (pipe_kept l s).
Proof.
  intros Hd Hh; destruct (v1_device_ok d Hd) as (Hwf & _ & Hs).
  rewrite (SetDevice_eq pad d) by done; by apply Send_pipe.
Qed.

Lemma SetState_pipe l st s : V2.state_wf st -> inv pad s -> holds l s ->
  returns (SetState pad st s) (pipe_kept l s).
Proof.
  intros Hst Hi Hh; destruct (inv_device _ _ Hi) as (Hv & Hp & _).
  unfold SetState; unfold gets, modify; unfold st_bind at 1 2.
  apply Send_pipe; try done; by apply convert_state_wf.
Qed.

Lemma PingOnce_pipe l s : inv pad s -> holds l s -> returns (PingOnce pad s) (pipe_kept l s).
Proof.
  intros Hi Hh; destruct (inv_device _ _ Hi) as (Hv & Hp & _).
  unfold PingOnce, sleep_for; unfold gets, modify; unfold st_bind at 1 2 3; cbn [id].
  pose proof (arch_bounds (mPingSequenceNumber s + 1)) as [Hq _].
  apply Send_pipe; try done.
  eapply (holds_same l (log (ESleep 1000) s)); [done|done|]; by apply v1_holds_log.
Qed.

Lemma GreetClient_pipe s : inv pad s -> held s -> returns (GreetClient pad s) (pipe_kept None s).
Proof.
  intros Hi Hh; unfold GreetClient, gets; unfold st_bind at 1; unfold when.
  destruct (inv_device _ _ Hi) as (_ & _ & Hd).
  destruct (V1.isValid (mV1Device s)) eqn:Ev; [|done].
  destruct (Hd eq_refl) as (Hwf & Ht & Hs'); by apply Send_pipe.
Qed.

Lemma WatchCheck_pipe s : held s ->
  returns (WatchCheck s) (fun _ s' => held s' /\ mPipe s' = mPipe s).
Proof.
  intros Hh; unfold WatchCheck, stop_requested, ask, sleep_for, gets, modify, st_bind.
  set (stop := os_stop_requested _).
  assert (held (log (EStopRequested stop) s)) as H1 by by apply held_log.
  change (mPipe (log (EStopRequested stop) s)) with (mPipe s).
  destruct stop, (mPipe s) as [h|] eqn:Ep; cbn; try done; split; [|done]; by apply held_log.
Qed.

Lemma PeekOnce_pipe s : held s -> returns (PeekOnce s) (fun _ s' => held s' /\ mPipe s' = mPipe s).
Proof.
  intros Hh; split; [|done]; apply held_log; [done|]; cbn.
  destruct (mPipe s); cbn; by rewrite decide_True by (by left + by right).
Qed.

Lemma WatchOnce_pipe s : held s ->
  returns (WatchOnce s) (fun _ s' => held s' /\ mPipe s' = mPipe s).
Proof.
  intros Hh; eapply returns_bind; [by apply WatchCheck_pipe|]; intros [] s1 [H1 E1]; [|done].
  eapply returns_weaken; [by apply PeekOnce_pipe|]; intros ? s2 [H2 E2]; split; [done|congruence].
Qed.

Lemma CreatePipe_pipe s : held s -> mPipe s = None ->
  match CreatePipe s with
  | Ret r s' => holds r s' /\ mPipe s' = None
  | Exn e _ => exists code, e = win32_error code /\ os_create_pipe server_pipe (trace s) = inl code
  | _ => False
  end.
Proof.
  intros Hh Hn; unfold CreatePipe; unfold st_bind at 1; unfold ask at 1.
  destruct (os_create_pipe server_pipe (trace s)) as [err|pipe].
  { destruct (_ || _); cbn; [|by exists err]; split; [|done].
    apply held_log; [|done]; by apply held_log. }
  cbn [holds st_ret st_bind]; split_and!; [|done|done]; by rewrite discipline_log, Hh, Hn.
Qed.

Lemma ConnectPipe_pipe pipe s : holds (Some pipe) s ->
  returns (ConnectPipe pipe s) (fun b s' => if b then holds (Some pipe) s' else held s' /\ mPipe s' = None).
Proof.
  intros [Hd Hn]; unfold ConnectPipe; unfold st_bind at 1; unfold ask at 1.
  set (r := os_connect_pipe _ _); set (s1 := log (EConnectNamedPipe pipe r) _).
  assert (discipline (trace s1) = Some (Some pipe)) as H1.
  { unfold s1; rewrite discipline_log, Hd; cbn; by rewrite decide_True. }
  destruct (match r with None => true | Some error => error =? ERROR_PIPE_CONNECTED end); [done|].
  unfold st_bind, modify; cbn; split; [|done].
  unfold held; rewrite discipline_log, H1; cbn; by rewrite decide_True, Hn.
Qed.

Lemma publish_held pipe s : holds (Some pipe) s ->
  returns (move_to_mPipe pipe s) (fun _ s' => held s' /\ mPipe s' = Some pipe).
Proof. intros [Hd Hn]; cbn; split; [|done]; unfold held, close_pipe; by rewrite Hn. Qed.

Lemma AcceptClient_pipe s : inv pad s -> held s -> mPipe s = None ->
  match AcceptClient pad s with
  | Ret b s' => held s' /\ (b = false -> mPipe s' = None)
  | Exn e _ => exists code, e = win32_error code /\ os_create_pipe server_pipe (trace s) = inl code
  | _ => False
  end.
Proof.
  intros Hi Hh Hn; unfold AcceptClient; unfold st_bind at 1.
  pose proof (CreatePipe_inv pad s Hi) as Hi1; pose proof (CreatePipe_pipe s Hh Hn) as H1.
  destruct (CreatePipe s) as [[pipe|] s1|e s1| |]; try done; [|by destruct H1; split].
  destruct H1 as [H1 Hn1]; pose proof (ConnectPipe_inv pad pipe s1 Hi1) as Hi2.
  pose proof (ConnectPipe_pipe pipe s1 H1) as H2; unfold st_bind at 1.
  destruct (ConnectPipe pipe s1) as [[] s2| | |]; try done; [|by destruct H2; split].
  destruct (returns_inv _ _ (publish_held pipe s2 H2)) as ([] & s3 & E3 & H3 & _).
  unfold st_bind at 1; rewrite E3; injection E3 as <-.
  assert (inv pad (set_mPipe (Some pipe) (close_pipe s2))) as Hi3 by by apply set_mPipe_inv, close_pipe_inv.
  destruct (returns_inv _ _ (GreetClient_pipe _ Hi3 H3)) as ([] & s4 & E4 & [H4 _]).
  unfold st_bind at 1; by rewrite E4.
Qed.

End handles.

(** ** The accept loop ends when the program is asked to stop *)

Section termination.
Context {HA : Arch} {HP : PipeOS} {HC : CodePage} (pad : nat -> Z).

Lemma WatchOnce_eq s : WatchOnce s =
  (let* stop := stop_requested in
   let* pipe := gets mPipe in
   match stop, pipe with
   | false, Some h => sleep_for 100 ;; ask (fun t => os_peek_pipe t h) (EPeekNamedPipe h)
   | _, _ => st_ret false
   end) s.
Proof.
  unfold WatchOnce, WatchCheck, PeekOnce, stop_requested, ask, sleep_for, gets, modify, st_bind.
  destruct (os_stop_requested (trace s)); cbn; [by destruct (mPipe s)|].
  destruct (mPipe s) eqn:E; cbn; [by rewrite E|done].
Qed.

Lemma WatchOnce_goes_on s s' : WatchOnce s = Ret true s' ->
  os_stop_requested (trace s) = false /\ (length (trace s) < length (trace s'))%nat.
Proof.
  rewrite WatchOnce_eq; unfold stop_requested, ask, sleep_for, gets, modify, st_bind.
  destruct (os_stop_requested (trace s)); [done|cbn].
  destruct (mPipe s) as [h|]; [|done]; intros [= _ <-].
  split; [done|]; cbn; rewrite !length_app; cbn; lia.
Qed.

Lemma WatchOnce_returns s : exists b s', WatchOnce s = Ret b s'.
Proof.
  rewrite WatchOnce_eq; unfold stop_requested, ask, sleep_for, gets, modify, st_bind.
  destruct (os_stop_requested (trace s)); cbn; destruct (mPipe s); eauto.
Qed.

Lemma WatchPipe_returns N fuel s :
  (forall t, (N <= length t)%nat -> os_stop_requested t = true) ->
  (N < fuel + length (trace s))%nat -> (0 < fuel)%nat -> exists s', WatchPipe fuel s = Ret tt s'.
Proof.
  intros HN; revert s; induction fuel as [|fuel IH]; intros s Hf Hp; [lia|]; cbn [WatchPipe].
  destruct (WatchOnce_returns s) as (b & s1 & E); unfold st_bind; rewrite E.
  destruct b; [|by exists s1].
  apply WatchOnce_goes_on in E as [Es El].
  apply IH; [lia|].
  destruct fuel; [|lia]; rewrite HN in Es; [done|lia].
Qed.
End termination.

(** ** Reachable states *)

Section reachable.
Context {HA : Arch} {HP : PipeOS} {HC : CodePage} {HS : CodePageSpec} (pad : nat -> Z).

(** The pipe in the local variable of the accept thread, and the phases in which
    the member is empty. *)
Definition local (p : phase) : option Z := match p with Created h | Connected h => Some h | _ => None end.
Definition idle (p : phase) : bool :=
  match p with Accepting | Created _ | Connected _ | Exited => true | _ => false end.

Record good (c : V1Server * phase) : Prop := {
  good_inv : inv pad (fst c);
  good_held : holds (local (snd c)) (fst c);
  good_idle : idle (snd c) = true -> mPipe (fst c) = None
}.

Lemma leaves_Ret {A} (m : ST V1Server A) s a s' : leaves (m s) (inv pad) -> m s = Ret a s' -> inv pad s'.
Proof. intros H E; by rewrite E in H. Qed.

(** Every step keeps the invariant, whatever the phase. *)
Lemma step_inv c c' : step pad c c' -> inv pad (fst c) -> inv pad (fst c').
Proof.
  intros [l H]; destruct H; cbn [fst]; intros Hi.
  - eapply leaves_Ret; [|done]; eapply returns_leaves; [by apply SetDevice_inv|by intros ? ? []].
  - eapply leaves_Ret; [|done]; eapply returns_leaves; [by apply SetState_inv|by intros ? ? []].
  - eapply leaves_Ret; [|done]; by apply PingOnce_inv.
  - eapply leaves_Ret; [|done]; by apply CreatePipe_inv.
  - eapply leaves_Ret; [|done]; by apply ConnectPipe_inv.
  - eapply leaves_Ret; [|done]; by apply set_mPipe_inv, close_pipe_inv.
  - eapply leaves_Ret; [|done]; by apply GreetClient_inv.
  - eapply leaves_Ret; [|done]; by apply WatchCheck_inv.
  - eapply leaves_Ret; [|done]; by apply PeekOnce_inv.
  - eapply leaves_Ret; [|done]; by apply set_mPipe_inv, close_pipe_inv.
  - eapply leaves_Ret; [|done]; by apply ask_inv.
  - eapply leaves_Ret; [|done]; by apply ask_inv.
  - eapply leaves_Ret; [|done]; by apply set_mPipe_inv, close_pipe_inv.
Qed.

Lemma good_init : good (new_V1Server, Accepting).
Proof.
  split; [|done|done]; split; [by split| |constructor].
  unfold is_u; cbn; destruct arch_width as [->| ->]; done.
Qed.

(** An operation of another thread keeps the pipes right in any phase. *)
Lemma kept_pipes (m : ST V1Server unit) l s s' (i : bool) :
  returns (m s) (pipe_kept l s) -> m s = Ret tt s' -> (i = true -> mPipe s = None) ->
  holds l s' /\ (i = true -> mPipe s' = None).
Proof. intros Hr E Hn; rewrite E in Hr; destruct Hr as [Hh Hk]; auto. Qed.

Lemma step_pipes c c' : step pad c c' -> good c ->
  holds (local (snd c')) (fst c') /\ (idle (snd c') = true -> mPipe (fst c') = None).
Proof.
  intros [l H]; destruct H as [d s s' p Hd E|st s s' p Hst E|s s' p E|r s s' E|h b s s' E|h s s' E|s s' E
    |b s s' E|b s s' E|s s' E|s s' E|s s' E|s s' E]; intros [Hi Hh Hn]; cbn [fst snd] in *.
  - by eapply (kept_pipes _ _ s); [apply SetDevice_pipe| |].
  - by eapply (kept_pipes _ _ s); [apply SetState_pipe| |].
  - by eapply (kept_pipes _ _ s); [apply PingOnce_pipe| |].
  - pose proof (CreatePipe_pipe s Hh (Hn eq_refl)) as Hp; rewrite E in Hp; by destruct r, Hp.
  - pose proof (ConnectPipe_pipe h s Hh) as Hp; rewrite E in Hp; destruct b; [by split; [|destruct Hp]|by destruct Hp].
  - pose proof (publish_held h s Hh) as Hp; rewrite E in Hp; by destruct Hp.
  - pose proof (GreetClient_pipe pad s Hi Hh) as Hp; rewrite E in Hp; by destruct Hp.
  - pose proof (WatchCheck_pipe s Hh) as Hp; rewrite E in Hp; by destruct b, Hp.
  - pose proof (PeekOnce_pipe s Hh) as Hp; rewrite E in Hp; by destruct b, Hp.
  - injection E as <-; split; [by apply held_close|done].
  - injection E as _ <-; split; [by apply held_log|by intros; apply Hn].
  - injection E as _ <-; split; [by apply held_log|by intros; apply Hn].
  - injection E as <-; split; [by apply held_close|done].
Qed.

Lemma good_step c c' : step pad c c' -> good c -> good c'.
Proof.
  intros Hs Hg; destruct (step_pipes c c' Hs Hg); split; [|done..]; by eapply step_inv, Hg.
Qed.

Lemma reachable_good c : reachable pad c -> good c.
Proof.
  unfold reachable; intros Hr; remember (new_V1Server, Accepting) as c0 eqn:E.
  assert (good c0) as Hg by (subst; apply good_init); clear E.
  induction Hr; eauto using good_step.
Qed.
End reachable.

(** ** Concrete instances *)

Module Sample.
Definition os : PipeOS := {|
  os_create_pipe _ _ := inr 7;
  os_connect_pipe _ _ := None;
  os_peek_pipe t _ := Nat.ltb (length t) 9;
  os_write_file _ _ data := Some (Z.of_nat (length data));
  os_stop_requested t := Nat.leb 20 (length t)
|}.
Definition pad : nat -> Z := fun _ => 0.
Definition device : V2.DeviceInfo :=
  V2.mkDeviceInfo (V2.di_header V2.new_DeviceInfo) 0 0 1023
    (fill_copy 256 (str "wintab-pnpid:WAC")) (fill_copy 256 (str "Tablet")).
(** [SetDevice], then a client connects. *)
Definition connected : V1Server :=
  match (@SetDevice os Utf8.Sample.codepage pad device ;; @AcceptClient os pad) new_V1Server with
  | Ret _ s => s | _ => new_V1Server end.

Lemma device_wf : V2.deviceinfo_wf device.
Proof. by repeat split. Qed.
End Sample.

Lemma sample_reachable :
  @reachable arch64 Sample.os Utf8.Sample.codepage Sample.pad (Sample.connected, Watching).
Proof.
  set (s1 := set_mV1Device (mV1Device Sample.connected) new_V1Server).
  apply rtc_l with (s1, Accepting).
  - eapply v1_lstep_step, (step_set_device Sample.pad Sample.device); [apply Sample.device_wf|].
    vm_compute; reflexivity.
  - eapply rtc_l; [eapply v1_lstep_step, (step_create Sample.pad (Some 7)); vm_compute; reflexivity|].
    eapply rtc_l; [eapply v1_lstep_step, (step_connect Sample.pad 7 true); vm_compute; reflexivity|].
    eapply rtc_l; [eapply v1_lstep_step, (step_publish Sample.pad 7); vm_compute; reflexivity|].
    eapply rtc_once, v1_lstep_step, (step_greet Sample.pad); vm_compute; reflexivity.
Qed.

(** ** Properties *)

(** In every reachable state of the v1 server, whatever the pipe does and
    however the accept thread, the ping thread and the caller interleave, every
    message written to the pipe is a complete v1 message: its header carries the
    type and the size of the struct that follows. *)
Theorem v1_messages_wellformed {HA : Arch} {HP : PipeOS} {HC : CodePage} {HS : CodePageSpec}
    (pad : nat -> Z) (s : V1Server) (p : phase) :
  reachable pad (s, p) -> Forall (write_ok pad) (trace s).
Proof. intros Hr; apply reachable_good in Hr as [[_ _ Ht] _ _]; exact Ht. Qed.

Lemma v1_messages_wellformed_witness :
  @reachable arch64 Sample.os Utf8.Sample.codepage Sample.pad (Sample.connected, Watching) /\
  Forall (write_ok Sample.pad) (trace Sample.connected).
Proof.
  split; [apply sample_reachable|].
  apply (@v1_messages_wellformed arch64 Sample.os Utf8.Sample.codepage Utf8.Sample.spec
           Sample.pad Sample.connected Watching sample_reachable).
Defined.



(** The synthesized USB identifiers are two 16-bit halves of the FNV-1a
    hash, and persistent identifiers that differ in exactly one byte never get
    the same pair. *)
Theorem v1_usb_ids_separate (pre post : bytes) (c c' : Z) :
  Forall is_byte pre -> Forall is_byte post -> is_byte c -> is_byte c' -> c <> c' ->
  SynthesizeVidPid (pre ++ c :: post) <> SynthesizeVidPid (pre ++ c' :: post).
Proof.
  intros Hpre Hpost Hc Hc' Hne Heq.
  pose proof (SynthesizeVidPid_hash (pre ++ c :: post)) as H1.
  pose proof (SynthesizeVidPid_hash (pre ++ c' :: post)) as H2.
  rewrite Heq in H1; destruct (SynthesizeVidPid (pre ++ c' :: post)) as [vid pid].
  destruct H1 as (_ & _ & H1), H2 as (_ & _ & H2); rewrite H1 in H2.
  unfold fnv1a in H2; rewrite !fold_left_app in H2; cbn in H2.
  pose proof (fnv_fold_bounds pre OffsetBasis ltac:(done)) as Hb.
  apply fnv_fold_inj in H2; auto using fnv_round_bounds.
  apply fnv_round_inj in H2; auto.
  apply (f_equal (Z.lxor (fold_left fnv_round pre OffsetBasis))) in H2.
  rewrite <- !Z.lxor_assoc, Z.lxor_nilpotent, !Z.lxor_0_l in H2; done.
Qed.

Lemma v1_usb_ids_separate_witness :
  SynthesizeVidPid (str "wintab-id:" ++ 49 :: []) <> SynthesizeVidPid (str "wintab-id:" ++ 50 :: []).
Proof.
  apply v1_usb_ids_separate; try done; unfold str; cbn; repeat constructor; done.
Defined.

(** C22: the v1 state made from a v2 state.  A group is valid when its bits are
    set in the v2 mask (both of them for the position, either for the
    proximity); the values of a valid group are those of the v2 state and the
    values of the others are zero, except that the pen tip, bit 0 of the v2 pen
    buttons, is never a v1 button. *)
Theorem v1_state_conversion (vid pid : Z) (st : V2.State) :
  V2.state_wf st ->
  let r := convert_state vid pid st in
  let has i := Z.testbit (V2.validBits st) i in
  V1.positionValid r = has 0 && has 1 /\
  (V1.x r, V1.y r) = (if has 0 && has 1 then (V2.x st, V2.y st) else (0, 0)) /\
  V1.pressureValid r = has 2 /\ V1.pressure r = (if has 2 then V2.pressure st else 0) /\
  V1.penButtonsValid r = has 3 /\
  (forall i, 0 <= i ->
     Z.testbit (V1.penButtons r) i = has 3 && (0 <? i) && Z.testbit (V2.penButtons st) i) /\
  V1.auxButtonsValid r = has 4 /\ V1.auxButtons r = (if has 4 then V2.auxButtons st else 0) /\
  V1.proximityValid r = has 5 || has 6 /\
  (V1.nearProximity r, V1.hoverDistance r) =
    (if has 5 || has 6 then (V2.penIsNearSurface st, V2.hoverDistance st) else (false, 0)).
Proof.
  intros (_ & _ & _ & _ & _ & Hpb & _); unfold convert_state; cbn -[V2.HasData Z.testbit].
  autorewrite with mask.
  repeat match goal with |- _ /\ _ => split end; try done; try (by destruct (_ && _));
    try by destruct (_ || _).
  intros i Hi; destruct (Z.testbit (V2.validBits st) 3); cbn [andb]; [|by apply Z.testbit_0_l].
  unfold u32; rewrite wrap_testbit, Z.land_spec, wrap_testbit, Z.lnot_spec by lia.
  change 1 with (2 ^ 0); rewrite Z.pow2_bits_eqb by lia.
  destruct (Z.eqb_spec 0 i), (Z.ltb_spec 0 i), (Z.ltb_spec i 32); try lia; cbn;
    rewrite ?andb_false_r, ?andb_true_r; try done.
  symmetry; apply (is_u_high 32); [lia|done|lia].
Qed.

Definition sample_state : V2.State :=
  V2.mkState (V2.st_header V2.new_State) 15 10 20 300 7 0 0 false.

Lemma v1_state_conversion_witness :
  V2.state_wf sample_state /\
  forall i, 0 <= i -> Z.testbit (V1.penButtons (convert_state 1 2 sample_state)) i =
    Z.testbit (V2.validBits sample_state) 3 && (0 <? i) && Z.testbit (V2.penButtons sample_state) i.
Proof.
  assert (V2.state_wf sample_state) as H by (by repeat split).
  split; [exact H|]; apply (v1_state_conversion 1 2 sample_state H).
Defined.



(** The pen state reaches a connected client: [SetState] returns, it writes
    one message, the client reads back the converted state from its bytes, and
    the pipe is dropped exactly when the write fails. *)
Theorem v1_state_delivered {HA : Arch} {HP : PipeOS} {HC : CodePage} {HS : CodePageSpec}
    (pad : nat -> Z) (s : V1Server) (p : phase) (h : Z) (st : V2.State) :
  reachable pad (s, p) -> mPipe s = Some h -> V2.state_wf st ->
  let hdr := V1.di_header (mV1Device s) in
  exists data r s', SetState pad st s = Ret tt s' /\
    decode data = Some (convert_state (V1.vid hdr) (V1.pid hdr) st) /\
    trace s' = trace s ++ EWriteFile h data r :: (match r with Some _ => [] | None => [ECloseHandle h] end) /\
    mPipe s' = (match r with Some _ => Some h | None => None end).
Proof.
  intros Hr Hp Hst hdr; apply reachable_good in Hr as [Hi _ _]; cbn [fst snd] in *.
  destruct (inv_device _ _ Hi) as (Hv & Hpid & _); fold hdr in Hv, Hpid.
  pose proof (convert_state_wf _ _ _ Hv Hpid Hst) as Hwf.
  set (m := convert_state (V1.vid hdr) (V1.pid hdr) st) in *.
  pose proof (decode_encode pad m [] Hwf) as Hdec; rewrite app_nil_r in Hdec.
  exists (encode pad m), (os_write_file (trace s) h (encode pad m)).
  unfold SetState; unfold gets, modify; unfold st_bind at 1 2; fold hdr; fold m.
  unfold st_bind at 1; rewrite (Send_eq pad m) by done; cbn [mPipe set_mV1State]; rewrite Hp.
  cbn [trace set_mV1State]; destruct (os_write_file _ h _) as [w|].
  - eexists; split; [done|]; split; [done|]; by cbn.
  - eexists; split; [done|]; split; [done|]; cbn; by rewrite <- app_assoc.
Qed.

Lemma v1_state_delivered_witness :
  exists data r s', @SetState Sample.os Sample.pad sample_state Sample.connected = Ret tt s' /\
    decode data = Some (convert_state (V1.vid (V1.di_header (mV1Device Sample.connected)))
                          (V1.pid (V1.di_header (mV1Device Sample.connected))) sample_state) /\
    trace s' = trace Sample.connected ++
      EWriteFile 7 data r :: (match r with Some _ => [] | None => [ECloseHandle 7] end) /\
    mPipe s' = (match r with Some _ => Some 7 | None => None end).
Proof.
  apply (@v1_state_delivered arch64 Sample.os Utf8.Sample.codepage Utf8.Sample.spec Sample.pad
           Sample.connected Watching 7 sample_state sample_reachable); [reflexivity|].
  by repeat split.
Defined.

(** [AcceptOnce] ends.  If the program is asked to stop before the
    environment has answered [N] calls, [N + 1] rounds of its loop are enough:
    it returns with the pipe closed, or throws the error of [CreateNamedPipe]. *)
Theorem v1_accept_terminates {HA : Arch} {HP : PipeOS} {HC : CodePage} {HS : CodePageSpec}
    (pad : nat -> Z) (s : V1Server) (N : nat) :
  reachable pad (s, Accepting) ->
  (forall t, (N <= length t)%nat -> os_stop_requested t = true) ->
  match AcceptOnce pad (S N) s with
  | Ret _ s' => mPipe s' = None
  | Exn e _ => exists code, e = win32_error code /\ os_create_pipe server_pipe (trace s) = inl code
  | _ => False
  end.
Proof.
  intros Hr HN; apply reachable_good in Hr as [Hi Hh Hn]; cbn [fst snd] in *.
  specialize (Hn ltac:(done)).
  pose proof (AcceptClient_pipe pad s Hi Hh Hn) as Hp.
  unfold AcceptOnce; unfold st_bind at 1.
  destruct (AcceptClient pad s) as [b s1|e s1|u|] eqn:E; try done.
  - destruct Hp as [Hh1 Hb]; destruct b; [|by apply Hb].
    destruct (WatchPipe_returns N (S N) s1 HN) as [s2 E2]; [lia|lia|].
    unfold st_bind; by rewrite E2.
Qed.

Lemma v1_accept_terminates_witness :
  match @AcceptOnce Sample.os Sample.pad 21 new_V1Server with
  | Ret _ s' => mPipe s' = None
  | Exn e _ => exists code, e = win32_error code /\ @os_create_pipe Sample.os server_pipe [] = inl code
  | _ => False
  end.
Proof.
  apply (@v1_accept_terminates arch64 Sample.os Utf8.Sample.codepage Utf8.Sample.spec
           Sample.pad new_V1Server 20).
  - apply rtc_refl.
  - intros t Ht; by apply Nat.leb_le in Ht.
Defined.

(** The name a v1 client gets.  [SetDevice] stores the first 64 units of the
    converted name; the array ends in a null unit exactly when the name is
    shorter than 64 units, so a longer name is not null-terminated. *)
Theorem v1_name_termination {HA : Arch} {HP : PipeOS} {HC : CodePage} {HS : CodePageSpec}
    (pad : nat -> Z) (d : V2.DeviceInfo) (s : V1Server) (p : phase) (text : list Z) :
  reachable pad (s, p) -> V2.deviceinfo_wf d ->
  Unicode.utf16_of (V2.GetName d) = Some text -> Forall (fun u => u <> 0) text ->
  exists s', SetDevice pad d s = Ret tt s' /\
    let name := V1.name (mV1Device s') in
    length name = 64%nat /\ until_nul name = take 64 text /\
    (0 ∈ name <-> (length text < 64)%nat).
Proof.
  intros Hr Hd Ht Hnz; apply reachable_good in Hr as [Hi _ _].
  destruct (returns_inv _ _ (SetDevice_inv pad d s Hd Hi)) as ([] & s' & E & _ & Hdev).
  exists s'; split; [done|]; rewrite Hdev; unfold v1_device; rewrite Ht.
  destruct (SynthesizeVidPid _) as [vid pid]; cbn -[fill_copy].
  split; [apply length_fill_copy|]; split; [by apply until_nul_fill_copy|].
  unfold fill_copy; rewrite elem_of_app; split.
  - intros [Hin|Hin]; [|apply elem_of_replicate in Hin; unfold V1.NAME_LENGTH in *; lia].
    by apply (proj1 (Forall_forall _ _) (Forall_take _ _ _ Hnz)) in Hin.
  - intros Hlt; right; apply elem_of_replicate; unfold V1.NAME_LENGTH; lia.
Qed.

Lemma v1_name_termination_witness :
  exists s', @SetDevice Sample.os Utf8.Sample.codepage Sample.pad Sample.device new_V1Server = Ret tt s' /\
    let name := V1.name (mV1Device s') in
    length name = 64%nat /\ until_nul name = take 64 (str "Tablet") /\
    (0 ∈ name <-> (length (str "Tablet") < 64)%nat).
Proof.
  apply (@v1_name_termination arch64 Sample.os Utf8.Sample.codepage Utf8.Sample.spec Sample.pad
           Sample.device new_V1Server Accepting).
  - apply rtc_refl.
  - apply Sample.device_wf.
  - reflexivity.
  - unfold str; cbn; repeat constructor; done.
Defined.

End V1Server.
