(* ===== verification/V1History.v ===== *)
(** * The OTD-IPC v1 server: what a client gets of a run

    Runs of the threads of V1Server with their labels, and what the client on the
    pipe has been sent in a run: the device first, and every pen state since it
    connected, converted, once and in order. *)

From S2P Require Import Prelude Layout V2Messages V1Messages Unicode Utf8 V1Server.
Import V1Server.

Module V1History.

Inductive ran `{Arch} `{PipeOS} `{CodePage} (pad : nat -> Z) : list label -> V1Server * phase -> Prop :=
  | ran_start : ran pad [] (new_V1Server, Accepting)
  | ran_step ls l c c' : ran pad ls c -> lstep pad l c c' -> ran pad (ls ++ [l]) c'.

(** The messages written to the pipe since it was created. *)
Definition client_step (l : list bytes) (e : event) : list bytes :=
  match e with
  | ECreateNamedPipe _ (inr _) => []
  | EWriteFile _ m (Some _) => l ++ [m]
  | _ => l
  end.
Definition client_log (t : list event) : list bytes := foldl client_step [] t.

(** The states the caller has given the server since the last client
    connected. *)
Definition since_step (sts : list V2.State) (l : label) : list V2.State :=
  match l with LAccept => [] | LState st => sts ++ [st] | _ => sts end.
Definition since_connect (ls : list label) : list V2.State := foldl since_step [] ls.

Definition is_state (m : bytes) : bool := type_at m =? V1.MT_State.
Definition states_in (l : list bytes) : list bytes := List.filter is_state l.

(** A message from which a client reads the converted state. *)
Definition carries (m : bytes) (st : V2.State) : Prop :=
  exists vid pid, decode m = Some (convert_state vid pid st).

Section history.
Context {HA : Arch} {HP : PipeOS} {HC : CodePage} {HS : CodePageSpec} (pad : nat -> Z).

Lemma v1_ran_reachable ls c : ran pad ls c -> reachable pad c.
Proof.
  induction 1 as [|ls l c c' Hr IH Hl]; [apply rtc_refl|].
  eapply rtc_r; [exact IH|by exists l].
Qed.

Lemma v1_log_app t u : client_log (t ++ u) = foldl client_step (client_log t) u.
Proof. apply foldl_app. Qed.

Lemma v1_states_in_app l m : states_in (l ++ [m]) = states_in l ++ (if is_state m then [m] else []).
Proof. unfold states_in; rewrite List.filter_app; cbn; by destruct (is_state m). Qed.

Lemma v1_is_state_encode `{Message T} (m : T) : wire_wf m ->
  is_state (encode pad m) = (msg_type m =? V1.MT_State).
Proof. intros Hm; unfold is_state; by rewrite (msg_type_at pad m). Qed.

(** The pipe that is open after a send was open before, and has one more
    message; without a pipe nothing is written. *)
Definition wrote (m : bytes) (s s' : V1Server) : Prop :=
  (mPipe s' <> None ->
   mPipe s <> None /\ client_log (trace s') = client_log (trace s) ++ [m]) /\
  (mPipe s = None -> client_log (trace s') = client_log (trace s)).

Lemma Send_wrote `{Message T} (m : T) s :
  wire_wf m -> msg_size m = sizeof T -> is_u 32 (sizeof T) ->
  returns ((let* _ := Send pad m in st_ret tt) s) (fun _ s' => wrote (encode pad m) s s').
Proof.
  intros Hm Hs Hn; unfold st_bind; rewrite (Send_eq pad m) by done.
  unfold wrote; destruct (mPipe s) as [h|] eqn:Ep; [|done]; cbv zeta.
  destruct (os_write_file (trace s) h _) as [w|] eqn:Ew; [|done].
  split; [|done]; intros _; split; [done|]; cbn [trace log]; by rewrite v1_log_app.
Qed.

(** What a step adds to the messages of a client that is connected after it. *)
Definition adds (l : label) (s s' : V1Server) : Prop :=
  mPipe s' <> None ->
  match l with
  | LAccept => states_in (client_log (trace s')) = []
  | LState st => mPipe s <> None /\ exists m,
      client_log (trace s') = client_log (trace s) ++ [m] /\ is_state m = true /\ carries m st
  | _ => mPipe s <> None /\ states_in (client_log (trace s')) = states_in (client_log (trace s))
  end.

(** Without a pipe nothing is sent. *)
Definition silent (s s' : V1Server) : Prop :=
  mPipe s = None -> client_log (trace s') = client_log (trace s).

Definition plain (l : label) : Prop := match l with LAccept | LState _ => False | _ => True end.

Lemma wrote_adds l m s s' : wrote m s s' -> is_state m = false -> plain l -> adds l s s'.
Proof.
  intros [Hw _] Hm Hl Hk; destruct (Hw Hk) as [Hk0 E].
  destruct l; try done; (split; [done|]); by rewrite E, v1_states_in_app, Hm, app_nil_r.
Qed.

Lemma SetState_adds st s s' : V2.state_wf st -> inv pad s -> SetState pad st s = Ret tt s' ->
  adds (LState st) s s' /\ silent s s'.
Proof.
  intros Hst Hi E; destruct (inv_device _ _ Hi) as (Hv & Hp & _).
  revert E; unfold SetState; unfold gets, modify; unfold st_bind at 1 2.
  set (v := V1.vid _); set (p := V1.pid _).
  pose proof (convert_state_wf v p st Hv Hp Hst) as Hwf; intros E.
  pose proof (Send_wrote (convert_state v p st) (set_mV1State (convert_state v p st) s) Hwf eq_refl) as Hw.
  rewrite E in Hw; destruct (Hw ltac:(done)) as [Hw1 Hw2]; split; [|exact Hw2].
  intros Hk; destruct (Hw1 Hk) as [Hk0 El]; split; [exact Hk0|].
  exists (encode pad (convert_state v p st)); split; [exact El|]; split; [by rewrite v1_is_state_encode|].
  exists v, p; rewrite <- (app_nil_r (encode pad _)); by apply decode_encode.
Qed.

Lemma SetDevice_adds d s s' : V2.deviceinfo_wf d -> SetDevice pad d s = Ret tt s' ->
  adds (LDevice d) s s' /\ silent s s'.
Proof.
  intros Hd E; destruct (v1_device_ok d Hd) as (Hwf & _ & Hs).
  rewrite (SetDevice_eq pad d) in E by done.
  pose proof (Send_wrote (v1_device d) (set_mV1Device (v1_device d) s) Hwf Hs) as Hw; rewrite E in Hw.
  specialize (Hw ltac:(done)); split; [|exact (proj2 Hw)].
  eapply (wrote_adds _ (encode pad (v1_device d))); [exact Hw| |done].
  rewrite v1_is_state_encode by done; unfold v1_device; by destruct (SynthesizeVidPid _).
Qed.

Lemma PingOnce_adds s s' : inv pad s -> PingOnce pad s = Ret tt s' -> adds LOther s s' /\ silent s s'.
Proof.
  intros Hi; destruct (inv_device _ _ Hi) as (Hv & Hp & _).
  unfold PingOnce, sleep_for; unfold gets, modify; unfold st_bind at 1 2 3; cbn [id].
  set (n := size_t _); pose proof (arch_bounds (mPingSequenceNumber s + 1)) as [Hq _].
  match goal with |- context [Send pad ?m] => set (ping := m) end; intros E.
  assert (wire_wf ping) as Hwf by (split; [by apply create_header_wf|done]).
  pose proof (Send_wrote ping (set_mPing n (log (ESleep 1000) s)) Hwf eq_refl ltac:(done)) as Hw; rewrite E in Hw.
  assert (wrote (encode pad ping) s s') as Hw'.
  { destruct Hw as [Hw1 Hw2]; cbn [trace set_mPing log mPipe] in *; rewrite v1_log_app in *; by split. }
  split; [|exact (proj2 Hw')]; apply (wrote_adds LOther (encode pad ping)); [done|by rewrite v1_is_state_encode|done].
Qed.

Lemma GreetClient_adds s s' : inv pad s -> GreetClient pad s = Ret tt s' -> adds LOther s s'.
Proof.
  intros Hi; destruct (inv_device _ _ Hi) as (_ & _ & Hd).
  unfold GreetClient, gets, when; unfold st_bind at 1.
  destruct (V1.isValid (mV1Device s)) eqn:Ev; [|by intros [= <-]].
  destruct (Hd eq_refl) as (Hwf & Ht & Hs'); intros E.
  pose proof (Send_wrote (mV1Device s) s Hwf Hs' ltac:(done)) as Hw; rewrite E in Hw.
  apply (wrote_adds LOther (encode pad (mV1Device s))); [exact Hw| |done].
  rewrite v1_is_state_encode by done.
  change (msg_type (mV1Device s)) with (V1.messageType (V1.di_header (mV1Device s))); by rewrite Ht.
Qed.

(** A part of the loop that writes nothing. *)
Definition stays (s s' : V1Server) : Prop :=
  mPipe s' = mPipe s /\ client_log (trace s') = client_log (trace s).

Lemma stays_adds s s' : stays s s' -> adds LOther s s'.
Proof. intros [Ep El] Hk; rewrite El; by rewrite <- Ep. Qed.

Lemma WatchCheck_adds b s s' : WatchCheck s = Ret b s' -> stays s s'.
Proof.
  unfold WatchCheck, stop_requested, ask, sleep_for, gets, modify, st_bind, stays.
  change (mPipe (log _ s)) with (mPipe s).
  destruct (os_stop_requested (trace s)), (mPipe s) eqn:Ep; intros [= _ <-]; cbn [mPipe trace log];
    rewrite ?v1_log_app; done.
Qed.

Lemma PeekOnce_adds b s s' : PeekOnce s = Ret b s' -> stays s s'.
Proof. intros [= _ <-]; split; [done|]; cbn [trace log]; by rewrite v1_log_app. Qed.

(** A new pipe has no messages. *)
Lemma CreatePipe_adds r s s' : CreatePipe s = Ret r s' ->
  mPipe s' = mPipe s /\ (r <> None -> client_log (trace s') = []).
Proof.
  unfold CreatePipe, ask; unfold st_bind at 1; cbv zeta.
  destruct (os_create_pipe server_pipe (trace s)) as [err|pipe].
  - destruct (_ || _); [|done]; by intros [= <- <-].
  - intros [= <- <-]; split; [done|]; intros _; cbn [trace log]; by rewrite v1_log_app.
Qed.

Lemma ConnectPipe_adds h b s s' : ConnectPipe h s = Ret b s' -> stays s s'.
Proof.
  unfold ConnectPipe, ask; unfold st_bind at 1; cbv zeta.
  destruct (match os_connect_pipe _ _ with None => true | Some error => error =? ERROR_PIPE_CONNECTED end);
    intros [= <- <-]; (split; [done|]); cbn [trace log]; by rewrite !v1_log_app.
Qed.

(** A pipe that is not published yet has no messages. *)
Definition unwritten (c : V1Server * phase) : Prop :=
  local (snd c) <> None -> client_log (trace (fst c)) = [].

Lemma v1_lstep_adds l c c' : lstep pad l c c' -> good pad c -> unwritten c ->
  adds l (fst c) (fst c') /\ unwritten c'.
Proof.
  unfold unwritten; destruct 1 as [d s s' p Hd E|st s s' p Hst E|s s' p E|r s s' E|h b s s' E|h s s' E|s s' E
    |b s s' E|b s s' E|s s' E|s s' E|s s' E|s s' E];
    intros [Hi Hh Hn] Hu; cbn [fst snd] in *.
  - destruct (SetDevice_adds _ _ _ Hd E) as [Ha Hs]; split; [done|]; intros Hl.
    destruct (local p) eqn:El; [|done]; destruct Hh as [_ Hk]; rewrite Hs; auto.
  - destruct (SetState_adds _ _ _ Hst Hi E) as [Ha Hs]; split; [done|]; intros Hl.
    destruct (local p) eqn:El; [|done]; destruct Hh as [_ Hk]; rewrite Hs; auto.
  - destruct (PingOnce_adds _ _ Hi E) as [Ha Hs]; split; [done|]; intros Hl.
    destruct (local p) eqn:El; [|done]; destruct Hh as [_ Hk]; rewrite Hs; auto.
  - apply CreatePipe_adds in E as [Ep El]; split; [by intros Hk; rewrite Ep, Hn in Hk|].
    destruct r; [by intros; apply El|done].
  - apply ConnectPipe_adds in E as Hs; split; [by apply stays_adds|].
    destruct b; [|done]; intros _; destruct Hs as [_ ->]; by apply Hu.
  - injection E as <-; split; [|done]; intros _; specialize (Hu ltac:(done)); destruct Hh as [_ Hk].
    unfold close_pipe; rewrite Hk; cbn [trace set_mPipe]; by rewrite Hu.
  - split; [by apply GreetClient_adds|done].
  - apply WatchCheck_adds, stays_adds in E; by destruct b.
  - apply PeekOnce_adds, stays_adds in E; by destruct b.
  - by injection E as <-.
  - injection E as _ <-; split; [|done]; apply stays_adds; split; [done|]; cbn [trace log]; by rewrite v1_log_app.
  - injection E as _ <-; split; [|done]; apply stays_adds; split; [done|]; cbn [trace log]; by rewrite v1_log_app.
  - by injection E as <-.
Qed.

Lemma v1_since_app ls l : since_connect (ls ++ [l]) = since_step (since_connect ls) l.
Proof. unfold since_connect; by rewrite foldl_app. Qed.

Lemma v1_ran_unwritten ls c : ran pad ls c -> unwritten c.
Proof.
  induction 1 as [|ls l c c' Hr IH Hl]; [done|].
  by apply (v1_lstep_adds l c c' Hl (reachable_good pad c (v1_ran_reachable _ _ Hr)) IH).
Qed.

Lemma v1_ran_states ls c : ran pad ls c -> mPipe (fst c) <> None ->
  Forall2 carries (states_in (client_log (trace (fst c)))) (since_connect ls).
Proof.
  induction 1 as [|ls l c c' Hr IH Hl]; intros Hc; [done|].
  destruct (v1_lstep_adds l c c' Hl (reachable_good pad c (v1_ran_reachable _ _ Hr))
    (v1_ran_unwritten _ _ Hr)) as [Ha _]; specialize (Ha Hc).
  rewrite v1_since_app; destruct l; cbn [since_step] in *.
  1,4: destruct Ha as [Hk ->]; by apply IH.
  - destruct Ha as (Hk & m & -> & Hm & Hst); rewrite v1_states_in_app, Hm.
    apply Forall2_app; [by apply IH|by repeat constructor].
  - rewrite Ha; constructor.
Qed.

(** ** From one point of a run to a later one *)

Inductive steps : list label -> V1Server * phase -> V1Server * phase -> Prop :=
  | steps_none c : steps [] c c
  | steps_more ls l c c' c'' : steps ls c c' -> lstep pad l c' c'' -> steps (ls ++ [l]) c c''.

Lemma v1_steps_ran ls0 ls c c' : ran pad ls0 c -> steps ls c c' -> ran pad (ls0 ++ ls) c'.
Proof.
  intros Hr; induction 1 as [c|ls l c c' c'' _ IH Hl]; [by rewrite app_nil_r|].
  rewrite app_assoc; by eapply ran_step; [apply IH|].
Qed.

(** How often a pipe has been created. *)
Definition is_create (e : event) : bool := match e with ECreateNamedPipe _ (inr _) => true | _ => false end.
Definition create_count (t : list event) : nat := length (List.filter is_create t).

Lemma create_count_app t u : create_count (t ++ u) = (create_count t + create_count u)%nat.
Proof. unfold create_count; by rewrite List.filter_app, length_app. Qed.

Lemma create_count_log e s : is_create e = false -> create_count (trace (log e s)) = create_count (trace s).
Proof. intros He; cbn [trace log]; rewrite create_count_app; cbn; rewrite He; cbn; lia. Qed.

Lemma create_count_close s : create_count (trace (close_pipe s)) = create_count (trace s).
Proof. unfold close_pipe; destruct (mPipe s); [by apply create_count_log|done]. Qed.

Lemma create_count_written m s s' : written m s s' -> create_count (trace s') = create_count (trace s).
Proof.
  unfold written; destruct (mPipe s) as [h|]; [|by intros ->]; intros [r ->].
  destruct r; cbn [trace set_mPipe]; by rewrite !create_count_log.
Qed.

Lemma create_count_Send `{Message T} (m : T) s s' : wire_wf m -> msg_size m = sizeof T -> is_u 32 (sizeof T) ->
  (let* _ := Send pad m in st_ret tt) s = Ret tt s' -> create_count (trace s') = create_count (trace s).
Proof.
  intros Hm Hs Hn E; apply bind_Ret in E as (b & s1 & E & [= <-]).
  pose proof (Send_written pad m s Hm Hs Hn) as Hw; rewrite E in Hw; by apply create_count_written in Hw.
Qed.

Lemma create_count_SetDevice d s s' : V2.deviceinfo_wf d -> SetDevice pad d s = Ret tt s' ->
  create_count (trace s') = create_count (trace s).
Proof.
  intros Hd E; destruct (v1_device_ok d Hd) as (Hwf & _ & Hs); rewrite (SetDevice_eq pad d) in E by done.
  by apply (create_count_Send (v1_device d)) in E.
Qed.

Lemma create_count_SetState st s s' : V2.state_wf st -> inv pad s -> SetState pad st s = Ret tt s' ->
  create_count (trace s') = create_count (trace s).
Proof.
  intros Hst Hi; destruct (inv_device _ _ Hi) as (Hv & Hp & _).
  unfold SetState, gets, modify; unfold st_bind at 1 2; set (st1 := convert_state _ _ _).
  assert (V1.state_wf st1) as Hwf by by apply convert_state_wf.
  intros E; by apply (create_count_Send st1) in E.
Qed.

Lemma create_count_PingOnce s s' : inv pad s -> PingOnce pad s = Ret tt s' ->
  create_count (trace s') = create_count (trace s).
Proof.
  intros Hi; destruct (inv_device _ _ Hi) as (Hv & Hp & _).
  unfold PingOnce, sleep_for, gets, modify; unfold st_bind at 1 2 3; cbn [id].
  pose proof (arch_bounds (mPingSequenceNumber s + 1)) as [Hq _]; set (n := size_t _).
  match goal with |- context [Send pad ?m] => set (ping := m) end; intros E.
  assert (wire_wf ping) as Hwf by (split; [by apply create_header_wf|done]).
  apply (create_count_Send ping) in E as ->; [by apply create_count_log|done..].
Qed.

Lemma create_count_Greet s s' : inv pad s -> GreetClient pad s = Ret tt s' ->
  create_count (trace s') = create_count (trace s).
Proof.
  intros Hi; destruct (inv_device _ _ Hi) as (_ & _ & Hd); unfold GreetClient, gets, when; unfold st_bind at 1.
  destruct (V1.isValid (mV1Device s)) eqn:Ev; [|by intros [= <-]]; destruct (Hd eq_refl) as (Hwf & Ht & Hs').
  intros E; by apply (create_count_Send (mV1Device s)) in E.
Qed.

(** A client is only taken on with a pipe that was created for it. *)
Lemma v1_lstep_created l c c' : lstep pad l c c' -> good pad c ->
  create_count (trace (fst c')) = S (create_count (trace (fst c))) \/
  create_count (trace (fst c')) = create_count (trace (fst c)) /\
  (local (snd c) = None -> l <> LAccept /\ local (snd c') = None).
Proof.
  destruct 1 as [d s s' p Hd E|st s s' p Hst E|s s' p E|r s s' E|h b s s' E|h s s' E|s s' E
    |b s s' E|b s s' E|s s' E|s s' E|s s' E|s s' E]; intros [Hi _ _]; cbn [fst snd] in *.
  - right; split; [by eapply create_count_SetDevice|done].
  - right; split; [by eapply create_count_SetState|done].
  - right; split; [by eapply create_count_PingOnce|done].
  - revert E; unfold CreatePipe, ask; unfold st_bind at 1; cbv zeta.
    destruct (os_create_pipe server_pipe (trace s)) as [err|pipe].
    + destruct (_ || _); [|done]; intros [= <- <-]; right; split; [|done]; by rewrite !create_count_log.
    + intros [= <- <-]; left; cbn [trace log]; rewrite create_count_app; cbn; lia.
  - right; split; [|done]; revert E; unfold ConnectPipe, ask; unfold st_bind at 1; cbv zeta.
    destruct (match os_connect_pipe _ _ with None => true | Some error => error =? ERROR_PIPE_CONNECTED end);
      intros [= <- <-]; by rewrite ?create_count_log.
  - right; split; [|done]; injection E as <-; apply create_count_close.
  - right; split; [by eapply create_count_Greet|done].
  - right; revert E; unfold WatchCheck, stop_requested, ask, sleep_for, gets, modify, st_bind.
    change (mPipe (log _ s)) with (mPipe s).
    destruct (os_stop_requested (trace s)), (mPipe s); intros [= <- <-]; by rewrite !create_count_log.
  - right; injection E as <- <-; rewrite create_count_log by done; by destruct (os_peek_pipe _ _).
  - right; injection E as <-; split; [apply create_count_close|done].
  - right; injection E as _ <-; by rewrite create_count_log.
  - right; injection E as _ <-; by rewrite create_count_log.
  - right; injection E as <-; split; [apply create_count_close|done].
Qed.

Definition handed (ls : list label) : list V2.State :=
  omap (fun l => match l with LState st => Some st | _ => None end) ls.

Lemma v1_handed_app ls l : handed (ls ++ [l]) = handed ls ++ match l with LState st => [st] | _ => [] end.
Proof. unfold handed; rewrite omap_app; by destruct l. Qed.

Lemma v1_steps_count ls0 ls c c' : ran pad ls0 c -> steps ls c c' ->
  (create_count (trace (fst c)) <= create_count (trace (fst c')))%nat.
Proof.
  intros Hr; induction 1 as [|ls l c c' c'' Hs IH Hl]; [done|]; specialize (IH Hr).
  pose proof (reachable_good pad _ (v1_ran_reachable _ _ (v1_steps_ran _ _ _ _ Hr Hs))) as Hg.
  destruct (v1_lstep_created l c' c'' Hl Hg) as [?|[? _]]; lia.
Qed.

(** A client that is still the same one has been sent every state since. *)
Lemma v1_steps_states ls0 ls c c' : ran pad ls0 c -> steps ls c c' -> local (snd c) = None ->
  create_count (trace (fst c')) = create_count (trace (fst c)) ->
  local (snd c') = None /\ (mPipe (fst c') <> None -> exists sent,
    states_in (client_log (trace (fst c'))) = states_in (client_log (trace (fst c))) ++ sent /\
    Forall2 carries sent (handed ls)).
Proof.
  intros Hr; induction 1 as [|ls l c c' c'' Hs IH Hl]; intros Hc Hn.
  { split; [done|]; exists []; split; [by rewrite app_nil_r|constructor]. }
  pose proof (v1_steps_ran _ _ _ _ Hr Hs) as Hr'; pose proof (v1_steps_count _ _ _ _ Hr Hs).
  pose proof (reachable_good pad _ (v1_ran_reachable _ _ Hr')) as Hg.
  destruct (v1_lstep_created l c' c'' Hl Hg) as [?|[? Hx]]; [lia|].
  destruct (IH Hr Hc ltac:(lia)) as [Hc' IH']; destruct (Hx Hc') as [Hx1 Hx2]; split; [done|]; intros Hk.
  destruct (v1_lstep_adds l c' c'' Hl Hg (v1_ran_unwritten _ _ Hr')) as [Ha _]; specialize (Ha Hk).
  rewrite v1_handed_app; destruct l; [| |done|].
  1,3: destruct Ha as [Hk' ->]; rewrite app_nil_r; by apply IH'.
  destruct Ha as (Hk' & m & El & Hm & Hst); destruct (IH' Hk') as (sent & E & HF).
  exists (sent ++ [m]); rewrite El, v1_states_in_app, Hm, E, app_assoc.
  split; [done|]; apply Forall2_app; [done|by repeat constructor].
Qed.
End history.

(** ** A concrete run *)

Module Sample.
Import V1Server.Sample.
#[local] Existing Instance V1Server.Sample.os.
#[local] Existing Instance Utf8.Sample.codepage.
#[local] Existing Instance arch64.

(** A device, a client, and a pen state. *)
Definition moved : V1Server :=
  match SetState pad sample_state connected with Ret _ s => s | _ => connected end.

Definition sample_labels : list label :=
  [LDevice device; LOther; LOther; LAccept; LOther; LState sample_state].
Lemma v1_sample_run : ran pad sample_labels (moved, Watching).
Proof.
  change sample_labels with
    (([LDevice device; LOther; LOther; LAccept] ++ [LOther]) ++ [LState sample_state]).
  eapply ran_step; [eapply ran_step|].
  { change [LDevice device; LOther; LOther; LAccept] with
      (((([] ++ [LDevice device]) ++ [LOther]) ++ [LOther]) ++ [LAccept]).
    eapply ran_step; [eapply ran_step; [eapply ran_step; [eapply ran_step; [apply ran_start|]|]|]|].
    - apply (step_set_device pad device); [apply device_wf|]; vm_compute; reflexivity.
    - apply (step_create pad (Some 7)); vm_compute; reflexivity.
    - apply (step_connect pad 7 true); vm_compute; reflexivity.
    - apply (step_publish pad 7); vm_compute; reflexivity. }
  - apply (step_greet pad _ connected); vm_compute; reflexivity.
  - apply (step_set_state pad sample_state); [by repeat split|]; vm_compute; reflexivity.
Qed.
End Sample.

(** ** Properties *)

(** A v1 client gets every state, once and in order.  However the threads
    interleave, the state messages that have been written to the open pipe are
    exactly the states the caller has given the server since its client
    connected, each converted to the v1 format, in the same order. *)
Theorem v1_states_in_order {HA : Arch} {HP : PipeOS} {HC : CodePage} {HS : CodePageSpec}
    (pad : nat -> Z) (ls : list label) (s : V1Server) (p : phase) (h : Z) :
  ran pad ls (s, p) -> mPipe s = Some h ->
  Forall2 carries (states_in (client_log (trace s))) (since_connect ls).
Proof. intros Hr Hk; apply (v1_ran_states pad ls _ Hr); cbn; by rewrite Hk. Qed.

Lemma v1_states_in_order_witness :
  Forall2 carries (states_in (client_log (trace Sample.moved))) [V1Server.sample_state].
Proof.
  refine (@v1_states_in_order arch64 V1Server.Sample.os Utf8.Sample.codepage Utf8.Sample.spec
    V1Server.Sample.pad Sample.sample_labels Sample.moved Watching 7 Sample.v1_sample_run _); vm_compute; reflexivity.
Defined.

End V1History.
