(* ===== verification/V2Server.v ===== *)
(** * The OTD-IPC v2 server (src/src/V2Server.cpp): object and sending

    The server listens on a Unix socket, serves one client at a time and sends
    it what [SetDevice], [SetState], [SendDebugMessage] and the ping thread
    produce.  The state of the object is [V2Server] (with the static ping
    counter of [PingLoop] and the files the server writes); WinSock and the
    file functions are the interface [SocketOS], which answers a call from the
    calls made so far; every call is recorded in [trace].  Receiving is in
    V2Accept, discovery and start-up in V2Discovery. *)

From stdpp Require Import gmap.
From S2P Require Import Prelude Layout V2Messages.

Module V2Server.

Record Config := mkConfig {
  implementationId : bytes;
  humanName : bytes;
  humanVersion : bytes;
  homepageUrl : bytes;
  socketPath : bytes
}.

Inductive DefaultBehavior := SetIfUnset | DoNotSet | AlwaysSet.

Definition ProtocolVersion : Z := 0x022026020501.
Definition CompatibilityVersion : Z := 1.

(** What [recv] delivered; [RecvData []] is a return value of 0. *)
Inductive recv_result :=
  | RecvData (data : bytes)
  | RecvError (wsa_error : Z).

(** What the server prints. *)
Inductive printed :=
  | PDisconnected
  | PReadFailed (hresult : Z)
  | PClientMessage (text : bytes)
  | PClientHello (name version : bytes) (protocol : Z) (id : bytes) (cv : Z)
  | PUnexpected (messageType : Z).

Inductive event :=
  | ESocket (r : Z + Z)                    (* inl: error, inr: the socket *)
  | EExists (path : bytes) (b : bool)
  | ERemove (path : bytes) (removed : bool)
  | ECreateDirectories (path : bytes) (err : option Z)
  | EBind (sock : Z) (sun_path : bytes) (err : option Z)
  | EListen (sock backlog : Z) (err : option Z)
  | EAccept (sock : Z) (client : option Z)
  | ESend (sock : Z) (data : bytes) (len result : Z)
  | ERecv (sock len : Z) (r : recv_result)
  | ECloseSocket (sock : Z)
  | EOpenFile (path : bytes) (ok : bool)
  | EPrint (p : printed)
  | ESleep (ms : Z)
  | EStopRequested (b : bool)
  | EThreadsStarted
  | EThreadsJoined
  | EWSACleanup.

Class SocketOS := {
  os_local_app_data : option bytes;
  os_absolute : bytes -> bytes;
  os_socket : list event -> Z + Z;
  os_exists : list event -> bytes -> bool;
  os_remove : list event -> bytes -> bool;
  os_create_directories : list event -> bytes -> option Z;
  os_bind : list event -> Z -> bytes -> option Z;
  os_listen : list event -> Z -> option Z;
  os_accept : list event -> Z -> option Z;
  os_send : list event -> Z -> bytes -> Z -> Z;
  os_recv : list event -> Z -> Z -> recv_result;
  os_open_file : list event -> bytes -> bool;
  os_stop_requested : list event -> bool
}.

Record V2Server := mkV2Server {
  mConfig : Config;
  mDefaultBehavior : DefaultBehavior;
  mDevice : option V2.DeviceInfo;
  mListenSocket : option Z;
  mClientSocket : option Z;
  ping_seq : Z;
  files : gmap bytes bytes;
  trace : list event
}.

Definition new_V2Server (config : Config) (behavior : DefaultBehavior) (fs : gmap bytes bytes) :
    V2Server :=
  mkV2Server config behavior None None None 0 fs [].

Definition set_mDevice (d : option V2.DeviceInfo) (s : V2Server) : V2Server :=
  mkV2Server (mConfig s) (mDefaultBehavior s) d (mListenSocket s) (mClientSocket s) (ping_seq s)
    (files s) (trace s).
Definition set_mListenSocket (k : option Z) (s : V2Server) : V2Server :=
  mkV2Server (mConfig s) (mDefaultBehavior s) (mDevice s) k (mClientSocket s) (ping_seq s)
    (files s) (trace s).
Definition set_mClientSocket (k : option Z) (s : V2Server) : V2Server :=
  mkV2Server (mConfig s) (mDefaultBehavior s) (mDevice s) (mListenSocket s) k (ping_seq s)
    (files s) (trace s).
Definition set_ping_seq (n : Z) (s : V2Server) : V2Server :=
  mkV2Server (mConfig s) (mDefaultBehavior s) (mDevice s) (mListenSocket s) (mClientSocket s) n
    (files s) (trace s).
Definition set_files (f : gmap bytes bytes) (s : V2Server) : V2Server :=
  mkV2Server (mConfig s) (mDefaultBehavior s) (mDevice s) (mListenSocket s) (mClientSocket s)
    (ping_seq s) f (trace s).
Definition log (e : event) (s : V2Server) : V2Server :=
  mkV2Server (mConfig s) (mDefaultBehavior s) (mDevice s) (mListenSocket s) (mClientSocket s)
    (ping_seq s) (files s) (trace s ++ [e]).

(** A call to the environment. *)
Definition ask {A} (f : list event -> A) (e : A -> event) : ST V2Server A :=
  fun s => let a := f (trace s) in Ret a (log (e a) s).

Definition print (p : printed) : ST V2Server unit := modify (log (EPrint p)).
Definition sleep_for (ms : Z) : ST V2Server unit := modify (log (ESleep ms)).

(** [wil::unique_socket]: [reset()] and move assignment close the socket held
    so far; [get()] of an empty one is [INVALID_SOCKET]. *)
Definition close_client (s : V2Server) : V2Server :=
  match mClientSocket s with Some k => log (ECloseSocket k) s | None => s end.
Definition close_listen (s : V2Server) : V2Server :=
  match mListenSocket s with Some k => log (ECloseSocket k) s | None => s end.
Definition reset_mClientSocket : ST V2Server unit :=
  modify (fun s => set_mClientSocket None (close_client s)).
Definition move_to_mClientSocket (k : Z) : ST V2Server unit :=
  modify (fun s => set_mClientSocket (Some k) (close_client s)).
Definition reset_mListenSocket : ST V2Server unit :=
  modify (fun s => set_mListenSocket None (close_listen s)).
Definition INVALID_SOCKET : Z := -1.
Definition SOCKET_ERROR : Z := -1.
Definition socket_get (k : option Z) : Z := default INVALID_SOCKET k.

(** [TruncateNulls] and [CopyTo] on a [char] array. *)
Definition TruncateNulls (a : bytes) : bytes := until_nul a.
Definition CopyTo (N : nat) (src : bytes) : bytes := fill_copy N src.

(** [InitHeader(msg, tabletId)] for the messages that derive from [Header]. *)
Definition InitHeader_device (d : V2.DeviceInfo) (tabletId : Z) : V2.DeviceInfo :=
  V2.mkDeviceInfo (V2.init_header V2.MT_DeviceInfo tabletId (sizeof V2.DeviceInfo))
    (V2.maxX d) (V2.maxY d) (V2.maxPressure d) (V2.persistentId d) (V2.name d).
Definition InitHeader_state (st : V2.State) (tabletId : Z) : V2.State :=
  V2.mkState (V2.init_header V2.MT_State tabletId (sizeof V2.State))
    (V2.validBits st) (V2.x st) (V2.y st) (V2.pressure st) (V2.penButtons st) (V2.auxButtons st)
    (V2.hoverDistance st) (V2.penIsNearSurface st).
Definition InitHeader_ping (p : V2.Ping) (tabletId : Z) : V2.Ping :=
  V2.mkPing (V2.init_header V2.MT_Ping tabletId (sizeof V2.Ping)) (V2.sequenceNumber p).

Section server.
Context {HA : Arch} {HO : SocketOS} (pad : nat -> Z).

Definition stop_requested : ST V2Server bool := ask os_stop_requested EStopRequested.

Definition SendRaw (data : bytes) (size : Z) : ST V2Server bool :=
  if negb (size_at data =? size) then throw (RuntimeError "Header size mismatch")
  else
    let* client := gets mClientSocket in
    match client with
    | None => st_ret false
    | Some k =>
        let buf := take (Z.to_nat size) data in
        let len := s32 size in
        let* result := ask (fun t => os_send t k buf len) (ESend k buf len) in
        if result =? SOCKET_ERROR then reset_mClientSocket ;; st_ret false
        else st_ret true
    end.

Definition Send {T} `{Wire T} (data : T) : ST V2Server bool :=
  SendRaw (encode pad data) (sizeof T).

Definition SetDevice (device : V2.DeviceInfo) : ST V2Server unit :=
  let d := InitHeader_device device (V2.nonPersistentTabletId (V2.di_header device)) in
  modify (set_mDevice (Some d)) ;;
  let* _ := Send d in
  st_ret tt.

Definition SetState (state : V2.State) : ST V2Server unit :=
  let* device := gets mDevice in
  match device with
  | None => undef EmptyOptional
  | Some d =>
      let msg := InitHeader_state state (V2.nonPersistentTabletId (V2.di_header d)) in
      let* _ := Send msg in
      st_ret tt
  end.

Definition SendDebugMessage (message : bytes) : ST V2Server unit :=
  let totalSize := size_t (sizeof V2.Header + Z.of_nat (length message)) in
  let header := V2.init_header V2.MT_DebugMessage 0 totalSize in
  let* _ := SendRaw (encode pad header ++ message) totalSize in
  st_ret tt.

(** One round of [PingLoop] after the loop condition; [false]: the loop ends. *)
Definition PingOnce : ST V2Server bool :=
  sleep_for 1000 ;;
  let* stop := stop_requested in
  if stop then st_ret false
  else
    let* client := gets mClientSocket in
    match client with
    | None => st_ret true
    | Some _ =>
        let* n := gets ping_seq in
        let n := u64 (n + 1) in
        modify (set_ping_seq n) ;;
        let ping := InitHeader_ping V2.new_Ping 0 in
        let* _ := Send (V2.mkPing (V2.ping_header ping) n) in
        st_ret true
    end.

Fixpoint PingLoop (fuel : nat) : ST V2Server unit :=
  match fuel with
  | O => nofuel
  | S fuel =>
      let* stop := stop_requested in
      if stop then st_ret tt
      else let* more := PingOnce in if more then PingLoop fuel else st_ret tt
  end.

(** The [Hello] of the handshake. *)
Definition hello_message (c : Config) : V2.Hello :=
  V2.mkHello V2.hello_header ProtocolVersion (CopyTo 256 (humanName c)) (CopyTo 256 (humanVersion c))
    (CopyTo 256 (implementationId c)) CompatibilityVersion.

End server.

(** ** Messages on the socket *)

Section messages.
Context {HA : Arch} {HO : SocketOS} (pad : nat -> Z).

(** A message a v2 client can read: its header carries its type and its size. *)
Inductive v2_message : bytes -> Prop :=
  | device_message d : V2.deviceinfo_wf d ->
      V2.messageType (V2.di_header d) = V2.MT_DeviceInfo ->
      V2.size (V2.di_header d) = sizeof V2.DeviceInfo -> v2_message (encode pad d)
  | state_message st : V2.state_wf st ->
      V2.messageType (V2.st_header st) = V2.MT_State ->
      V2.size (V2.st_header st) = sizeof V2.State -> v2_message (encode pad st)
  | ping_message p : wire_wf p ->
      V2.messageType (V2.ping_header p) = V2.MT_Ping ->
      V2.size (V2.ping_header p) = sizeof V2.Ping -> v2_message (encode pad p)
  | hello_is_message h : V2.hello_wf h -> V2.header h = V2.hello_header ->
      v2_message (encode pad h)
  | debug_message h text : V2.header_wf h ->
      V2.messageType h = V2.MT_DebugMessage ->
      V2.size h = sizeof V2.Header + Z.of_nat (length text) ->
      v2_message (encode pad h ++ text).

Lemma size_at_app a b : (8 <= length a)%nat -> size_at (a ++ b) = size_at a.
Proof.
  intros Hl; unfold size_at, slice; rewrite drop_app_le by lia.
  by rewrite take_app_le by (rewrite length_drop; lia).
Qed.

Lemma encode_size `{Message T} (m : T) : wire_wf m -> msg_size m = sizeof T ->
  12 <= sizeof T < 2 ^ 32 ->
  size_at (encode pad m) = Z.of_nat (length (encode pad m)) /\
  (12 <= length (encode pad m))%nat /\ is_u 32 (size_at (encode pad m)).
Proof.
  intros Hm Hs Hb; pose proof (length_encode pad m Hm).
  rewrite (msg_size_at pad m Hm), Hs; unfold is_u; lia.
Qed.

(** The size in the header is the length of the message. *)
Lemma v2_message_size m : v2_message m ->
  size_at m = Z.of_nat (length m) /\ (12 <= length m)%nat /\ is_u 32 (size_at m).
Proof.
  destruct 1 as [d Hd Ht Hs|st Hd Ht Hs|p Hd Ht Hs|h Hd Hs|h text Hh Ht Hs].
  - by apply encode_size.
  - by apply encode_size.
  - by apply encode_size.
  - apply encode_size; [done| |done]; cbn; by rewrite Hs.
  - pose proof (length_encode pad h Hh) as Hl; rewrite V2.v2_header_sizeof in *.
    unfold V2.HEADER_SIZE in *.
    rewrite size_at_app by lia; rewrite (msg_size_at (T := V2.Header) pad h), length_app by done.
    destruct Hh as (_ & Hu & _); cbn; rewrite Hs in *; split; [lia|]; split; [lia|done].
Qed.

(** [SendRaw] on a message whose header has its length. *)
Lemma SendRaw_eq m s : size_at m = Z.of_nat (length m) ->
  SendRaw m (Z.of_nat (length m)) s =
  match mClientSocket s with
  | None => Ret false s
  | Some k =>
      let len := s32 (Z.of_nat (length m)) in
      let r := os_send (trace s) k m len in
      let s' := log (ESend k m len r) s in
      if r =? SOCKET_ERROR then Ret false (set_mClientSocket None (log (ECloseSocket k) s'))
      else Ret true s'
  end.
Proof.
  intros Hs; unfold SendRaw; rewrite Hs, Z.eqb_refl; cbn [negb].
  unfold st_bind, gets; destruct (mClientSocket s) as [k|] eqn:Ek; [|done].
  unfold ask; rewrite Nat2Z.id, (take_ge m) by done.
  destruct (os_send _ k m _ =? SOCKET_ERROR); [|done].
  unfold reset_mClientSocket, modify, close_client; cbn; by rewrite Ek.
Qed.

Lemma Send_SendRaw `{Message T} (m : T) s : wire_wf m -> msg_size m = sizeof T ->
  Send pad m s = SendRaw (encode pad m) (Z.of_nat (length (encode pad m))) s.
Proof. intros Hm Hs; unfold Send; by rewrite (length_encode pad m). Qed.

(** The effect of sending [m]: nothing without a client; otherwise one call to
    [send], and the client is dropped when it fails. *)
Definition sent (m : bytes) (s s' : V2Server) : Prop :=
  match mClientSocket s with
  | None => s' = s
  | Some k =>
      exists r, let s1 := log (ESend k m (s32 (Z.of_nat (length m))) r) s in
      s' = (if r =? SOCKET_ERROR then set_mClientSocket None (log (ECloseSocket k) s1) else s1)
  end.

Lemma SendRaw_sent m s : size_at m = Z.of_nat (length m) ->
  returns (SendRaw m (Z.of_nat (length m)) s) (fun _ s' => sent m s s').
Proof.
  intros Hs; rewrite SendRaw_eq by done; unfold sent.
  destruct (mClientSocket s) as [k|]; [|done].
  set (r := os_send _ _ _ _); destruct (r =? SOCKET_ERROR) eqn:Er; cbn; exists r; by rewrite Er.
Qed.

Lemma Send_sent `{Message T} (m : T) s : wire_wf m -> msg_size m = sizeof T ->
  returns (Send pad m s) (fun _ s' => sent (encode pad m) s s').
Proof.
  intros Hm Hs; rewrite (Send_SendRaw m) by done; apply SendRaw_sent.
  by rewrite (length_encode pad m), (msg_size_at pad m), Hs.
Qed.

(** The headers the server writes. *)
Lemma init_header_wf mt id sz : is_u 32 mt -> is_u 32 id -> V2.header_wf (V2.init_header mt id sz).
Proof. intros ? ?; refine (conj _ (conj _ _)); try done; apply u32_bounds. Qed.

Lemma InitHeader_device_wf d id : V2.deviceinfo_wf d -> is_u 32 id ->
  V2.deviceinfo_wf (InitHeader_device d id).
Proof. intros (_ & Hr) Hid; split; [by apply init_header_wf|exact Hr]. Qed.

Lemma InitHeader_state_wf st id : V2.state_wf st -> is_u 32 id ->
  V2.state_wf (InitHeader_state st id).
Proof. intros (_ & Hr) Hid; split; [by apply init_header_wf|exact Hr]. Qed.

Lemma hello_message_wf c : V2.hello_wf (hello_message c).
Proof.
  unfold hello_message, CopyTo; repeat (split; [try done; apply length_fill_copy|]); done.
Qed.

Lemma type_at_app a b : (4 <= length a)%nat -> type_at (a ++ b) = type_at a.
Proof.
  intros Hl; unfold type_at, slice; rewrite drop_app_le by lia.
  by rewrite take_app_le by (rewrite length_drop; lia).
Qed.

(** ** What each operation sends *)

(** The device as the server stores and sends it. *)
Definition stored_device (device : V2.DeviceInfo) : V2.DeviceInfo :=
  InitHeader_device device (V2.nonPersistentTabletId (V2.di_header device)).

Lemma stored_device_wf d : V2.deviceinfo_wf d -> V2.deviceinfo_wf (stored_device d).
Proof. intros Hd; apply InitHeader_device_wf; [done|]; by destruct Hd as ((_ & _ & Hid) & _). Qed.

Lemma SetDevice_sent d s : V2.deviceinfo_wf d ->
  returns (SetDevice pad d s)
    (fun _ s' => sent (encode pad (stored_device d)) (set_mDevice (Some (stored_device d)) s) s').
Proof.
  intros Hd; unfold SetDevice, modify; fold (stored_device d); unfold st_bind at 1.
  eapply returns_bind; [apply Send_sent; [by apply stored_device_wf|done]|done].
Qed.

Lemma SetState_sent st s d : V2.state_wf st -> mDevice s = Some d -> V2.deviceinfo_wf d ->
  returns (SetState pad st s)
    (fun _ s' => sent (encode pad (InitHeader_state st (V2.nonPersistentTabletId (V2.di_header d)))) s s').
Proof.
  intros Hst Ed Hd; unfold SetState, gets; unfold st_bind at 1; rewrite Ed.
  eapply returns_bind; [apply Send_sent; [|done]|done].
  apply InitHeader_state_wf; [done|]; by destruct Hd as ((_ & _ & Hid) & _).
Qed.

(** The ping with sequence number [n]. *)
Definition ping_number (n : Z) : V2.Ping :=
  V2.mkPing (V2.ping_header (InitHeader_ping V2.new_Ping 0)) n.

Lemma PingOnce_sent s : is_u 64 (ping_seq s) -> exists b s1 s',
  PingOnce pad s = Ret b s' /\
  s1 = log (EStopRequested (os_stop_requested (trace (log (ESleep 1000) s)))) (log (ESleep 1000) s) /\
  (s' = s1 \/
   (mClientSocket s <> None /\
    sent (encode pad (ping_number (u64 (ping_seq s + 1)))) (set_ping_seq (u64 (ping_seq s + 1)) s1) s')).
Proof.
  intros Hq; unfold PingOnce, sleep_for, stop_requested, modify, gets, ask.
  unfold st_bind at 1 2; cbn [trace log].
  destruct (os_stop_requested (trace s ++ [ESleep 1000])) eqn:Es.
  { do 3 eexists; split; [reflexivity|]; split; [reflexivity|]; by left. }
  unfold st_bind at 1; cbn [mClientSocket log].
  destruct (mClientSocket s) as [k|] eqn:Ek.
  2: { do 3 eexists; split; [reflexivity|]; split; [reflexivity|]; by left. }
  unfold st_bind at 1 2; cbn [ping_seq log]; set (n := u64 _); fold (ping_number n).
  assert (wire_wf (ping_number n)) as Hwf.
  { split; [by apply init_header_wf|apply u64_bounds]. }
  set (s1 := set_ping_seq n _).
  destruct (returns_inv _ _ (Send_sent (ping_number n) s1 Hwf ltac:(done))) as (b & s' & E & Hs).
  exists true; eexists; exists s'; unfold st_bind; rewrite E.
  split; [done|]; split; [reflexivity|]; by right.
Qed.

Lemma debug_size text : Z.of_nat (length text) + 12 < 2 ^ 32 ->
  let h := V2.init_header V2.MT_DebugMessage 0 (12 + Z.of_nat (length text)) in
  size_at (encode pad h ++ text) = Z.of_nat (length (encode pad h ++ text)) /\
  v2_message (encode pad h ++ text).
Proof.
  intros Hl h.
  assert (V2.size h = 12 + Z.of_nat (length text)) as Hs by (apply wrap_small; unfold is_u; lia).
  assert (V2.header_wf h) as Hh by by apply init_header_wf.
  assert (v2_message (encode pad h ++ text)) as Hm by by apply debug_message.
  split; [|done]; by apply v2_message_size.
Qed.

Lemma SendDebugMessage_sent text s : Z.of_nat (length text) + 12 < 2 ^ 32 ->
  let h := V2.init_header V2.MT_DebugMessage 0 (12 + Z.of_nat (length text)) in
  returns (SendDebugMessage pad text s) (fun _ s' => sent (encode pad h ++ text) s s').
Proof.
  intros Hl h; unfold SendDebugMessage; rewrite V2.v2_header_sizeof.
  change V2.HEADER_SIZE with 12.
  assert (size_t (12 + Z.of_nat (length text)) = 12 + Z.of_nat (length text)) as ->.
  { unfold size_t; apply wrap_small, (is_u_weaken 32); [|unfold is_u; lia].
    destruct arch_width as [->| ->]; lia. }
  destruct (debug_size text Hl) as [Hs _]; fold h in Hs |- *.
  apply returns_bind with (P := fun _ s' => sent (encode pad h ++ text) s s'); [|done].
  replace (12 + Z.of_nat (length text)) with (Z.of_nat (length (encode pad h ++ text)));
    [by apply SendRaw_sent|].
  rewrite length_app, Nat2Z.inj_add, (length_encode pad h); [done|by apply init_header_wf].
Qed.

End messages.

(** ** Concrete instances *)

Module Sample.
Definition local_app_data : bytes := map (fun c => if c =? 47 then 92 else c) (str "C:/Users/me/AppData/Local").
(** An environment in which every call succeeds, with a client that sends what
    [recv] says. *)
Definition os_with (recv : list event -> Z -> Z -> recv_result) (stop : list event -> bool) :
    SocketOS := {|
  os_local_app_data := Some local_app_data;
  os_absolute p := p;
  os_socket _ := inr 3;
  os_exists _ _ := false;
  os_remove _ _ := false;
  os_create_directories _ _ := None;
  os_bind _ _ _ := None;
  os_listen _ _ := None;
  os_accept _ _ := Some 5;
  os_send _ _ data _ := Z.of_nat (length data);
  os_recv := recv;
  os_open_file _ _ := true;
  os_stop_requested := stop
|}.
Definition os : SocketOS := os_with (fun _ _ _ => RecvData []) (fun _ => false).
Definition pad : nat -> Z := fun _ => 0.
Definition config : Config :=
  mkConfig (str "com.openkneeboard.wintab-adapter") (str "OpenKneeboard WinTab Adapter")
    (str "v1.0.0") (str "https://github.com/OpenKneeboard/wintab-adapter")
    (local_app_data ++ [92] ++ str "socket").
Definition object : V2Server := new_V2Server config SetIfUnset ∅.
Definition device : V2.DeviceInfo :=
  V2.mkDeviceInfo (V2.di_header V2.new_DeviceInfo) 0 0 1023
    (fill_copy 256 (str "wintab-pnpid:WAC")) (fill_copy 256 (str "Tablet")).
Definition state : V2.State := V2.mkState (V2.st_header V2.new_State) 15 10 20 300 7 0 0 false.

Lemma sample_device_wf : V2.deviceinfo_wf device.
Proof. by repeat split. Qed.
Lemma state_wf : V2.state_wf state.
Proof. by repeat split. Qed.
End Sample.

(** ** Properties *)

(** C33: a state reaches the client with the identifier of the current device.
    [SetState] makes one [send], whose bytes decode to the given state under a
    header with that identifier; the client is dropped exactly when the send
    fails; nothing else changes.  Before the first [SetDevice] it reads an empty
    optional. *)
Theorem v2_state_delivered {HA : Arch} {HO : SocketOS} (pad : nat -> Z)
    (st : V2.State) (s : V2Server) (k : Z) :
  V2.state_wf st -> mClientSocket s = Some k ->
  (forall d, mDevice s = Some d -> V2.deviceinfo_wf d) ->
  match mDevice s with
  | None => SetState pad st s = Undef EmptyOptional
  | Some d =>
      returns (SetState pad st s) (fun _ s' => exists m r,
        decode m = Some (V2.mkState
          (V2.mkHeader V2.MT_State 44 (V2.nonPersistentTabletId (V2.di_header d)))
          (V2.validBits st) (V2.x st) (V2.y st) (V2.pressure st) (V2.penButtons st)
          (V2.auxButtons st) (V2.hoverDistance st) (V2.penIsNearSurface st)) /\
        mDevice s' = Some d /\
        if r =? SOCKET_ERROR
        then mClientSocket s' = None /\ trace s' = trace s ++ [ESend k m 44 r; ECloseSocket k]
        else mClientSocket s' = Some k /\ trace s' = trace s ++ [ESend k m 44 r])
  end.
Proof.
  intros Hst Hk Hd; destruct (mDevice s) as [d|] eqn:Ed.
  2: { unfold SetState, gets, st_bind; by rewrite Ed. }
  specialize (Hd d eq_refl).
  eapply returns_weaken; [by apply (SetState_sent pad st s d)|].
  intros ? s' Hs; unfold sent in Hs; rewrite Hk in Hs; destruct Hs as [r ->].
  set (m := InitHeader_state st _).
  assert (wire_wf m) as Hm by (apply InitHeader_state_wf; [done|]; by destruct Hd as ((_ & _ & ?) & _)).
  exists (encode pad m), r; rewrite (length_encode pad m Hm), V2.v2_state_sizeof.
  change (s32 44) with 44; split.
  { pose proof (decode_encode pad m [] Hm) as E; rewrite app_nil_r in E; exact E. }
  destruct (r =? SOCKET_ERROR); cbn; rewrite Ed; [by rewrite <- app_assoc|done].
Qed.

Lemma v2_state_delivered_witness :
  let s := set_mClientSocket (Some 5)
             (set_mDevice (Some (stored_device Sample.device)) Sample.object) in
  returns (@SetState Sample.os Sample.pad Sample.state s) (fun _ s' => exists m r,
    decode m = Some (V2.mkState (V2.mkHeader V2.MT_State 44 0) 15 10 20 300 7 0 0 false) /\
    mDevice s' = Some (stored_device Sample.device) /\
    if r =? SOCKET_ERROR
    then mClientSocket s' = None /\ trace s' = [] ++ [ESend 5 m 44 r; ECloseSocket 5]
    else mClientSocket s' = Some 5 /\ trace s' = [] ++ [ESend 5 m 44 r]).
Proof.
  intros s; apply (@v2_state_delivered arch64 Sample.os Sample.pad Sample.state s 5).
  - apply Sample.state_wf.
  - reflexivity.
  - intros d [= <-]; apply stored_device_wf, Sample.sample_device_wf.
Defined.

(** [SendDebugMessage] refuses a message whose size does not fit the header:
    the size in the header is truncated to 32 bits, so [SendRaw] throws before
    anything is sent. *)
Theorem v2_debug_too_long {HO : SocketOS} (pad : nat -> Z) (text : bytes) (s : V2Server) :
  2 ^ 32 <= 12 + Z.of_nat (length text) < 2 ^ 64 ->
  @SendDebugMessage arch64 HO pad text s = Exn (RuntimeError "Header size mismatch") s.
Proof.
  intros Hl; unfold SendDebugMessage; rewrite V2.v2_header_sizeof; change V2.HEADER_SIZE with 12.
  assert (@size_t arch64 (12 + Z.of_nat (length text)) = 12 + Z.of_nat (length text)) as ->
    by (apply wrap_small; unfold is_u; cbn in *; lia).
  set (h := V2.init_header _ _ _).
  assert (V2.header_wf h) as Hh by by apply init_header_wf.
  pose proof (length_encode pad h Hh) as He; rewrite V2.v2_header_sizeof in He; unfold V2.HEADER_SIZE in He.
  unfold st_bind, SendRaw; rewrite size_at_app, (msg_size_at (T := V2.Header) pad h) by done || lia.
  destruct (Z.eqb_spec (msg_size h) (12 + Z.of_nat (length text))) as [E|]; [|done].
  pose proof (u32_bounds (12 + Z.of_nat (length text))) as Hu; cbn in E; rewrite E in Hu.
  unfold is_u in Hu; lia.
Qed.

Lemma v2_debug_too_long_witness :
  let text := replicate (Z.to_nat (2 ^ 32)) 65 in
  @SendDebugMessage arch64 Sample.os Sample.pad text Sample.object =
  Exn (RuntimeError "Header size mismatch") Sample.object.
Proof.
  intros text; apply (@v2_debug_too_long Sample.os Sample.pad text Sample.object).
  unfold text; rewrite length_replicate, Z2Nat.id by lia; lia.
Defined.

End V2Server.
