(* ===== verification/V2Accept.v ===== *)
(** * The OTD-IPC v2 server: accepting a client and reading from it

    [ReadNBytes] and [AcceptOnce] of src/src/V2Server.cpp.  The receive buffer
    is a list of bytes and a pointer into it an offset; a store outside the
    buffer is undefined behaviour. *)

From S2P Require Import Prelude Layout V2Messages V2Server.
Import V2Server.

Module V2Accept.

(** [std::expected<void, std::variant<socket_closed_t, wsa_error_t>>]. *)
Inductive read_result := ReadOk | SocketClosed | WsaError (value : Z).

Definition WSAECONNRESET : Z := 10054.

(** Store [bs] at offset [p]. *)
Definition write_at (p : nat) (bs buf : bytes) : bytes :=
  take p buf ++ bs ++ drop (p + length bs) buf.

Definition BUFFER_SIZE : nat := 1024.

Section accept.
Context {HA : Arch} {HO : SocketOS} (pad : nat -> Z).

(** The loop of [ReadNBytes]: [p] and [toRead] are its variables.  The pointer
    [p] is passed to every [recv] as it is. *)
Fixpoint ReadLoop (fuel : nat) (socket : Z) (buf : bytes) (p : nat) (toRead : Z) :
    ST V2Server (read_result * bytes) :=
  match fuel with
  | O => nofuel
  | S fuel =>
      if 0 <? toRead then
        let len := s32 toRead in
        let* r := ask (fun t => os_recv t socket len) (ERecv socket len) in
        match r with
        | RecvData bs =>
            if (length buf <? p + length bs)%nat then undef OutOfBounds
            else
              let buf := write_at p bs buf in
              match bs with
              | [] => st_ret (SocketClosed, buf)
              | _ => ReadLoop fuel socket buf p (size_t (toRead - Z.of_nat (length bs)))
              end
        | RecvError error =>
            st_ret (if error =? WSAECONNRESET then SocketClosed else WsaError error, buf)
        end
      else st_ret (ReadOk, buf)
  end.

Definition ReadNBytes (fuel : nat) (socket : Z) (buf : bytes) (p : nat) (count : Z) :
    ST V2Server (read_result * bytes) :=
  ReadLoop fuel socket buf p count.

(** [ReadErrorVisitor]. *)
Definition report_read_error (r : read_result) : ST V2Server unit :=
  match r with
  | ReadOk => st_ret tt
  | SocketClosed => print PDisconnected
  | WsaError e => print (PReadFailed (HRESULT_FROM_WIN32 e))
  end.

(** [buffer.resize(n)] of a vector that is too small. *)
Definition grow (n : nat) (buf : bytes) : bytes := buf ++ replicate (n - length buf) 0.

(** What the loop does with a complete message in the buffer. *)
Definition handle_message (buf : bytes) (header : V2.Header) : ST V2Server unit :=
  if V2.messageType header =? V2.MT_DebugMessage then
    if Z.of_nat (length buf) <? sizeof V2.Header + size_t (V2.size header - sizeof V2.Header)
    then undef OutOfBounds
    else print (PClientMessage (V2.message ArchBitness buf header))
  else if V2.messageType header =? V2.MT_Hello then
    match decode (T := V2.Hello) buf with
    | Some hello =>
        print (PClientHello (TruncateNulls (V2.humanReadableName hello))
                 (TruncateNulls (V2.humanReadableVersion hello)) (V2.protocolVersion hello)
                 (TruncateNulls (V2.implementationID hello)) (V2.compatibilityVersion hello))
    | None => undef OutOfBounds
    end
  else print (PUnexpected (V2.messageType header)).

(** One round of the operational phase; [None] when [AcceptOnce] returns, the
    buffer otherwise. *)
Definition ReadMessage (fuel : nat) (buf : bytes) : ST V2Server (option bytes) :=
  let* client := gets mClientSocket in
  let* (ok, buf) := ReadNBytes fuel (socket_get client) buf 0 (sizeof V2.Header) in
  match ok with
  | ReadOk =>
      match V2.header_at buf with
      | None => undef OutOfBounds
      | Some header =>
          let buf := if Z.of_nat (length buf) <? V2.size header
                     then grow (Z.to_nat (V2.size header)) buf else buf in
          let count := size_t (V2.size header - sizeof V2.Header) in
          let* client := gets mClientSocket in
          let* (ok, buf) := ReadNBytes fuel (socket_get client) buf
                               (Z.to_nat (sizeof V2.Header)) count in
          match ok with
          | ReadOk =>
              match V2.header_at buf with
              | None => undef OutOfBounds
              | Some header => handle_message buf header ;; st_ret (Some buf)
              end
          | _ => report_read_error ok ;; st_ret None
          end
      end
  | _ => report_read_error ok ;; st_ret None
  end.

(** The loop of the operational phase: [true] when it ended because the
    program was asked to stop, [false] when [AcceptOnce] has returned. *)
Fixpoint ReadMessages (rounds fuel : nat) (buf : bytes) : ST V2Server bool :=
  match rounds with
  | O => nofuel
  | S rounds =>
      let* stop := stop_requested in
      if stop then st_ret true
      else
        let* r := ReadMessage fuel buf in
        match r with
        | Some buf => ReadMessages rounds fuel buf
        | None => st_ret false
        end
  end.

(** [accept] and the move into [mClientSocket]. *)
Definition AcceptClient : ST V2Server bool :=
  let* listen := gets mListenSocket in
  let k := socket_get listen in
  let* client := ask (fun t => os_accept t k) (EAccept k) in
  match client with
  | None => st_ret false
  | Some c => move_to_mClientSocket c ;; st_ret true
  end.

(** The two sends of the handshake. *)
Definition SendHello : ST V2Server unit :=
  let* config := gets mConfig in
  let* _ := SendRaw (encode pad (hello_message config)) (sizeof V2.Hello) in
  st_ret tt.
Definition SendDevice : ST V2Server unit :=
  let* device := gets mDevice in
  match device with
  | Some d => let* _ := Send pad d in st_ret tt
  | None => st_ret tt
  end.

Definition AcceptOnce (rounds fuel : nat) : ST V2Server unit :=
  let* accepted := AcceptClient in
  if accepted then
    SendHello ;;
    SendDevice ;;
    let* stopped := ReadMessages rounds fuel (replicate BUFFER_SIZE 0) in
    if stopped then reset_mClientSocket else st_ret tt
  else st_ret tt.

Fixpoint AcceptLoop (n rounds fuel : nat) : ST V2Server unit :=
  match n with
  | O => nofuel
  | S n =>
      let* stop := stop_requested in
      if stop then reset_mListenSocket
      else AcceptOnce rounds fuel ;; AcceptLoop n rounds fuel
  end.

End accept.

End V2Accept.
