(* ===== verification/V2Discovery.v ===== *)
(** * The OTD-IPC v2 server: start, stop and discovery

    [Start], [Stop], [GetDiscoveryDir], [PublishDiscovery] and
    [EnsureDefaultExists] of src/src/V2Server.cpp.  A path is the list of its
    characters; the files the server writes are the map [files] of the object.
    Output streams are in text mode: a line feed is written as CR LF. *)

From stdpp Require Import gmap.
From S2P Require Import Prelude Layout V2Messages V2Server V2Accept.
Import V2Server V2Accept.

Module V2Discovery.

(** ** Paths *)

Definition is_separator (c : Z) : bool := (c =? 92) || (c =? 47).

(** [p / q] for a path [q] without root: a separator is added when [p] ends in a
    file name. *)
Definition has_filename (p : bytes) : bool :=
  match last p with
  | None => false
  | Some c => negb (is_separator c || (c =? 58))
  end.
Definition path_append (p q : bytes) : bytes :=
  if has_filename p then p ++ [92] ++ q else p ++ q.

Fixpoint drop_while (f : Z -> bool) (l : bytes) : bytes :=
  match l with
  | [] => []
  | c :: l' => if f c then drop_while f l' else l
  end.

(** The root of a path: a drive and the separators after it. *)
Definition root_length (p : bytes) : nat :=
  let drive := match p with _ :: c :: _ => if c =? 58 then 2%nat else 0%nat | _ => 0%nat end in
  let rest := drop drive p in
  (drive + (length rest - length (drop_while is_separator rest)))%nat.

(** [path::parent_path()]: without the last component and the separators before
    it, but never shorter than the root. *)
Definition parent_path (p : bytes) : bytes :=
  let root := root_length p in
  let rel := reverse (drop root p) in
  let dir := drop_while is_separator (drop_while (fun c => negb (is_separator c)) rel) in
  take root p ++ reverse dir.

(** [path::generic_string()]. *)
Definition generic_string (p : bytes) : bytes := map (fun c => if c =? 92 then 47 else c) p.

(** What a text-mode stream puts into the file. *)
Definition text_mode (bs : bytes) : bytes := bs ≫= (fun c => if c =? 10 then [13; 10] else [c]).

(** [sizeof(sockaddr_un::sun_path)]. *)
Definition SUN_PATH_SIZE : nat := 108.

Section discovery.
Context {HA : Arch} {HO : SocketOS}.

Definition GetDiscoveryDir : ST V2Server bytes :=
  match os_local_app_data with
  | Some localAppData =>
      st_ret (path_append (path_append (path_append localAppData (str "otd-ipc")) (str "servers"))
                (str "v2"))
  | None => throw (RuntimeError "Failed to resolve %LOCALAPPDATA%")
  end.

(** [std::ofstream f(path); f << content]: when the file cannot be opened the
    output is lost. *)
Definition write_file (path content : bytes) : ST V2Server unit :=
  let* ok := ask (fun t => os_open_file t path) (EOpenFile path) in
  when ok (modify (fun s => set_files (<[path := text_mode content]> (files s)) s)).

(** [std::filesystem::exists] of a regular file. *)
Definition file_exists (path : bytes) : ST V2Server bool :=
  gets (fun s => bool_decide (is_Some (files s !! path))).

Definition EnsureDefaultExists : ST V2Server unit :=
  let* behavior := gets mDefaultBehavior in
  match behavior with
  | DoNotSet => st_ret tt
  | _ =>
      let* root := GetDiscoveryDir in
      let defaultPath := path_append root (str "default.txt") in
      let* present := (match behavior with
                       | AlwaysSet => st_ret false
                       | _ => file_exists defaultPath
                       end) in
      if present then st_ret tt
      else let* config := gets mConfig in write_file defaultPath (implementationId config)
  end.

(** The file name and the text of the metadata. *)
Definition meta_path (root : bytes) (c : Config) : bytes :=
  path_append (path_append root (str "available")) (implementationId c ++ str ".txt").
Definition newline : bytes := [10].
Definition metadata (c : Config) : bytes :=
  str "ID=" ++ implementationId c ++ newline ++
  str "SOCKET=" ++ generic_string (os_absolute (socketPath c)) ++ newline ++
  str "HUMAN_READABLE_NAME=" ++ humanName c ++ newline ++
  str "HUMAN_READABLE_VERSION=" ++ humanVersion c ++ newline ++
  (* an uint8_t is inserted as a character *)
  str "COMPATIBILITY_VERSION=" ++ [u8 CompatibilityVersion] ++ newline ++
  str "HOMEPAGE=" ++ homepageUrl c ++ newline.

(** [create_directories(p)], which throws, and [create_directories(p, ec)]. *)
Definition create_directories (path : bytes) : ST V2Server (option Z) :=
  ask (fun t => os_create_directories t path) (ECreateDirectories path).

Definition PublishDiscovery : ST V2Server unit :=
  let* root := GetDiscoveryDir in
  let* err := create_directories (path_append root (str "available")) in
  match err with
  | Some e => throw (FilesystemError e)
  | None =>
      let* config := gets mConfig in
      write_file (meta_path root config) (metadata config) ;;
      EnsureDefaultExists
  end.

(** [std::filesystem::remove(path, ec)]. *)
Definition remove_file (path : bytes) : ST V2Server unit :=
  let* removed := ask (fun t => os_remove t path) (ERemove path) in
  when removed (modify (fun s => set_files (delete path (files s)) s)).

Definition throw_last_error {A} (e : Z) : ST V2Server A := throw (win32_error e).

Definition Start : ST V2Server unit :=
  let* sock := ask os_socket ESocket in
  modify (fun s => set_mListenSocket (match sock with inr k => Some k | inl _ => None end)
                     (close_listen s)) ;;
  match sock with
  | inl e => throw_last_error e
  | inr k =>
      let* path := gets (fun s => socketPath (mConfig s)) in
      let* present := ask (fun t => os_exists t path) (EExists path) in
      when present (remove_file path) ;;
      let* _ := create_directories (parent_path path) in
      remove_file path ;;
      if (SUN_PATH_SIZE <=? length path)%nat
      then throw (RuntimeError "Socket path is too long for AF_UNIX")
      else
        let sun_path := fill_copy SUN_PATH_SIZE (until_nul path) in
        let* bound := ask (fun t => os_bind t k sun_path) (EBind k sun_path) in
        match bound with
        | Some e => throw_last_error e
        | None =>
            let* listening := ask (fun t => os_listen t k) (EListen k 1) in
            match listening with
            | Some e => throw_last_error e
            | None => PublishDiscovery ;; modify (log EThreadsStarted)
            end
        end
  end.

(** [Stop()]; the two arguments are what the threads of the server do until the
    ping thread, and then the accept thread, has been joined. *)
Definition Stop (join_ping join_accept : ST V2Server unit) : ST V2Server unit :=
  reset_mListenSocket ;; join_ping ;; join_accept ;; modify (log EThreadsJoined).

(** The constructor, with the result of [WSAStartup], and the destructor: its
    body, and then the members from the last one on, of which only the client's
    socket can still hold anything after [Stop]. *)
Definition V2Server_construct (wsa_result : Z) (config : Config) (behavior : DefaultBehavior)
    (fs : gmap bytes bytes) : exn + V2Server :=
  if negb (wsa_result =? 0) then inl (win32_error wsa_result)
  else inr (new_V2Server config behavior fs).
Definition after_stop : ST V2Server unit := modify (log EWSACleanup) ;; reset_mClientSocket.
Definition V2Server_destroy (join_ping join_accept : ST V2Server unit) : ST V2Server unit :=
  Stop join_ping join_accept ;; after_stop.

End discovery.

(** ** Reading the metadata back

    What a client of the discovery directory does: lines, and in each line a key
    and a value separated by the first equals sign. *)

Fixpoint lines_of (cur bs : bytes) : list bytes :=
  match bs with
  | [] => []
  | c :: rest =>
      match rest with
      | d :: rest' =>
          if (c =? 13) && (d =? 10) then cur :: lines_of [] rest' else lines_of (cur ++ [c]) rest
      | [] => []
      end
  end.

Fixpoint key_value (line : bytes) : bytes * bytes :=
  match line with
  | [] => ([], [])
  | c :: line =>
      if c =? 61 then ([], line) else let (k, v) := key_value line in (c :: k, v)
  end.

Definition parse_metadata (text : bytes) : list (bytes * bytes) := map key_value (lines_of [] text).

Definition render (es : list (bytes * bytes)) : bytes :=
  es ≫= (fun e => fst e ++ [61] ++ snd e ++ newline).

(** No line break in it. *)
Definition one_line (v : bytes) : Prop := Forall (fun c => c <> 13 /\ c <> 10) v.

Lemma one_line_true v : forallb (fun c => negb ((c =? 13) || (c =? 10))) v = true -> one_line v.
Proof.
  intros H; apply Forall_forall; intros c Hc; rewrite forallb_forall in H.
  apply list_elem_of_In, H in Hc; lia.
Qed.

Lemma text_mode_app a b : text_mode (a ++ b) = text_mode a ++ text_mode b.
Proof. apply bind_app. Qed.

Lemma text_mode_line v : one_line v -> text_mode v = v.
Proof.
  induction 1 as [|c v [H1 H2] Hv IH]; [done|].
  change (text_mode (c :: v)) with ((if c =? 10 then [13; 10] else [c]) ++ text_mode v).
  rewrite IH; by destruct (Z.eqb_spec c 10).
Qed.

Lemma lines_of_line v rest cur : one_line v ->
  lines_of cur (v ++ 13 :: 10 :: rest) = (cur ++ v) :: lines_of [] rest.
Proof.
  intros Hv; revert cur; induction Hv as [|c v [H1 H2] Hv IH]; intros cur.
  - cbn; by rewrite app_nil_r.
  - assert (lines_of cur ((c :: v) ++ 13 :: 10 :: rest) =
            lines_of (cur ++ [c]) (v ++ 13 :: 10 :: rest)) as ->.
    { cbn; destruct (Z.eqb_spec c 13); [done|]; by destruct v. }
    by rewrite IH, <- app_assoc.
Qed.

Lemma key_value_app k v : Forall (fun c => c <> 61) k -> key_value (k ++ 61 :: v) = (k, v).
Proof.
  induction 1 as [|c k Hc Hk IH]; cbn; [done|].
  destruct (Z.eqb_spec c 61); [done|by rewrite IH].
Qed.

Lemma parse_render es :
  Forall (fun e => one_line (fst e) /\ Forall (fun c => c <> 61) (fst e) /\ one_line (snd e)) es ->
  parse_metadata (text_mode (render es)) = es.
Proof.
  unfold parse_metadata; induction 1 as [|[k v] es (Hk & Hk' & Hv) Hes IH]; [done|].
  cbn [fst snd] in *.
  change (render ((k, v) :: es)) with ((k ++ [61] ++ v ++ newline) ++ render es).
  assert (one_line (k ++ 61 :: v)) as Hl by (apply Forall_app; split; [done|by constructor]).
  replace (k ++ [61] ++ v ++ newline) with ((k ++ 61 :: v) ++ newline) by by rewrite <- app_assoc.
  rewrite (text_mode_app (_ ++ newline)), (text_mode_app _ newline), text_mode_line, <- app_assoc by done.
  change (text_mode newline ++ ?l) with (13 :: 10 :: l).
  rewrite lines_of_line by done; cbn [map app]; by rewrite key_value_app, IH.
Qed.

(** The lines [PublishDiscovery] writes. *)
Definition entries {HO : SocketOS} (c : Config) : list (bytes * bytes) :=
  [(str "ID", implementationId c);
   (str "SOCKET", generic_string (os_absolute (socketPath c)));
   (str "HUMAN_READABLE_NAME", humanName c);
   (str "HUMAN_READABLE_VERSION", humanVersion c);
   (str "COMPATIBILITY_VERSION", [1]);
   (str "HOMEPAGE", homepageUrl c)].

Lemma metadata_render {HO : SocketOS} c : metadata c = render (entries c).
Proof.
  unfold metadata, render, entries; cbn -[app generic_string str].
  rewrite <- !app_assoc; reflexivity.
Qed.

Section effects.
Context {HA : Arch} {HO : SocketOS}.

Definition discovery_dir (p : bytes) : bytes :=
  path_append (path_append (path_append p (str "otd-ipc")) (str "servers")) (str "v2").
Definition default_path (p : bytes) : bytes := path_append (discovery_dir p) (str "default.txt").

Lemma has_filename_app p q : q <> [] -> has_filename (p ++ q) = has_filename q.
Proof. intros Hq; unfold has_filename; destruct q as [|c q _] using rev_ind; [done|].
  by rewrite app_assoc, !last_snoc. Qed.

Lemma discovery_dir_append p q : path_append (discovery_dir p) q = discovery_dir p ++ 92 :: q.
Proof.
  unfold path_append at 1.
  assert (has_filename (discovery_dir p) = true) as ->; [|done].
  unfold discovery_dir, path_append at 1; case_match; rewrite ?app_assoc; by rewrite has_filename_app.
Qed.

(** The metadata and the default are different files. *)
Lemma meta_not_default p c : meta_path (discovery_dir p) c <> default_path p.
Proof.
  unfold meta_path, default_path; rewrite !discovery_dir_append.
  set (d := discovery_dir p); intros E.
  unfold path_append in E; case_match; rewrite <- !app_assoc in E; by apply app_inv_head in E.
Qed.

(** Calls were added to the trace, none of them to [bind]. *)
Definition no_bind (e : event) : Prop := match e with EBind _ _ _ => False | _ => True end.
Definition added (s s' : V2Server) : Prop := exists t, trace s' = trace s ++ t /\ Forall no_bind t.

Lemma added_refl s : added s s.
Proof. exists []; by rewrite app_nil_r. Qed.

Lemma added_log e s s' : no_bind e -> added s s' -> added s (log e s').
Proof.
  intros He (t & Et & Ht); exists (t ++ [e]); cbn; rewrite Et, app_assoc; split; [done|].
  apply Forall_app; split; [done|by apply Forall_singleton].
Qed.

Lemma added_trans s1 s2 s3 : added s1 s2 -> added s2 s3 -> added s1 s3.
Proof.
  intros (t & Et & Ht) (u & Eu & Hu); exists (t ++ u); rewrite Eu, Et, app_assoc; split; [done|].
  by apply Forall_app.
Qed.

(** [s'] comes after [s]: calls were added to the trace. *)
Definition later (s s' : V2Server) : Prop :=
  mListenSocket s' = mListenSocket s /\ mConfig s' = mConfig s /\ added s s'.

Lemma later_refl s : later s s.
Proof. split; [done|]; split; [done|]; apply added_refl. Qed.

Lemma later_log e s s' : no_bind e -> later s s' -> later s (log e s').
Proof. intros He (Hl & Hc & Ha); split; [done|]; split; [done|]; by apply added_log. Qed.

Lemma later_trans s1 s2 s3 : later s1 s2 -> later s2 s3 -> later s1 s3.
Proof.
  intros (Hl & Hc & Ha) (Hl' & Hc' & Ha'); split; [congruence|]; split; [congruence|].
  by eapply added_trans.
Qed.

Lemma later_files f s s' : later s s' -> later s (set_files f s').
Proof. done. Qed.
#[local] Hint Resolve later_refl later_log later_files : core.
#[local] Hint Extern 0 (no_bind _) => exact I : core.

Lemma write_file_eq path content s :
  write_file path content s =
  let ok := os_open_file (trace s) path in
  let s1 := log (EOpenFile path ok) s in
  Ret tt (if ok then set_files (<[path := text_mode content]> (files s)) s1 else s1).
Proof.
  unfold write_file, st_bind, ask, when, modify, st_ret; cbv zeta.
  by destruct (os_open_file (trace s) path).
Qed.

(** What [EnsureDefaultExists] does when the directory is known. *)
Definition keeps_default (s : V2Server) (path : bytes) : bool :=
  match mDefaultBehavior s with
  | DoNotSet => true
  | SetIfUnset => bool_decide (is_Some (files s !! path))
  | AlwaysSet => false
  end.

Lemma EnsureDefaultExists_eq p s : os_local_app_data = Some p ->
  EnsureDefaultExists s =
  if keeps_default s (default_path p) then Ret tt s
  else write_file (default_path p) (implementationId (mConfig s)) s.
Proof.
  intros Hp; unfold EnsureDefaultExists, keeps_default, GetDiscoveryDir, file_exists, gets, st_bind, st_ret.
  rewrite Hp; fold (discovery_dir p); fold (default_path p).
  destruct (mDefaultBehavior s); try done.
  by destruct (bool_decide (is_Some (files s !! default_path p))).
Qed.

Lemma EnsureDefaultExists_files p s : os_local_app_data = Some p ->
  returns (EnsureDefaultExists s) (fun _ s' => files s' =
    if keeps_default s (default_path p) then files s
    else if os_open_file (trace s) (default_path p)
    then <[default_path p := text_mode (implementationId (mConfig s))]> (files s)
    else files s).
Proof.
  intros Hp; rewrite (EnsureDefaultExists_eq p) by done; case_match; [done|].
  rewrite write_file_eq; cbv zeta; by case_match.
Qed.

Lemma EnsureDefaultExists_later s :
  ends (EnsureDefaultExists s) (fun _ s' => later s s') (fun e s' => later s s' /\ std_exception e = true).
Proof.
  destruct os_local_app_data as [p|] eqn:Hp.
  - rewrite (EnsureDefaultExists_eq p) by done; case_match; [apply later_refl|].
    rewrite write_file_eq; cbv zeta; case_match; cbn; auto.
  - unfold EnsureDefaultExists, GetDiscoveryDir, gets, st_bind; rewrite Hp.
    destruct (mDefaultBehavior s); cbn; auto.
Qed.

Lemma PublishDiscovery_later s :
  ends (PublishDiscovery s) (fun _ s' => later s s' /\ os_local_app_data <> None)
    (fun e s' => later s s' /\ std_exception e = true).
Proof.
  unfold PublishDiscovery, GetDiscoveryDir; destruct os_local_app_data as [p|] eqn:Hp.
  - unfold create_directories, gets, ask, st_ret; unfold st_bind at 1 2; cbv beta iota zeta.
    destruct (os_create_directories _ _); [cbn; auto|].
    unfold st_bind; rewrite write_file_eq; cbv beta iota zeta.
    match goal with |- context [EnsureDefaultExists ?x] => set (s1 := x) end.
    assert (later s s1) as H1 by (unfold s1; case_match; auto).
    eapply ends_weaken; [apply EnsureDefaultExists_later|..]; cbn.
    + intros ? s2 H2; split; [by eapply later_trans|congruence].
    + intros ? s2 [H2 He]; split; [by eapply later_trans|done].
  - cbn; auto.
Qed.

(** Only the file at [path] may have changed. *)
Definition untouched (path : bytes) (s s' : V2Server) : Prop :=
  added s s' /\ mConfig s' = mConfig s /\
  forall q, q <> path -> files s' !! q = files s !! q.

Lemma untouched_log path s s' e : no_bind e -> untouched path s s' -> untouched path s (log e s').
Proof. intros He (Ha & Hc & Hf); split; [by apply added_log|done]. Qed.

Lemma remove_file_untouched path s s' : untouched path s s' ->
  returns (remove_file path s') (fun _ s'' =>
    untouched path s s'' /\ mListenSocket s'' = mListenSocket s').
Proof.
  intros Hu; unfold remove_file, st_bind, ask, when, modify, st_ret; cbv zeta.
  apply (untouched_log _ _ _ (ERemove path (os_remove (trace s') path)) I) in Hu.
  destruct (os_remove (trace s') path); cbn; (split; [|done]); [|done].
  destruct Hu as (Ht & Hc & Hf); split; [apply Ht|]; split; [done|].
  intros q Hq; cbn; rewrite lookup_delete_ne by done; by apply Hf.
Qed.

(** The part of [Start] that works on the file system. *)
Definition PrepareSocketPath (path : bytes) : ST V2Server unit :=
  let* present := ask (fun t => os_exists t path) (EExists path) in
  when present (remove_file path) ;;
  let* _ := create_directories (parent_path path) in
  remove_file path.

Lemma Prepare_untouched path s s' : untouched path s s' ->
  returns (PrepareSocketPath path s') (fun _ s'' =>
    untouched path s s'' /\ mListenSocket s'' = mListenSocket s').
Proof.
  intros Hu; unfold PrepareSocketPath, ask; unfold st_bind at 1; cbv zeta.
  apply (untouched_log _ _ _ (EExists path (os_exists (trace s') path)) I) in Hu.
  set (s1 := log _ s') in *; change (mListenSocket s') with (mListenSocket s1); clearbody s1.
  apply returns_bind with (P := fun _ s'' => untouched path s s'' /\ mListenSocket s'' = mListenSocket s1).
  { destruct (os_exists _ _); [by apply remove_file_untouched|done]. }
  intros ? s2 [H2 E2]; unfold create_directories, ask; unfold st_bind at 1; cbv zeta.
  eapply returns_weaken; [apply (remove_file_untouched path s), untouched_log, H2; exact I|].
  cbn; intros ? s3 [H3 E3]; split; [done|congruence].
Qed.

Lemma Start_eq s :
  Start s =
  (let r := os_socket (trace s) in
   let s1 := set_mListenSocket (match r with inr k => Some k | inl _ => None end)
               (close_listen (log (ESocket r) s)) in
   match r with
   | inl e => throw_last_error e s1
   | inr k =>
       let path := socketPath (mConfig s) in
       (PrepareSocketPath path ;;
        if (SUN_PATH_SIZE <=? length path)%nat
        then throw (RuntimeError "Socket path is too long for AF_UNIX")
        else
          let sun_path := fill_copy SUN_PATH_SIZE (until_nul path) in
          let* bound := ask (fun t => os_bind t k sun_path) (EBind k sun_path) in
          match bound with
          | Some e => throw_last_error e
          | None =>
              let* listening := ask (fun t => os_listen t k) (EListen k 1) in
              match listening with
              | Some e => throw_last_error e
              | None => PublishDiscovery ;; modify (log EThreadsStarted)
              end
          end) s1
   end).
Proof.
  unfold Start, PrepareSocketPath, gets, ask, modify, st_bind; cbv beta iota zeta.
  destruct (os_socket (trace s)) as [e|k]; [done|].
  assert (mConfig (set_mListenSocket (Some k) (close_listen (log (ESocket (inr k)) s))) = mConfig s) as ->
    by (unfold close_listen; by case_match).
  set (s1 := set_mListenSocket _ _); destruct (when _ _ _); [|done..].
  by destruct (create_directories _ _).
Qed.

Lemma socket_untouched path r k s :
  untouched path s (set_mListenSocket k (close_listen (log (ESocket r) s))).
Proof.
  assert (added s (log (ESocket r) s)) as H1 by (apply added_log; [exact I|apply added_refl]).
  unfold close_listen; destruct (mListenSocket (log (ESocket r) s)) as [x|]; (split; [|done]); [|done].
  by apply (added_log (ECloseSocket x)).
Qed.

(** What [bind] is called with. *)
Definition fits (path : bytes) (e : event) : Prop :=
  match e with
  | EBind _ sun_path _ => (length path < SUN_PATH_SIZE)%nat /\ length sun_path = SUN_PATH_SIZE /\
      until_nul sun_path = until_nul path /\ sun_path !! length (until_nul path) = Some 0
  | _ => True
  end.

Lemma sun_path_fits path k err : (length path < SUN_PATH_SIZE)%nat ->
  fits path (EBind k (fill_copy SUN_PATH_SIZE (until_nul path)) err).
Proof.
  intros Hl; pose proof (length_until_nul path); split_and!; [done|apply length_fill_copy|..].
  - rewrite until_nul_fill_copy by apply until_nul_nonzero; apply take_ge; lia.
  - unfold fill_copy; rewrite take_ge, lookup_app_r, Nat.sub_diag by lia.
    apply lookup_replicate_2; lia.
Qed.

Definition all_fit (path : bytes) (s s' : V2Server) : Prop :=
  exists t, trace s' = trace s ++ t /\ Forall (fits path) t.

Lemma added_fits path s s' : added s s' -> all_fit path s s'.
Proof. intros (t & Et & Ht); exists t; split; [done|]; eapply Forall_impl; [exact Ht|]; by intros []. Qed.

Lemma all_fit_log path s s' e : all_fit path s s' -> fits path e -> all_fit path s (log e s').
Proof.
  intros (t & Et & Ht) He; exists (t ++ [e]); cbn; rewrite Et, app_assoc; split; [done|].
  apply Forall_app; split; [done|by apply Forall_singleton].
Qed.

Lemma all_fit_later path s s' s'' : all_fit path s s' -> later s' s'' -> all_fit path s s''.
Proof.
  intros (t & Et & Ht) (_ & _ & Ha); destruct (added_fits path _ _ Ha) as (u & Eu & Hu).
  exists (t ++ u); rewrite Eu, Et, app_assoc; split; [done|]; by apply Forall_app.
Qed.

(** [Start] returns or throws, and throws when the discovery directory is not
    known. *)
Lemma Start_ends s :
  ends (Start s) (fun _ _ => os_local_app_data <> None) (fun e _ => std_exception e = true).
Proof.
  rewrite Start_eq; cbv zeta; destruct (os_socket (trace s)) as [e|k]; [done|].
  match goal with |- ends (_ ?x) _ _ => set (s1 := x) end.
  eapply ends_bind; [apply (Prepare_untouched (socketPath (mConfig s)) s1 s1)|].
  { split; [apply added_refl|done]. }
  intros ? s2 _; destruct (_ <=? _)%nat; [done|]; cbv zeta.
  unfold ask; unfold st_bind at 1; destruct (os_bind _ _ _); [done|].
  unfold st_bind at 1; destruct (os_listen _ _); [done|].
  eapply ends_bind_exn; [eapply ends_weaken; [apply PublishDiscovery_later|done|by intros ? ? []]|].
  by intros ? s3 [_ ?].
Qed.

End effects.

(** ** Properties *)

(** C34: what a client reads in the discovery directory.  When the directory and
    the file can be written, [PublishDiscovery] returns, and reading the lines
    of the file back gives the identifier, the absolute socket path with forward
    slashes, the name, the version and the homepage; the compatibility version
    is the control character 1, because the [uint8_t] is written as a
    character. *)
Theorem v2_metadata_roundtrip {HO : SocketOS} (p : bytes) (s : V2Server) :
  let c := mConfig s in
  os_local_app_data = Some p -> (forall t q, os_create_directories t q = None) ->
  (forall t q, os_open_file t q = true) ->
  one_line (implementationId c) -> one_line (os_absolute (socketPath c)) ->
  one_line (humanName c) -> one_line (humanVersion c) -> one_line (homepageUrl c) ->
  returns (PublishDiscovery s) (fun _ s' => exists text,
    files s' !! meta_path (discovery_dir p) c = Some text /\
    parse_metadata text =
      [(str "ID", implementationId c);
       (str "SOCKET", generic_string (os_absolute (socketPath c)));
       (str "HUMAN_READABLE_NAME", humanName c);
       (str "HUMAN_READABLE_VERSION", humanVersion c);
       (str "COMPATIBILITY_VERSION", [1]);
       (str "HOMEPAGE", homepageUrl c)]).
Proof.
  intros c Hp Hdir Hopen Hi Hs Hn Hv Hu.
  unfold PublishDiscovery, GetDiscoveryDir, create_directories, gets, ask, st_ret.
  rewrite Hp; fold (discovery_dir p); unfold st_bind; cbv beta iota zeta.
  rewrite Hdir, write_file_eq; cbv beta iota zeta; rewrite Hopen.
  eapply returns_weaken; [by apply (EnsureDefaultExists_files p)|].
  cbn [files set_files log]; intros ? s' E; exists (text_mode (metadata c)); split.
  - rewrite Hopen in E; rewrite E; pose proof (meta_not_default p c) as Hne.
    destruct (keeps_default _ _); [|rewrite lookup_insert_ne by done]; apply lookup_insert_eq.
  - rewrite metadata_render; apply parse_render.
    repeat (constructor; [split; [repeat constructor; done|split; [repeat constructor; done|]]|]);
      cbn [snd]; try done; [|repeat constructor; done].
    unfold generic_string; apply Forall_map; eapply Forall_impl; [exact Hs|].
    intros x Hx; cbn in *; destruct (Z.eqb_spec x 92); lia.
Qed.

Lemma v2_metadata_roundtrip_witness :
  let c := Sample.config in
  returns (@PublishDiscovery Sample.os Sample.object) (fun _ s' => exists text,
    files s' !! meta_path (discovery_dir Sample.local_app_data) c = Some text /\
    parse_metadata text =
      [(str "ID", str "com.openkneeboard.wintab-adapter");
       (str "SOCKET", str "C:/Users/me/AppData/Local/socket");
       (str "HUMAN_READABLE_NAME", str "OpenKneeboard WinTab Adapter");
       (str "HUMAN_READABLE_VERSION", str "v1.0.0");
       (str "COMPATIBILITY_VERSION", [1]);
       (str "HOMEPAGE", str "https://github.com/OpenKneeboard/wintab-adapter")]).
Proof.
  intros c; apply (@v2_metadata_roundtrip Sample.os Sample.local_app_data Sample.object);
    try reflexivity; by apply one_line_true.
Defined.

(** The default server.  [EnsureDefaultExists] leaves every file but
    default.txt alone; with [DoNotSet] it leaves that one too; with [SetIfUnset]
    it writes it only when there is none; with [AlwaysSet] it replaces it.  What
    it writes is the identifier of this server, if the file can be opened. *)
Theorem v2_default_server {HO : SocketOS} (p : bytes) (s : V2Server) :
  os_local_app_data = Some p ->
  returns (EnsureDefaultExists s) (fun _ s' =>
    (forall q, q <> default_path p -> files s' !! q = files s !! q) /\
    let before := files s !! default_path p in
    let mine := if os_open_file (trace s) (default_path p)
                then Some (text_mode (implementationId (mConfig s))) else before in
    files s' !! default_path p =
      match mDefaultBehavior s, before with
      | DoNotSet, _ => before
      | SetIfUnset, Some _ => before
      | SetIfUnset, None => mine
      | AlwaysSet, _ => mine
      end).
Proof.
  intros Hp; eapply returns_weaken; [by apply (EnsureDefaultExists_files p)|].
  intros ? s' ->; unfold keeps_default; split.
  - intros q Hq; repeat case_match; by rewrite ?lookup_insert_ne.
  - destruct (mDefaultBehavior s), (files s !! default_path p) eqn:E; cbn;
      repeat case_match; rewrite ?lookup_insert_eq; try done; by rewrite E.
Qed.

Lemma v2_default_server_witness :
  returns (@EnsureDefaultExists Sample.os Sample.object) (fun _ s' =>
    (forall q, q <> default_path Sample.local_app_data -> files s' !! q = files Sample.object !! q) /\
    files s' !! default_path Sample.local_app_data =
      Some (str "com.openkneeboard.wintab-adapter")).
Proof.
  apply (@v2_default_server Sample.os Sample.local_app_data Sample.object); reflexivity.
Defined.

(** C29: the server is published only when it listens.  However the environment
    behaves, when a run of [Start] has changed a file other than the socket
    itself, the socket was bound to the configured path, [listen] has succeeded
    on it, and it is the one in [mListenSocket]. *)
Theorem v2_published_when_listening {HO : SocketOS} (s : V2Server) (q : bytes) :
  let path := socketPath (mConfig s) in
  q <> path ->
  leaves (Start s) (fun s' => files s' !! q <> files s !! q ->
    exists k t1 t2, mListenSocket s' = Some k /\
      trace s' = trace s ++ t1 ++
        [EBind k (fill_copy SUN_PATH_SIZE (until_nul path)) None; EListen k 1 None] ++ t2).
Proof.
  intros path Hq; rewrite Start_eq; cbv zeta.
  set (r := os_socket (trace s)); set (s1 := set_mListenSocket _ _).
  assert (untouched path s s1) as H1.
  { apply socket_untouched. }
  destruct r as [e|k]; [cbn; destruct H1 as (_ & _ & H1); by rewrite H1|].
  fold path.
  destruct (returns_inv _ _ (Prepare_untouched path s s1 H1)) as ([] & s2 & E2 & H2 & Hl2).
  unfold st_bind at 1; rewrite E2.
  destruct (SUN_PATH_SIZE <=? length path)%nat; [cbn; destruct H2 as (_ & _ & H2); by rewrite H2|].
  unfold ask; unfold st_bind at 1; cbv zeta.
  destruct (os_bind _ _ _); [cbn; destruct H2 as (_ & _ & H2); by rewrite H2|].
  unfold st_bind at 1; destruct (os_listen _ _); [cbn; destruct H2 as (_ & _ & H2); by rewrite H2|].
  set (s3 := log (EListen k 1 None) _).
  assert (forall s', later s3 s' -> exists k t1 t2, mListenSocket s' = Some k /\
    trace s' = trace s ++ t1 ++
      [EBind k (fill_copy SUN_PATH_SIZE (until_nul path)) None; EListen k 1 None] ++ t2) as Hok.
  { intros s' (El & _ & t & Et & _); destruct H2 as ((u & Eu & _) & _ & _).
    exists k, u, t; split; [rewrite El; unfold s3; cbn; by rewrite Hl2|].
    rewrite Et; unfold s3; cbn; rewrite Eu, <- !app_assoc; reflexivity. }
  apply ends_leaves; eapply ends_bind_exn.
  - eapply ends_weaken; [apply PublishDiscovery_later|done|]; intros e s' [Hs' _] _; by apply Hok.
  - intros _ s' [Hs' _] _; by apply (Hok (log EThreadsStarted s')), later_log; [exact I|].
Qed.

Lemma v2_published_when_listening_witness :
  let path := socketPath Sample.config in
  let q := default_path Sample.local_app_data in
  leaves (@Start Sample.os Sample.object) (fun s' =>
    files s' !! q <> files Sample.object !! q ->
    exists k t1 t2, mListenSocket s' = Some k /\
      trace s' = [] ++ t1 ++
        [EBind k (fill_copy SUN_PATH_SIZE (until_nul path)) None; EListen k 1 None] ++ t2).
Proof.
  intros path q; apply (@v2_published_when_listening Sample.os Sample.object q); vm_compute; congruence.
Defined.

(** C30: the socket path fits into [sockaddr_un].  Whatever the system answers,
    [Start] calls [bind] only with a path of less than 108 bytes; the 108 bytes
    of [sun_path] then hold the path, up to a null byte if it has one, and a null
    byte after it.  When the socket could be created and the path is longer,
    [Start] throws. *)
Theorem v2_socket_path_bound {HO : SocketOS} (s : V2Server) :
  let path := socketPath (mConfig s) in
  leaves (Start s) (all_fit path s) /\
  forall k, os_socket (trace s) = inr k -> (SUN_PATH_SIZE <= length path)%nat ->
    exists s', Start s = Exn (RuntimeError "Socket path is too long for AF_UNIX") s'.
Proof.
  intros path; rewrite Start_eq; cbv zeta; fold path.
  set (r := os_socket (trace s)); set (s1 := set_mListenSocket _ _).
  pose proof (socket_untouched path r (match r with inr k => Some k | inl _ => None end) s) as H1; fold s1 in H1.
  destruct r as [e|k]; [split; [|done]; by apply added_fits; destruct H1|].
  destruct (returns_inv _ _ (Prepare_untouched path s s1 H1)) as ([] & s2 & E2 & (H2 & _) & _).
  unfold st_bind at 1 5; rewrite E2; destruct (Nat.leb_spec SUN_PATH_SIZE (length path)) as [Hl|Hl].
  { split; [by apply added_fits|]; by exists s2. }
  split; [|lia]; unfold ask, st_bind at 1; set (sun_path := fill_copy _ _).
  assert (forall err, all_fit path s (log (EBind k sun_path err) s2)) as H3.
  { intros err; apply all_fit_log; [by apply added_fits|by apply sun_path_fits]. }
  destruct (os_bind _ _ _) as [e|]; [apply H3|]; unfold st_bind at 1; set (s4 := log (EListen k 1 _) _).
  assert (all_fit path s s4) as H4 by by apply all_fit_log.
  destruct (os_listen _ _) as [e|]; [done|].
  apply ends_leaves; eapply ends_bind_exn.
  - eapply ends_weaken; [apply PublishDiscovery_later|done|]; intros e s' [Hs' _]; by eapply all_fit_later.
  - intros _ s' [Hs' _]; by apply (all_fit_log path s s' EThreadsStarted); [eapply all_fit_later|].
Qed.

End V2Discovery.
