(* ===== verification/V2Reading.v ===== *)
(** * The OTD-IPC v2 server: what reading from a client does

    Frames of the reading operations of V2Accept, and the theorems on
    [ReadNBytes] and the operational phase of [AcceptOnce]: what the buffer
    holds after a read, memory safety, and what is printed for a message. *)

From S2P Require Import Prelude Layout V2Messages V2Server V2Accept.
Import V2Server V2Accept.

Module V2Reading.

(** ** Frames: what a step leaves alone *)

Definition quiet_event (e : event) : Prop :=
  match e with ESend _ _ _ _ | EAccept _ (Some _) => False | _ => True end.

(** The listening socket is the same, or has been closed. *)
Definition listens (s s' : V2Server) : Prop :=
  mListenSocket s' = mListenSocket s \/ mListenSocket s' = None.

Lemma listens_refl s : listens s s.
Proof. by left. Qed.
Lemma listens_trans s1 s2 s3 : listens s1 s2 -> listens s2 s3 -> listens s1 s3.
Proof. unfold listens; intros [?|?] [?|?]; intuition congruence. Qed.

(** Only quiet events were added to the trace, and the other members are the
    same. *)
Definition quiet (s s' : V2Server) : Prop :=
  (mConfig s' = mConfig s /\ listens s s') /\ mDevice s' = mDevice s /\ mClientSocket s' = mClientSocket s /\
  ping_seq s' = ping_seq s /\ exists t, trace s' = trace s ++ t /\ Forall quiet_event t.

Lemma quiet_refl s : quiet s s.
Proof. repeat split; [by left|]; exists []; by rewrite app_nil_r. Qed.

Lemma quiet_trans s1 s2 s3 : quiet s1 s2 -> quiet s2 s3 -> quiet s1 s3.
Proof.
  intros ((E1 & E0) & E2 & E3 & E4 & t & Et & Ht) ((F1 & F0) & F2 & F3 & F4 & u & Fu & Hu).
  repeat split; try congruence; [by eapply listens_trans|].
  exists (t ++ u); rewrite Fu, Et, app_assoc; split; [done|]; by apply Forall_app.
Qed.

Lemma quiet_log e s : quiet_event e -> quiet s (log e s).
Proof. intros He; repeat split; [by left|]; exists [e]; split; [done|]; by constructor. Qed.

(** A result is quiet when it returns in a quietly reached state. *)
Definition quietly {A} (m : ST V2Server A) : Prop :=
  forall s a s', m s = Ret a s' -> quiet s s'.

Lemma quietly_ret {A} (a : A) : quietly (st_ret a).
Proof. intros s ? s' [= _ <-]; apply quiet_refl. Qed.

Lemma quietly_gets {A} (f : V2Server -> A) : quietly (gets f).
Proof. intros s ? s' [= _ <-]; apply quiet_refl. Qed.

Lemma quietly_undef {A} u : quietly (@undef V2Server A u).
Proof. by intros s ? s' ?. Qed.

Lemma quietly_ask {A} f (e : A -> event) : (forall a, quiet_event (e a)) -> quietly (ask f e).
Proof. intros He s ? s' [= _ <-]; by apply quiet_log. Qed.

Lemma quietly_print p : quietly (print p).
Proof. intros s ? s' [= _ <-]; by apply quiet_log. Qed.

Lemma quietly_bind {A B} (m : ST V2Server A) (k : A -> ST V2Server B) :
  quietly m -> (forall a, quietly (k a)) -> quietly (st_bind m k).
Proof.
  intros Hm Hk s b s' E; unfold st_bind in E.
  destruct (m s) as [a s1| | |] eqn:Em; try done.
  apply quiet_trans with s1; [by eapply Hm|by eapply Hk].
Qed.

Create HintDb quiet.
#[global] Hint Resolve quietly_ret quietly_gets quietly_undef quietly_print : quiet.

Section frames.
Context {HA : Arch} {HO : SocketOS}.

Lemma quietly_ReadLoop fuel k buf p n : quietly (ReadLoop fuel k buf p n).
Proof.
  revert buf n; induction fuel as [|fuel IH]; intros buf n; cbn [ReadLoop]; [done|].
  destruct (0 <? n); [|auto with quiet].
  apply quietly_bind; [by apply quietly_ask|]; intros [bs|e]; [|auto with quiet].
  destruct (_ <? _)%nat; [auto with quiet|]; destruct bs; auto with quiet.
Qed.

Lemma quietly_handle buf h : quietly (handle_message buf h).
Proof.
  unfold handle_message; destruct (_ =? _); [destruct (_ <? _); auto with quiet|].
  destruct (_ =? _); [|auto with quiet]; destruct (decode _); auto with quiet.
Qed.

Lemma quietly_report r : quietly (report_read_error r).
Proof. destruct r; cbn; auto with quiet. Qed.

#[local] Hint Resolve quietly_ReadLoop quietly_handle quietly_report : quiet.

Lemma quietly_ReadMessage fuel buf : quietly (ReadMessage fuel buf).
Proof.
  unfold ReadMessage, ReadNBytes.
  apply quietly_bind; [auto with quiet|]; intros k.
  apply quietly_bind; [auto with quiet|]; intros [[] buf1].
  - destruct (V2.header_at buf1) as [h|]; [|auto with quiet].
    apply quietly_bind; [auto with quiet|]; intros k'.
    apply quietly_bind; [auto with quiet|]; intros [[] buf2].
    + destruct (V2.header_at buf2); [|auto with quiet].
      apply quietly_bind; auto with quiet.
    + apply quietly_bind; auto with quiet.
    + apply quietly_bind; auto with quiet.
  - apply quietly_bind; auto with quiet.
  - apply quietly_bind; auto with quiet.
Qed.

Lemma quietly_stop : quietly stop_requested.
Proof. by apply quietly_ask. Qed.
End frames.


(** ** The receive buffer *)

(** [recv] returns at most as many bytes as it was asked for. *)
Class RecvContract {HO : SocketOS} : Prop :=
  recv_fits : forall t k len bs, 0 <= len -> os_recv t k len = RecvData bs ->
    Z.of_nat (length bs) <= len.

(** It delivers bytes, and no data when the length it is given is negative: what
    happens to a caller that relies on more is the subject of
    [v2_undersized_header]. *)
Class RecvBytes {HO : SocketOS} : Prop := {
  recv_bytes : forall t k len bs, os_recv t k len = RecvData bs -> Forall is_byte bs;
  recv_refuses : forall t k len bs, len < 0 -> os_recv t k len <> RecvData bs
}.

(** The non-empty pieces of data [recv] delivered. *)
Definition chunks_of (e : event) : list bytes :=
  match e with ERecv _ _ (RecvData (b :: bs)) => [b :: bs] | _ => [] end.
Definition received (t : list event) : list bytes := t ≫= chunks_of.

Lemma received_app t u : received (t ++ u) = received t ++ received u.
Proof. apply bind_app. Qed.

Lemma length_write_at p bs buf : (p + length bs <= length buf)%nat ->
  length (write_at p bs buf) = length buf.
Proof.
  intros; unfold write_at; rewrite !length_app, length_take, length_drop; lia.
Qed.

Lemma write_at_nil p buf : write_at p [] buf = buf.
Proof. unfold write_at; cbn; rewrite Nat.add_0_r; apply take_drop. Qed.

Lemma take_write_at p bs buf : (p <= length buf)%nat -> take p (write_at p bs buf) = take p buf.
Proof.
  intros; unfold write_at; rewrite take_app_le by (rewrite length_take; lia).
  rewrite take_take; f_equal; lia.
Qed.

Lemma write_at_prefix a b buf : (length a + length b <= length buf)%nat ->
  write_at (length a) b (write_at 0 a buf) = a ++ b ++ drop (length a + length b) buf.
Proof.
  intros; unfold write_at; rewrite take_0, Nat.add_0_l; change ([] ++ ?l) with l.
  rewrite (take_app_length a), drop_app_ge, drop_drop by lia; do 3 f_equal; lia.
Qed.

Lemma slice_write_at p n c buf : (length c <= n)%nat -> (p <= length buf)%nat ->
  slice p n (write_at p c buf) = c ++ drop (length c) (slice p n buf).
Proof.
  intros Hn Hp; unfold slice, write_at.
  rewrite drop_app_length' by (rewrite length_take; lia).
  rewrite take_app_ge by done; f_equal.
  by rewrite skipn_firstn_comm, drop_drop.
Qed.

(** The buffer after the pieces [cs] arrived at the same offset [p]. *)
Definition overwrite (p : nat) (buf : bytes) (cs : list bytes) : bytes :=
  foldl (fun b c => write_at p c b) buf cs.

Definition total (cs : list bytes) : nat := length (concat cs).

Section reading.
Context {HA : Arch} {HO : SocketOS}.

Lemma size_t_small z : is_u 31 z -> size_t z = z.
Proof.
  intros Hz; apply wrap_small, (is_u_weaken 31); [|done].
  destruct arch_width as [->| ->]; lia.
Qed.

Lemma size_t_negative z : - 2 ^ 31 <= z < 0 -> 0 < size_t z /\ s32 (size_t z) = z.
Proof. intros Hz; unfold size_t; destruct arch_width as [->| ->]; cint_lia. Qed.

(** A number of bytes to read that is not a non-negative [int] is a negative one
    when it is passed to [recv]. *)
Lemma size_t_refused z : is_u 32 z -> ~ is_u 31 (z - 12) ->
  0 < size_t (z - 12) /\ s32 (size_t (z - 12)) < 0.
Proof. unfold is_u, size_t; intros Hz Hn; destruct arch_width as [->| ->]; cint_lia. Qed.

(** [ReadNBytes] returns for every behaviour of [recv] that keeps its contract,
    stays inside the buffer, and leaves the pieces it received on top of each
    other. *)
Lemma ReadLoop_spec {HR : RecvContract} fuel k buf p n s :
  is_u 31 n -> (p + Z.to_nat n <= length buf)%nat -> n < Z.of_nat fuel ->
  returns (ReadLoop fuel k buf p n s) (fun rb s' => exists cs,
    received (trace s') = received (trace s) ++ cs /\
    snd rb = overwrite p buf cs /\ length (snd rb) = length buf /\
    (fst rb = ReadOk -> Z.of_nat (total cs) = n) /\ (p <= length buf)%nat).
Proof.
  revert buf n s; induction fuel as [|fuel IH]; intros buf n s Hn Hp Hf;
    [unfold is_u in *; lia|]; cbn [ReadLoop].
  assert (s32 n = n) as Hs by (apply s32_small; unfold is_u, is_s in *; cbn in *; lia).
  destruct (Z.ltb_spec 0 n).
  2: { cbn; exists []; rewrite app_nil_r; split; [done|]; split; [done|]; split; [done|];
       split; [|lia]; intros _; unfold is_u in *; cbn; lia. }
  unfold st_bind, ask; rewrite Hs; cbv zeta.
  destruct (os_recv (trace s) k n) as [bs|e] eqn:Er.
  - assert (Z.of_nat (length bs) <= n) as Hl by (eapply recv_fits; [|exact Er]; lia).
    destruct (Nat.ltb_spec (length buf) (p + length bs)); [lia|].
    destruct bs as [|b bs].
    + cbn; rewrite received_app, write_at_nil; exists []; cbn.
      split; [done|]; split; [done|]; split; [done|]; split; [done|lia].
    + set (c := b :: bs) in *; assert (0 < Z.of_nat (length c)) by (cbn; lia).
      rewrite size_t_small by (unfold is_u in *; lia).
      eapply returns_weaken; [apply IH|].
      * unfold is_u in *; lia.
      * rewrite length_write_at by lia; lia.
      * lia.
      * intros [r buf'] s'; cbn [fst snd]; rewrite length_write_at by lia.
        intros (cs & E1 & E2 & E3 & E4 & E5); exists (c :: cs).
        cbn [trace log] in E1; rewrite received_app, <- app_assoc in E1.
        split; [exact E1|]; split; [exact E2|]; split; [done|]; split; [|done].
        intros Hr; specialize (E4 Hr); unfold total in *; cbn [concat]; rewrite length_app; lia.
  - cbn; rewrite received_app; exists []; cbn; split; [done|]; split; [done|]; split; [done|].
    split; [|lia]; by destruct (e =? WSAECONNRESET).
Qed.

(** A read of a negative number of bytes fails. *)
Lemma ReadLoop_refused {HB : RecvBytes} fuel k buf p n s : (0 < fuel)%nat -> 0 < n -> s32 n < 0 ->
  exists r e, ReadLoop fuel k buf p n s = Ret (r, buf) (log (ERecv k (s32 n) (RecvError e)) s) /\
    r <> ReadOk /\ os_recv (trace s) k (s32 n) = RecvError e.
Proof.
  intros Hf Hp Hn; destruct fuel as [|fuel]; [lia|]; cbn [ReadLoop].
  apply Z.ltb_lt in Hp; rewrite Hp; unfold st_bind, ask; cbv zeta.
  destruct (os_recv (trace s) k (s32 n)) as [bs|e] eqn:E; [by apply recv_refuses in E|].
  exists (if e =? WSAECONNRESET then SocketClosed else WsaError e), e; by destruct (e =? WSAECONNRESET).
Qed.

Lemma write_at_bytes p bs buf : Forall is_byte bs -> Forall is_byte buf -> Forall is_byte (write_at p bs buf).
Proof. intros; unfold write_at; auto using Forall_app_2, Forall_take, Forall_drop. Qed.

Lemma ReadLoop_bytes {HB : RecvBytes} fuel k buf p n s r buf' s' : Forall is_byte buf ->
  ReadLoop fuel k buf p n s = Ret (r, buf') s' -> Forall is_byte buf'.
Proof.
  revert buf n s; induction fuel as [|fuel IH]; intros buf n s Hb; [done|]; cbn [ReadLoop].
  destruct (0 <? n); [|by intros [= _ <- _]]; unfold st_bind, ask; cbv zeta.
  destruct (os_recv _ _ _) as [bs|e] eqn:E; [|by intros [= _ <- _]].
  destruct (_ <? _)%nat; [done|]; apply recv_bytes in E.
  pose proof (write_at_bytes p bs buf E Hb) as Hw.
  destruct bs as [|b bs]; [by intros [= _ <- _]|by apply IH].
Qed.

Lemma size_at_u32 buf : Forall is_byte buf -> is_u 32 (size_at buf).
Proof.
  intros Hb; unfold size_at, slice; apply (is_u_weaken (8 * Z.of_nat (length (take 4 (drop 4 buf))))).
  - rewrite length_take; lia.
  - by apply le_value_bound, Forall_take, Forall_drop.
Qed.

(** A read that is served in one piece; nothing is read when nothing is asked
    for. *)
Definition after_recv (k : Z) (bs : bytes) (s : V2Server) : V2Server :=
  match bs with [] => s | _ => log (ERecv k (Z.of_nat (length bs)) (RecvData bs)) s end.

Lemma ReadLoop_whole fuel k buf p bs s : (2 <= fuel)%nat -> (p + length bs <= length buf)%nat ->
  is_u 31 (Z.of_nat (length bs)) ->
  (bs <> [] -> os_recv (trace s) k (Z.of_nat (length bs)) = RecvData bs) ->
  ReadLoop fuel k buf p (Z.of_nat (length bs)) s =
  Ret (ReadOk, write_at p bs buf) (after_recv k bs s).
Proof.
  intros Hf Hp Hu Hr; destruct fuel as [|[|fuel]]; [lia..|].
  destruct bs as [|b bs]; [cbn; by rewrite write_at_nil|].
  set (c := b :: bs) in *; cbn [ReadLoop].
  assert (0 < Z.of_nat (length c)) by (cbn; lia).
  destruct (Z.ltb_spec 0 (Z.of_nat (length c))); [|lia].
  rewrite s32_small by (unfold is_u, is_s in *; cbn in *; lia).
  unfold st_bind, ask; cbv zeta; rewrite Hr by done.
  destruct (Nat.ltb_spec (length buf) (p + length c)); [lia|].
  rewrite Z.sub_diag; unfold size_t; by rewrite wrap_small by (unfold is_u; destruct arch_width as [->| ->]; lia).
Qed.

Lemma header_at_some buf : exists h, V2.header_at buf = Some h /\ V2.size h = size_at buf /\
  V2.messageType h = type_at buf.
Proof. eexists; split; [reflexivity|]; by split. Qed.

Lemma type_at_take n a : (4 <= n)%nat -> type_at (take n a) = type_at a.
Proof.
  intros; unfold type_at, slice; rewrite !drop_0, take_take; do 2 f_equal; lia.
Qed.

Lemma size_at_take n a : (8 <= n)%nat -> size_at (take n a) = size_at a.
Proof.
  intros; unfold size_at, slice; rewrite !take_drop_commute, take_take; do 3 f_equal; lia.
Qed.

End reading.

Lemma take_overwrite p buf cs : (p <= length buf)%nat -> take p (overwrite p buf cs) = take p buf.
Proof.
  unfold overwrite; revert buf; induction cs as [|c cs IH]; intros buf Hp; cbn; [done|].
  rewrite IH by (unfold write_at; rewrite !length_app, length_take; lia).
  by apply take_write_at.
Qed.

Lemma length_grow n buf : length (grow n buf) = Nat.max n (length buf).
Proof. unfold grow; rewrite length_app, length_replicate; lia. Qed.

(** The buffer the body is read into. *)
Definition enlarged (buf : bytes) : bytes :=
  if Z.of_nat (length buf) <? size_at buf then grow (Z.to_nat (size_at buf)) buf else buf.

Lemma enlarged_spec buf : (12 <= length buf)%nat -> size_at (enlarged buf) = size_at buf /\
  type_at (enlarged buf) = type_at buf /\ size_at buf <= Z.of_nat (length (enlarged buf)) /\
  (length buf <= length (enlarged buf))%nat.
Proof.
  intros Hl; unfold enlarged; destruct (Z.ltb_spec (Z.of_nat (length buf)) (size_at buf)).
  - rewrite length_grow; unfold grow; rewrite size_at_app, type_at_app by lia; split_and!; lia.
  - split_and!; lia.
Qed.

Lemma enlarged_bytes buf : Forall is_byte buf -> Forall is_byte (enlarged buf).
Proof.
  intros Hb; unfold enlarged, grow; destruct (_ <? _); [|done].
  apply Forall_app; split; [done|]; by apply Forall_replicate.
Qed.

(** [ReadMessage], with the accesses to the header spelt out. *)
Lemma ReadMessage_eq {HA : Arch} {HO : SocketOS} fuel buf s :
  ReadMessage fuel buf s =
  (let k := socket_get (mClientSocket s) in
   let* (ok, buf) := ReadNBytes fuel k buf 0 12 in
   match ok with
   | ReadOk =>
       let* client := gets mClientSocket in
       let* (ok, buf) := ReadNBytes fuel (socket_get client) (enlarged buf) 12
                           (size_t (size_at buf - 12)) in
       match ok with
       | ReadOk =>
           handle_message buf (V2.mkHeader (type_at buf) (size_at buf) (le_value (slice 8 4 buf))) ;;
           st_ret (Some buf)
       | _ => report_read_error ok ;; st_ret None
       end
   | _ => report_read_error ok ;; st_ret None
   end) s.
Proof. reflexivity. Qed.

(** ... and after the header has been read. *)
Lemma ReadMessage_body {HA : Arch} {HO : SocketOS} fuel buf s k buf1 s1 :
  mClientSocket s = Some k -> ReadNBytes fuel k buf 0 12 s = Ret (ReadOk, buf1) s1 ->
  ReadMessage fuel buf s =
  (let* (ok, buf) := ReadNBytes fuel k (enlarged buf1) 12 (size_t (size_at buf1 - 12)) in
   match ok with
   | ReadOk =>
       handle_message buf (V2.mkHeader (type_at buf) (size_at buf) (le_value (slice 8 4 buf))) ;;
       st_ret (Some buf)
   | _ => report_read_error ok ;; st_ret None
   end) s1.
Proof.
  intros Hk E1; rewrite ReadMessage_eq; cbv zeta; rewrite Hk.
  unfold st_bind at 1; change (socket_get (Some k)) with k; rewrite E1.
  destruct (quietly_ReadLoop _ _ _ _ _ _ _ _ E1) as (_ & _ & Ek & _).
  unfold gets; unfold st_bind at 1; by rewrite Ek, Hk.
Qed.

Section safety.
Context {HA : Arch} {HO : SocketOS} {HR : RecvContract} {HB : RecvBytes}.

Lemma handle_message_returns buf h s : 12 <= V2.size h <= Z.of_nat (length buf) ->
  is_u 31 (V2.size h - 12) -> returns (handle_message buf h s) (fun _ _ => True).
Proof.
  intros Hs Hu; unfold handle_message; destruct (_ =? _).
  - rewrite V2.v2_header_sizeof; change V2.HEADER_SIZE with 12; rewrite size_t_small by done.
    destruct (Z.ltb_spec (Z.of_nat (length buf)) (12 + (V2.size h - 12))); [lia|done].
  - by destruct (_ =? _).
Qed.

Lemma report_returns r s : returns (report_read_error r s) (fun _ _ => True).
Proof. by destruct r. Qed.

Lemma gone_returns r s : returns ((report_read_error r ;; st_ret (@None bytes)) s)
  (fun r _ => r = None).
Proof. eapply returns_bind; [apply report_returns|done]. Qed.

(** The buffer between two messages. *)
Definition buffer_ok (buf : bytes) : Prop := (12 <= length buf)%nat /\ Forall is_byte buf.

(** The body, for a size the client announced, whatever it is. *)
Lemma read_body fuel buf s : buffer_ok buf -> 2 ^ 31 <= Z.of_nat fuel ->
  returns (ReadLoop fuel (socket_get (mClientSocket s)) (enlarged buf) 12 (size_t (size_at buf - 12)) s)
    (fun rb _ => buffer_ok (snd rb) /\ (fst rb = ReadOk ->
       12 <= size_at (snd rb) <= Z.of_nat (length (snd rb)) /\ is_u 31 (size_at (snd rb) - 12))).
Proof.
  intros [Hl Hb] Hf; destruct (enlarged_spec buf Hl) as (Es & _ & Hs & Hge).
  pose proof (size_at_u32 buf Hb) as Hz; pose proof (enlarged_bytes buf Hb) as Hbe.
  destruct (decide (0 <= size_at buf - 12 < 2 ^ 31)) as [Hu|Hu].
  - rewrite size_t_small by done.
    destruct (returns_inv _ _ (ReadLoop_spec fuel (socket_get (mClientSocket s)) (enlarged buf) 12
      (size_at buf - 12) s ltac:(unfold is_u; lia) ltac:(lia) ltac:(lia)))
      as ([r buf2] & s2 & E & cs & _ & Eb & Hl2 & _); cbn [fst snd] in *.
    rewrite E; cbn [returns fst snd].
    assert (size_at buf2 = size_at buf) as Eh
      by (rewrite <- (size_at_take 12 buf2), Eb, take_overwrite, size_at_take by lia; exact Es).
    split; [split; [lia|by eapply ReadLoop_bytes]|]; rewrite Eh; intros _; split; [lia|done].
  - destruct (size_t_refused _ Hz Hu) as [Hp Hn].
    destruct (ReadLoop_refused fuel (socket_get (mClientSocket s)) (enlarged buf) 12 _ s ltac:(lia) Hp Hn)
      as (r & e & -> & Hr & _); cbn; split; [split; [lia|done]|done].
Qed.

Lemma ReadMessage_safe fuel buf s : buffer_ok buf -> 2 ^ 31 <= Z.of_nat fuel ->
  returns (ReadMessage fuel buf s) (fun r _ => forall buf', r = Some buf' -> buffer_ok buf').
Proof.
  intros [Hl Hb] Hf; rewrite ReadMessage_eq; cbv zeta.
  set (k := socket_get _).
  destruct (returns_inv _ _ (ReadLoop_spec fuel k buf 0 12 s ltac:(done) ltac:(lia) ltac:(lia)))
    as ([r1 buf1] & s1 & E1 & _ & _ & _ & Hl1 & _); cbn [snd] in Hl1.
  unfold st_bind at 1; unfold ReadNBytes at 1; rewrite E1.
  destruct r1; [|eapply returns_weaken; [apply gone_returns|by intros ? ? ->]..].
  assert (buffer_ok buf1) as Hb1 by (split; [lia|by eapply ReadLoop_bytes]).
  unfold gets; unfold st_bind at 1.
  destruct (returns_inv _ _ (read_body fuel buf1 s1 Hb1 Hf)) as ([r2 buf2] & s2 & E2 & Hb2 & Hok); cbn [fst snd] in *.
  unfold ReadNBytes; unfold st_bind at 1; rewrite E2.
  destruct r2; [|eapply returns_weaken; [apply gone_returns|by intros ? ? ->]..].
  destruct (Hok eq_refl) as [Hs Hu].
  eapply returns_bind; [by apply handle_message_returns|]; intros _ s3 _; by intros ? [= <-].
Qed.

Lemma ReadMessages_safe N rounds fuel buf s :
  (forall t, (N <= length t)%nat -> os_stop_requested t = true) ->
  buffer_ok buf -> 2 ^ 31 <= Z.of_nat fuel ->
  (0 < rounds)%nat -> (N < rounds + length (trace s))%nat ->
  returns (ReadMessages rounds fuel buf s) (fun _ s' => mClientSocket s' = mClientSocket s).
Proof.
  intros Hstop Hb Hf; revert buf s Hb.
  induction rounds as [|rounds IH]; intros buf s Hb Hr0 Hr; [lia|].
  cbn [ReadMessages]; unfold stop_requested, ask; unfold st_bind at 1; cbv zeta.
  destruct (os_stop_requested (trace s)) eqn:Es; [done|].
  assert (length (trace s) < N)%nat as Hn
    by (destruct (decide (N <= length (trace s))%nat) as [Hn|]; [by rewrite Hstop in Es|lia]).
  destruct (returns_inv _ _ (ReadMessage_safe fuel buf (log (EStopRequested false) s) Hb Hf))
    as (r & s1 & E1 & Hl).
  destruct (quietly_ReadMessage _ _ _ _ _ E1) as (_ & _ & Ek & _ & t & Et & _).
  unfold st_bind; rewrite E1; destruct r as [buf'|]; [|done].
  cbn [trace log] in Et; eapply returns_weaken; [apply IH|].
  - auto.
  - lia.
  - rewrite Et, !length_app; cbn; lia.
  - intros ? s2 E; cbn in E; by rewrite E, Ek.
Qed.

Lemma buffer_ok_start : buffer_ok (replicate BUFFER_SIZE 0).
Proof. split; [rewrite length_replicate; unfold BUFFER_SIZE; lia|by apply Forall_replicate]. Qed.

End safety.

(** ** A message that is delivered in two reads *)

Section delivery.
Context {HA : Arch} {HO : SocketOS} (pad : nat -> Z).

(** [recv] answers the read of the header with the header of [m] and the read
    of the body with the body, each in one piece. *)
Definition serves (s : V2Server) (k : Z) (bs : bytes) : Prop :=
  bs <> [] -> os_recv (trace s) k (Z.of_nat (length bs)) = RecvData bs.
Definition delivers (s : V2Server) (k : Z) (m : bytes) : Prop :=
  serves s k (take 12 m) /\ serves (after_recv k (take 12 m) s) k (drop 12 m).
Definition delivered (k : Z) (m : bytes) (s : V2Server) : V2Server :=
  after_recv k (drop 12 m) (after_recv k (take 12 m) s).

Lemma client_after_recv k bs s : mClientSocket (after_recv k bs s) = mClientSocket s.
Proof. by destruct bs. Qed.

(** Reading the header and then the body gives the message. *)
Lemma two_writes buf m : (12 <= length buf)%nat -> (12 <= length m)%nat ->
  size_at m = Z.of_nat (length m) ->
  let buf1 := write_at 0 (take 12 m) buf in
  size_at buf1 = size_at m /\ length buf1 = length buf /\
  (length m <= length (enlarged buf1))%nat /\
  exists rest, write_at 12 (drop 12 m) (enlarged buf1) = m ++ rest /\
               (length buf <= length (m ++ rest))%nat.
Proof.
  intros Hb Hm Hs buf1.
  assert (length (take 12 m) = 12%nat) as Hl by (rewrite length_take; lia).
  assert (length buf1 = length buf) as Hl1 by (apply length_write_at; lia).
  assert (take 12 buf1 = take 12 m) as Ht1.
  { unfold buf1, write_at; rewrite take_0; change ([] ++ ?l) with l.
    rewrite take_app_le by lia; apply take_ge; lia. }
  assert (size_at buf1 = size_at m) as Hs1
    by (rewrite <- (size_at_take 12 buf1), Ht1, size_at_take by lia; done).
  destruct (enlarged_spec buf1 ltac:(lia)) as (_ & _ & Hle & Hge).
  do 3 (split; [done || lia|]).
  exists (drop (12 + length (drop 12 m)) (enlarged buf1)).
  assert (write_at 12 (drop 12 m) (enlarged buf1) =
          m ++ drop (12 + length (drop 12 m)) (enlarged buf1)) as Er.
  { unfold write_at; rewrite app_assoc; f_equal.
    transitivity (take 12 m ++ drop 12 m); [|apply take_drop]; f_equal; rewrite <- Ht1.
    unfold enlarged, grow; case_match; [|done]; by rewrite take_app_le by lia. }
  split; [done|]; rewrite <- Er, length_write_at; rewrite ?length_drop; lia.
Qed.

Lemma ReadMessage_whole fuel buf s k m :
  mClientSocket s = Some k -> (2 <= fuel)%nat -> (12 <= length buf)%nat ->
  (12 <= length m)%nat -> size_at m = Z.of_nat (length m) -> is_u 31 (size_at m) ->
  delivers s k m ->
  exists rest, (length buf <= length (m ++ rest))%nat /\
  ReadMessage fuel buf s =
  (handle_message (m ++ rest) (V2.mkHeader (type_at m) (size_at m) (le_value (slice 8 4 m))) ;;
   st_ret (Some (m ++ rest))) (delivered k m s).
Proof.
  intros Hk Hf Hb Hm Hs Hu [H1 H2]; rewrite ReadMessage_eq; cbv zeta; rewrite Hk.
  destruct (two_writes buf m Hb Hm Hs) as (Hs1 & Hl1 & Hge & rest & Er & Hrest).
  assert (length (take 12 m) = 12%nat) as Hl by (rewrite length_take; lia).
  pose proof (ReadLoop_whole fuel k buf 0 (take 12 m) s Hf ltac:(lia)) as R1.
  unfold serves in H1, H2; rewrite Hl in R1, H1; specialize (R1 ltac:(done) H1).
  unfold st_bind at 1; unfold ReadNBytes at 1; change (socket_get (Some k)) with k.
  change (Z.of_nat 12) with 12 in R1; rewrite R1, Hs1, Hs, size_t_small by (unfold is_u in *; lia).
  unfold gets; unfold st_bind at 1; rewrite client_after_recv, Hk; change (socket_get (Some k)) with k.
  set (buf1 := write_at 0 _ buf) in *.
  pose proof (ReadLoop_whole fuel k (enlarged buf1) 12 (drop 12 m)
    (after_recv k (take 12 m) s) Hf) as R2.
  rewrite length_drop in R2, H2.
  specialize (R2 ltac:(lia) ltac:(unfold is_u in *; lia) H2).
  rewrite Nat2Z.inj_sub in R2 by lia; change (Z.of_nat 12) with 12 in R2.
  exists rest; split; [done|].
  unfold ReadNBytes, st_bind at 1; rewrite R2, Er.
  rewrite size_at_app, type_at_app by lia.
  unfold slice; rewrite drop_app_le, take_app_le by (rewrite ?length_drop; lia); by rewrite <- Hs.
Qed.

Lemma message_here e text rest h : length e = 12%nat ->
  V2.size h = 12 + Z.of_nat (length text) -> is_u 31 (Z.of_nat (length text)) ->
  V2.message ArchBitness ((e ++ text) ++ rest) h = text.
Proof.
  intros He Hs Hu; unfold V2.message; rewrite Hs; change V2.HEADER_SIZE with 12.
  replace (12 + Z.of_nat (length text) - 12) with (Z.of_nat (length text)) by lia.
  fold (size_t (Z.of_nat (length text))); rewrite size_t_small, Nat2Z.id by done.
  change (Z.to_nat 12) with 12%nat; rewrite <- app_assoc, drop_app_length' by done.
  by apply take_app_length'.
Qed.

(** A debug message arriving with the right size is printed. *)
Lemma handle_debug e text rest h s : length e = 12%nat ->
  V2.messageType h = V2.MT_DebugMessage ->
  V2.size h = 12 + Z.of_nat (length text) -> is_u 31 (Z.of_nat (length text)) ->
  handle_message ((e ++ text) ++ rest) h s = Ret tt (log (EPrint (PClientMessage text)) s).
Proof.
  intros He Ht Hs Hu; unfold handle_message; rewrite Ht, Z.eqb_refl, (message_here e text) by done.
  rewrite V2.v2_header_sizeof, Hs; change V2.HEADER_SIZE with 12.
  replace (12 + Z.of_nat (length text) - 12) with (Z.of_nat (length text)) by lia.
  rewrite size_t_small by done; rewrite !length_app, He.
  destruct (Z.ltb_spec (Z.of_nat (12 + length text + length rest)) (12 + Z.of_nat (length text))); [lia|done].
Qed.

(** So is what a Hello says. *)
Lemma handle_hello (hello : V2.Hello) rest h s : V2.hello_wf hello ->
  V2.messageType h = V2.MT_Hello ->
  handle_message (encode pad hello ++ rest) h s =
  Ret tt (log (EPrint (PClientHello (TruncateNulls (V2.humanReadableName hello))
    (TruncateNulls (V2.humanReadableVersion hello)) (V2.protocolVersion hello)
    (TruncateNulls (V2.implementationID hello)) (V2.compatibilityVersion hello))) s).
Proof.
  intros Hw Ht; unfold handle_message; rewrite Ht; cbn [Z.eqb V2.MT_Hello V2.MT_DebugMessage].
  assert (wire_wf hello) by exact Hw; by rewrite (decode_encode pad hello).
Qed.

End delivery.

(** ** A connection on which sending works *)

Section connected.
Context {HA : Arch} {HO : SocketOS} (pad : nat -> Z) (c : Z).
Hypothesis sends_work : forall t k data len, os_send t k data len <> SOCKET_ERROR.

(** The client [c] is connected in [s'], and was not closed since [s]. *)
Definition holds (s s' : V2Server) : Prop :=
  mClientSocket s' = Some c /\ mDevice s' = mDevice s /\
  exists t, trace s' = trace s ++ t /\ ECloseSocket c ∉ t.

Lemma holds_log s s' e : holds s s' -> e <> ECloseSocket c -> holds s (log e s').
Proof.
  intros (Hk & Hd & t & Et & Ht) He; split; [done|]; split; [done|].
  exists (t ++ [e]); cbn; rewrite Et, app_assoc; split; [done|].
  rewrite elem_of_app, list_elem_of_singleton; intros [?|?]; congruence.
Qed.

Lemma SendRaw_holds m s s' : size_at m = Z.of_nat (length m) -> holds s s' ->
  returns (SendRaw m (Z.of_nat (length m)) s') (fun _ s'' => holds s s'').
Proof.
  intros Hs Hh; rewrite SendRaw_eq by done; destruct (Hh) as (-> & _); cbv zeta.
  destruct (Z.eqb_spec (os_send (trace s') c m (s32 (Z.of_nat (length m)))) SOCKET_ERROR) as [E|_].
  - by apply sends_work in E.
  - by apply holds_log.
Qed.

Lemma SendHello_holds s s' : holds s s' -> returns (SendHello pad s') (fun _ s'' => holds s s'').
Proof.
  intros Hh; unfold SendHello, gets; unfold st_bind at 1.
  set (m := encode pad _).
  destruct (v2_message_size pad m) as [Hs _]; [apply hello_is_message; [apply hello_message_wf|done]|].
  assert (sizeof V2.Hello = Z.of_nat (length m)) as ->
    by (symmetry; apply (length_encode pad), hello_message_wf).
  eapply returns_bind; [by apply SendRaw_holds|done].
Qed.

Lemma SendDevice_holds s s' : holds s s' ->
  (forall d, mDevice s = Some d -> V2.deviceinfo_wf d /\ V2.size (V2.di_header d) = sizeof V2.DeviceInfo) ->
  returns (SendDevice pad s') (fun _ s'' => holds s s'').
Proof.
  intros Hh Hd; unfold SendDevice, gets; unfold st_bind at 1.
  destruct (mDevice s') as [d|] eqn:Ed; [|done].
  destruct (Hd d) as [Hw Hs]; [destruct Hh as (_ & E & _); congruence|].
  apply returns_bind with (P := fun _ s'' => holds s s''); [|done].
  rewrite (Send_SendRaw pad d) by done.
  apply SendRaw_holds; [|done].
  by rewrite (msg_size_at (T := V2.DeviceInfo) pad d), (length_encode pad d) by done.
Qed.

Lemma AcceptClient_holds s : (forall t k, os_accept t k = Some c) -> mClientSocket s = None ->
  returns (AcceptClient s) (fun b s' => b = true /\ holds s s').
Proof.
  intros Ha Hk; unfold AcceptClient, move_to_mClientSocket, gets, modify, ask, st_bind, close_client.
  rewrite Ha; cbn; rewrite Hk; split; [done|]; split; [done|]; split; [done|].
  eexists; split; [done|]; by rewrite list_elem_of_singleton.
Qed.

Lemma ReadMessages_closed rounds fuel buf s s' :
  (forall t, os_stop_requested t = false) -> (forall t k len, os_recv t k len = RecvData []) ->
  holds s s' -> (0 < length buf)%nat ->
  returns (ReadMessages (S rounds) (S fuel) buf s') (fun b s'' =>
    b = false /\ holds s s'' /\ last (trace s'') = Some (EPrint PDisconnected)).
Proof.
  intros Hstop Hrecv Hh Hb; cbn [ReadMessages]; unfold stop_requested, ask; unfold st_bind at 1.
  cbv zeta; rewrite Hstop; unfold st_bind at 1; rewrite ReadMessage_eq; cbv zeta.
  unfold ReadNBytes; cbn [ReadLoop]; change (0 <? 12) with true.
  unfold ask; unfold st_bind; cbv zeta iota; rewrite Hrecv.
  destruct (Nat.ltb_spec (length buf) (0 + length (@nil Z))) as [Hl|_]; [cbn in Hl; lia|].
  cbn; split; [done|]; split; [by repeat apply holds_log|]; apply last_snoc.
Qed.
End connected.

(** ** Concrete clients *)

Module Sample.
Import V2Server.Sample.

(** A client that sends the bytes [data]; the [i]-th call to [recv] delivers at
    most [cut i] bytes of them, and the connection is closed after the last. *)
Definition got (t : list event) : nat := total (received t).
Definition client (cut : nat -> nat) (data : bytes) : SocketOS :=
  os_with (fun t _ len =>
    RecvData (take (Nat.min (Z.to_nat len) (cut (length (received t)))) (drop (got t) data)))
    (fun t => (20 <=? length t)%nat).

Lemma client_contract cut data : @RecvContract (client cut data).
Proof. intros t k len bs Hl [= <-]; rewrite length_take; lia. Qed.

Definition text : bytes := str "hello".
Definition debug : bytes := encode pad (V2.mkHeader V2.MT_DebugMessage 17 0) ++ text.
Definition connected : V2Server := set_mClientSocket (Some 5) object.
Definition buffer : bytes := replicate BUFFER_SIZE 0.
Definition whole : nat -> nat := fun _ => 2000%nat.
(** The text arrives as "hel" and "lo". *)
Definition split : nat -> nat := fun i => if (i =? 1)%nat then 3%nat else 2000%nat.

(** A client whose header announces 4 bytes; [recv] refuses a negative length. *)
Definition tiny_header : bytes := encode pad (V2.mkHeader V2.MT_DebugMessage 4 0).
Definition tiny : SocketOS :=
  os_with (fun _ _ len =>
    if len <? 0 then RecvError 10014 else RecvData (take (Z.to_nat len) tiny_header))
    (fun t => (20 <=? length t)%nat).

Lemma tiny_contract : @RecvContract tiny.
Proof.
  intros t k len bs Hl; cbn; destruct (Z.ltb_spec len 0); [lia|]; intros [= <-]; rewrite length_take; lia.
Qed.
Lemma tiny_bytes : @RecvBytes tiny.
Proof.
  split; intros t k len bs; cbn -[tiny_header]; destruct (Z.ltb_spec len 0); try done; [|lia].
  intros [= <-]; apply Forall_take; repeat (constructor; [done|]); constructor.
Qed.
End Sample.

(** ** Properties *)



(** A debug message is printed as it was written.  When the header and the
    body of a debug message with any text each arrive in one piece, one round of
    the loop prints exactly that text. *)
Theorem v2_debug_printed {HA : Arch} {HO : SocketOS} (pad : nat -> Z)
    (fuel : nat) (buf text : bytes) (s : V2Server) (k : Z) :
  let h := V2.init_header V2.MT_DebugMessage 0 (12 + Z.of_nat (length text)) in
  let m := encode pad h ++ text in
  mClientSocket s = Some k -> (2 <= fuel)%nat -> (12 <= length buf)%nat ->
  12 + Z.of_nat (length text) < 2 ^ 31 -> delivers s k m ->
  returns (ReadMessage fuel buf s) (fun r s' =>
    r <> None /\ s' = log (EPrint (PClientMessage text)) (delivered k m s)).
Proof.
  intros h m Hk Hf Hb Hl Hd.
  destruct (debug_size pad text ltac:(lia)) as [Hs Hm]; fold h m in Hs, Hm.
  destruct (v2_message_size pad m Hm) as (_ & Hlen & _).
  assert (V2.header_wf h) as Hh by by apply init_header_wf.
  pose proof (length_encode pad h Hh) as He; rewrite V2.v2_header_sizeof in He; unfold V2.HEADER_SIZE in He.
  assert (size_at m = 12 + Z.of_nat (length text)) as Hsz by (rewrite Hs; unfold m; rewrite length_app; lia).
  assert (type_at m = V2.MT_DebugMessage) as Ht.
  { unfold m; rewrite type_at_app by lia; by rewrite (msg_type_at (T := V2.Header) pad h). }
  destruct (ReadMessage_whole fuel buf s k m Hk Hf Hb Hlen Hs ltac:(unfold is_u; lia) Hd)
    as (rest & Hr & ->).
  unfold st_bind, m at 1; rewrite handle_debug; [done|lia|done|done|unfold is_u; lia].
Qed.

Lemma v2_debug_printed_witness :
  returns (@ReadMessage arch64 (Sample.client Sample.whole Sample.debug) 2 Sample.buffer Sample.connected)
    (fun r s' => r <> None /\
       s' = log (EPrint (PClientMessage Sample.text)) (delivered 5 Sample.debug Sample.connected)).
Proof.
  apply (@v2_debug_printed arch64 (Sample.client Sample.whole Sample.debug) V2Server.Sample.pad 2
           Sample.buffer Sample.text Sample.connected 5); try reflexivity; try (cbn; lia).
  split; intros _; vm_compute; reflexivity.
Defined.

(** The Hello of another implementation of the protocol is printed with its
    name, version, identifier and numbers; the names are what was copied into
    the message, at most 256 characters of them. *)
Theorem v2_hello_printed {HA : Arch} {HO : SocketOS} (pad : nat -> Z)
    (fuel : nat) (buf : bytes) (c : Config) (s : V2Server) (k : Z) :
  let m := encode pad (hello_message c) in
  Forall (fun b => b <> 0) (humanName c) -> Forall (fun b => b <> 0) (humanVersion c) ->
  Forall (fun b => b <> 0) (implementationId c) ->
  mClientSocket s = Some k -> (2 <= fuel)%nat -> (12 <= length buf)%nat -> delivers s k m ->
  returns (ReadMessage fuel buf s) (fun r s' =>
    r <> None /\
    s' = log (EPrint (PClientHello (take 256 (humanName c)) (take 256 (humanVersion c))
           0x022026020501 (take 256 (implementationId c)) 1)) (delivered k m s)).
Proof.
  intros m Hn Hv Hi Hk Hf Hb Hd.
  pose proof (hello_message_wf c) as Hw.
  destruct (v2_message_size pad m ltac:(by apply hello_is_message)) as (Hs & Hlen & Hu).
  assert (size_at m = 800) as Hsz by (unfold m; by rewrite (msg_size_at (T := V2.Hello) pad)).
  assert (type_at m = V2.MT_Hello) as Ht by (unfold m; by rewrite (msg_type_at (T := V2.Hello) pad)).
  destruct (ReadMessage_whole fuel buf s k m Hk Hf Hb Hlen Hs ltac:(by rewrite Hsz) Hd)
    as (rest & Hr & ->).
  unfold st_bind, m at 1; rewrite handle_hello by done.
  cbn [returns V2.humanReadableName V2.humanReadableVersion V2.implementationID hello_message
       V2.protocolVersion V2.compatibilityVersion].
  unfold TruncateNulls, CopyTo; rewrite !until_nul_fill_copy by done; done.
Qed.

Lemma v2_hello_printed_witness :
  let m := encode V2Server.Sample.pad (hello_message V2Server.Sample.config) in
  returns (@ReadMessage arch64 (Sample.client Sample.whole m) 2 Sample.buffer Sample.connected)
    (fun r s' => r <> None /\
       s' = log (EPrint (PClientHello (str "OpenKneeboard WinTab Adapter") (str "v1.0.0") 0x022026020501
              (str "com.openkneeboard.wintab-adapter") 1)) (delivered 5 m Sample.connected)).
Proof.
  intros m.
  apply (@v2_hello_printed arch64 (Sample.client Sample.whole m) V2Server.Sample.pad 2
           Sample.buffer V2Server.Sample.config Sample.connected 5); try reflexivity; try (cbn; lia).
  1-3: repeat (constructor; [done|]); constructor.
  split; intros _; vm_compute; reflexivity.
Defined.

(** C36: a read is right only when it is served in one piece.  [ReadNBytes] reads
    exactly [count] bytes for every behaviour of [recv], but leaves each piece
    at the start of the destination: with one piece the destination holds the
    data, with two it holds the second piece over the first. *)
Theorem v2_read_pieces {HA : Arch} {HO : SocketOS} {HR : RecvContract}
    (fuel : nat) (k : Z) (buf : bytes) (p : nat) (count : Z) (s : V2Server) :
  is_u 31 count -> (p + Z.to_nat count <= length buf)%nat -> count < Z.of_nat fuel ->
  returns (ReadNBytes fuel k buf p count s) (fun rb s' => exists cs,
    received (trace s') = received (trace s) ++ cs /\ length (snd rb) = length buf /\
    take p (snd rb) = take p buf /\
    (fst rb = ReadOk -> Z.of_nat (length (concat cs)) = count) /\
    (forall a, cs = [a] -> slice p (length a) (snd rb) = a) /\
    (forall a b, cs = [a; b] ->
       slice p (length a + length b) (snd rb) =
       b ++ drop (length b) (a ++ slice (p + length a) (length b) buf))).
Proof.
  intros Hc Hp Hf; eapply returns_weaken; [by apply ReadLoop_spec|].
  intros [r buf'] s' (cs & E1 & E2 & E3 & E4 & Hl); cbn [fst snd] in *; exists cs.
  split; [done|]; split; [done|]; split; [by rewrite E2, take_overwrite|]; split; [done|].
  split; [intros a ->|intros a b ->]; rewrite E2; cbn [overwrite foldl].
  - rewrite slice_write_at, drop_ge by done || (unfold slice; rewrite length_take; lia).
    apply app_nil_r.
  - rewrite slice_write_at by (try lia; unfold write_at; rewrite !length_app, length_take; lia).
    rewrite slice_write_at by lia; do 3 f_equal.
    unfold slice; rewrite skipn_firstn_comm, drop_drop; f_equal; lia.
Qed.

Lemma v2_read_pieces_witness :
  returns (@ReadNBytes arch64 (Sample.client Sample.split Sample.debug) 13 5 (replicate 20 0) 3 12
             Sample.connected) (fun rb s' => exists cs,
    received (trace s') = [] ++ cs /\ length (snd rb) = 20%nat /\
    take 3 (snd rb) = take 3 (replicate 20 0) /\
    (fst rb = ReadOk -> Z.of_nat (length (concat cs)) = 12) /\
    (forall a, cs = [a] -> slice 3 (length a) (snd rb) = a) /\
    (forall a b, cs = [a; b] ->
       slice 3 (length a + length b) (snd rb) =
       b ++ drop (length b) (a ++ slice (3 + length a) (length b) (replicate 20 0)))).
Proof.
  apply (@v2_read_pieces arch64 (Sample.client Sample.split Sample.debug)
           (Sample.client_contract _ _) 13 5 (replicate 20 0) 3 12 Sample.connected);
    [done|cbn; lia|cbn; lia].
Defined.

(** A client's text that arrives in two pieces is garbled.  A client sends
    the debug message "hello"; [recv] keeps its contract and delivers the text
    as "hel" and "lo"; the loop reads all of it and prints something else. *)
Theorem v2_split_text_garbled :
  exists (HO : SocketOS) (s s' : V2Server) (buf printed : bytes),
    @RecvContract HO /\ mClientSocket s = Some 5 /\
    @ReadMessage arch64 HO 20 (replicate BUFFER_SIZE 0) s = Ret (Some buf) s' /\
    concat (received (trace s')) = Sample.debug /\
    last (trace s') = Some (EPrint (PClientMessage printed)) /\ printed <> Sample.text.
Proof.
  exists (Sample.client Sample.split Sample.debug), Sample.connected.
  do 3 eexists; split; [apply Sample.client_contract|]; split; [reflexivity|].
  split; [vm_compute; reflexivity|]; split; [vm_compute; reflexivity|].
  split; [vm_compute; reflexivity|]; vm_compute; done.
Qed.

(** C37: a header that announces less than its own size makes the server ask
    [recv] for a negative number of bytes: an error of that call ends the
    connection, and data that does not fit is stored outside the buffer. *)
Theorem v2_undersized_header {HA : Arch} {HO : SocketOS} (fuel : nat) (buf buf1 : bytes)
    (s s1 : V2Server) (k : Z) :
  mClientSocket s = Some k -> (1 <= fuel)%nat -> BUFFER_SIZE = length buf1 ->
  ReadNBytes fuel k buf 0 12 s = Ret (ReadOk, buf1) s1 -> 0 <= size_at buf1 < 12 ->
  size_at buf1 - 12 < 0 /\
  match os_recv (trace s1) k (size_at buf1 - 12) with
  | RecvError e =>
      e <> WSAECONNRESET ->
      ReadMessage fuel buf s =
      Ret None (log (EPrint (PReadFailed (HRESULT_FROM_WIN32 e)))
                 (log (ERecv k (size_at buf1 - 12) (RecvError e)) s1))
  | RecvData bs =>
      (BUFFER_SIZE < 12 + length bs)%nat -> ReadMessage fuel buf s = Undef OutOfBounds
  end.
Proof.
  intros Hk Hf Hb E1 Hs; split; [lia|]; rewrite (ReadMessage_body fuel buf s k buf1 s1) by done.
  destruct (size_t_negative (size_at buf1 - 12) ltac:(lia)) as [Hpos Hneg].
  assert (enlarged buf1 = buf1) as ->.
  { unfold enlarged; rewrite <- Hb; destruct (Z.ltb_spec (Z.of_nat BUFFER_SIZE) (size_at buf1));
      [unfold BUFFER_SIZE in *; lia|done]. }
  destruct fuel as [|fuel]; [lia|].
  unfold ReadNBytes; cbn [ReadLoop]; apply Z.ltb_lt in Hpos; rewrite Hpos, Hneg.
  unfold st_bind, ask; cbv zeta.
  destruct (os_recv (trace s1) k (size_at buf1 - 12)) as [bs|e].
  - intros Hl; rewrite Hb in Hl; apply Nat.ltb_lt in Hl; by rewrite Hl.
  - intros He; apply Z.eqb_neq in He; by rewrite He.
Qed.

Lemma v2_undersized_header_witness :
  let buf1 := write_at 0 Sample.tiny_header Sample.buffer in
  let s1 := log (ERecv 5 12 (RecvData Sample.tiny_header)) Sample.connected in
  -8 < 0 /\
  (10014 <> WSAECONNRESET ->
   @ReadMessage arch64 Sample.tiny 2 Sample.buffer Sample.connected =
   Ret None (log (EPrint (PReadFailed (HRESULT_FROM_WIN32 10014)))
              (log (ERecv 5 (-8) (RecvError 10014)) s1))).
Proof.
  intros buf1 s1.
  apply (@v2_undersized_header arch64 Sample.tiny 2 Sample.buffer buf1 Sample.connected s1 5);
    [reflexivity|lia|reflexivity|vm_compute; reflexivity|vm_compute; split; congruence].
Defined.

(** A client that disconnects stays the current client.  When the first read
    after the handshake finds the connection closed, [AcceptOnce] reports it and
    returns with the socket still in [mClientSocket], not closed: pings and
    states are sent to it until a send fails or the next client arrives. *)
Theorem v2_disconnect_keeps_socket {HA : Arch} {HO : SocketOS} (pad : nat -> Z)
    (rounds fuel : nat) (s : V2Server) (c : Z) :
  (forall t k data len, os_send t k data len <> SOCKET_ERROR) ->
  (forall t, os_stop_requested t = false) -> (forall t k len, os_recv t k len = RecvData []) ->
  (forall t k, os_accept t k = Some c) -> mClientSocket s = None ->
  (forall d, mDevice s = Some d -> V2.deviceinfo_wf d /\ V2.size (V2.di_header d) = sizeof V2.DeviceInfo) ->
  returns (AcceptOnce pad (S rounds) (S fuel) s) (fun _ s' =>
    mClientSocket s' = Some c /\ last (trace s') = Some (EPrint PDisconnected) /\
    exists t, trace s' = trace s ++ t /\ ECloseSocket c ∉ t).
Proof.
  intros Hsend Hstop Hrecv Hacc Hk Hd.
  unfold AcceptOnce; eapply returns_bind; [by apply (AcceptClient_holds c s)|].
  intros ? s1 [-> H1]; eapply returns_bind; [by apply (SendHello_holds pad c) with (s := s)|].
  intros ? s2 H2; eapply returns_bind; [by apply (SendDevice_holds pad c) with (s := s)|].
  intros ? s3 H3; eapply returns_bind; [apply (ReadMessages_closed c) with (s := s); try done; cbn; lia|].
  intros ? s4 (-> & (Hk4 & _ & Ht) & Hl); done.
Qed.

Lemma v2_disconnect_keeps_socket_witness :
  returns (@AcceptOnce arch64 V2Server.Sample.os V2Server.Sample.pad 1 1 V2Server.Sample.object)
    (fun _ s' => mClientSocket s' = Some 5 /\ last (trace s') = Some (EPrint PDisconnected) /\
       exists t, trace s' = [] ++ t /\ ECloseSocket 5 ∉ t).
Proof.
  apply (@v2_disconnect_keeps_socket arch64 V2Server.Sample.os V2Server.Sample.pad 0 0
           V2Server.Sample.object 5); try reflexivity; try done.
  intros t k data len; cbn; unfold SOCKET_ERROR; lia.
Defined.

End V2Reading.
