(* ===== verification/V2Threads.v ===== *)
(** * The threads of the OTD-IPC v2 server

    The accept thread, the ping thread and the caller of the public operations
    share one [V2Server] object without locks.  A step is one send together with
    the reads of members it depends on, one store of [mDevice], or one call of
    the accept thread; steps of the three threads interleave in any order. *)

From S2P Require Import Prelude Layout V2Messages V2Server V2Accept V2Reading.
Import V2Server V2Accept V2Reading.

Module V2Threads.

(** Where the accept thread is in [AcceptLoop] and [AcceptOnce]. *)
Inductive acceptor :=
  | Idle                     (* before accept *)
  | Accepted                 (* the client is in mClientSocket *)
  | Greeted                  (* the Hello was sent *)
  | Serving (buf : bytes)    (* operational phase, with its receive buffer *)
  | Exited.

(** Where the caller is: [SetDevice] stores the device and then sends it. *)
Inductive caller := Ready | Sending (d : V2.DeviceInfo).

Record sys := mkSys { object : V2Server; acceptor_at : acceptor; caller_at : caller }.

(** What a step does: it is one of the caller's own steps, the last of which is
    the first of [Stop], the accept thread takes a new client, or anything else
    one of the other threads does. *)
Inductive label :=
  | LStore (d : V2.DeviceInfo)
  | LSent (d : V2.DeviceInfo)
  | LState (st : V2.State)
  | LClose
  | LAccept
  | LOther.
Definition by_caller (l : label) : bool := match l with LAccept | LOther => false | _ => true end.

Inductive lstep {HA : Arch} {HO : SocketOS} (pad : nat -> Z) : label -> sys -> sys -> Prop :=
  | step_store d s a : V2.deviceinfo_wf d ->
      lstep pad (LStore d) (mkSys s a Ready)
        (mkSys (set_mDevice (Some (stored_device d)) s) a (Sending (stored_device d)))
  | step_send_device d s s' b a : Send pad d s = Ret b s' ->
      lstep pad (LSent d) (mkSys s a (Sending d)) (mkSys s' a Ready)
  | step_set_state st s s' a : V2.state_wf st -> SetState pad st s = Ret tt s' ->
      lstep pad (LState st) (mkSys s a Ready) (mkSys s' a Ready)
  | step_debug text s s' a c : SendDebugMessage pad text s = Ret tt s' ->
      Z.of_nat (length text) + 12 < 2 ^ 32 ->
      lstep pad LOther (mkSys s a c) (mkSys s' a c)
  | step_ping s s' b a c : PingOnce pad s = Ret b s' ->
      lstep pad LOther (mkSys s a c) (mkSys s' a c)
  | step_accept (b : bool) s s' c : AcceptClient s = Ret b s' ->
      lstep pad (if b then LAccept else LOther) (mkSys s Idle c) (mkSys s' (if b then Accepted else Idle) c)
  | step_hello s s' c : SendHello pad s = Ret tt s' ->
      lstep pad LOther (mkSys s Accepted c) (mkSys s' Greeted c)
  | step_device s s' c : SendDevice pad s = Ret tt s' ->
      lstep pad LOther (mkSys s Greeted c) (mkSys s' (Serving (replicate BUFFER_SIZE 0)) c)
  | step_running s s' buf c : stop_requested s = Ret false s' ->
      lstep pad LOther (mkSys s (Serving buf) c) (mkSys s' (Serving buf) c)
  | step_read fuel buf buf' s s' c : ReadMessage fuel buf s = Ret (Some buf') s' ->
      lstep pad LOther (mkSys s (Serving buf) c) (mkSys s' (Serving buf') c)
  | step_gone fuel buf s s' c : ReadMessage fuel buf s = Ret None s' ->
      lstep pad LOther (mkSys s (Serving buf) c) (mkSys s' Idle c)
  | step_stopped buf s s' s'' c : stop_requested s = Ret true s' ->
      reset_mClientSocket s' = Ret tt s'' ->
      lstep pad LOther (mkSys s (Serving buf) c) (mkSys s'' Idle c)
  | step_exit s s' s'' c : stop_requested s = Ret true s' -> reset_mListenSocket s' = Ret tt s'' ->
      lstep pad LOther (mkSys s Idle c) (mkSys s'' Exited c)
  | step_close s s' a : reset_mListenSocket s = Ret tt s' ->
      lstep pad LClose (mkSys s a Ready) (mkSys s' a Ready).

Definition step {HA : Arch} {HO : SocketOS} (pad : nat -> Z) (c c' : sys) : Prop :=
  exists l, lstep pad l c c'.

Lemma lstep_step {HA : Arch} {HO : SocketOS} pad l c c' : lstep pad l c c' -> step pad c c'.
Proof. by exists l. Qed.

(** A server that has been started: it has a listening socket and no client. *)
Definition started (s : V2Server) : Prop :=
  mDevice s = None /\ mClientSocket s = None /\ ping_seq s = 0 /\
  Forall (fun e => match e with ESend _ _ _ _ => False | _ => True end) (trace s).

Definition reachable {HA : Arch} {HO : SocketOS} (pad : nat -> Z) (c : sys) : Prop :=
  exists s, started s /\ rtc (step pad) (mkSys s Idle Ready) c.

(** The messages sent to the current client: those since the last successful
    [accept] whose [send] did not fail. *)
Definition client_step (l : list bytes) (e : event) : list bytes :=
  match e with
  | EAccept _ (Some _) => []
  | ESend _ m _ r => if r =? SOCKET_ERROR then l else l ++ [m]
  | _ => l
  end.
Definition client_log (t : list event) : list bytes := foldl client_step [] t.

Definition is_hello (m : bytes) : bool := type_at m =? V2.MT_Hello.
Definition hello_count (l : list bytes) : nat := length (List.filter is_hello l).

(** The bytes the current client has received: [send] reports how many bytes of
    the message it took. *)
Definition stream_step (l : bytes) (e : event) : bytes :=
  match e with
  | EAccept _ (Some _) => []
  | ESend _ m _ r => if r =? SOCKET_ERROR then l else l ++ take (Z.to_nat r) m
  | _ => l
  end.
Definition client_stream (t : list event) : bytes := foldl stream_step [] t.

(** [send] fails, or takes as many bytes of the message as it reports, which may
    be fewer than there are. *)
Definition fitting_send (e : event) : Prop :=
  match e with
  | ESend _ m _ r => r = SOCKET_ERROR \/ 0 <= r <= Z.of_nat (length m)
  | _ => True
  end.

(** The sends to the current client that took less than the whole message. *)
Definition short_step (n : nat) (e : event) : nat :=
  match e with
  | EAccept _ (Some _) => 0
  | ESend _ m _ r => if (r =? SOCKET_ERROR) || (r =? Z.of_nat (length m)) then n else S n
  | _ => n
  end.
Definition short_sends (t : list event) : nat := foldl short_step 0%nat t.

(** How the protocol cuts a stream into messages: a message is as long as the
    [size] in its header says. *)
Fixpoint split_stream (fuel : nat) (bs : bytes) : option (list bytes) :=
  match fuel, bs with
  | _, [] => Some []
  | O, _ => None
  | S fuel, _ =>
      let n := Z.to_nat (size_at bs) in
      if decide (12 <= n <= length bs)%nat
      then cons (take n bs) <$> split_stream fuel (drop n bs)
      else None
  end.

(** ** Only the caller stores the device, and no thread listens again *)

Definition kept (s s' : V2Server) : Prop := mDevice s' = mDevice s /\ listens s s'.
Definition keeps_device {A} (m : ST V2Server A) : Prop :=
  forall s a s', m s = Ret a s' -> kept s s'.

Lemma kept_trans s1 s2 s3 : kept s1 s2 -> kept s2 s3 -> kept s1 s3.
Proof. intros [E1 H1] [E2 H2]; split; [congruence|by eapply listens_trans]. Qed.

Lemma quietly_keeps {A} (m : ST V2Server A) : quietly m -> keeps_device m.
Proof. intros Hm s a s' E; by destruct (Hm s a s' E) as ([_ ?] & ? & _). Qed.

Lemma keeps_bind {A B} (m : ST V2Server A) (k : A -> ST V2Server B) :
  keeps_device m -> (forall a, keeps_device (k a)) -> keeps_device (st_bind m k).
Proof.
  intros Hm Hk s b s'' E; apply bind_Ret in E as (a & s' & E1 & E2).
  eapply kept_trans; [by eapply Hm|by eapply Hk].
Qed.

Lemma keeps_modify f : (forall s, kept s (f s)) -> keeps_device (modify f).
Proof. by intros Hf s a s' [= _ <-]. Qed.

Lemma keeps_ask {A} f (e : A -> event) : keeps_device (ask f e).
Proof. intros s a s' [= _ <-]; split; [done|by left]. Qed.

(** A member other than these two. *)
Lemma kept_same s s' : mDevice s' = mDevice s -> mListenSocket s' = mListenSocket s -> kept s s'.
Proof. intros Hd Hl; split; [done|by left]. Qed.

Lemma keeps_close s k : kept s (set_mClientSocket k (close_client s)) /\
  kept s (set_mListenSocket None (close_listen s)).
Proof.
  unfold close_client, close_listen; split; [|split]; [|by destruct (mListenSocket s)|by right].
  apply kept_same; by destruct (mClientSocket s).
Qed.

Create HintDb keeps.
#[local] Hint Resolve quietly_keeps keeps_ask quietly_ret quietly_gets quietly_undef quietly_stop
  quietly_ReadMessage : keeps.
#[local] Hint Extern 1 (keeps_device (modify _)) =>
  apply keeps_modify; intros ?; apply keeps_close : keeps.
#[local] Hint Extern 2 (keeps_device (st_bind _ _)) => apply keeps_bind; [|intros ?] : keeps.

Section keeps.
Context {HA : Arch} {HO : SocketOS} (pad : nat -> Z).

Lemma keeps_SendRaw m n : keeps_device (SendRaw m n).
Proof.
  unfold SendRaw, reset_mClientSocket; destruct (negb _); [done|].
  apply keeps_bind; [auto with keeps|]; intros [k|]; [|auto with keeps].
  apply keeps_bind; [auto with keeps|]; intros r; destruct (r =? SOCKET_ERROR); auto 6 with keeps.
Qed.

Lemma keeps_PingOnce : keeps_device (PingOnce pad).
Proof.
  unfold PingOnce, sleep_for, Send.
  apply keeps_bind; [by apply keeps_modify; intros ?; apply kept_same|]; intros _.
  apply keeps_bind; [auto with keeps|]; intros []; [auto with keeps|].
  apply keeps_bind; [auto with keeps|]; intros [k|]; [|auto with keeps].
  apply keeps_bind; [auto with keeps|]; intros n.
  apply keeps_bind; [by apply keeps_modify; intros ?; apply kept_same|]; auto using keeps_SendRaw with keeps.
Qed.

Lemma keeps_accept : keeps_device AcceptClient /\ keeps_device (SendHello pad) /\ keeps_device (SendDevice pad).
Proof.
  unfold AcceptClient, SendHello, SendDevice, Send; split_and!.
  - apply keeps_bind; [auto with keeps|]; intros k; apply keeps_bind; [auto with keeps|].
    intros [c|]; unfold move_to_mClientSocket; auto 6 with keeps.
  - auto 6 using keeps_SendRaw with keeps.
  - apply keeps_bind; [auto with keeps|]; intros [d|]; auto using keeps_SendRaw with keeps.
Qed.

(** A step of another thread leaves the device and the caller alone. *)
Lemma step_keeps_device l c c' : lstep pad l c c' -> by_caller l = false ->
  kept (object c) (object c') /\ caller_at c' = caller_at c.
Proof.
  destruct keeps_accept as (Ha & Hh & Hd).
  intros H Hl; destruct H as [| | |text s s' a c E Hn|s s' b a c E|b s s' c E|s s' c E|s s' c E
    |s s' buf c E|fuel buf buf' s s' c E|fuel buf s s' c E|buf s s' s'' c E E'|s s' s'' c E E'|];
    try done; cbn; (split; [|done]).
  - eapply keeps_bind; [apply keeps_SendRaw| |exact E]; auto with keeps.
  - exact (keeps_PingOnce _ _ _ E).
  - exact (Ha _ _ _ E).
  - exact (Hh _ _ _ E).
  - exact (Hd _ _ _ E).
  - exact (quietly_keeps _ quietly_stop _ _ _ E).
  - exact (quietly_keeps _ (quietly_ReadMessage _ _) _ _ _ E).
  - exact (quietly_keeps _ (quietly_ReadMessage _ _) _ _ _ E).
  - injection E' as <-; eapply kept_trans; [exact (quietly_keeps _ quietly_stop _ _ _ E)|].
    by apply keeps_close.
  - injection E' as <-; eapply kept_trans; [exact (quietly_keeps _ quietly_stop _ _ _ E)|].
    by apply (keeps_close s' None).
Qed.
End keeps.

(** ** The invariant *)

Section invariant.
Context {HA : Arch} {HO : SocketOS} (pad : nat -> Z).

Definition send_ok (e : event) : Prop :=
  match e with ESend _ m _ _ => v2_message pad m | _ => True end.

Definition device_ok (d : V2.DeviceInfo) : Prop :=
  V2.deviceinfo_wf d /\ V2.messageType (V2.di_header d) = V2.MT_DeviceInfo /\
  V2.size (V2.di_header d) = sizeof V2.DeviceInfo.

(** How many Hellos the client has when the accept thread is at [a]. *)
Definition hellos_at (a : acceptor) (n : nat) : Prop :=
  match a with
  | Accepted => n = 0%nat
  | Greeted | Serving _ => n = 1%nat
  | Idle | Exited => True
  end.

Record inv (c : sys) : Prop := {
  inv_device : forall d, mDevice (object c) = Some d -> device_ok d;
  inv_seq : is_u 64 (ping_seq (object c));
  inv_sends : Forall send_ok (trace (object c));
  inv_caller : forall d, caller_at c = Sending d -> mDevice (object c) = Some d;
  inv_delivered : forall d buf, acceptor_at c = Serving buf -> caller_at c = Ready ->
    mClientSocket (object c) <> None -> mDevice (object c) = Some d ->
    encode pad d ∈ client_log (trace (object c));
  inv_hello : mClientSocket (object c) <> None ->
    hellos_at (acceptor_at c) (hello_count (client_log (trace (object c))))
}.

Lemma client_log_app t u : client_log (t ++ u) = foldl client_step (client_log t) u.
Proof. apply foldl_app. Qed.

Lemma client_log_quiet t u : Forall quiet_event u -> client_log (t ++ u) = client_log t.
Proof.
  intros Hu; rewrite client_log_app; generalize (client_log t) as l.
  induction Hu as [|e u He Hu IH]; intros l; cbn; [done|].
  rewrite IH; by destruct e as [| | | | | |? []| | | | | | | | | |].
Qed.

Lemma sends_quiet t u : Forall send_ok t -> Forall quiet_event u -> Forall send_ok (t ++ u).
Proof.
  intros Ht Hu; apply Forall_app; split; [done|].
  eapply Forall_impl; [exact Hu|]; by intros [].
Qed.

(** A quiet step of the accept thread or of another one. *)
Lemma inv_quiet s s' a a' c : quiet s s' -> inv (mkSys s a c) ->
  (forall n, hellos_at a n -> hellos_at a' n) ->
  (forall buf, a' = Serving buf -> exists buf0, a = Serving buf0) ->
  inv (mkSys s' a' c).
Proof.
  intros (_ & Ed & Ek & Eq & t & Et & Ht) [H1 H2 H3 H4 H5 H6] Ha Hb; split; cbn in *.
  - intros d; rewrite Ed; auto.
  - by rewrite Eq.
  - rewrite Et; by apply sends_quiet.
  - intros d; rewrite Ed; auto.
  - intros d buf E; rewrite Ed, Ek, Et, client_log_quiet by done.
    destruct (Hb buf E) as [buf0 E0]; eauto.
  - rewrite Ek, Et, client_log_quiet by done; auto.
Qed.

Lemma sent_frame m s s' : sent m s s' ->
  mDevice s' = mDevice s /\ ping_seq s' = ping_seq s /\
  (v2_message pad m -> Forall send_ok (trace s) -> Forall send_ok (trace s')) /\
  (mClientSocket s' <> None ->
     mClientSocket s <> None /\ client_log (trace s') = client_log (trace s) ++ [m]).
Proof.
  unfold sent; destruct (mClientSocket s) as [k|] eqn:Ek.
  - intros [r Hr].
    assert (v2_message pad m -> Forall send_ok (trace s) ->
      Forall send_ok (trace s ++ [ESend k m (s32 (Z.of_nat (length m))) r])) as Hf.
    { intros Hm Ht; apply Forall_app; split; [done|]; by constructor. }
    destruct (r =? SOCKET_ERROR) eqn:Er; cbn in Hr; subst s'; cbn.
    + split; [done|]; split; [done|]; split; [|done].
      intros Hm Ht; apply Forall_app; split; [by apply Hf|]; by constructor.
    + split; [done|]; split; [done|]; split; [done|]; intros _; split; [done|].
      rewrite client_log_app; cbn; by rewrite Er.
  - intros ->; by rewrite Ek.
Qed.

Lemma hello_count_app l m : hello_count (l ++ [m]) = (hello_count l + (if is_hello m then 1 else 0))%nat.
Proof.
  unfold hello_count; rewrite List.filter_app, length_app; cbn; by destruct (is_hello m).
Qed.

(** A message other than Hello is sent by any thread. *)
Lemma inv_sent m s s' a c c' : sent m s s' -> v2_message pad m -> is_hello m = false ->
  inv (mkSys s a c) ->
  (forall d, c' = Sending d -> c = Sending d) ->
  (c' = Ready -> c = Ready \/ exists d, c = Sending d /\ m = encode pad d) ->
  inv (mkSys s' a c').
Proof.
  intros Hs Hm Hh [H1 H2 H3 H4 H5 H6] Hc Hr; apply sent_frame in Hs as (Ed & Eq & Hf & Hl); split; cbn in *.
  - intros d; rewrite Ed; auto.
  - by rewrite Eq.
  - auto.
  - intros d E; rewrite Ed; auto.
  - intros d buf E Ec Hk Edv; rewrite Ed in Edv; destruct (Hl Hk) as [Hk0 ->].
    apply elem_of_app; destruct (Hr Ec) as [->|(d' & -> & ->)]; [left; eauto|right].
    rewrite (H4 d' eq_refl) in Edv; injection Edv as ->; by apply list_elem_of_singleton.
  - intros Hk; destruct (Hl Hk) as [Hk0 ->]; rewrite hello_count_app, Hh, Nat.add_0_r; auto.
Qed.

Lemma is_hello_encode `{Message T} (m : T) : wire_wf m ->
  is_hello (encode pad m) = (msg_type m =? V2.MT_Hello).
Proof. intros Hm; unfold is_hello; by rewrite (msg_type_at pad m). Qed.

Lemma inv_step_send d s s' b a : Send pad d s = Ret b s' ->
  inv (mkSys s a (Sending d)) -> inv (mkSys s' a Ready).
Proof.
  intros E Hi; destruct (inv_device _ Hi d (inv_caller _ Hi d eq_refl)) as (Hwf & Ht & Hs).
  pose proof (Send_sent pad d s Hwf Hs) as Hsent; rewrite E in Hsent; cbn in Hsent.
  apply (inv_sent (encode pad d) s s' a (Sending d)); try done.
  - by apply device_message.
  - rewrite is_hello_encode by done; cbn; by rewrite Ht.
  - intros _; right; eauto.
Qed.

Lemma inv_step_state st s s' a : V2.state_wf st -> SetState pad st s = Ret tt s' ->
  inv (mkSys s a Ready) -> inv (mkSys s' a Ready).
Proof.
  intros Hst E Hi; destruct (mDevice s) as [d|] eqn:Ed.
  2: { unfold SetState, gets, st_bind in E; by rewrite Ed in E. }
  destruct (inv_device _ Hi d Ed) as (Hwf & Ht & Hs).
  pose proof (SetState_sent pad st s d Hst Ed Hwf) as Hsent; rewrite E in Hsent; cbn in Hsent.
  assert (V2.state_wf (InitHeader_state st (V2.nonPersistentTabletId (V2.di_header d)))) as Hwf'.
  { apply InitHeader_state_wf; [done|]; by destruct Hwf as ((_ & _ & Hid) & _). }
  eapply inv_sent; [exact Hsent| | |exact Hi|done|by left].
  - by apply state_message.
  - by rewrite is_hello_encode.
Qed.

Lemma inv_step_debug text s s' a c : Z.of_nat (length text) + 12 < 2 ^ 32 ->
  SendDebugMessage pad text s = Ret tt s' -> inv (mkSys s a c) -> inv (mkSys s' a c).
Proof.
  intros Hl E Hi; pose proof (SendDebugMessage_sent pad text s Hl) as Hsent.
  rewrite E in Hsent; cbn in Hsent.
  destruct (debug_size pad text Hl) as [_ Hm].
  eapply inv_sent; [exact Hsent|done| |exact Hi|done|by left].
  unfold is_hello; rewrite type_at_app.
  - rewrite (msg_type_at (T := V2.Header) pad _); [done|by apply init_header_wf].
  - by rewrite <- Nat2Z.id, <- (Nat2Z.id 4); apply Z2Nat.inj_le;
      rewrite ?(length_encode pad (V2.init_header _ _ _)) by (by apply init_header_wf).
Qed.

Lemma inv_step_ping s s' b a c : PingOnce pad s = Ret b s' -> inv (mkSys s a c) -> inv (mkSys s' a c).
Proof.
  intros E Hi; destruct (PingOnce_sent pad s (inv_seq _ Hi)) as (b' & s1 & s2 & E' & E1 & Hs).
  rewrite E in E'; injection E' as <- <-.
  assert (inv (mkSys s1 a c)) as Hi1.
  { eapply inv_quiet; [|exact Hi|done|by eauto]; subst s1.
    eapply quiet_trans; by apply quiet_log. }
  destruct Hs as [->|[_ Hs]]; [done|].
  set (n := u64 (ping_seq s + 1)) in *.
  assert (wire_wf (ping_number n)) as Hwf by (split; [by apply init_header_wf|apply u64_bounds]).
  eapply inv_sent; [exact Hs| | | |done|by left].
  - by apply ping_message.
  - by rewrite is_hello_encode.
  - destruct Hi1; split; try done; apply u64_bounds.
Qed.

Lemma inv_step_accept (b : bool) s s' c : AcceptClient s = Ret b s' ->
  inv (mkSys s Idle c) -> inv (mkSys s' (if b then Accepted else Idle) c).
Proof.
  unfold AcceptClient, gets, ask, st_bind; intros E Hi.
  set (k := socket_get (mListenSocket s)) in *.
  destruct (os_accept (trace s) k) as [client|].
  - injection E as <- <-; unfold move_to_mClientSocket, close_client; cbn.
    destruct Hi as [H1 H2 H3 H4 H5 H6]; cbn in *.
    assert (exists t, trace (match mClientSocket s with
        | Some k0 => log (ECloseSocket k0) (log (EAccept k (Some client)) s)
        | None => log (EAccept k (Some client)) s end)
      = (trace s ++ [EAccept k (Some client)]) ++ t /\ Forall quiet_event t) as (t & Et & Ht).
    { destruct (mClientSocket s) as [k0|]; cbn; [exists [ECloseSocket k0]|exists []].
      - split; [done|]; by constructor.
      - split; [by rewrite app_nil_r|constructor]. }
    split; cbn; rewrite ?Et.
    + by destruct (mClientSocket s).
    + by destruct (mClientSocket s).
    + apply sends_quiet; [|done]; apply Forall_app; split; [done|]; by constructor.
    + by destruct (mClientSocket s).
    + done.
    + intros _; by rewrite client_log_quiet, client_log_app by done.
  - injection E as <- <-; eapply inv_quiet; [|exact Hi|done|done]; by apply quiet_log.
Qed.

Lemma SendHello_sent s s' : SendHello pad s = Ret tt s' ->
  sent (encode pad (hello_message (mConfig s))) s s'.
Proof.
  unfold SendHello, gets; unfold st_bind at 1; intros E.
  set (h := hello_message (mConfig s)) in *.
  pose proof (hello_message_wf (mConfig s)) as Hwf; fold h in Hwf.
  assert (v2_message pad (encode pad h)) as Hm by by apply hello_is_message.
  destruct (v2_message_size pad _ Hm) as (Hs & _ & _).
  assert (sizeof V2.Hello = Z.of_nat (length (encode pad h))) as Hlen
    by by rewrite (length_encode pad h).
  rewrite Hlen in E; pose proof (SendRaw_sent (encode pad h) s Hs) as Hsent.
  apply bind_Ret in E as (b & s1 & E1 & E); rewrite E1 in Hsent; by injection E as <-.
Qed.

Lemma SendDevice_sent d s s' : SendDevice pad s = Ret tt s' -> mDevice s = Some d -> device_ok d ->
  sent (encode pad d) s s'.
Proof.
  unfold SendDevice, gets; unfold st_bind at 1; intros E Ed (Hwf & Ht & Hs); rewrite Ed in E.
  pose proof (Send_sent pad d s Hwf Hs) as Hsent.
  apply bind_Ret in E as (b & s1 & E1 & E); rewrite E1 in Hsent; by injection E as <-.
Qed.

Lemma SendDevice_none s s' : SendDevice pad s = Ret tt s' -> mDevice s = None -> s' = s.
Proof. unfold SendDevice, gets; unfold st_bind at 1; intros E Ed; rewrite Ed in E; by injection E as <-. Qed.

Lemma inv_step_hello s s' c : SendHello pad s = Ret tt s' ->
  inv (mkSys s Accepted c) -> inv (mkSys s' Greeted c).
Proof.
  intros E Hi; apply SendHello_sent in E.
  pose proof (hello_message_wf (mConfig s)) as Hwf.
  assert (v2_message pad (encode pad (hello_message (mConfig s)))) as Hm by by apply hello_is_message.
  destruct Hi as [H1 H2 H3 H4 H5 H6]; apply (sent_frame) in E as (Ed & Eq & Hf & Hl).
  split; cbn in *; rewrite ?Ed, ?Eq; auto; [done|].
  intros Hk; destruct (Hl Hk) as [Hk0 ->]; rewrite hello_count_app, (H6 Hk0).
  by rewrite is_hello_encode.
Qed.

Lemma inv_step_device s s' c : SendDevice pad s = Ret tt s' ->
  inv (mkSys s Greeted c) -> inv (mkSys s' (Serving (replicate BUFFER_SIZE 0)) c).
Proof.
  intros E Hi; destruct (mDevice s) as [d|] eqn:Ed.
  - pose proof (inv_device _ Hi d Ed) as Hok; apply (SendDevice_sent d) in E; [|done|done].
    destruct Hok as (Hwf & Ht & Hs).
    assert (is_hello (encode pad d) = false) as Hnh
      by (rewrite is_hello_encode by done; cbn; by rewrite Ht).
    destruct Hi as [H1 H2 H3 H4 H5 H6]; apply sent_frame in E as (Ed' & Eq & Hf & Hl).
    split; cbn in *; rewrite ?Ed', ?Eq; auto.
    + apply Hf; [by apply device_message|done].
    + intros d' buf _ _ Hk Ed''; destruct (Hl Hk) as [_ ->].
      rewrite Ed in Ed''; injection Ed'' as <-; apply elem_of_app; right.
      by apply list_elem_of_singleton.
    + intros Hk; destruct (Hl Hk) as [Hk0 ->]; rewrite hello_count_app, Hnh, Nat.add_0_r; auto.
  - apply SendDevice_none in E as ->; [|done].
    destruct Hi as [H1 H2 H3 H4 H5 H6]; split; cbn in *; auto; congruence.
Qed.

Lemma closed_listen s : quiet s (set_mListenSocket None (close_listen s)).
Proof.
  unfold close_listen; destruct (mListenSocket s) as [k|]; repeat split; try by right.
  - exists [ECloseSocket k]; by repeat constructor.
  - exists []; by rewrite app_nil_r.
Qed.

Lemma inv_no_client s a c : inv (mkSys s a c) -> inv (mkSys (set_mClientSocket None (close_client s)) Idle c).
Proof.
  intros Hi; assert (inv (mkSys (close_client s) Idle c)) as [H1 H2 H3 H4 H5 H6].
  { unfold close_client; destruct (mClientSocket s) as [k|]; eapply inv_quiet; [| exact Hi| done|done| | exact Hi| done|done].
    - by apply quiet_log.
    - apply quiet_refl. }
  by split.
Qed.

Lemma inv_step c c' : step pad c c' -> inv c -> inv c'.
Proof.
  intros [l H]; destruct H as [d s a Hd|d s s' b a E|st s s' a Hst E|text s s' a c E Hl|s s' b a c E|b s s' c E
    |s s' c E|s s' c E|s s' buf c E|fuel buf buf' s s' c E|fuel buf s s' c E|buf s s' s'' c E E'
    |s s' s'' c E E'|s s' a E]; intros Hi.
  - destruct Hi as [H1 H2 H3 H4 H5 H6]; split; cbn in *; auto; try done.
    + intros d' [= <-]; split; [by apply stored_device_wf|done].
    + by intros d' [= <-].
  - by eapply inv_step_send.
  - by eapply inv_step_state.
  - by eapply inv_step_debug.
  - by eapply inv_step_ping.
  - by apply (inv_step_accept b s).
  - by eapply inv_step_hello.
  - by eapply inv_step_device.
  - eapply inv_quiet; [by eapply quietly_stop|exact Hi|done|by eauto].
  - eapply inv_quiet; [by eapply quietly_ReadMessage|exact Hi|done|by eauto].
  - eapply inv_quiet; [by eapply quietly_ReadMessage|exact Hi|done|done].
  - injection E' as <-; apply (inv_no_client _ (Serving buf)).
    eapply inv_quiet; [by eapply quietly_stop|exact Hi|done|by eauto].
  - injection E' as <-; eapply inv_quiet; [|exact Hi|done|done].
    eapply quiet_trans; [by eapply quietly_stop|apply closed_listen].
  - injection E as <-; eapply inv_quiet; [apply closed_listen|exact Hi|done|by eauto].
Qed.

Lemma reachable_inv c : reachable pad c -> inv c.
Proof.
  intros (s & (Hd & Hk & Hq & Ht) & Hr).
  remember (mkSys s Idle Ready) as c0 eqn:E0.
  assert (inv c0) as Hi; [|clear -Hi Hr; induction Hr; eauto using inv_step].
  subst; split; cbn; try done; rewrite ?Hd, ?Hq; try done.
  eapply Forall_impl; [exact Ht|]; by intros [].
Qed.

End invariant.

(** ** The byte stream of a client *)

Section stream.
Context (pad : nat -> Z).

Lemma split_concat l fuel : Forall (v2_message pad) l -> (length l <= fuel)%nat ->
  split_stream fuel (concat l) = Some l.
Proof.
  intros Hl; revert fuel; induction Hl as [|m l Hm Hl IH]; intros fuel Hf; cbn in *.
  - by destruct fuel.
  - destruct fuel as [|fuel]; [lia|].
    destruct (v2_message_size pad m Hm) as (Hs & Hlen & _).
    assert (size_at (m ++ concat l) = Z.of_nat (length m)) as Hsz
      by (rewrite size_at_app by lia; done).
    destruct m as [|b m']; [cbn in Hlen; lia|]; set (m := b :: m') in *.
    change ((b :: m') ++ concat l) with (m ++ concat l).
    cbn [split_stream]; rewrite Hsz, Nat2Z.id.
    destruct (m ++ concat l) eqn:E; [done|rewrite <- E].
    rewrite decide_True by (rewrite length_app; lia).
    rewrite take_app_length, drop_app_length, IH by lia; done.
Qed.

(** What was cut from a stream is the stream. *)
Lemma concat_split fuel bs l : split_stream fuel bs = Some l -> concat l = bs.
Proof.
  revert bs l; induction fuel as [|fuel IH]; intros [|b bs] l; cbn [split_stream]; try done; try (by intros [= <-]).
  set (m := b :: bs); destruct (decide _) as [Hn|]; [|done].
  destruct (split_stream fuel _) as [l'|] eqn:E; [|done]; intros [= <-]; cbn [concat].
  rewrite (IH _ _ E); apply take_drop.
Qed.

(** The stream is what was sent when no send was short, and shorter otherwise. *)
Lemma client_stream_concat t : Forall fitting_send t ->
  if decide (short_sends t = 0%nat) then client_stream t = concat (client_log t)
  else (length (client_stream t) < length (concat (client_log t)))%nat.
Proof.
  intros Ht; unfold client_stream, client_log, short_sends.
  assert (forall n bs l, (if decide (n = 0%nat) then bs = concat l else length bs < length (concat l))%nat ->
    if decide (foldl short_step n t = 0%nat) then foldl stream_step bs t = concat (foldl client_step l t)
    else (length (foldl stream_step bs t) < length (concat (foldl client_step l t)))%nat) as Hg;
    [|by apply (Hg 0%nat [] [])].
  induction Ht as [|e t He Ht IH]; intros n bs l Hn; [done|]; cbn [foldl]; apply IH.
  destruct e as [| | | | | |? []|k m len r| | | | | | | | |]; cbn [stream_step client_step short_step]; try done.
  destruct (Z.eqb_spec r SOCKET_ERROR) as [->|Hr]; [done|]; cbn [orb].
  destruct He as [He|He]; [done|]; rewrite concat_app; cbn [concat]; rewrite app_nil_r.
  destruct (Z.eqb_spec r (Z.of_nat (length m))) as [->|Hs].
  - rewrite Nat2Z.id, take_ge by done; destruct (decide (n = 0%nat)); [by subst bs|rewrite !length_app; lia].
  - rewrite decide_False by done; rewrite !length_app, length_take.
    destruct (decide (n = 0%nat)); [subst bs; lia|lia].
Qed.

Lemma client_log_messages t : Forall (send_ok pad) t -> Forall (v2_message pad) (client_log t).
Proof.
  intros Ht; unfold client_log; assert (Forall (v2_message pad) []) as H0 by constructor.
  revert H0; generalize (@nil bytes) as l; induction Ht as [|e t He Ht IH]; intros l Hl; [done|].
  cbn [foldl]; apply IH; destruct e as [| | | | | |? []|k m len r| | | | | | | | |]; cbn; try done.
  destruct (r =? SOCKET_ERROR); [done|]; apply Forall_app; split; [done|]; by constructor.
Qed.
End stream.

(** ** The accept thread alone *)

Section sequential.
Context {HA : Arch} {HO : SocketOS} (pad : nat -> Z).

Lemma ReadMessages_steps rounds fuel buf s b s' c : ReadMessages rounds fuel buf s = Ret b s' ->
  if b then exists buf' s1, rtc (step pad) (mkSys s (Serving buf) c) (mkSys s1 (Serving buf') c) /\
              stop_requested s1 = Ret true s'
  else rtc (step pad) (mkSys s (Serving buf) c) (mkSys s' Idle c).
Proof.
  revert buf s; induction rounds as [|rounds IH]; intros buf s E; [done|]; cbn [ReadMessages] in E.
  apply bind_Ret in E as ([] & s1 & E1 & E).
  - injection E as <- <-; exists buf, s; split; [apply rtc_refl|done].
  - apply bind_Ret in E as ([buf'|] & s2 & E2 & E).
    + specialize (IH buf' s2 E).
      assert (rtc (step pad) (mkSys s (Serving buf) c) (mkSys s2 (Serving buf') c)) as Hr.
      { eapply rtc_l; [by eapply lstep_step, (step_running pad s s1)|].
        apply rtc_once; by eapply lstep_step, (step_read pad fuel buf). }
      destruct b; [|by etrans].
      destruct IH as (buf2 & s3 & Hr' & E3); exists buf2, s3; split; [|done].
      by etrans.
    + injection E as <- <-; eapply rtc_l; [by eapply lstep_step, (step_running pad s s1)|].
      apply rtc_once; by eapply lstep_step, (step_gone pad fuel buf).
Qed.

Lemma AcceptOnce_steps rounds fuel s s' c : AcceptOnce pad rounds fuel s = Ret tt s' ->
  rtc (step pad) (mkSys s Idle c) (mkSys s' Idle c).
Proof.
  unfold AcceptOnce; intros E; apply bind_Ret in E as (b & s1 & E1 & E).
  pose proof (lstep_step _ _ _ _ (step_accept pad b s s1 c E1)) as H1; destruct b; cbn in H1.
  2: { injection E as <-; by apply rtc_once. }
  apply bind_Ret in E as ([] & s2 & E2 & E).
  apply bind_Ret in E as ([] & s3 & E3 & E).
  apply bind_Ret in E as (stopped & s4 & E4 & E).
  eapply rtc_l; [exact H1|]; eapply rtc_l; [by eapply lstep_step, step_hello|].
  eapply rtc_l; [by eapply lstep_step, step_device|].
  apply (ReadMessages_steps _ _ _ _ _ _ c) in E4; destruct stopped.
  - destruct E4 as (buf & s5 & Hr & Es); etrans; [exact Hr|].
    apply rtc_once; by eapply lstep_step, step_stopped.
  - injection E as <-; exact E4.
Qed.

End sequential.

(** ** Concrete runs *)

Module Sample.
Import V2Server.Sample.
#[local] Existing Instance os.
#[local] Existing Instance arch64.

Definition final {A} (m : ST V2Server A) (s : V2Server) : V2Server :=
  match m s with Ret _ s' => s' | _ => s end.

(** A device is set, a client connects and is greeted. *)
Definition stored : V2Server := set_mDevice (Some (stored_device device)) V2Server.Sample.object.
Definition announced : V2Server := final (Send pad (stored_device device)) stored.
Definition accepted : V2Server := final AcceptClient announced.
Definition greeted : V2Server := final (SendHello pad) accepted.
Definition serving : V2Server := final (SendDevice pad) greeted.
(** The pen moves after the client was accepted and before it was greeted. *)
Definition overtaken : V2Server := final (SetState pad state) accepted.
Definition late_hello : V2Server := final (SendHello pad) overtaken.

Lemma accepted_reachable :
  rtc (step pad) (mkSys V2Server.Sample.object Idle Ready) (mkSys accepted Accepted Ready).
Proof.
  eapply rtc_l; [eapply lstep_step, (step_store pad device); apply sample_device_wf|].
  eapply rtc_l; [eapply lstep_step, (step_send_device pad _ _ announced false); vm_compute; reflexivity|].
  eapply rtc_once, lstep_step, (step_accept pad true); vm_compute; reflexivity.
Qed.

Lemma object_started : started V2Server.Sample.object.
Proof. repeat split; constructor. Qed.

Lemma serving_reachable :
  reachable pad (mkSys serving (Serving (replicate BUFFER_SIZE 0)) Ready).
Proof.
  exists V2Server.Sample.object; split; [apply object_started|].
  etrans; [apply accepted_reachable|].
  eapply rtc_l; [eapply lstep_step, (step_hello pad _ greeted); vm_compute; reflexivity|].
  eapply rtc_once, lstep_step, step_device; vm_compute; reflexivity.
Qed.

Lemma late_hello_reachable : reachable pad (mkSys late_hello Greeted Ready).
Proof.
  exists V2Server.Sample.object; split; [apply object_started|].
  etrans; [apply accepted_reachable|].
  eapply rtc_l; [eapply lstep_step, (step_set_state pad state _ overtaken); [apply state_wf|]; vm_compute; reflexivity|].
  eapply rtc_once, lstep_step, step_hello; vm_compute; reflexivity.
Qed.

(** A connection that takes five bytes at a time. *)
Definition short : SocketOS := {|
  os_local_app_data := Some local_app_data;
  os_absolute p := p;
  os_socket _ := inr 3;
  os_exists _ _ := false;
  os_remove _ _ := false;
  os_create_directories _ _ := None;
  os_bind _ _ _ := None;
  os_listen _ _ := None;
  os_accept _ _ := Some 5;
  os_send _ _ data _ := 5;
  os_recv _ _ _ := RecvData [];
  os_open_file _ _ := true;
  os_stop_requested _ := false
|}.
Definition cut_short : V2Server :=
  final (@SendHello short pad) (final (@AcceptClient short) V2Server.Sample.object).

Lemma cut_short_reachable : @reachable arch64 short pad (mkSys cut_short Greeted Ready).
Proof.
  exists V2Server.Sample.object; split; [apply object_started|].
  eapply rtc_l; [eapply lstep_step, (@step_accept arch64 short pad true); vm_compute; reflexivity|].
  eapply rtc_once, lstep_step, step_hello; vm_compute; reflexivity.
Qed.
End Sample.

(** ** Properties *)

(** C7: no device is lost.  However [SetDevice], the accept thread and the pings
    interleave, once the handshake of a client is over and [SetDevice] has
    returned, a client that is still connected has been sent the current
    device. *)
Theorem v2_device_not_lost {HA : Arch} {HO : SocketOS} (pad : nat -> Z)
    (s : V2Server) (buf : bytes) (k : Z) (d : V2.DeviceInfo) :
  reachable pad (mkSys s (Serving buf) Ready) ->
  mClientSocket s = Some k -> mDevice s = Some d ->
  encode pad d ∈ client_log (trace s) /\ decode (encode pad d) = Some d.
Proof.
  intros Hr Hk Hd; apply reachable_inv in Hr; split.
  - apply (inv_delivered _ _ Hr d buf); cbn; congruence.
  - destruct (inv_device _ _ Hr d Hd) as (Hwf & _).
    pose proof (decode_encode pad d [] Hwf) as H; by rewrite app_nil_r in H.
Qed.

Lemma v2_device_not_lost_witness :
  encode V2Server.Sample.pad (stored_device V2Server.Sample.device)
    ∈ client_log (trace Sample.serving) /\
  decode (encode V2Server.Sample.pad (stored_device V2Server.Sample.device))
    = Some (stored_device V2Server.Sample.device).
Proof.
  apply (@v2_device_not_lost arch64 V2Server.Sample.os V2Server.Sample.pad Sample.serving
           (replicate BUFFER_SIZE 0) 5 (stored_device V2Server.Sample.device)
           Sample.serving_reachable); reflexivity.
Defined.

(** A client whose handshake is over has been greeted exactly once. *)
Theorem v2_hello_once {HA : Arch} {HO : SocketOS} (pad : nat -> Z)
    (s : V2Server) (buf : bytes) (k : Z) (c : caller) :
  reachable pad (mkSys s (Serving buf) c) -> mClientSocket s = Some k ->
  hello_count (client_log (trace s)) = 1%nat.
Proof. intros Hr Hk; apply reachable_inv in Hr; apply (inv_hello _ _ Hr); cbn; congruence. Qed.

Lemma v2_hello_once_witness : hello_count (client_log (trace Sample.serving)) = 1%nat.
Proof.
  apply (@v2_hello_once arch64 V2Server.Sample.os V2Server.Sample.pad Sample.serving
           (replicate BUFFER_SIZE 0) 5 Ready Sample.serving_reachable); reflexivity.
Defined.

(** The Hello need not be the first message.  The accept thread publishes
    the socket before it sends the Hello, so a pen state (or a ping) can
    overtake it: there is a run in which a client's first message is a State
    and the Hello comes after it. *)
Theorem v2_hello_overtaken :
  exists (HO : SocketOS) (pad : nat -> Z) (c : sys) (st hello : bytes),
    @reachable arch64 HO pad c /\ client_log (trace (object c)) = [st; hello] /\
    type_at st = V2.MT_State /\ is_hello hello = true.
Proof.
  exists V2Server.Sample.os, V2Server.Sample.pad, (mkSys Sample.late_hello Greeted Ready).
  do 2 eexists; split; [apply Sample.late_hello_reachable|].
  split; [vm_compute; reflexivity|]; by split.
Qed.

(** C8: the bytes a client has received are cut by the protocol's framing into
    exactly the messages the server sent it, whichever threads sent them, if and
    only if every one of these sends took its whole message.  [SendRaw] does not
    look at a smaller count: the rest of the message is not sent, and from then on
    the stream is not the messages any more. *)
Theorem v2_stream_framing {HA : Arch} {HO : SocketOS} (pad : nat -> Z) (c : sys) :
  reachable pad c -> let t := trace (object c) in Forall fitting_send t ->
  (split_stream (length (client_log t)) (client_stream t) = Some (client_log t) <-> short_sends t = 0%nat) /\
  Forall (v2_message pad) (client_log t).
Proof.
  intros Hr t Hw; apply reachable_inv in Hr.
  assert (Forall (v2_message pad) (client_log t)) as Hm
    by (apply client_log_messages; exact (inv_sends _ _ Hr)).
  split; [|done]; pose proof (client_stream_concat t Hw) as Hs.
  destruct (decide (short_sends t = 0%nat)) as [E|E].
  - rewrite Hs; split; [done|]; intros _; by apply (split_concat pad).
  - split; [|done]; intros Hc; apply concat_split in Hc; rewrite Hc in Hs; lia.
Qed.

(** Two clients: one that took everything, one whose connection took only the
    first five bytes of the Hello. *)
Lemma v2_stream_framing_witness :
  let t := trace Sample.serving in
  let u := trace Sample.cut_short in
  ((split_stream (length (client_log t)) (client_stream t) = Some (client_log t) <-> short_sends t = 0%nat) /\
   Forall (v2_message V2Server.Sample.pad) (client_log t)) /\
  ((split_stream (length (client_log u)) (client_stream u) = Some (client_log u) <-> short_sends u = 0%nat) /\
   Forall (v2_message V2Server.Sample.pad) (client_log u)) /\
  short_sends t = 0%nat /\ short_sends u = 1%nat.
Proof.
  split; [|split; [|split; vm_compute; reflexivity]].
  - apply (@v2_stream_framing arch64 V2Server.Sample.os V2Server.Sample.pad
           (mkSys Sample.serving (Serving (replicate BUFFER_SIZE 0)) Ready) Sample.serving_reachable).
    repeat (constructor; [first [exact I | right; vm_compute; split; discriminate]|]); constructor.
  - apply (@v2_stream_framing arch64 Sample.short V2Server.Sample.pad
           (mkSys Sample.cut_short Greeted Ready) Sample.cut_short_reachable).
    repeat (constructor; [first [exact I | right; vm_compute; split; discriminate]|]); constructor.
Defined.

(** C32: the sequential code of the accept thread is one of the behaviours of the
    step relation: a run of [AcceptOnce] that returns is a sequence of its
    steps, back in the idle phase. *)
Theorem v2_accept_refines {HA : Arch} {HO : SocketOS} (pad : nat -> Z)
    (rounds fuel : nat) (s s' : V2Server) (c : caller) :
  AcceptOnce pad rounds fuel s = Ret tt s' ->
  rtc (step pad) (mkSys s Idle c) (mkSys s' Idle c).
Proof. apply AcceptOnce_steps. Qed.

Lemma v2_accept_refines_witness :
  rtc (@step arch64 V2Server.Sample.os V2Server.Sample.pad)
    (mkSys V2Server.Sample.object Idle Ready)
    (mkSys (Sample.final (@AcceptOnce arch64 V2Server.Sample.os V2Server.Sample.pad 1 1)
              V2Server.Sample.object) Idle Ready).
Proof.
  apply (@v2_accept_refines arch64 V2Server.Sample.os V2Server.Sample.pad 1 1).
  vm_compute; reflexivity.
Defined.

End V2Threads.
