(* ===== verification/V2History.v ===== *)
(** * The OTD-IPC v2 server: what a client gets of a run

    Runs of the threads of V2Threads with their labels, and what the current
    client has been sent in a run: every pen state since it was accepted, once
    and in order. *)

From S2P Require Import Prelude Layout V2Messages V2Server V2Accept V2Reading V2Threads.
Import V2Server V2Accept V2Reading V2Threads.

Module V2History.

(** A run of the threads from a started server, with the labels of its steps. *)
Inductive ran {HA : Arch} {HO : SocketOS} (pad : nat -> Z) : list label -> sys -> Prop :=
  | ran_start s : started s -> ran pad [] (mkSys s Idle Ready)
  | ran_step ls l c c' : ran pad ls c -> lstep pad l c c' -> ran pad (ls ++ [l]) c'.

(** The states the caller has given the server since the last client was
    accepted. *)
Definition since_step (sts : list V2.State) (l : label) : list V2.State :=
  match l with LAccept => [] | LState st => sts ++ [st] | _ => sts end.
Definition since_accept (ls : list label) : list V2.State := foldl since_step [] ls.

Definition is_state (m : bytes) : bool := type_at m =? V2.MT_State.
Definition states_in (l : list bytes) : list bytes := List.filter is_state l.

(** A message from which a client reads the state, under a header of its own. *)
Definition carries (m : bytes) (st : V2.State) : Prop :=
  exists id, decode m = Some (InitHeader_state st id).

Section history.
Context {HA : Arch} {HO : SocketOS} (pad : nat -> Z).

Lemma ran_reachable ls c : ran pad ls c -> reachable pad c.
Proof.
  induction 1 as [s Hs|ls l c c' Hr (s & Hs & IH) Hl]; [exists s; split; [done|apply rtc_refl]|].
  exists s; split; [done|]; eapply rtc_r; [exact IH|by exists l].
Qed.

Lemma states_in_app l m : states_in (l ++ [m]) = states_in l ++ (if is_state m then [m] else []).
Proof. unfold states_in; rewrite List.filter_app; cbn; by destruct (is_state m). Qed.

Lemma is_state_encode `{Message T} (m : T) : wire_wf m ->
  is_state (encode pad m) = (msg_type m =? V2.MT_State).
Proof. intros Hm; unfold is_state; by rewrite (msg_type_at pad m). Qed.

(** What a step adds to the messages of a client that is connected after it. *)
Definition adds (l : label) (c c' : sys) : Prop :=
  mClientSocket (object c') <> None ->
  match l with
  | LAccept => client_log (trace (object c')) = []
  | LState st => mClientSocket (object c) <> None /\ exists m,
      client_log (trace (object c')) = client_log (trace (object c)) ++ [m] /\
      is_state m = true /\ carries m st
  | _ => mClientSocket (object c) <> None /\
      states_in (client_log (trace (object c'))) = states_in (client_log (trace (object c)))
  end.

Lemma quiet_adds l c c' : quiet (object c) (object c') ->
  match l with LAccept | LState _ => False | _ => True end -> adds l c c'.
Proof.
  intros (_ & _ & Ek & _ & t & Et & Ht) Hl Hk; rewrite Ek in Hk.
  destruct l; try done; (split; [done|]); by rewrite Et, client_log_quiet.
Qed.

Lemma sent_adds l m c c' : sent m (object c) (object c') -> is_state m = false ->
  match l with LAccept | LState _ => False | _ => True end -> adds l c c'.
Proof.
  intros Hs Hm Hl Hk; apply (sent_frame pad) in Hs as (_ & _ & _ & Hlog).
  destruct (Hlog Hk) as [Hk0 E].
  destruct l; try done; (split; [done|]); by rewrite E, states_in_app, Hm, app_nil_r.
Qed.

Lemma no_client_adds l c c' : mClientSocket (object c') = None -> adds l c c'.
Proof. by intros Hn Hk. Qed.

Lemma adds_state st s s' a : V2.state_wf st -> SetState pad st s = Ret tt s' ->
  inv pad (mkSys s a Ready) -> adds (LState st) (mkSys s a Ready) (mkSys s' a Ready).
Proof.
  intros Hst E Hi Hk; destruct (mDevice s) as [d|] eqn:Ed.
  2: { unfold SetState, gets, st_bind in E; by rewrite Ed in E. }
  destruct (inv_device _ _ Hi d Ed) as (Hwf & Ht & Hs).
  pose proof (SetState_sent pad st s d Hst Ed Hwf) as Hsent; rewrite E in Hsent; cbn in Hsent.
  set (st' := InitHeader_state st _) in Hsent.
  assert (wire_wf st') as Hwf'.
  { apply InitHeader_state_wf; [done|]; by destruct Hwf as ((_ & _ & Hid) & _). }
  apply (sent_frame pad) in Hsent as (_ & _ & _ & Hlog); destruct (Hlog Hk) as [Hk0 El].
  split; [done|]; exists (encode pad st'); split; [done|]; split; [by rewrite is_state_encode|].
  exists (V2.nonPersistentTabletId (V2.di_header d)); rewrite <- (app_nil_r (encode pad st')).
  by apply decode_encode.
Qed.

Lemma debug_not_state text : Z.of_nat (length text) + 12 < 2 ^ 32 ->
  is_state (encode pad (V2.init_header V2.MT_DebugMessage 0 (12 + Z.of_nat (length text))) ++ text) = false.
Proof.
  intros Hl; set (h := V2.init_header _ _ _).
  assert (V2.header_wf h) as Hwf by by apply init_header_wf.
  unfold is_state; rewrite type_at_app.
  - by rewrite (msg_type_at (T := V2.Header) pad h).
  - pose proof (length_encode pad h Hwf) as Hn; rewrite V2.v2_header_sizeof in Hn.
    change V2.HEADER_SIZE with 12 in Hn; lia.
Qed.

(** A ping: calls that are quiet, the counter, and one send. *)
Lemma sent_then s s1 s' m n a c : quiet s s1 -> sent m (set_ping_seq n s1) s' -> is_state m = false ->
  adds LOther (mkSys s a c) (mkSys s' a c).
Proof.
  intros (_ & _ & Ek & _ & t & Et & Ht) Hs Hm.
  pose proof (sent_adds LOther m (mkSys (set_ping_seq n s1) a c) (mkSys s' a c) Hs Hm I) as Ha.
  intros Hk; destruct (Ha Hk) as [Hk1 Hl]; cbn in *; rewrite Ek in Hk1; split; [done|].
  by rewrite Hl, Et, client_log_quiet.
Qed.

Lemma quietly_refused s s' : AcceptClient s = Ret false s' -> quiet s s'.
Proof.
  unfold AcceptClient, gets, ask, st_bind; destruct (os_accept _ _); [done|].
  intros [= <-]; by apply quiet_log.
Qed.

Lemma accepted_log s s' : AcceptClient s = Ret true s' -> client_log (trace s') = [].
Proof.
  unfold AcceptClient, gets, ask, st_bind; destruct (os_accept _ _) as [k|]; [|done].
  intros [= <-]; unfold close_client; cbn; destruct (mClientSocket s); cbn.
  - by rewrite !client_log_app.
  - by rewrite client_log_app.
Qed.

Lemma lstep_adds l c c' : lstep pad l c c' -> inv pad c -> adds l c c'.
Proof.
  destruct 1 as [d s a Hd|d s s' b a E|st s s' a Hst E|text s s' a c E Hl|s s' b a c E|b s s' c E
    |s s' c E|s s' c E|s s' buf c E|fuel buf buf' s s' c E|fuel buf s s' c E|buf s s' s'' c E E'
    |s s' s'' c E E'|s s' a E]; intros Hi.
  - by split.
  - destruct (inv_device _ _ Hi d (inv_caller _ _ Hi d eq_refl)) as (Hwf & Ht & Hs).
    pose proof (Send_sent pad d s Hwf Hs) as Hsent; rewrite E in Hsent; cbn in Hsent.
    eapply sent_adds; [exact Hsent| |done]; rewrite is_state_encode by done; cbn; by rewrite Ht.
  - by apply adds_state.
  - pose proof (SendDebugMessage_sent pad text s Hl) as Hsent; rewrite E in Hsent; cbn in Hsent.
    eapply sent_adds; [exact Hsent| |done]; by apply debug_not_state.
  - destruct (PingOnce_sent pad s (inv_seq _ _ Hi)) as (b' & s1 & s2 & E' & E1 & Hs).
    rewrite E in E'; injection E' as <- <-.
    assert (quiet s s1) as Hq by (subst s1; eapply quiet_trans; by apply quiet_log).
    destruct Hs as [->|[_ Hs]]; [by apply quiet_adds|].
    eapply sent_then; [exact Hq|exact Hs|].
    rewrite is_state_encode; [done|]; split; [by apply init_header_wf|apply u64_bounds].
  - destruct b; [|apply quiet_adds; [by apply quietly_refused|done]].
    intros _; by apply (accepted_log s).
  - eapply sent_adds; [by apply SendHello_sent| |done].
    rewrite is_state_encode by apply hello_message_wf; done.
  - destruct (mDevice s) as [d|] eqn:Ed.
    + pose proof (inv_device _ _ Hi d Ed) as Hok.
      eapply sent_adds; [by apply (SendDevice_sent pad d)| |done]; destruct Hok as (Hwf & Ht & _).
      rewrite is_state_encode by done; cbn; by rewrite Ht.
    + apply SendDevice_none in E as ->; [|done]; apply quiet_adds; [apply quiet_refl|done].
  - apply quiet_adds; [by eapply quietly_stop|done].
  - apply quiet_adds; [by eapply quietly_ReadMessage|done].
  - apply quiet_adds; [by eapply quietly_ReadMessage|done].
  - injection E' as <-; by apply no_client_adds.
  - injection E' as <-; apply quiet_adds; [|done].
    eapply quiet_trans; [by eapply quietly_stop|apply closed_listen].
  - injection E as <-; apply quiet_adds; [apply closed_listen|done].
Qed.

Lemma since_accept_app ls l : since_accept (ls ++ [l]) = since_step (since_accept ls) l.
Proof. unfold since_accept; by rewrite foldl_app. Qed.

Lemma ran_states ls c : ran pad ls c -> mClientSocket (object c) <> None ->
  Forall2 carries (states_in (client_log (trace (object c)))) (since_accept ls).
Proof.
  induction 1 as [s (_ & Hk & _)|ls l c c' Hr IH Hl]; intros Hc; [done|].
  pose proof (lstep_adds l c c' Hl (reachable_inv pad c (ran_reachable _ _ Hr)) Hc) as Ha.
  rewrite since_accept_app; destruct l; cbn [since_step adds] in *.
  1,2,4,6: destruct Ha as [Hk ->]; by apply IH.
  - destruct Ha as (Hk & m & -> & Hm & Hst); rewrite states_in_app, Hm.
    apply Forall2_app; [by apply IH|by repeat constructor].
  - rewrite Ha; constructor.
Qed.

(** ** From one point of a run to a later one *)

Inductive steps : list label -> sys -> sys -> Prop :=
  | steps_none c : steps [] c c
  | steps_more ls l c c' c'' : steps ls c c' -> lstep pad l c' c'' -> steps (ls ++ [l]) c c''.

Lemma steps_ran ls0 ls c c' : ran pad ls0 c -> steps ls c c' -> ran pad (ls0 ++ ls) c'.
Proof.
  intros Hr; induction 1 as [c|ls l c c' c'' _ IH Hl]; [by rewrite app_nil_r|].
  rewrite app_assoc; by eapply ran_step; [apply IH|].
Qed.

(** How often a client has been accepted. *)
Definition is_accept (e : event) : bool := match e with EAccept _ (Some _) => true | _ => false end.
Definition accept_count (t : list event) : nat := length (List.filter is_accept t).

Lemma accept_count_app t u : accept_count (t ++ u) = (accept_count t + accept_count u)%nat.
Proof. unfold accept_count; by rewrite List.filter_app, length_app. Qed.

Lemma count_quiet s s' : quiet s s' -> accept_count (trace s') = accept_count (trace s).
Proof.
  intros (_ & _ & _ & _ & t & -> & Ht); rewrite accept_count_app.
  enough (accept_count t = 0%nat) by lia; induction Ht as [|e t He Ht IH]; [done|].
  by destruct e as [| | | | | |? []| | | | | | | | | |].
Qed.

Lemma count_sent m s s' : sent m s s' -> accept_count (trace s') = accept_count (trace s).
Proof.
  unfold sent; destruct (mClientSocket s); [|by intros ->]; intros [r ->].
  destruct (r =? SOCKET_ERROR); cbn [trace log set_mClientSocket]; rewrite !accept_count_app; cbn; lia.
Qed.

Lemma count_client s s' : AcceptClient s = Ret true s' -> accept_count (trace s') = S (accept_count (trace s)).
Proof.
  unfold AcceptClient, gets, ask, st_bind; destruct (os_accept _ _) as [k|]; [|done].
  intros [= <-]; unfold close_client; cbn [mClientSocket log].
  destruct (mClientSocket s); cbn [trace log set_mClientSocket]; rewrite !accept_count_app; cbn; lia.
Qed.

Lemma lstep_accepted l c c' : lstep pad l c c' -> inv pad c ->
  accept_count (trace (object c')) =
  (accept_count (trace (object c)) + match l with LAccept => 1 | _ => 0 end)%nat.
Proof.
  destruct 1 as [d s a Hd|d s s' b a E|st s s' a Hst E|text s s' a c E Hl|s s' b a c E|b s s' c E
    |s s' c E|s s' c E|s s' buf c E|fuel buf buf' s s' c E|fuel buf s s' c E|buf s s' s'' c E E'
    |s s' s'' c E E'|s s' a E]; intros Hi; rewrite ?Nat.add_0_r; cbn [object].
  - done.
  - destruct (inv_device _ _ Hi d (inv_caller _ _ Hi d eq_refl)) as (Hwf & Ht & Hs).
    pose proof (Send_sent pad d s Hwf Hs) as Hsent; rewrite E in Hsent; by eapply count_sent.
  - destruct (mDevice s) as [d|] eqn:Ed; [|unfold SetState, gets, st_bind in E; by rewrite Ed in E].
    destruct (inv_device _ _ Hi d Ed) as (Hwf & Ht & Hs).
    pose proof (SetState_sent pad st s d Hst Ed Hwf) as Hsent; rewrite E in Hsent; by eapply count_sent.
  - pose proof (SendDebugMessage_sent pad text s Hl) as Hsent; rewrite E in Hsent; by eapply count_sent.
  - destruct (PingOnce_sent pad s (inv_seq _ _ Hi)) as (b' & s1 & s2 & E' & E1 & Hs).
    rewrite E in E'; injection E' as <- <-.
    assert (quiet s s1) as Hq%count_quiet by (subst s1; eapply quiet_trans; by apply quiet_log).
    destruct Hs as [->|[_ Hs%count_sent]]; [done|by rewrite Hs].
  - destruct b; [apply count_client in E; lia|]; apply quietly_refused, count_quiet in E; lia.
  - by eapply count_sent, SendHello_sent.
  - destruct (mDevice s) as [d|] eqn:Ed; [|by apply SendDevice_none in E as ->].
    pose proof (inv_device _ _ Hi d Ed) as Hok; by eapply count_sent, (SendDevice_sent pad d).
  - by eapply count_quiet, quietly_stop.
  - by eapply count_quiet, quietly_ReadMessage.
  - by eapply count_quiet, quietly_ReadMessage.
  - apply quietly_stop, count_quiet in E; injection E' as <-; rewrite <- E.
    unfold close_client; destruct (mClientSocket s'); cbn [trace log set_mClientSocket]; rewrite ?accept_count_app; cbn; lia.
  - apply quietly_stop, count_quiet in E; injection E' as <-; rewrite <- E; apply count_quiet, closed_listen.
  - injection E as <-; apply count_quiet, closed_listen.
Qed.

(** The states that are handed over. *)
Definition handed (ls : list label) : list V2.State :=
  omap (fun l => match l with LState st => Some st | _ => None end) ls.

Lemma handed_app ls l : handed (ls ++ [l]) = handed ls ++ match l with LState st => [st] | _ => [] end.
Proof. unfold handed; rewrite omap_app; by destruct l. Qed.

Lemma steps_reachable ls c c' : reachable pad c -> steps ls c c' -> reachable pad c'.
Proof.
  intros Hr; induction 1 as [|ls l c c' c'' _ IH Hl]; [done|]; destruct (IH Hr) as (s & Hs & Hrtc).
  exists s; split; [done|]; eapply rtc_r; [exact Hrtc|by exists l].
Qed.

Lemma steps_count ls c c' : reachable pad c -> steps ls c c' ->
  (accept_count (trace (object c)) <= accept_count (trace (object c')))%nat.
Proof.
  intros Hr; induction 1 as [|ls l c c' c'' Hs IH Hl]; [done|]; specialize (IH Hr).
  rewrite (lstep_accepted l c' c'' Hl); [lia|]; by eapply reachable_inv, steps_reachable.
Qed.

(** A client that is still the same one has been sent all of them. *)
Lemma steps_states ls c c' : reachable pad c -> steps ls c c' -> mClientSocket (object c') <> None ->
  accept_count (trace (object c')) = accept_count (trace (object c)) ->
  exists sent, states_in (client_log (trace (object c'))) = states_in (client_log (trace (object c))) ++ sent /\
    Forall2 carries sent (handed ls).
Proof.
  intros Hr; induction 1 as [|ls l c c' c'' Hs IH Hl]; intros Hk Hn.
  { exists []; split; [by rewrite app_nil_r|constructor]. }
  pose proof (reachable_inv pad _ (steps_reachable _ _ _ Hr Hs)) as Hi.
  pose proof (lstep_accepted l c' c'' Hl Hi) as Ea; pose proof (steps_count _ _ _ Hr Hs).
  pose proof (lstep_adds l c' c'' Hl Hi Hk) as Ha; rewrite handed_app.
  destruct l; try lia; destruct Ha as [Hk' Ha]; destruct (IH Hr Hk' ltac:(lia)) as (sent & E & HF).
  1,2,4,5: exists sent; by rewrite Ha, app_nil_r.
  destruct Ha as (m & El & Hm & Hst); exists (sent ++ [m]); rewrite El, states_in_app, Hm, E, app_assoc.
  split; [done|]; apply Forall2_app; [done|by repeat constructor].
Qed.
End history.

(** ** A concrete run *)

Module Sample.
Import V2Threads.Sample.
#[local] Existing Instance V2Server.Sample.os.
#[local] Existing Instance arch64.
Definition pad : nat -> Z := V2Server.Sample.pad.
Definition device : V2.DeviceInfo := V2Server.Sample.device.
Definition state : V2.State := V2Server.Sample.state.

Definition labels : list label := [LStore device; LSent (stored_device device); LAccept; LState state; LOther].

Lemma sample_run : ran pad labels (mkSys late_hello Greeted Ready).
Proof.
  change labels with (((([] ++ [LStore device]) ++ [LSent (stored_device device)]) ++ [LAccept]) ++
    [LState state] ++ [LOther]).
  rewrite app_assoc; eapply ran_step; [eapply ran_step; [eapply ran_step; [eapply ran_step; [eapply ran_step;
    [apply ran_start, object_started|]|]|]|]|].
  - apply (step_store pad device), V2Server.Sample.sample_device_wf.
  - apply (step_send_device pad _ _ announced false); vm_compute; reflexivity.
  - apply (step_accept pad true _ accepted); vm_compute; reflexivity.
  - apply (step_set_state pad state _ overtaken); [apply V2Server.Sample.state_wf|]; vm_compute; reflexivity.
  - apply step_hello; vm_compute; reflexivity.
Qed.
End Sample.

(** ** Properties *)

(** A client gets every state, once and in order.  However the threads
    interleave, the state messages the connected client has been sent are
    exactly the states the caller has given the server since that client was
    accepted, in the same order: none is lost, repeated, reordered or left over
    from an earlier client. *)
Theorem v2_states_in_order {HA : Arch} {HO : SocketOS} (pad : nat -> Z)
    (ls : list label) (s : V2Server) (a : acceptor) (c : caller) (k : Z) :
  ran pad ls (mkSys s a c) -> mClientSocket s = Some k ->
  Forall2 carries (states_in (client_log (trace s))) (since_accept ls).
Proof. intros Hr Hk; apply (ran_states pad ls _ Hr); cbn; by rewrite Hk. Qed.

Lemma v2_states_in_order_witness :
  Forall2 carries (states_in (client_log (trace V2Threads.Sample.late_hello))) [Sample.state].
Proof.
  refine (@v2_states_in_order arch64 V2Server.Sample.os Sample.pad Sample.labels V2Threads.Sample.late_hello
    Greeted Ready 5 Sample.sample_run _); vm_compute; reflexivity.
Defined.

End V2History.
