(* ===== verification/Fairness.v ===== *)
(** * Fair runs and termination

    Threads that share a state, their infinite runs, and a rule for showing that
    a fair run reaches a goal.  A thread that is not enabled is blocked in a call;
    a run is fair to a thread when the thread, as long as it is enabled, takes a
    step at some time.  The environment may do nothing for ever. *)

From S2P Require Import Prelude.

Module Fairness.

(** ** Ranks: three numbers, compared from left to right *)

Definition rank : Type := nat * nat * nat.

Definition lex (x y : rank) : Prop :=
  let '(a, b, c) := x in
  let '(a', b', c') := y in
  (a < a' \/ a = a' /\ (b < b' \/ b = b' /\ c < c'))%nat.

Lemma lex_wf : well_founded lex.
Proof.
  intros [[a b] c]; revert b c; induction a as [a IHa] using (well_founded_induction lt_wf).
  intros b; induction b as [b IHb] using (well_founded_induction lt_wf).
  intros c; induction c as [c IHc] using (well_founded_induction lt_wf).
  constructor; intros [[a' b'] c'] [H|[-> [H|[-> H]]]]; auto.
Qed.

Lemma lex_irrefl x : ~ lex x x.
Proof. destruct x as [[a b] c]; cbn; lia. Qed.

Section fairness.
Context {S T : Type} (step : T -> S -> S -> Prop) (env : S -> S -> Prop).

(** An infinite run: at each time a thread or the environment moves. *)
Record run := mkRun { at_time : nat -> S; moves : nat -> option T }.

Definition valid (r : run) : Prop :=
  forall n, match moves r n with
            | Some t => step t (at_time r n) (at_time r (Datatypes.S n))
            | None => env (at_time r n) (at_time r (Datatypes.S n)) \/
                      at_time r n = at_time r (Datatypes.S n)
            end.

Definition enabled (t : T) (s : S) : Prop := exists s', step t s s'.

Definition fair (t : T) (r : run) : Prop :=
  forall n, exists m, (n <= m)%nat /\ (moves r m = Some t \/ ~ enabled t (at_time r m)).

(** What shows that the goal is reached: until it is, some thread is enabled and
    brings it closer, and no other step undoes that. *)
Class Progress (inv goal : S -> Prop) (measure : S -> rank) (helpful : S -> T) : Prop := {
  helpful_enabled s : inv s -> goal s \/ enabled (helpful s) s;
  helpful_closer s s' : inv s -> ~ goal s -> step (helpful s) s s' -> lex (measure s') (measure s);
  others_harmless t s s' : inv s -> ~ goal s -> step t s s' ->
    lex (measure s') (measure s) \/ measure s' = measure s /\ helpful s' = helpful s;
  env_harmless s s' : inv s -> ~ goal s -> env s s' ->
    lex (measure s') (measure s) \/ measure s' = measure s /\ helpful s' = helpful s;
  inv_kept t s s' : inv s -> step t s s' -> inv s';
  inv_kept_env s s' : inv s -> env s s' -> inv s'
}.

Section reaches.
Context {inv goal : S -> Prop} {measure : S -> rank} {helpful : S -> T}.
Context {HP : Progress inv goal measure helpful} `{forall s, Decision (goal s)}.
Variables (r : run) (Hr : valid r) (Hf : forall t, fair t r).

Lemma inv_later n : inv (at_time r 0) -> inv (at_time r n).
Proof.
  intros Hi; induction n as [|n IH]; [done|]; specialize (Hr n).
  destruct (moves r n) as [t|]; [by eapply inv_kept|].
  destruct Hr as [He|<-]; [by eapply inv_kept_env|done].
Qed.

(** Until the goal is reached, a step comes closer or changes neither the
    measure nor the helpful thread. *)
Lemma one_step n : inv (at_time r n) -> ~ goal (at_time r n) ->
  lex (measure (at_time r (Datatypes.S n))) (measure (at_time r n)) \/
  measure (at_time r (Datatypes.S n)) = measure (at_time r n) /\
  helpful (at_time r (Datatypes.S n)) = helpful (at_time r n) /\
  moves r n <> Some (helpful (at_time r n)).
Proof.
  intros Hi Hg; specialize (Hr n); destruct (moves r n) as [t|].
  - destruct (others_harmless t _ _ Hi Hg Hr) as [?|[E1 E2]]; [by left|].
    right; split_and!; [done..|]; intros [= ->].
    pose proof (helpful_closer _ _ Hi Hg Hr) as Hl; rewrite E1 in Hl.
    by apply lex_irrefl in Hl.
  - destruct Hr as [He|E]; [|right; by rewrite <- E].
    destruct (env_harmless _ _ Hi Hg He) as [?|[E1 E2]]; [by left|by right].
Qed.

Lemma closer n m : inv (at_time r 0) -> (n <= m)%nat ->
  (exists k, (n <= k)%nat /\ (goal (at_time r k) \/ lex (measure (at_time r k)) (measure (at_time r n)))) \/
  measure (at_time r m) = measure (at_time r n) /\ helpful (at_time r m) = helpful (at_time r n) /\
  ~ goal (at_time r m).
Proof.
  intros Hi Hm; induction Hm as [|m Hm IH].
  { destruct (decide (goal (at_time r n))); [left; exists n; split; [lia|by left]|by right]. }
  destruct IH as [?|(E1 & E2 & Hg)]; [by left|].
  destruct (decide (goal (at_time r (Datatypes.S m)))) as [?|Hg'];
    [left; exists (Datatypes.S m); split; [lia|by left]|].
  destruct (one_step m (inv_later m Hi) Hg) as [Hl|(E3 & E4 & _)].
  - left; exists (Datatypes.S m); split; [lia|right]; by rewrite <- E1.
  - right; by rewrite E3, E4.
Qed.

(** Every fair run reaches the goal. *)
Lemma reaches : inv (at_time r 0) -> exists n, goal (at_time r n).
Proof.
  intros Hi; enough (forall k n, measure (at_time r n) = k -> exists m, goal (at_time r m)) as Hk
    by (by eapply (Hk _ 0%nat)).
  intros k; induction k as [k IH] using (well_founded_induction lex_wf); intros n En.
  destruct (Hf (helpful (at_time r n)) n) as (m & Hm & Ht).
  destruct (closer n m Hi Hm) as [(k' & _ & [Hg|Hl])|(E1 & E2 & Hg)]; [eauto|rewrite En in Hl; eauto|].
  destruct (helpful_enabled _ (inv_later m Hi)) as [?|He]; [eauto|].
  destruct Ht as [Ht|Ht]; [|by rewrite E2 in He].
  destruct (one_step m (inv_later m Hi) Hg) as [Hl|(_ & _ & Hn)].
  - rewrite E1, En in Hl; by eapply IH.
  - by rewrite E2 in Hn.
Qed.
End reaches.

(** A response: from a time at which [P] holds, [G] follows.  Until then the
    helpful thread is enabled and its moves bring [G] closer, and no other move
    undoes that.  The two are statements about a time, so that they can also say
    which move is made then, and the conditions may use what is known of the
    run. *)
Section response.
Context (r : run) (Hf : forall t, fair t r) (P G : nat -> Prop) (measure : nat -> rank) (helpful : nat -> T).
Context (Hen : forall n, P n -> enabled (helpful n) (at_time r n)).
Context (Hmove : forall n, P n ->
  G n \/ P (Datatypes.S n) /\ (lex (measure (Datatypes.S n)) (measure n) \/
    moves r n <> Some (helpful n) /\ measure (Datatypes.S n) = measure n /\
    helpful (Datatypes.S n) = helpful n)).

(** Up to a later time nothing happens, or it comes closer. *)
Lemma response_wait n m : P n -> (n <= m)%nat ->
  (exists k, (n <= k)%nat /\ (G k \/ P k /\ lex (measure k) (measure n))) \/
  P m /\ measure m = measure n /\ helpful m = helpful n.
Proof.
  intros Hn Hm; induction Hm as [|m Hm IH]; [by right|].
  destruct IH as [?|(Hp & E1 & E2)]; [by left|].
  destruct (Hmove m Hp) as [?|[Hp' [Hl|(_ & E3 & E4)]]].
  - left; exists m; split; [lia|by left].
  - left; exists (Datatypes.S m); split; [lia|right]; by rewrite <- E1.
  - right; by rewrite E3, E4.
Qed.

Lemma response n : P n -> exists m, (n <= m)%nat /\ G m.
Proof.
  remember (measure n) as k eqn:Ek; revert n Ek.
  induction k as [k IH] using (well_founded_induction lex_wf); intros n -> Hn.
  assert (forall k, (n <= k)%nat -> P k -> lex (measure k) (measure n) -> exists m, (n <= m)%nat /\ G m) as Hgo.
  { intros k Hk Hp Hl; destruct (IH _ Hl k eq_refl Hp) as (m & Hm & ?); exists m; split; [lia|done]. }
  destruct (Hf (helpful n) n) as (m & Hm & Ht).
  destruct (response_wait n m Hn Hm) as [(k & Hk & [?|[Hp Hl]])|(Hp & E1 & E2)]; [by exists k|by apply (Hgo k)|].
  destruct Ht as [Ht|Ht]; [|destruct Ht; rewrite <- E2; by apply Hen].
  destruct (Hmove m Hp) as [?|[Hp' [Hl|[[] _]]]]; [by exists m| |by rewrite E2].
  apply (Hgo (Datatypes.S m)); [lia|done|by rewrite <- E1].
Qed.
End response.
End fairness.

Arguments run : clear implicits.

(** ** Runs seen from a later time, and through a part of the state *)

Definition shift {S T} (n : nat) (r : run S T) : run S T :=
  mkRun (fun k => at_time r (n + k)) (fun k => moves r (n + k)).

Lemma valid_shift {S T} (step : T -> S -> S -> Prop) env n r :
  valid step env r -> valid step env (shift n r).
Proof. intros Hr k; cbn; rewrite Nat.add_succ_r; apply Hr. Qed.

Lemma fair_shift {S T} (step : T -> S -> S -> Prop) t n r :
  fair step t r -> fair step t (shift n r).
Proof.
  intros Hf k; destruct (Hf (n + k)%nat) as (m & Hm & Ht); exists (m - n)%nat; split; [lia|].
  cbn; by replace (n + (m - n))%nat with m by lia.
Qed.

(** A part of the state, and the thread of the part that moves when a thread of
    the whole does; the part stands still when that is none. *)
Definition project {S S' T T'} (view : S -> S') (role : S -> T -> option T') (r : run S T) : run S' T' :=
  mkRun (fun n => view (at_time r n)) (fun n => moves r n ≫= role (at_time r n)).

Section project.
Context {S S' T T' : Type} (step : T -> S -> S -> Prop) (env : S -> S -> Prop).
Context (step' : T' -> S' -> S' -> Prop) (env' : S' -> S' -> Prop).
Context (view : S -> S') (role : S -> T -> option T') (r : run S T).

Lemma valid_project : valid step env r ->
  (forall n t, moves r n = Some t -> step t (at_time r n) (at_time r (Datatypes.S n)) ->
     match role (at_time r n) t with
     | Some t' => step' t' (view (at_time r n)) (view (at_time r (Datatypes.S n)))
     | None => view (at_time r n) = view (at_time r (Datatypes.S n))
     end) ->
  (forall n, env (at_time r n) (at_time r (Datatypes.S n)) ->
     env' (view (at_time r n)) (view (at_time r (Datatypes.S n))) \/
     view (at_time r n) = view (at_time r (Datatypes.S n))) ->
  valid step' env' (project view role r).
Proof.
  intros Hr Hs He n; specialize (Hr n); cbn; destruct (moves r n) as [t|] eqn:Et; cbn.
  - specialize (Hs n t Et Hr); destruct (role _ t); [done|by right].
  - destruct Hr as [Hr|Hr]; [by apply He|right; by rewrite Hr].
Qed.

(** The part's thread is enabled only when the thread of the whole that plays it
    is. *)
Lemma fair_project `{EqDecision T'} t t' : fair step t r ->
  (forall n, enabled step' t' (view (at_time r n)) ->
     enabled step t (at_time r n) /\ role (at_time r n) t = Some t') ->
  fair step' t' (project view role r).
Proof.
  intros Hf He n; destruct (Hf n) as (m & Hm & Ht); exists m; split; [done|]; cbn.
  destruct (decide (role (at_time r m) t = Some t')) as [Er|Er]; [|right; intros Hn; by destruct (He m Hn)].
  destruct Ht as [Ht|Ht]; [left; by rewrite Ht|right; intros Hn; by apply Ht, He].
Qed.
End project.

(** ** Runs that take the listed steps and then do nothing *)

Fixpoint chained {S T} (step : T -> S -> S -> Prop) (s : S) (path : list (T * S)) : Prop :=
  match path with
  | [] => True
  | (t, s') :: path => step t s s' /\ chained step s' path
  end.

Definition final {S T} (s : S) (path : list (T * S)) : S := List.last (map snd path) s.

Definition finite_run {S T} (s : S) (path : list (T * S)) : run S T :=
  mkRun (fun n => final s (take n path)) (fun n => fst <$> path !! n).

Lemma final_cons {S T} (s s' : S) (t : T) path : final s ((t, s') :: path) = final s' path.
Proof.
  unfold final; cbn; destruct (map snd path) as [|x l] eqn:E; [done|].
  clear E; revert x; induction l as [|y l IH]; intros x; [done|exact (IH y)].
Qed.

Lemma finite_run_valid {S T} (step : T -> S -> S -> Prop) env s path :
  chained step s path -> valid step env (finite_run s path).
Proof.
  intros Hc n; revert s n Hc; induction path as [|[t s'] path IH]; intros s n Hc.
  - right; cbn; by rewrite take_nil.
  - destruct Hc as [Ht Hc]; destruct n as [|n]; [exact Ht|].
    specialize (IH s' n Hc); cbn [moves at_time finite_run lookup list_lookup] in *.
    rewrite !firstn_cons, !final_cons; exact IH.
Qed.

Lemma finite_run_fair {S T} (step : T -> S -> S -> Prop) s path t :
  ~ enabled step t (final s path) -> fair step t (finite_run s path).
Proof.
  intros Ht n; exists (n + length path)%nat; split; [lia|right]; cbn.
  by rewrite take_ge by lia.
Qed.

(** ** Runs that take the steps of [first] and then those of [loop] over and over *)

Section lasso.
Context {S T : Type} (s : S) (first loop : list (T * S)).
Let p := length first.
Let l := length loop.
Let path := first ++ loop.

Definition lasso_index (n : nat) : nat := if (n <? p)%nat then n else (p + (n - p) mod l)%nat.
Definition lasso_run : run S T :=
  mkRun (fun n => final s (take (lasso_index n) path)) (fun n => fst <$> path !! lasso_index n).

Context (Hl : (0 < l)%nat) (Hback : final s path = final s first).

Lemma lasso_index_lt n : (lasso_index n < p + l)%nat.
Proof.
  unfold lasso_index; destruct (Nat.ltb_spec n p); [lia|].
  pose proof (Nat.mod_upper_bound (n - p) l); lia.
Qed.

Lemma lasso_next n : at_time lasso_run (1 + n) = final s (take (1 + lasso_index n) path).
Proof.
  cbn [at_time lasso_run]; unfold lasso_index.
  destruct (Nat.ltb_spec (1 + n) p), (Nat.ltb_spec n p); try lia; [done|..].
  - replace (1 + n)%nat with p by lia; by rewrite Nat.sub_diag, Nat.Div0.mod_0_l, Nat.add_0_r.
  - replace (1 + n - p)%nat with (1 + (n - p))%nat by lia; set (k := (n - p)%nat).
    pose proof (Nat.div_mod_eq k l); pose proof (Nat.mod_upper_bound k l ltac:(lia)).
    destruct (decide (1 + k mod l = l)%nat) as [E|E].
    + replace ((1 + k) mod l)%nat with 0%nat by (apply (Nat.mod_unique _ _ (1 + k / l)); nia).
      replace (1 + (p + k mod l))%nat with (p + l)%nat by lia.
      rewrite Nat.add_0_r; unfold path, p at 1; rewrite take_app_length, take_ge; [done|].
      by rewrite length_app.
    + replace ((1 + k) mod l)%nat with (1 + k mod l)%nat by (apply (Nat.mod_unique _ _ (k / l)); nia).
      f_equal; f_equal; lia.
Qed.

(** What holds of every step of the two lists holds at every time. *)
Lemma lasso_all (Q : S -> option T -> S -> Prop) :
  (forall i, (i < p + l)%nat -> Q (final s (take i path)) (fst <$> path !! i) (final s (take (1 + i) path))) ->
  forall n, Q (at_time lasso_run n) (moves lasso_run n) (at_time lasso_run (1 + n)).
Proof. intros HQ n; rewrite lasso_next; apply HQ, lasso_index_lt. Qed.

Lemma lasso_valid step env : chained step s path -> valid step env lasso_run.
Proof.
  intros Hc n; apply (lasso_all (fun s t s' => match t with
    | Some t => step t s s' | None => env s s' \/ s = s' end)); intros i _.
  exact (finite_run_valid step env s path Hc i).
Qed.

Lemma lasso_fair step t : (exists i, (p <= i < p + l)%nat /\
  (fst <$> path !! i = Some t \/ ~ enabled step t (final s (take i path)))) -> fair step t lasso_run.
Proof.
  intros (i & Hi & Ht) n; exists (p + (n * l + (i - p)))%nat; split; [nia|]; cbn.
  replace (lasso_index (p + (n * l + (i - p)))) with i; [done|]; unfold lasso_index.
  destruct (Nat.ltb_spec (p + (n * l + (i - p))) p); [lia|].
  replace (p + (n * l + (i - p)) - p)%nat with (i - p + n * l)%nat by lia.
  rewrite Nat.Div0.mod_add, Nat.mod_small by lia; lia.
Qed.
End lasso.

(** ** Connections

    What a server sees of the connection to its client: how many more messages
    can be written without blocking, how many bytes wait to be read, and whether
    the peer has ended it. *)
Record peer := mkPeer { room : nat; avail : nat; hung_up : bool }.

(** Writing a message: without a client nothing is written; a connection with
    room takes the message; after its end the write fails and the server drops
    the client.  In all other cases the writer is blocked. *)
Inductive sends : option peer -> option peer -> Prop :=
  | send_none : sends None None
  | send_taken n k h : sends (Some (mkPeer (S n) k h)) (Some (mkPeer n k h))
  | send_failed n k : sends (Some (mkPeer n k true)) None.

(** The client takes some of what was written. *)
Inductive drains : option peer -> option peer -> Prop :=
  | drain r r' a : (r <= r')%nat -> drains (Some (mkPeer r a false)) (Some (mkPeer (S r') a false)).

(** Where a writer is blocked, and where a reader is. *)
Definition is_full (k : option peer) : bool :=
  match k with Some (mkPeer 0 _ false) => true | _ => false end.
Definition is_silent (k : option peer) : bool :=
  match k with Some (mkPeer _ 0 false) => true | _ => false end.

Lemma sends_enabled k : is_full k = false -> exists k', sends k k'.
Proof. destruct k as [[[|n] a []]|]; try done; eexists; constructor. Qed.

Lemma drains_enabled k : is_full k = true -> exists k', drains k k'.
Proof. destruct k as [[[|n] a []]|]; try done; eexists; by apply (drain 0 0). Qed.

(** The cases of a write or a read of the client. *)
Ltac peer_cases :=
  repeat match goal with
  | H : sends _ _ |- _ => inversion H; clear H; subst
  | H : drains _ _ |- _ => inversion H; clear H; subst
  end.

End Fairness.
