(* ===== verification/Control.v ===== *)
(** * Code that follows a model of its control

    V1Shutdown and V2Shutdown say where the threads of the servers are and what
    they wait for; the functions they run are in V1Server and V2Accept.  This
    file says what it means that a function follows such a model: whatever the
    environment answers, its calls are those of a path of the model's thread,
    between whose steps others may move. *)

From S2P Require Import Prelude.

Module Control.

Section control.
Context {S C E : Type} (calls : S -> list E).
Context (acts : C -> list E -> C -> Prop) (elsewhere : C -> C -> Prop).

(** A path of the thread, with the calls it makes. *)
Inductive path : C -> list E -> C -> Prop :=
  | path_end c : path c [] c
  | path_elsewhere c c1 t c2 : elsewhere c c1 -> path c1 t c2 -> path c t c2
  | path_acts c t1 c1 t c2 : acts c t1 c1 -> path c1 t c2 -> path c (t1 ++ t) c2.

Lemma path_app c1 t c2 u c3 : path c1 t c2 -> path c2 u c3 -> path c1 (t ++ u) c3.
Proof.
  induction 1 as [c|c c' t c2 He _ IH|c t1 c' t c2 Ha _ IH]; intros Hu; [done|..].
  - eapply path_elsewhere; eauto.
  - rewrite <- app_assoc; eapply path_acts; eauto.
Qed.

Lemma path_act c t c' : acts c t c' -> path c t c'.
Proof. intros Ha; rewrite <- (app_nil_r t); eapply path_acts; [done|constructor]. Qed.

(** What [m] does from [s] when it returns: the model's thread gets from [c] to a
    state in which [Q] holds with the same calls. *)
Definition follows {A} (m : ST S A) (s : S) (c : C) (Q : A -> S -> C -> Prop) : Prop :=
  match m s with
  | Ret a s' => exists t c', calls s' = calls s ++ t /\ path c t c' /\ Q a s' c'
  | _ => True
  end.

Lemma follows_ret {A} (a : A) s c (Q : A -> S -> C -> Prop) : Q a s c -> follows (st_ret a) s c Q.
Proof. intros HQ; exists [], c; rewrite app_nil_r; split_and!; [done|constructor|done]. Qed.

Lemma follows_gets {A B} (f : S -> A) (k : A -> ST S B) s c (Q : B -> S -> C -> Prop) :
  follows (k (f s)) s c Q -> follows (let* a := gets f in k a) s c Q.
Proof. done. Qed.

(** The object changes, and no call is made. *)
Lemma follows_modify {B} (f : S -> S) (k : unit -> ST S B) s c (Q : B -> S -> C -> Prop) :
  calls (f s) = calls s -> follows (k tt) (f s) c Q -> follows (let* a := modify f in k a) s c Q.
Proof. unfold follows, st_bind; cbn; by intros ->. Qed.

(** After a path of the thread, the code goes on from [s1]. *)
Lemma follows_after {A} (m m' : ST S A) s s1 c t c1 (Q : A -> S -> C -> Prop) : m s = m' s1 ->
  calls s1 = calls s ++ t -> path c t c1 -> follows m' s1 c1 Q -> follows m s c Q.
Proof.
  unfold follows; intros -> Et Hp; destruct (m' s1) as [a s2| | |]; try done.
  intros (u & c2 & Eu & Hu & HQ); exists (t ++ u), c2; split_and!; [|by eapply path_app|done].
  by rewrite Eu, Et, app_assoc.
Qed.

(** One step of the thread, after others have moved. *)
Lemma path_step c t c1 c2 : rtc elsewhere c c1 -> acts c1 t c2 -> path c t c2.
Proof.
  intros He Ha; induction He as [c|c c' c'' H _ IH]; [by apply path_act|eapply path_elsewhere; eauto].
Qed.

Lemma follows_step {A} (m : ST S A) s c (Q : A -> S -> C -> Prop) a s' t c1 c2 : m s = Ret a s' ->
  calls s' = calls s ++ t -> rtc elsewhere c c1 -> acts c1 t c2 -> Q a s' c2 -> follows m s c Q.
Proof.
  intros Em Et He Ha HQ; eapply (follows_after m (st_ret a)); [exact Em|done|by eapply path_step|].
  by apply follows_ret.
Qed.

Lemma follows_bind_eq {A B} (m : ST S A) (k : A -> ST S B) s c (P : A -> S -> C -> Prop)
    (Q : B -> S -> C -> Prop) :
  follows m s c P -> (forall a s' c', m s = Ret a s' -> P a s' c' -> follows (k a) s' c' Q) ->
  follows (let* a := m in k a) s c Q.
Proof.
  unfold follows, st_bind; destruct (m s) as [a s1| | |]; try done.
  intros (t & c1 & Et & Hp & HP) Hk; specialize (Hk a s1 c1 eq_refl HP).
  destruct (k a s1) as [b s2| | |]; try done.
  destruct Hk as (u & c2 & Eu & Hu & HQ); exists (t ++ u), c2; split_and!; [|by eapply path_app|done].
  by rewrite Eu, Et, app_assoc.
Qed.

Lemma follows_bind {A B} (m : ST S A) (k : A -> ST S B) s c (P : A -> S -> C -> Prop)
    (Q : B -> S -> C -> Prop) :
  follows m s c P -> (forall a s' c', P a s' c' -> follows (k a) s' c' Q) ->
  follows (let* a := m in k a) s c Q.
Proof. intros Hm Hk; eapply follows_bind_eq; [exact Hm|]; eauto. Qed.

Lemma follows_weaken {A} (m : ST S A) s c (P Q : A -> S -> C -> Prop) :
  follows m s c P -> (forall a s' c', P a s' c' -> Q a s' c') -> follows m s c Q.
Proof.
  unfold follows; intros Hm HPQ; destruct (m s); try done.
  destruct Hm as (t & c' & Et & Hp & HP); eauto 6.
Qed.
End control.
End Control.
