(* ===== verification/V2Shutdown.v ===== *)
(** * The OTD-IPC v2 server: stopping

    [Stop] closes the listening socket, then waits for the ping thread and for
    the accept thread, each with a stop token of its own.  This file models where
    the three threads are, which of their calls block and what unblocks them:
    [accept] waits for a client or for the socket to be closed, [recv] for bytes
    or for the end of the connection, [send] for room in the connection, a join
    for the end of the thread.  What is sent and received is in V2Threads. *)

From S2P Require Import Prelude Fairness.
Import Fairness.

Module V2Shutdown.

(** Where the thread that calls [Stop] is. *)
Inductive stopper := CloseListen | AskPing | JoinPing | AskAccept | JoinAccept | Stopped.

(** [PingLoop]: the loop condition, the sleep, the second check, the send. *)
Inductive pinger := PCheck | PSleep | PCheckAgain | PSend | PExited.

(** [AcceptLoop] and [AcceptOnce]: the loop condition, [accept], the two sends,
    the condition of the operational phase, [ReadNBytes] with the number of bytes
    it still wants, for a header or for a body, and [mClientSocket.reset()]. *)
Inductive accepting :=
  | ACheck
  | AAccept
  | AHello
  | ADevice
  | AServe
  | ARecv (header : bool) (toRead : nat)
  | AReset
  | AExited.

Record ctl := mkCtl {
  main_at : stopper;
  ping_at : pinger;
  accept_at : accepting;
  listening : bool;            (* mListenSocket *)
  waiting : nat;               (* clients that wait to be accepted *)
  client : option peer;        (* mClientSocket *)
  has_device : bool;           (* mDevice.has_value() *)
  ping_stop : bool;
  accept_stop : bool
}.

Definition set_main m c := mkCtl m (ping_at c) (accept_at c) (listening c) (waiting c) (client c)
  (has_device c) (ping_stop c) (accept_stop c).
Definition set_ping p c := mkCtl (main_at c) p (accept_at c) (listening c) (waiting c) (client c)
  (has_device c) (ping_stop c) (accept_stop c).
Definition set_accept a c := mkCtl (main_at c) (ping_at c) a (listening c) (waiting c) (client c)
  (has_device c) (ping_stop c) (accept_stop c).
Definition set_listening b c := mkCtl (main_at c) (ping_at c) (accept_at c) b (waiting c) (client c)
  (has_device c) (ping_stop c) (accept_stop c).
Definition set_waiting n c := mkCtl (main_at c) (ping_at c) (accept_at c) (listening c) n (client c)
  (has_device c) (ping_stop c) (accept_stop c).
Definition set_client k c := mkCtl (main_at c) (ping_at c) (accept_at c) (listening c) (waiting c) k
  (has_device c) (ping_stop c) (accept_stop c).
Definition ask_ping c := mkCtl (main_at c) (ping_at c) (accept_at c) (listening c) (waiting c) (client c)
  (has_device c) true (accept_stop c).
Definition ask_accept c := mkCtl (main_at c) (ping_at c) (accept_at c) (listening c) (waiting c) (client c)
  (has_device c) (ping_stop c) true.

(** [Stop]: [mListenSocket.reset()], then [mPingThread = {}] and
    [mAcceptThread = {}], each of which requests the stop and joins. *)
Inductive main_step : ctl -> ctl -> Prop :=
  | main_close c : main_at c = CloseListen -> main_step c (set_main AskPing (set_listening false c))
  | main_ask_ping c : main_at c = AskPing -> main_step c (set_main JoinPing (ask_ping c))
  | main_join_ping c : main_at c = JoinPing -> ping_at c = PExited -> main_step c (set_main AskAccept c)
  | main_ask_accept c : main_at c = AskAccept -> main_step c (set_main JoinAccept (ask_accept c))
  | main_join_accept c : main_at c = JoinAccept -> accept_at c = AExited ->
      main_step c (set_main Stopped c).

Inductive ping_step : ctl -> ctl -> Prop :=
  | ping_check c : ping_at c = PCheck ->
      ping_step c (set_ping (if ping_stop c then PExited else PSleep) c)
  | ping_sleep c : ping_at c = PSleep -> ping_step c (set_ping PCheckAgain c)
  | ping_check_again c : ping_at c = PCheckAgain ->
      ping_step c (set_ping (if ping_stop c then PExited
                             else match client c with Some _ => PSend | None => PCheck end) c)
  | ping_send c k : ping_at c = PSend -> sends (client c) k ->
      ping_step c (set_ping PCheck (set_client k c)).

(** [accept] fails when the socket is closed, and may fail for a client that has
    gone again; [recv] of at most [toRead] bytes delivers some that are there, or
    the end. *)
Inductive accept_step : ctl -> ctl -> Prop :=
  | accept_check c : accept_at c = ACheck ->
      accept_step c (if accept_stop c then set_accept AExited (set_listening false c)
                     else set_accept AAccept c)
  | accept_failed c : accept_at c = AAccept -> listening c = false ->
      accept_step c (set_accept ACheck c)
  | accept_aborted c n : accept_at c = AAccept -> listening c = true -> waiting c = S n ->
      accept_step c (set_accept ACheck (set_waiting n c))
  | accept_client c n room avail : accept_at c = AAccept -> listening c = true -> waiting c = S n ->
      accept_step c (set_accept AHello
        (set_client (Some (mkPeer (S room) avail false)) (set_waiting n c)))
  | accept_hello c k : accept_at c = AHello -> sends (client c) k ->
      accept_step c (set_accept ADevice (set_client k c))
  | accept_device c k : accept_at c = ADevice ->
      (if has_device c then sends (client c) k else k = client c) ->
      accept_step c (set_accept AServe (set_client k c))
  | accept_serve c : accept_at c = AServe ->
      accept_step c (set_accept (if accept_stop c then AReset else ARecv true 12) c)
  | accept_recv c header toRead n r a h : accept_at c = ARecv header (S toRead + n) ->
      client c = Some (mkPeer r (S toRead + a) h) ->
      accept_step c (set_accept (ARecv header n) (set_client (Some (mkPeer r a h)) c))
  | accept_closed c header n r : accept_at c = ARecv header (S n) ->
      client c = Some (mkPeer r 0 true) -> accept_step c (set_accept ACheck c)
  | accept_dropped c header n : accept_at c = ARecv header (S n) -> client c = None ->
      accept_step c (set_accept ACheck c)
  | accept_header c body : accept_at c = ARecv true 0 -> accept_step c (set_accept (ARecv false body) c)
  | accept_body c : accept_at c = ARecv false 0 -> accept_step c (set_accept AServe c)
  | accept_reset c : accept_at c = AReset -> accept_step c (set_accept ACheck (set_client None c)).

(** The client takes what it was sent, and it answers: it sends something or ends
    the connection. *)
Inductive drain_step : ctl -> ctl -> Prop :=
  | client_reads c k : drains (client c) k -> drain_step c (set_client k c).
Inductive answer_step : ctl -> ctl -> Prop :=
  | client_sends c r a n : client c = Some (mkPeer r a false) ->
      answer_step c (set_client (Some (mkPeer r (a + S n) false)) c)
  | client_hangs_up c r a : client c = Some (mkPeer r a false) ->
      answer_step c (set_client (Some (mkPeer r a true)) c).

Inductive thread := TMain | TPing | TAccept | TDrain | TAnswer.
#[export] Instance thread_eq : EqDecision thread.
Proof. solve_decision. Defined.

Definition tstep (t : thread) : ctl -> ctl -> Prop :=
  match t with
  | TMain => main_step
  | TPing => ping_step
  | TAccept => accept_step
  | TDrain => drain_step
  | TAnswer => answer_step
  end.

(** Another client comes. *)
Inductive arrives : ctl -> ctl -> Prop :=
  | client_arrives c : arrives c (set_waiting (S (waiting c)) c).

(** ** How far [Stop] still has to go *)

Definition full (c : ctl) : bool := is_full (client c).
Definition silent (c : ctl) : bool := is_silent (client c).

Definition phase_rank (m : stopper) : nat :=
  match m with
  | CloseListen => 5 | AskPing => 4 | JoinPing => 3 | AskAccept => 2 | JoinAccept => 1 | Stopped => 0
  end.
Definition ping_rank (p : pinger) : nat :=
  match p with PExited => 0 | PCheck | PCheckAgain => 3 | PSleep | PSend => 6 end.
Definition sends_left (a : accepting) : nat :=
  match a with AHello => 2 | ADevice => 1 | _ => 0 end.
Definition accept_rank (a : accepting) : nat :=
  match a with
  | AExited => 0 | ACheck => 1 | AAccept | AReset => 2 | AServe => 3
  | ARecv false _ => 4 | ARecv true _ => 5 | ADevice => 6 | AHello => 7
  end.

Definition is_exited (p : pinger) : bool := match p with PExited => true | _ => false end.
Definition at_send (p : pinger) : bool := match p with PSend => true | _ => false end.

(** Whether the accept thread waits for the client, and for which of its steps. *)
Definition accept_waits (c : ctl) : option thread :=
  match accept_at c with
  | AHello => if full c then Some TDrain else None
  | ADevice => if has_device c && full c then Some TDrain else None
  | ARecv _ (S _) => if silent c then Some TAnswer else None
  | _ => None
  end.

Definition flag (b : bool) : nat := if b then 1 else 0.
Definition wanted (a : accepting) : nat := match a with ARecv _ n => n | _ => 0 end.

Definition measure (c : ctl) : rank :=
  match main_at c with
  | JoinPing =>
      if is_exited (ping_at c) then (3, 0, 0)
      else (3, 0, ping_rank (ping_at c) + 2 * sends_left (accept_at c) +
                  flag (at_send (ping_at c) && full c))
  | JoinAccept => (1, accept_rank (accept_at c), 2 * wanted (accept_at c) + match accept_waits c with Some _ => 1 | None => 0 end)
  | m => (phase_rank m, 0, 0)
  end%nat.

Definition helpful (c : ctl) : thread :=
  match main_at c with
  | JoinPing =>
      if is_exited (ping_at c) then TMain
      else if at_send (ping_at c) && full c then TDrain else TPing
  | JoinAccept =>
      match accept_at c, accept_waits c with
      | AExited, _ => TMain
      | _, Some t => t
      | _, None => TAccept
      end
  | _ => TMain
  end.

(** What holds from the call of [Stop] on. *)
Record inv (c : ctl) : Prop := {
  inv_listening : main_at c <> CloseListen -> listening c = false;
  inv_ping_stop : match main_at c with CloseListen | AskPing => True | _ => ping_stop c = true end;
  inv_pinger : match main_at c with
               | AskAccept | JoinAccept | Stopped => ping_at c = PExited
               | _ => True
               end;
  inv_accept_stop : main_at c = JoinAccept -> accept_stop c = true;
  inv_acceptor : main_at c = Stopped -> accept_at c = AExited
}.

Definition stopped (c : ctl) : Prop := main_at c = Stopped.
#[export] Instance stopped_dec c : Decision (stopped c).
Proof. unfold stopped; destruct (main_at c); by (left + right). Defined.

(** Case analysis of a step, with the state taken apart. *)
Ltac ctl_step :=
  repeat match goal with
  | H : tstep ?t _ _ |- _ => destruct t; cbn in H
  | H : main_step _ _ |- _ => destruct H
  | H : ping_step _ _ |- _ => destruct H
  | H : accept_step _ _ |- _ => destruct H
  | H : drain_step _ _ |- _ => destruct H
  | H : answer_step _ _ |- _ => destruct H
  | H : arrives _ _ |- _ => destruct H
  end;
  repeat match goal with c : ctl |- _ => destruct c as [mp pp ap li wa cl hd ps sa] end;
  cbn in *; simplify_eq.

Lemma v2_inv_step t c c' : inv c -> tstep t c c' -> inv c'.
Proof.
  intros [H1 H2 H3 H4 H5] Ht; ctl_step; try (by split; cbn; auto).
  all: try (by destruct mp; try specialize (H5 eq_refl); split; cbn in *; simplify_eq; auto).
  all: destruct sa, mp; try specialize (H5 eq_refl); split; cbn in *; simplify_eq; by auto.
Qed.

Lemma inv_arrives c c' : inv c -> arrives c c' -> inv c'.
Proof. intros [H1 H2 H3 H4 H5] Ht; ctl_step; by split. Qed.

Lemma drain_enabled c : full c = true -> enabled tstep TDrain c.
Proof.
  intros Hf; destruct (drains_enabled _ Hf) as [k Hk]; eexists; by apply client_reads.
Qed.

Lemma answer_enabled c : silent c = true -> enabled tstep TAnswer c.
Proof.
  unfold silent, is_silent; destruct (client c) as [[n [|a] []]|] eqn:E; try done.
  intros _; eexists; by apply (client_hangs_up _ n 0).
Qed.

Lemma ping_enabled c : ping_at c <> PExited -> at_send (ping_at c) && full c = false ->
  enabled tstep TPing c.
Proof.
  destruct (ping_at c) eqn:Ep; try done; intros _ Hf.
  - eexists; by apply ping_check.
  - eexists; by apply ping_sleep.
  - eexists; by apply ping_check_again.
  - destruct (sends_enabled _ Hf) as [k Hk]; eexists; by eapply ping_send.
Qed.

Lemma accept_enabled c : accept_at c <> AExited -> accept_waits c = None -> listening c = false ->
  enabled tstep TAccept c.
Proof.
  unfold accept_waits; intros Ha Hw Hl; destruct (accept_at c) as [| | | | |h [|n]| |] eqn:Ep; try done.
  - eexists; by apply accept_check.
  - eexists; by apply accept_failed.
  - destruct (full c) eqn:Ef; [done|].
    destruct (sends_enabled _ Ef) as [k Hk]; eexists; by eapply accept_hello.
  - destruct (has_device c) eqn:Ed; [|eexists; apply accept_device; [done|by rewrite Ed]].
    destruct (full c) eqn:Ef; [done|].
    destruct (sends_enabled _ Ef) as [k Hk]; eexists; apply accept_device; [done|by rewrite Ed].
  - eexists; by apply accept_serve.
  - destruct h; eexists; [by apply (accept_header _ 0)|by apply accept_body].
  - unfold silent, is_silent in Hw; destruct (client c) as [[r [|a] []]|] eqn:Ec; try done.
    + eexists; by eapply accept_closed.
    + eexists; by apply (accept_recv _ h 0 n r a true).
    + eexists; by apply (accept_recv _ h 0 n r a false).
    + eexists; by eapply accept_dropped.
  - eexists; by apply accept_reset.
Qed.

(** Until [Stop] has returned, some thread can bring it closer. *)
Lemma some_enabled c : inv c -> stopped c \/ enabled tstep (helpful c) c.
Proof.
  intros [H1 H2 H3 H4 _]; unfold stopped, helpful; destruct (main_at c) eqn:Em; [right..|by left].
  - eexists; by apply main_close.
  - eexists; by apply main_ask_ping.
  - destruct (is_exited (ping_at c)) eqn:Ex; [eexists; apply main_join_ping; by destruct (ping_at c)|].
    destruct (at_send (ping_at c) && full c) eqn:Ef; [by apply drain_enabled; apply andb_prop in Ef as []|].
    apply ping_enabled; [|done]; intros E; by rewrite E in Ex.
  - eexists; by apply main_ask_accept.
  - destruct (accept_at c) as [| | | | |h n| |] eqn:Ea; [..|eexists; by apply main_join_accept].
    all: destruct (accept_waits c) as [t|] eqn:Ew; [|apply accept_enabled; try done; [by rewrite Ea|by apply H1]].
    all: unfold accept_waits in Ew; rewrite Ea in Ew; try done.
    + destruct (full c) eqn:Ef; [|done]; injection Ew as <-; by apply drain_enabled.
    + destruct (has_device c), (full c) eqn:Ef; try done; injection Ew as <-; by apply drain_enabled.
    + destruct n, (silent c) eqn:Ef; try done; injection Ew as <-; by apply answer_enabled.
Qed.

Definition closer_or_same (t : thread) (c c' : ctl) : Prop :=
  lex (measure c') (measure c) \/
  measure c' = measure c /\ helpful c' = helpful c /\ t <> helpful c.

Lemma main_closer c c' : main_step c c' -> lex (measure c') (measure c).
Proof.
  assert (forall c, exists x y, measure c = (phase_rank (main_at c), x, y)) as Hm.
  { intros c0; unfold measure; destruct (main_at c0); try destruct (is_exited (ping_at c0)); by eexists _, _. }
  intros Ht; destruct (Hm c) as (x & y & E), (Hm c') as (x' & y' & E'); rewrite E, E'; left.
  destruct Ht as [? Em|? Em|? Em _|? Em|? Em _]; rewrite Em; cbn; lia.
Qed.

(** While the stopping thread is not in a join, only it matters. *)
Lemma no_join t c c' : match main_at c with JoinPing | JoinAccept => False | _ => True end ->
  main_at c' = main_at c -> t <> TMain -> closer_or_same t c c'.
Proof.
  intros Hj Em Ht; right; unfold measure, helpful; rewrite Em; by destruct (main_at c).
Qed.

Lemma keeps_main t c c' : t <> TMain -> tstep t c c' -> main_at c' = main_at c.
Proof. intros Ht Hs; ctl_step; by try destruct sa. Qed.

(** The cases of what a step depends on: stop token, device, connection. *)
Ltac ctl_cases :=
  repeat first [progress peer_cases | match goal with
  | H : context [if ?b then _ else _] |- _ => is_var b; destruct b
  | |- context [if ?b then _ else _] => is_var b; destruct b
  | H : _ = _ :> option peer |- _ => simplify_eq
  end]; cbn.
Ltac ctl_rank := first [right; by split_and! | left; cbn; lia].

Lemma during_join_ping t c c' : inv c -> main_at c = JoinPing -> t <> TMain -> tstep t c c' ->
  closer_or_same t c c'.
Proof.
  intros [H1 H2 _ _ _] Em Ht Hs; unfold closer_or_same, measure, helpful; rewrite (keeps_main t c c' Ht Hs), Em.
  rewrite Em in H1, H2; specialize (H1 ltac:(done)); unfold full, is_full; ctl_step; try done.
  all: ctl_cases; try ctl_rank; destruct pp; cbn; try ctl_rank.
  all: try (destruct cl as [[[|] ? []]|]; cbn; ctl_rank).
  all: match goal with |- context [mkPeer ?r _ ?h] => destruct r, h; cbn; ctl_rank end.
Qed.

Lemma during_join_accept t c c' : inv c -> main_at c = JoinAccept -> t <> TMain -> tstep t c c' ->
  closer_or_same t c c'.
Proof.
  intros [H1 _ H3 H4 _] Em Ht Hs; unfold closer_or_same, measure, helpful; rewrite (keeps_main t c c' Ht Hs), Em.
  rewrite Em in H1, H3; specialize (H1 ltac:(done)); specialize (H4 Em); unfold accept_waits, full, is_full, silent, is_silent.
  ctl_step; try done.
  all: ctl_cases; try ctl_rank; try (destruct header; ctl_rank).
  all: destruct ap as [| | | | |[] []| |], hd; cbn; ctl_rank.
Qed.

Lemma step_closer t c c' : inv c -> tstep t c c' -> closer_or_same t c c'.
Proof.
  intros Hi Hs; destruct (decide (t = TMain)) as [->|Ht]; [left; by apply main_closer|].
  pose proof (keeps_main t c c' Ht Hs) as Hk; destruct (main_at c) eqn:Em.
  3: by apply during_join_ping.
  4: by apply during_join_accept.
  all: apply no_join; [by rewrite Em|by rewrite Em|done].
Qed.

#[export] Instance stop_progress : Progress tstep arrives inv stopped measure helpful.
Proof.
  split; [apply some_enabled|..].
  - intros c c' Hi _ Hs; by destruct (step_closer _ c c' Hi Hs) as [?|(_ & _ & [])].
  - intros t c c' Hi _ Hs; destruct (step_closer _ c c' Hi Hs) as [?|(? & ? & _)]; [by left|by right].
  - intros c c' _ _ []; right; by destruct c.
  - apply v2_inv_step.
  - apply inv_arrives.
Qed.

(** ** A client that stays silent *)

Definition deaf (c : ctl) : Prop :=
  main_at c <> Stopped /\ silent c = true /\ exists h n, accept_at c = ARecv h (S n).

Lemma deaf_step t c c' : t <> TAnswer -> tstep t c c' -> deaf c -> deaf c'.
Proof.
  unfold deaf, silent, is_silent; intros Ht Hs (Hm & Hk & h & n & Ha); ctl_step; try done; split_and!; eauto.
  all: ctl_cases; try done; eauto.
Qed.

(** ** Concrete runs *)

Module Sample.
(** A connected client is silent; [Stop] is called
    while the ping thread sleeps. *)
Definition start : ctl :=
  mkCtl CloseListen PSleep (ARecv true 12) true 0 (Some (mkPeer 3 0 false)) true false false.
Definition c1 : ctl := set_main AskPing (set_listening false start).
Definition c2 : ctl := set_main JoinPing (ask_ping c1).
Definition c3 : ctl := set_ping PCheckAgain c2.
Definition c4 : ctl := set_ping PExited c3.
Definition c5 : ctl := set_main AskAccept c4.
Definition c6 : ctl := set_main JoinAccept (ask_accept c5).
Definition hanging : list (thread * ctl) :=
  [(TMain, c1); (TMain, c2); (TPing, c3); (TPing, c4); (TMain, c5); (TMain, c6)].

(** The same with a client that ends the connection. *)
Definition c7 : ctl := set_client (Some (mkPeer 3 0 true)) c6.
Definition c8 : ctl := set_accept ACheck c7.
Definition c9 : ctl := set_accept AExited (set_listening false c8).
Definition c10 : ctl := set_main Stopped c9.
Definition ending : list (thread * ctl) :=
  hanging ++ [(TAnswer, c7); (TAccept, c8); (TAccept, c9); (TMain, c10)].

Lemma hanging_chained : chained tstep start hanging.
Proof. repeat split; by econstructor. Qed.

Lemma ending_chained : chained tstep start ending.
Proof. repeat split; by econstructor. Qed.

Lemma ending_fair t : fair tstep t (finite_run start ending).
Proof.
  apply finite_run_fair; intros [c' Hs]; change (final start ending) with c10 in Hs.
  destruct t; inversion Hs; try done; by peer_cases.
Qed.
End Sample.

(** ** Properties *)

(** [Stop] returns.  In every run that is fair to the threads of the program
    and to the client, from any state of the accept and ping threads in which
    [Stop] is called, both threads are joined and [Stop] returns.  The client has
    to do no more than take what it is sent and, when the server waits for it,
    send something or end the connection; without a client nothing is asked of
    the environment. *)
Theorem v2_stop_returns (r : run ctl thread) :
  main_at (at_time r 0) = CloseListen -> valid tstep arrives r -> (forall t, fair tstep t r) ->
  exists n, main_at (at_time r n) = Stopped /\ ping_at (at_time r n) = PExited /\
    accept_at (at_time r n) = AExited /\ listening (at_time r n) = false.
Proof.
  intros Hm Hr Hf; assert (inv (at_time r 0)) as Hi by (by split; rewrite Hm).
  destruct (reaches tstep arrives r Hr Hf Hi) as [n Hn]; exists n; unfold stopped in Hn.
  pose proof (inv_later tstep arrives r Hr n Hi) as [H1 _ H3 _ H5]; rewrite Hn in H1, H3; auto.
Qed.

Lemma v2_stop_returns_witness :
  exists n, let c := at_time (finite_run Sample.start Sample.ending) n in
    main_at c = Stopped /\ ping_at c = PExited /\ accept_at c = AExited /\ listening c = false.
Proof.
  apply (v2_stop_returns (finite_run Sample.start Sample.ending)).
  - reflexivity.
  - apply finite_run_valid, Sample.ending_chained.
  - exact Sample.ending_fair.
Defined.

(** [Stop] waits for a silent client.  When it is called while the accept
    thread is in [recv] on an open connection with nothing to read, it does not
    return before the client sends something or ends the connection, however long
    the run: nothing wakes the thread up. *)
Theorem v2_stop_waits (r : run ctl thread) (h : bool) (n k room : nat) :
  valid tstep arrives r -> main_at (at_time r 0) <> Stopped ->
  accept_at (at_time r 0) = ARecv h (S n) -> client (at_time r 0) = Some (mkPeer room 0 false) ->
  (forall i, (i < k)%nat -> moves r i <> Some TAnswer) ->
  main_at (at_time r k) <> Stopped.
Proof.
  intros Hr Hm Ha Hc Hs; enough (deaf (at_time r k)) as [? _] by done.
  induction k as [|k IH]; [unfold deaf, silent; rewrite Ha, Hc; eauto|].
  specialize (IH ltac:(intros i Hi; apply Hs; lia)); specialize (Hr k).
  destruct (moves r k) as [t|] eqn:Et; [eapply deaf_step; [|exact Hr|done]|].
  - intros ->; by apply (Hs k); [lia|].
  - destruct Hr as [He|<-]; [|done]; by destruct He.
Qed.

Lemma v2_stop_waits_witness :
  main_at (at_time (finite_run Sample.start Sample.hanging) 1000) <> Stopped.
Proof.
  apply (v2_stop_waits (finite_run Sample.start Sample.hanging) true 11 1000 3).
  - apply finite_run_valid, Sample.hanging_chained.
  - discriminate.
  - reflexivity.
  - reflexivity.
  - intros i _; cbn; do 6 (destruct i as [|i]; [discriminate|]); discriminate.
Defined.

End V2Shutdown.
