(* ===== verification/V1Shutdown.v ===== *)
(** * The OTD-IPC v1 server: stopping

    [Stop] waits for the ping thread, then for the accept thread, and closes the
    pipe.  As in V2Shutdown the model is where the threads are and which of their
    calls block: [ConnectNamedPipe] waits for a client, [WriteFile] for room in
    the pipe, a join for the end of the thread. *)

From S2P Require Import Prelude Fairness.
Import Fairness.

Module V1Shutdown.

Inductive stopper := AskPing | JoinPing | AskAccept | JoinAccept | ClosePipe | Stopped.

(** [PingLoop]: the loop condition, the sleep, the send. *)
Inductive pinger := PCheck | PSleep | PSend | PExited.

(** [AcceptLoop] and [AcceptOnce]: the loop condition, [CreateNamedPipeW], the
    sleep when another instance has the pipe, [ConnectNamedPipe], the send of the
    device, the condition of the inner loop, its sleep, [PeekNamedPipe], and
    [mPipe.reset()]. *)
Inductive accepting :=
  | ACheck | ACreate | ABusy | AConnect | ADevice | AWatch | ADoze | APeek | AReset | AExited.

Record ctl := mkCtl {
  main_at : stopper;
  ping_at : pinger;
  accept_at : accepting;
  opened : bool;               (* a client has opened the pipe that is offered *)
  pipe : option peer;          (* mPipe *)
  has_device : bool;           (* mV1Device.isValid *)
  ping_stop : bool;
  accept_stop : bool
}.

Definition set_main m c := mkCtl m (ping_at c) (accept_at c) (opened c) (pipe c) (has_device c)
  (ping_stop c) (accept_stop c).
Definition set_ping p c := mkCtl (main_at c) p (accept_at c) (opened c) (pipe c) (has_device c)
  (ping_stop c) (accept_stop c).
Definition set_accept a c := mkCtl (main_at c) (ping_at c) a (opened c) (pipe c) (has_device c)
  (ping_stop c) (accept_stop c).
Definition set_opened b c := mkCtl (main_at c) (ping_at c) (accept_at c) b (pipe c) (has_device c)
  (ping_stop c) (accept_stop c).
Definition set_pipe k c := mkCtl (main_at c) (ping_at c) (accept_at c) (opened c) k (has_device c)
  (ping_stop c) (accept_stop c).
Definition ask_ping c := mkCtl (main_at c) (ping_at c) (accept_at c) (opened c) (pipe c) (has_device c)
  true (accept_stop c).
Definition ask_accept c := mkCtl (main_at c) (ping_at c) (accept_at c) (opened c) (pipe c) (has_device c)
  (ping_stop c) true.

(** [Stop]: [mPingThread = {}], [mAcceptThread = {}] and [mPipe.reset()]. *)
Inductive main_step : ctl -> ctl -> Prop :=
  | main_ask_ping c : main_at c = AskPing -> main_step c (set_main JoinPing (ask_ping c))
  | main_join_ping c : main_at c = JoinPing -> ping_at c = PExited -> main_step c (set_main AskAccept c)
  | main_ask_accept c : main_at c = AskAccept -> main_step c (set_main JoinAccept (ask_accept c))
  | main_join_accept c : main_at c = JoinAccept -> accept_at c = AExited ->
      main_step c (set_main ClosePipe c)
  | main_close c : main_at c = ClosePipe -> main_step c (set_main Stopped (set_pipe None c)).

Inductive ping_step : ctl -> ctl -> Prop :=
  | ping_check c : ping_at c = PCheck ->
      ping_step c (set_ping (if ping_stop c then PExited else PSleep) c)
  | ping_sleep c : ping_at c = PSleep -> ping_step c (set_ping PSend c)
  | ping_send c k : ping_at c = PSend -> sends (pipe c) k ->
      ping_step c (set_ping PCheck (set_pipe k c)).

Definition is_gone (k : option peer) : bool :=
  match k with Some (mkPeer _ _ h) => h | None => true end.

(** A new pipe has room for the device and for a ping: its buffer has 8192 bytes. *)
Inductive accept_step : ctl -> ctl -> Prop :=
  | accept_check c : accept_at c = ACheck ->
      accept_step c (set_accept (if accept_stop c then AExited else ACreate) c)
  | accept_create c : accept_at c = ACreate -> accept_step c (set_accept AConnect (set_opened false c))
  | accept_busy c : accept_at c = ACreate -> accept_step c (set_accept ABusy c)
  | accept_retry c : accept_at c = ABusy -> accept_step c (set_accept ACheck c)
  | accept_client c room avail gone : accept_at c = AConnect -> opened c = true ->
      accept_step c (set_accept ADevice (set_pipe (Some (mkPeer (S (S room)) avail gone)) c))
  | accept_failed c : accept_at c = AConnect -> opened c = true -> accept_step c (set_accept ACheck c)
  | accept_device c k : accept_at c = ADevice ->
      (if has_device c then sends (pipe c) k else k = pipe c) ->
      accept_step c (set_accept AWatch (set_pipe k c))
  | accept_watch c : accept_at c = AWatch ->
      accept_step c (set_accept (if accept_stop c then AReset
                                 else match pipe c with Some _ => ADoze | None => AReset end) c)
  | accept_doze c : accept_at c = ADoze -> accept_step c (set_accept APeek c)
  | accept_peek c : accept_at c = APeek ->
      accept_step c (set_accept (if is_gone (pipe c) then AReset else AWatch) c)
  | accept_reset c : accept_at c = AReset -> accept_step c (set_accept ACheck (set_pipe None c)).

(** A client opens the pipe that is offered; it reads. *)
Inductive open_step : ctl -> ctl -> Prop :=
  | client_opens c : accept_at c = AConnect -> opened c = false -> open_step c (set_opened true c).
Inductive drain_step : ctl -> ctl -> Prop :=
  | client_reads c k : drains (pipe c) k -> drain_step c (set_pipe k c).

Inductive thread := TMain | TPing | TAccept | TOpen | TDrain.
#[export] Instance v1_thread_eq : EqDecision thread.
Proof. solve_decision. Defined.

Definition tstep (t : thread) : ctl -> ctl -> Prop :=
  match t with
  | TMain => main_step
  | TPing => ping_step
  | TAccept => accept_step
  | TOpen => open_step
  | TDrain => drain_step
  end.

(** The client closes its end. *)
Inductive leaves_pipe : ctl -> ctl -> Prop :=
  | client_leaves c r a h : pipe c = Some (mkPeer r a h) ->
      leaves_pipe c (set_pipe (Some (mkPeer r a true)) c).

(** ** How far [Stop] still has to go *)

Definition full (c : ctl) : bool := is_full (pipe c).

Definition phase_rank (m : stopper) : nat :=
  match m with
  | AskPing => 5 | JoinPing => 4 | AskAccept => 3 | JoinAccept => 2 | ClosePipe => 1 | Stopped => 0
  end.
Definition ping_rank (p : pinger) : nat :=
  match p with PExited => 0 | PCheck => 4 | PSend => 8 | PSleep => 12 end.
Definition accept_rank (a : accepting) : nat :=
  match a with
  | AExited => 0 | ACheck => 1 | ABusy | AReset => 2 | AWatch => 3 | APeek => 4 | ADoze => 5
  | ADevice => 6 | AConnect => 7 | ACreate => 8
  end.

(** How often the accept thread and the client can still keep a ping waiting. *)
Definition crowded (a : accepting) (k : option peer) : nat :=
  match a, k with
  | ADevice, Some (mkPeer 0 _ false) => 3
  | ADevice, Some (mkPeer 1 _ false) => 2
  | _, Some (mkPeer 0 _ false) => 1
  | _, _ => 0
  end.

Definition is_exited (p : pinger) : bool := match p with PExited => true | _ => false end.
Definition at_send (p : pinger) : bool := match p with PSend => true | _ => false end.

Definition accept_waits (c : ctl) : option thread :=
  match accept_at c with
  | AConnect => if opened c then None else Some TOpen
  | ADevice => if has_device c && full c then Some TDrain else None
  | _ => None
  end.

Definition measure (c : ctl) : rank :=
  match main_at c with
  | JoinPing =>
      if is_exited (ping_at c) then (4, 0, 0)
      else (4, 0, ping_rank (ping_at c) +
                  if at_send (ping_at c) then crowded (accept_at c) (pipe c) else 0)
  | JoinAccept =>
      (2, accept_rank (accept_at c), match accept_waits c with Some _ => 1 | None => 0 end)
  | m => (phase_rank m, 0, 0)
  end%nat.

Definition helpful (c : ctl) : thread :=
  match main_at c with
  | JoinPing =>
      if is_exited (ping_at c) then TMain
      else if at_send (ping_at c) && full c then TDrain else TPing
  | JoinAccept =>
      match accept_at c, accept_waits c with
      | AExited, _ => TMain
      | _, Some t => t
      | _, None => TAccept
      end
  | _ => TMain
  end.

(** What holds from the call of [Stop] on. *)
Record inv (c : ctl) : Prop := {
  inv_ping_stop : match main_at c with AskPing => True | _ => ping_stop c = true end;
  inv_pinger : match main_at c with AskPing | JoinPing => True | _ => ping_at c = PExited end;
  inv_accept_stop : main_at c = JoinAccept -> accept_stop c = true;
  inv_acceptor : match main_at c with ClosePipe | Stopped => accept_at c = AExited | _ => True end;
  inv_pipe : main_at c = Stopped -> pipe c = None
}.

Definition stopped (c : ctl) : Prop := main_at c = Stopped.
#[export] Instance v1_stopped_dec c : Decision (stopped c).
Proof. unfold stopped; destruct (main_at c); by (left + right). Defined.

(** Case analysis of a step, with the state taken apart. *)
Ltac ctl_step :=
  repeat match goal with
  | H : tstep ?t _ _ |- _ => destruct t; cbn in H
  | H : main_step _ _ |- _ => destruct H
  | H : ping_step _ _ |- _ => destruct H
  | H : accept_step _ _ |- _ => destruct H
  | H : open_step _ _ |- _ => destruct H
  | H : drain_step _ _ |- _ => destruct H
  | H : leaves_pipe _ _ |- _ => destruct H
  end;
  repeat match goal with c : ctl |- _ => destruct c as [mp pp ap op cl hd ps sa] end;
  cbn in *; simplify_eq.

Ltac ctl_cases :=
  repeat first [progress peer_cases | match goal with
  | H : context [if ?b then _ else _] |- _ => is_var b; destruct b
  | |- context [if ?b then _ else _] => is_var b; destruct b
  | H : _ = _ :> option peer |- _ => simplify_eq
  end]; cbn.
Ltac ctl_split :=
  repeat (match goal with |- context [match ?x with _ => _ end] => is_var x; destruct x end; cbn).
Ltac ctl_rank := first [right; by split_and! | left; cbn; lia].

Lemma v1_inv_step t c c' : inv c -> tstep t c c' -> inv c'.
Proof.
  intros [H1 H2 H3 H4 H5] Ht; ctl_step; try (by split; cbn; auto).
  all: destruct mp; split; cbn in *; simplify_eq; auto; try done.
  all: intros _; rewrite H5 in *; by peer_cases.
Qed.

Lemma inv_leaves c c' : inv c -> leaves_pipe c c' -> inv c'.
Proof. intros [H1 H2 H3 H4 H5] Ht; ctl_step; split; cbn in *; auto; intros E; by specialize (H5 E). Qed.

Lemma v1_drain_enabled c : full c = true -> enabled tstep TDrain c.
Proof. intros Hf; destruct (drains_enabled _ Hf) as [k Hk]; eexists; by apply client_reads. Qed.

Lemma v1_ping_enabled c : ping_at c <> PExited -> at_send (ping_at c) && full c = false ->
  enabled tstep TPing c.
Proof.
  destruct (ping_at c) eqn:Ep; try done; intros _ Hf.
  - eexists; by apply ping_check.
  - eexists; by apply ping_sleep.
  - destruct (sends_enabled _ Hf) as [k Hk]; eexists; by eapply ping_send.
Qed.

Lemma v1_accept_enabled c : accept_at c <> AExited -> accept_waits c = None -> enabled tstep TAccept c.
Proof.
  unfold accept_waits; intros Ha Hw; destruct (accept_at c) eqn:Ep; try done.
  - eexists; by apply accept_check.
  - eexists; by apply accept_create.
  - eexists; by apply accept_retry.
  - destruct (opened c) eqn:Eo; [|done]; eexists; by apply accept_failed.
  - destruct (has_device c) eqn:Ed; [|eexists; apply accept_device; [done|by rewrite Ed]].
    destruct (full c) eqn:Ef; [done|].
    destruct (sends_enabled _ Ef) as [k Hk]; eexists; apply accept_device; [done|by rewrite Ed].
  - eexists; by apply accept_watch.
  - eexists; by apply accept_doze.
  - eexists; by apply accept_peek.
  - eexists; by apply accept_reset.
Qed.

(** Until [Stop] has returned, some thread can bring it closer. *)
Lemma v1_some_enabled c : inv c -> stopped c \/ enabled tstep (helpful c) c.
Proof.
  intros [H1 H2 H3 H4 _]; unfold stopped, helpful; destruct (main_at c) eqn:Em; [right..|by left].
  - eexists; by apply main_ask_ping.
  - destruct (is_exited (ping_at c)) eqn:Ex; [eexists; apply main_join_ping; by destruct (ping_at c)|].
    destruct (at_send (ping_at c) && full c) eqn:Ef; [by apply v1_drain_enabled; apply andb_prop in Ef as []|].
    apply v1_ping_enabled; [|done]; intros E; by rewrite E in Ex.
  - eexists; by apply main_ask_accept.
  - destruct (accept_at c) eqn:Ea; [..|eexists; by apply main_join_accept].
    all: destruct (accept_waits c) as [t|] eqn:Ew; [|apply v1_accept_enabled; try done; by rewrite Ea].
    all: unfold accept_waits in Ew; rewrite Ea in Ew; try done.
    + destruct (opened c) eqn:Eo; [done|]; injection Ew as <-; eexists; by apply client_opens.
    + destruct (has_device c), (full c) eqn:Ef; try done; injection Ew as <-; by apply v1_drain_enabled.
  - eexists; by apply main_close.
Qed.

Definition closer_or_same (t : option thread) (c c' : ctl) : Prop :=
  lex (measure c') (measure c) \/
  measure c' = measure c /\ helpful c' = helpful c /\ t <> Some (helpful c).

Lemma v1_main_closer c c' : main_step c c' -> lex (measure c') (measure c).
Proof.
  assert (forall c, exists x y, measure c = (phase_rank (main_at c), x, y)) as Hm.
  { intros c0; unfold measure; destruct (main_at c0); try destruct (is_exited (ping_at c0)); by eexists _, _. }
  intros Ht; destruct (Hm c) as (x & y & E), (Hm c') as (x' & y' & E'); rewrite E, E'; left.
  destruct Ht as [? Em|? Em _|? Em|? Em _|? Em]; rewrite Em; cbn; lia.
Qed.

(** A step of another thread, or of the client ([None]). *)
Definition other_step (t : option thread) (c c' : ctl) : Prop :=
  match t with Some t => t <> TMain /\ tstep t c c' | None => leaves_pipe c c' end.

Lemma v1_keeps_main t c c' : other_step t c c' -> main_at c' = main_at c.
Proof. destruct t as [t|]; [intros [Ht Hs]|intros Hs; cbn in Hs]; by ctl_step. Qed.

(** While the stopping thread is not in a join, only it matters. *)
Lemma v1_no_join t c c' : match main_at c with JoinPing | JoinAccept => False | _ => True end ->
  other_step t c c' -> closer_or_same t c c'.
Proof.
  intros Hj Hs; right; unfold measure, helpful; rewrite (v1_keeps_main _ _ _ Hs).
  destruct (main_at c), t; try done; split_and!; try done; destruct Hs; congruence.
Qed.

Lemma v1_during_join_ping t c c' : inv c -> main_at c = JoinPing -> other_step t c c' ->
  closer_or_same t c c'.
Proof.
  intros [H1 _ _ _ _] Em Hs; unfold closer_or_same, measure, helpful; rewrite (v1_keeps_main _ _ _ Hs), Em.
  rewrite Em in H1; unfold full, is_full, crowded; destruct t as [t|]; [destruct Hs as [Ht Hs]|]; cbn in Hs.
  all: ctl_step; try done.
  all: ctl_cases; try ctl_rank; try destruct pp; ctl_split; ctl_rank.
Qed.

Lemma v1_during_join_accept t c c' : inv c -> main_at c = JoinAccept -> other_step t c c' ->
  closer_or_same t c c'.
Proof.
  intros [_ H2 H3 _ _] Em Hs; unfold closer_or_same, measure, helpful; rewrite (v1_keeps_main _ _ _ Hs), Em.
  rewrite Em in H2; specialize (H3 Em); unfold accept_waits, full, is_full, is_gone.
  destruct t as [t|]; [destruct Hs as [Ht Hs]|]; cbn in Hs; ctl_step; try done.
  all: ctl_cases; try ctl_rank; try destruct ap; try destruct hd; ctl_split; ctl_rank.
Qed.

Lemma other_closer t c c' : inv c -> other_step t c c' -> closer_or_same t c c'.
Proof.
  intros Hi Hs; destruct (main_at c) eqn:Em.
  2: by apply v1_during_join_ping.
  3: by apply v1_during_join_accept.
  all: apply v1_no_join; by rewrite ?Em.
Qed.

Lemma v1_step_closer t c c' : inv c -> tstep t c c' -> closer_or_same (Some t) c c'.
Proof.
  intros Hi Hs; destruct (decide (t = TMain)) as [->|Ht]; [left; by apply v1_main_closer|].
  by apply other_closer.
Qed.

#[export] Instance v1_stop_progress : Progress tstep leaves_pipe inv stopped measure helpful.
Proof.
  split; [apply v1_some_enabled|..].
  - intros c c' Hi _ Hs; by destruct (v1_step_closer _ c c' Hi Hs) as [?|(_ & _ & [])].
  - intros t c c' Hi _ Hs; destruct (v1_step_closer _ c c' Hi Hs) as [?|(? & ? & _)]; [by left|by right].
  - intros c c' Hi _ Hs; destruct (other_closer None c c' Hi Hs) as [?|(? & ? & _)]; [by left|by right].
  - apply v1_inv_step.
  - apply inv_leaves.
Qed.

(** ** Nobody connects *)

Definition offering (c : ctl) : Prop :=
  match main_at c with ClosePipe | Stopped => False | _ => True end /\
  accept_at c = AConnect /\ opened c = false.

Lemma offering_step t c c' : t <> TOpen -> tstep t c c' -> offering c -> offering c'.
Proof. unfold offering; intros Ht Hs (Hm & Ha & Ho); ctl_step; by split_and!. Qed.

Lemma offering_leaves c c' : leaves_pipe c c' -> offering c -> offering c'.
Proof. unfold offering; intros Hs (Hm & Ha & Ho); ctl_step; by split_and!. Qed.

(** ** Concrete runs *)

Module Sample.
(** The pipe is offered and nobody opens it; [Stop] is called while the ping
    thread sleeps. *)
Definition start : ctl := mkCtl AskPing PSleep AConnect false None true false false.
Definition c1 : ctl := set_main JoinPing (ask_ping start).
Definition c2 : ctl := set_ping PSend c1.
Definition c3 : ctl := set_ping PCheck (set_pipe None c2).
Definition c4 : ctl := set_ping PExited c3.
Definition c5 : ctl := set_main AskAccept c4.
Definition c6 : ctl := set_main JoinAccept (ask_accept c5).
Definition hanging : list (thread * ctl) :=
  [(TMain, c1); (TPing, c2); (TPing, c3); (TPing, c4); (TMain, c5); (TMain, c6)].

(** A client opens it and is served; then it is closed. *)
Definition c7 : ctl := set_opened true c6.
Definition c8 : ctl := set_accept ADevice (set_pipe (Some (mkPeer 2 0 false)) c7).
Definition c9 : ctl := set_accept AWatch (set_pipe (Some (mkPeer 1 0 false)) c8).
Definition c10 : ctl := set_accept AReset c9.
Definition c11 : ctl := set_accept ACheck (set_pipe None c10).
Definition c12 : ctl := set_accept AExited c11.
Definition c13 : ctl := set_main ClosePipe c12.
Definition c14 : ctl := set_main Stopped (set_pipe None c13).
Definition ending : list (thread * ctl) :=
  hanging ++ [(TOpen, c7); (TAccept, c8); (TAccept, c9); (TAccept, c10); (TAccept, c11);
              (TAccept, c12); (TMain, c13); (TMain, c14)].

Lemma v1_hanging_chained : chained tstep start hanging.
Proof. repeat split; econstructor; try done; by constructor. Qed.

Lemma v1_ending_chained : chained tstep start ending.
Proof.
  repeat split; try (econstructor; try done; by constructor).
  all: first [by apply accept_create | by apply (accept_client _ 0 0 false) | by apply accept_watch
    | by apply accept_reset | by apply accept_check | by constructor].
Qed.

Lemma v1_ending_fair t : fair tstep t (finite_run start ending).
Proof.
  apply finite_run_fair; intros [c' Hs]; change (final start ending) with c14 in Hs.
  destruct t; inversion Hs; try done; by peer_cases.
Qed.
End Sample.

(** ** Properties *)

(** [Stop] returns when a client connects.  In every run that is fair to the
    threads of the program and to the clients, from any state of the accept and
    ping threads in which [Stop] is called, it returns with both threads ended
    and the pipe closed, however clients come and go meanwhile.  Fairness to the
    clients means that they read what is written and that some client opens a
    pipe that is offered. *)
Theorem v1_stop_returns (r : run ctl thread) :
  main_at (at_time r 0) = AskPing -> valid tstep leaves_pipe r -> (forall t, fair tstep t r) ->
  exists n, main_at (at_time r n) = Stopped /\ ping_at (at_time r n) = PExited /\
    accept_at (at_time r n) = AExited /\ pipe (at_time r n) = None.
Proof.
  intros Hm Hr Hf; assert (inv (at_time r 0)) as Hi by (by split; rewrite Hm).
  destruct (reaches tstep leaves_pipe r Hr Hf Hi) as [n Hn]; exists n; unfold stopped in Hn.
  pose proof (inv_later tstep leaves_pipe r Hr n Hi) as [_ H2 _ H4 H5]; rewrite Hn in H2, H4, H5; auto.
Qed.

Lemma v1_stop_returns_witness :
  exists n, let c := at_time (finite_run Sample.start Sample.ending) n in
    main_at c = Stopped /\ ping_at c = PExited /\ accept_at c = AExited /\ pipe c = None.
Proof.
  apply (v1_stop_returns (finite_run Sample.start Sample.ending)).
  - reflexivity.
  - apply finite_run_valid, Sample.v1_ending_chained.
  - exact Sample.v1_ending_fair.
Defined.

(** [Stop] waits for a client.  When it is called while the accept thread is
    in [ConnectNamedPipe] and nobody has opened the pipe, it does not return
    before somebody does, however long the run: neither the stop request nor
    anything [Stop] does wakes the thread up. *)
Theorem v1_stop_waits (r : run ctl thread) (k : nat) :
  valid tstep leaves_pipe r -> main_at (at_time r 0) = AskPing ->
  accept_at (at_time r 0) = AConnect -> opened (at_time r 0) = false ->
  (forall i, (i < k)%nat -> moves r i <> Some TOpen) ->
  main_at (at_time r k) <> Stopped.
Proof.
  intros Hr Hm Ha Ho Hs; enough (offering (at_time r k)) as [Hk _] by (intros E; by rewrite E in Hk).
  induction k as [|k IH]; [unfold offering; by rewrite Hm|].
  specialize (IH ltac:(intros i Hi; apply Hs; lia)); specialize (Hr k).
  destruct (moves r k) as [t|] eqn:Et; [eapply offering_step; [|exact Hr|done]|].
  - intros ->; by apply (Hs k); [lia|].
  - destruct Hr as [He|<-]; [|done]; by eapply offering_leaves.
Qed.

Lemma v1_stop_waits_witness :
  main_at (at_time (finite_run Sample.start Sample.hanging) 1000) <> Stopped.
Proof.
  apply (v1_stop_waits (finite_run Sample.start Sample.hanging) 1000).
  - apply finite_run_valid, Sample.v1_hanging_chained.
  - reflexivity.
  - reflexivity.
  - reflexivity.
  - intros i _; cbn; do 6 (destruct i as [|i]; [discriminate|]); discriminate.
Defined.

End V1Shutdown.
