(* ===== verification/Shutdown.v ===== *)
(** * Leaving the program

    At the end of [main] (src/src/main.cpp) the v1 server is destroyed first, if
    there is one, and then the v2 server; each destructor calls [Stop].  The two
    servers run side by side until then, so the waits of V1Shutdown and V2Shutdown
    happen one after the other, in the main thread, while the threads of both
    servers and their clients go on. *)

From S2P Require Import Prelude Fairness V2Shutdown V1Shutdown.
Import Fairness.

Module Shutdown.

Record prog := mkProg { v1 : option V1Shutdown.ctl; v2 : V2Shutdown.ctl }.

(** There is no v1 server, or it has been stopped. *)
Definition v1_gone (p : prog) : bool :=
  match v1 p with
  | Some c => match V1Shutdown.main_at c with V1Shutdown.Stopped => true | _ => false end
  | None => true
  end.

(** The main thread, and the threads of the servers and of their clients. *)
Inductive thread := Main | Of1 (t : V1Shutdown.thread) | Of2 (t : V2Shutdown.thread).

(** The main thread leaves the scope of the servers: the v1 server is destroyed
    before the v2 server. *)
Inductive main_step : prog -> prog -> Prop :=
  | leave_v1 c c' k : v1_gone (mkProg (Some c) k) = false -> V1Shutdown.main_step c c' ->
      main_step (mkProg (Some c) k) (mkProg (Some c') k)
  | leave_v2 o k k' : v1_gone (mkProg o k) = true -> V2Shutdown.main_step k k' ->
      main_step (mkProg o k) (mkProg o k').

Inductive step1 (t : V1Shutdown.thread) : prog -> prog -> Prop :=
  | thread_of_v1 c c' k : t <> V1Shutdown.TMain -> V1Shutdown.tstep t c c' ->
      step1 t (mkProg (Some c) k) (mkProg (Some c') k).
Inductive step2 (t : V2Shutdown.thread) : prog -> prog -> Prop :=
  | thread_of_v2 o k k' : t <> V2Shutdown.TMain -> V2Shutdown.tstep t k k' ->
      step2 t (mkProg o k) (mkProg o k').

Definition tstep (t : thread) : prog -> prog -> Prop :=
  match t with Main => main_step | Of1 t => step1 t | Of2 t => step2 t end.

Inductive env : prog -> prog -> Prop :=
  | env1 c c' k : V1Shutdown.leaves_pipe c c' -> env (mkProg (Some c) k) (mkProg (Some c') k)
  | env2 o k k' : V2Shutdown.arrives k k' -> env (mkProg o k) (mkProg o k').

(** ** Each server in a run of the program *)

Definition role1 (p : prog) (t : thread) : option V1Shutdown.thread :=
  match t with
  | Main => if v1_gone p then None else Some V1Shutdown.TMain
  | Of1 V1Shutdown.TMain | Of2 _ => None
  | Of1 t => Some t
  end.
Definition role2 (p : prog) (t : thread) : option V2Shutdown.thread :=
  match t with
  | Main => if v1_gone p then Some V2Shutdown.TMain else None
  | Of2 V2Shutdown.TMain | Of1 _ => None
  | Of2 t => Some t
  end.

Definition view1 (c0 : V1Shutdown.ctl) (p : prog) : V1Shutdown.ctl := default c0 (v1 p).

Lemma stopped_gone c k : v1_gone (mkProg (Some c) k) = true <-> V1Shutdown.main_at c = V1Shutdown.Stopped.
Proof. cbn; by destruct (V1Shutdown.main_at c). Qed.

(** Once the v1 server is gone it stays gone. *)
Lemma gone_step t p p' : tstep t p p' -> v1_gone p = true -> v1_gone p' = true.
Proof.
  destruct t as [|t|t]; cbn [tstep]; intros Hs.
  - by destruct Hs as [c c' k Hg _|o k k' Hg _]; rewrite Hg.
  - destruct Hs as [c c' k Ht Hs]; rewrite !stopped_gone; intros Hg; rewrite <- Hg.
    by apply (V1Shutdown.v1_keeps_main (Some t)).
  - by destruct Hs.
Qed.

Lemma gone_env p p' : env p p' -> v1_gone p = true -> v1_gone p' = true.
Proof.
  intros [c c' k H|o k k' H]; [|done]; rewrite !stopped_gone; intros Hg; rewrite <- Hg.
  by apply (V1Shutdown.v1_keeps_main None).
Qed.

Section run.
Variables (r : run prog thread) (Hr : valid tstep env r).

Lemma project1_valid c0 : valid V1Shutdown.tstep V1Shutdown.leaves_pipe (project (view1 c0) role1 r).
Proof.
  apply (valid_project tstep env); [done|..].
  - intros n t _ Hs; destruct t as [|t|t]; cbn in Hs |- *.
    + by inversion Hs as [c c' k Hg Hs'|o k k' Hg Hs']; rewrite Hg.
    + inversion Hs as [c c' k Ht Hs']; by destruct t.
    + by inversion Hs.
  - intros n He; inversion He; [by left|by right].
Qed.

Lemma project2_valid : valid V2Shutdown.tstep V2Shutdown.arrives (project v2 role2 r).
Proof.
  apply (valid_project tstep env); [done|..].
  - intros n t _ Hs; destruct t as [|t|t]; cbn in Hs |- *.
    + by inversion Hs as [c c' k Hg Hs'|o k k' Hg Hs']; rewrite Hg.
    + by inversion Hs.
    + inversion Hs as [o k k' Ht Hs']; by destruct t.
  - intros n He; inversion He; [by right|by left].
Qed.

Lemma gone_later n m : v1_gone (at_time r n) = true -> (n <= m)%nat -> v1_gone (at_time r m) = true.
Proof.
  intros Hg; induction 1 as [|m _ IH]; [done|]; specialize (Hr m).
  destruct (moves r m) as [t|]; [by eapply gone_step|].
  destruct Hr as [He|<-]; [by eapply gone_env|done].
Qed.

Lemma still_there n : is_Some (v1 (at_time r 0)) -> is_Some (v1 (at_time r n)).
Proof.
  intros H0; induction n as [|n IH]; [done|]; specialize (Hr n).
  destruct (moves r n) as [[|t|t]|]; [by destruct Hr..|].
  destruct Hr as [He|<-]; [by destruct He|done].
Qed.

Hypothesis Hf : forall t, fair tstep t r.

Lemma project1_fair c0 t : is_Some (v1 (at_time r 0)) ->
  fair V1Shutdown.tstep t (project (view1 c0) role1 r).
Proof.
  intros H0; apply (fair_project tstep _ _ _ _ (EqDecision0 := V1Shutdown.v1_thread_eq)
    (match t with V1Shutdown.TMain => Main | _ => Of1 t end)); [by apply Hf|].
  intros n; destruct (still_there n H0) as [c Ec], (at_time r n) as [o k]; cbn in Ec; subst o; cbn.
  intros [c' Hs]; destruct t; cbn in *.
  all: try by (split; [exists (mkProg (Some c') k); by constructor|done]).
  assert (v1_gone (mkProg (Some c) k) = false) as Hg by (cbn; by destruct Hs as [? ->|? ->|? ->|? ->|? ->]).
  split; [exists (mkProg (Some c') k); by constructor|cbn in Hg; by rewrite Hg].
Qed.

Lemma project2_fair t : v1_gone (at_time r 0) = true -> fair V2Shutdown.tstep t (project v2 role2 r).
Proof.
  intros H0; apply (fair_project tstep _ _ _ _ (EqDecision0 := V2Shutdown.thread_eq)
    (match t with V2Shutdown.TMain => Main | _ => Of2 t end)); [by apply Hf|].
  intros n; pose proof (gone_later 0 n H0 ltac:(lia)) as Hg; destruct (at_time r n) as [o k].
  intros [k' Hs]; destruct t; cbn in *.
  all: try by (split; [exists (mkProg o k'); by constructor|done]).
  split; [exists (mkProg o k'); by constructor|by rewrite Hg].
Qed.

Hypothesis H1 : forall c, v1 (at_time r 0) = Some c -> V1Shutdown.main_at c = V1Shutdown.AskPing.

Lemma view1_inv c0 : v1 (at_time r 0) = Some c0 ->
  V1Shutdown.inv (at_time (project (view1 c0) role1 r) 0).
Proof. intros E0; unfold view1; cbn; rewrite E0; cbn; by split; rewrite (H1 c0 E0). Qed.

Lemma v1_inv_later n c : v1 (at_time r n) = Some c -> V1Shutdown.inv c.
Proof.
  intros Ec; destruct (decide (is_Some (v1 (at_time r 0)))) as [[c0 E0]|E0%eq_None_not_Some].
  - pose proof (inv_later _ _ (HP := V1Shutdown.v1_stop_progress) _ (project1_valid c0) n
      (view1_inv c0 E0)) as Hi.
    unfold view1 in Hi; cbn in Hi; by rewrite Ec in Hi.
  - assert (v1 (at_time r n) = None) as En; [clear Ec|by rewrite En in Ec].
    induction n as [|n IH]; [done|]; specialize (Hr n).
    destruct (moves r n) as [[|t|t]|]; [by destruct Hr..|].
    destruct Hr as [He|<-]; [by destruct He|done].
Qed.

(** The v1 server is stopped at some time, if there is one. *)
Lemma v1_goes : exists n, v1_gone (at_time r n) = true.
Proof.
  destruct (decide (is_Some (v1 (at_time r 0)))) as [[c0 E0]|E0%eq_None_not_Some]; [|exists 0%nat; unfold v1_gone; by rewrite E0].
  destruct (reaches V1Shutdown.tstep V1Shutdown.leaves_pipe (project (view1 c0) role1 r)
    (HP := V1Shutdown.v1_stop_progress) (H := V1Shutdown.v1_stopped_dec)
    (project1_valid c0) (fun t => project1_fair c0 t (ex_intro _ _ E0)) (view1_inv c0 E0)) as [n Hn].
  exists n; destruct (still_there n (ex_intro _ _ E0)) as [c Ec].
  unfold v1_gone, view1, V1Shutdown.stopped in *; cbn in Hn; rewrite Ec in *; cbn in *.
  by rewrite Hn.
Qed.

End run.

(** And then the v2 server is. *)
Lemma v2_goes r : valid tstep env r -> (forall t, fair tstep t r) ->
  (forall c, v1 (at_time r 0) = Some c -> V1Shutdown.main_at c = V1Shutdown.AskPing) ->
  V2Shutdown.main_at (v2 (at_time r 0)) = V2Shutdown.CloseListen ->
  exists n, v1_gone (at_time r n) = true /\ V2Shutdown.stopped (v2 (at_time r n)) /\
    V2Shutdown.inv (v2 (at_time r n)).
Proof.
  intros Hr Hf H1 H2; destruct (v1_goes r Hr Hf H1) as [n Hg].
  assert (V2Shutdown.inv (v2 (at_time r 0))) as Hi by (by split; rewrite H2).
  assert (forall m, V2Shutdown.inv (v2 (at_time r m))) as Him
    by (intros m; exact (inv_later _ _ (HP := V2Shutdown.stop_progress) _ (project2_valid r Hr) m Hi)).
  assert (v1_gone (at_time (shift n r) 0) = true) as Hg0 by (cbn; by rewrite Nat.add_0_r).
  pose proof (valid_shift _ _ n r Hr) as Hrn.
  destruct (reaches V2Shutdown.tstep V2Shutdown.arrives (project v2 role2 (shift n r))
    (HP := V2Shutdown.stop_progress) (H := V2Shutdown.stopped_dec)
    (project2_valid _ Hrn)
    (fun t => project2_fair _ Hrn (fun t => fair_shift _ t n r (Hf t)) t Hg0)) as [m Hm].
  { exact (Him _). }
  exists (n + m)%nat; split_and!; [|exact Hm|apply Him].
  apply (gone_later r Hr n); [done|lia].
Qed.

(** Until the v1 server is gone, the main thread has not begun to stop the v2
    server. *)
Lemma v1_first r n : valid tstep env r -> V2Shutdown.main_at (v2 (at_time r 0)) = V2Shutdown.CloseListen ->
  v1_gone (at_time r n) = false -> V2Shutdown.main_at (v2 (at_time r n)) = V2Shutdown.CloseListen.
Proof.
  intros Hr H0; induction n as [|n IH]; [done|]; intros Hg.
  assert (v1_gone (at_time r n) = false) as Hg'.
  { apply not_true_is_false; intros E; by rewrite (gone_later r Hr n (S n) E ltac:(lia)) in Hg. }
  specialize (IH Hg'); specialize (Hr n); destruct (moves r n) as [[|t|t]|]; cbn in Hr.
  - by destruct Hr as [c c' k _ _|o k k' Hk _]; [|rewrite Hk in Hg'].
  - by destruct Hr.
  - destruct Hr as [o k k' Ht Hs]; cbn in *; rewrite <- IH; by apply (V2Shutdown.keeps_main t).
  - destruct Hr as [He|<-]; [|done]; by destruct He as [|o k k' []].
Qed.

(** ** A concrete run *)

Module Sample.
Import V1Shutdown.Sample.

(** The v1 server has no client, and no client has come to the v2 server. *)
Definition v2_start : V2Shutdown.ctl :=
  V2Shutdown.mkCtl V2Shutdown.CloseListen V2Shutdown.PSleep V2Shutdown.AAccept true 0 None true false false.
Definition start : prog := mkProg (Some V1Shutdown.Sample.start) v2_start.

Definition lift1 (x : V1Shutdown.thread * V1Shutdown.ctl) : thread * prog :=
  (match x.1 with V1Shutdown.TMain => Main | t => Of1 t end, mkProg (Some x.2) v2_start).
Definition lift2 (x : V2Shutdown.thread * V2Shutdown.ctl) : thread * prog :=
  (match x.1 with V2Shutdown.TMain => Main | t => Of2 t end, mkProg (Some c14) x.2).

Definition k1 := V2Shutdown.set_main V2Shutdown.AskPing (V2Shutdown.set_listening false v2_start).
Definition k2 := V2Shutdown.set_main V2Shutdown.JoinPing (V2Shutdown.ask_ping k1).
Definition k3 := V2Shutdown.set_ping V2Shutdown.PCheckAgain k2.
Definition k4 := V2Shutdown.set_ping V2Shutdown.PExited k3.
Definition k5 := V2Shutdown.set_main V2Shutdown.AskAccept k4.
Definition k6 := V2Shutdown.set_main V2Shutdown.JoinAccept (V2Shutdown.ask_accept k5).
Definition k7 := V2Shutdown.set_accept V2Shutdown.ACheck k6.
Definition k8 := V2Shutdown.set_accept V2Shutdown.AExited (V2Shutdown.set_listening false k7).
Definition k9 := V2Shutdown.set_main V2Shutdown.Stopped k8.

Definition hanging : list (thread * prog) := map lift1 V1Shutdown.Sample.hanging.
Definition v2_ending : list (V2Shutdown.thread * V2Shutdown.ctl) :=
  [(V2Shutdown.TMain, k1); (V2Shutdown.TMain, k2); (V2Shutdown.TPing, k3); (V2Shutdown.TPing, k4);
   (V2Shutdown.TMain, k5); (V2Shutdown.TMain, k6); (V2Shutdown.TAccept, k7); (V2Shutdown.TAccept, k8);
   (V2Shutdown.TMain, k9)].
Definition ending : list (thread * prog) :=
  map lift1 V1Shutdown.Sample.ending ++ map lift2 v2_ending.

(** A path of a server alone is one of the program. *)
Lemma lift1_chained c path rest : chained V1Shutdown.tstep c path ->
  Forall (fun c => v1_gone (mkProg (Some c) v2_start) = false) (removelast (c :: map snd path)) ->
  chained tstep (mkProg (Some (final c path)) v2_start) rest ->
  chained tstep (mkProg (Some c) v2_start) (map lift1 path ++ rest).
Proof.
  revert c; induction path as [|[t c'] path IH]; intros c Hc Hg Hrest; [exact Hrest|].
  destruct Hc as [Ht Hc]; apply Forall_cons in Hg as [Hg Hgs]; split.
  - destruct t; by constructor.
  - rewrite final_cons in Hrest; by apply IH.
Qed.

Lemma lift2_chained k path : chained V2Shutdown.tstep k path ->
  chained tstep (mkProg (Some c14) k) (map lift2 path).
Proof.
  revert k; induction path as [|[t k'] path IH]; intros k Hc; [done|].
  destruct Hc as [Ht Hc]; split; [destruct t; by constructor|by apply IH].
Qed.

Lemma all_hanging_chained : chained tstep start hanging.
Proof.
  unfold hanging; rewrite <- (app_nil_r (map _ _)).
  by apply lift1_chained; [apply v1_hanging_chained|repeat constructor|].
Qed.

Lemma all_ending_chained : chained tstep start ending.
Proof.
  apply lift1_chained; [apply v1_ending_chained|repeat constructor|].
  apply lift2_chained; repeat split; by econstructor.
Qed.

Lemma all_ending_fair t : fair tstep t (finite_run start ending).
Proof.
  apply finite_run_fair; intros [p' Hs].
  change (final start ending) with (mkProg (Some c14) k9) in Hs.
  destruct t as [|t|t]; inversion Hs as [? ? ? Ht Hs'|? ? ? Ht Hs'] || inversion Hs as [? ? ? Ht Hs'];
    simplify_eq; try done; try destruct t; inversion Hs'; try done; by peer_cases.
Qed.
End Sample.

(** ** Properties *)

(** What is left of the servers: their threads have ended, and neither the pipe
    nor the socket that takes clients is open. *)
Definition servers_stopped (p : prog) : Prop :=
  (forall c, v1 p = Some c -> V1Shutdown.main_at c = V1Shutdown.Stopped /\
     V1Shutdown.ping_at c = V1Shutdown.PExited /\ V1Shutdown.accept_at c = V1Shutdown.AExited /\
     V1Shutdown.pipe c = None) /\
  V2Shutdown.main_at (v2 p) = V2Shutdown.Stopped /\ V2Shutdown.ping_at (v2 p) = V2Shutdown.PExited /\
  V2Shutdown.accept_at (v2 p) = V2Shutdown.AExited /\ V2Shutdown.listening (v2 p) = false.

(** C3: leaving the program ends.  When the servers leave the scope of [main],
    with or without a v1 server and wherever the threads of the servers are, in
    every run that is fair to these threads and to the clients both destructors
    return: the v1 server is stopped first, and while it is being stopped the v2
    server goes on serving. *)
Theorem program_stops (r : run prog thread) :
  (forall c, v1 (at_time r 0) = Some c -> V1Shutdown.main_at c = V1Shutdown.AskPing) ->
  V2Shutdown.main_at (v2 (at_time r 0)) = V2Shutdown.CloseListen ->
  valid tstep env r -> (forall t, fair tstep t r) ->
  (forall n, v1_gone (at_time r n) = false ->
     V2Shutdown.main_at (v2 (at_time r n)) = V2Shutdown.CloseListen) /\
  exists n, servers_stopped (at_time r n).
Proof.
  intros H1 H2 Hr Hf; split; [intros n; by apply v1_first|].
  destruct (v2_goes r Hr Hf H1 H2) as (n & Hg & Hs & [H3 _ H4 _ H8]); exists n.
  unfold V2Shutdown.stopped in Hs; rewrite Hs in H3, H4; split_and!; auto.
  intros c Ec; destruct (v1_inv_later r Hr H1 n c Ec) as [_ H5 _ H6 H7].
  unfold v1_gone in Hg; rewrite Ec in Hg; by destruct (V1Shutdown.main_at c); auto.
Qed.

Lemma program_stops_witness :
  exists n, servers_stopped (at_time (finite_run Sample.start Sample.ending) n).
Proof.
  eapply proj2, (program_stops (finite_run Sample.start Sample.ending)).
  - intros c [= <-]; reflexivity.
  - reflexivity.
  - apply finite_run_valid, Sample.all_ending_chained.
  - exact Sample.all_ending_fair.
Defined.

(** C40: a v1 server that nobody connects to keeps the program.  When the servers
    leave their scope while the v1 accept thread is in [ConnectNamedPipe] and
    nobody has opened the pipe, the main thread does not even begin to stop the
    v2 server before somebody does, however long the run. *)
Theorem program_waits (r : run prog thread) (c : V1Shutdown.ctl) (k : nat) :
  valid tstep env r -> v1 (at_time r 0) = Some c ->
  V1Shutdown.main_at c = V1Shutdown.AskPing -> V1Shutdown.accept_at c = V1Shutdown.AConnect ->
  V1Shutdown.opened c = false ->
  V2Shutdown.main_at (v2 (at_time r 0)) = V2Shutdown.CloseListen ->
  (forall i, (i < k)%nat -> moves r i <> Some (Of1 V1Shutdown.TOpen)) ->
  V2Shutdown.main_at (v2 (at_time r k)) = V2Shutdown.CloseListen.
Proof.
  intros Hr Ec Hm Ha Ho H2 Hs; apply v1_first; [done..|].
  pose proof (V1Shutdown.v1_stop_waits (project (view1 c) role1 r) k (project1_valid r Hr c)) as Hw.
  destruct (still_there r Hr k (ex_intro _ _ Ec)) as [c' Ec'].
  unfold view1 in Hw; cbn in Hw; rewrite Ec, Ec' in Hw; cbn in Hw.
  unfold v1_gone; rewrite Ec'; destruct (V1Shutdown.main_at c') eqn:E; try done; exfalso.
  apply Hw; try done; intros i Hi; specialize (Hs i Hi).
  destruct (moves r i) as [[|[]|]|]; cbn; try done; by destruct (v1_gone _).
Qed.

Lemma program_waits_witness :
  V2Shutdown.main_at (v2 (at_time (finite_run Sample.start Sample.hanging) 1000)) = V2Shutdown.CloseListen.
Proof.
  apply (program_waits (finite_run Sample.start Sample.hanging) V1Shutdown.Sample.start 1000).
  - apply finite_run_valid, Sample.all_hanging_chained.
  - reflexivity.
  - reflexivity.
  - reflexivity.
  - reflexivity.
  - reflexivity.
  - intros i _; cbn; do 6 (destruct i as [|i]; [discriminate|]); discriminate.
Defined.
End Shutdown.
