(* ===== verification/Races.v ===== *)
(** * Handles shared between threads

    [mPipe] of the v1 server and [mClientSocket] of the v2 server are read, used
    and reset by three threads without a lock.  V1Server and V2Threads take a send,
    with the reads it depends on, as one step; here every read of the member and
    every call on the handle is a step of its own, so that another thread can
    close the handle in between.  To replace or to reset the member is three
    steps: it is looked at, the handle found there is closed, and the new value is
    stored.

    The part of each accept thread is an instance of [Acceptor]; what is proved of
    the handles is proved for every instance. *)

From stdpp Require Import gmap.
From S2P Require Import Prelude.

Module Races.

(** What is done to handles: they are created, closed and passed to a call. *)
Inductive event := Open (h : Z) | Close (h : Z) | Use (h : Z).

(** The handles that are open after a sequence of these; [None] when a handle was
    closed that was not open. *)
Definition replay_step (live : gset Z) (e : event) : option (gset Z) :=
  match e with
  | Open h => Some ({[h]} ∪ live)
  | Close h => if decide (h ∈ live) then Some (live ∖ {[h]}) else None
  | Use _ => Some live
  end.
Definition replay (t : list event) : option (gset Z) :=
  foldl (fun o e => o ≫= fun live => replay_step live e) (Some ∅) t.

(** The handles that are open, whether or not all closes were right. *)
Definition live (t : list event) : gset Z := default ∅ (replay t).

(** The member the threads share, and what has been done. *)
Record shared := mkShared { member : option Z; trace : list event }.

Definition log (e : event) (s : shared) : shared := mkShared (member s) (trace s ++ [e]).

(** [member = std::move(local)] with the new value [Some h], and [member.reset()]
    with [None]. *)
Inductive stage := Look | Closing (h : Z) | Storing.

Inductive replace_step (v : option Z) : stage * shared -> option stage * shared -> Prop :=
  | look_valid h s : member s = Some h -> replace_step v (Look, s) (Some (Closing h), s)
  | look_empty s : member s = None -> replace_step v (Look, s) (Some Storing, s)
  | replace_close h s : replace_step v (Closing h, s) (Some Storing, log (Close h) s)
  | replace_store s : replace_step v (Storing, s) (None, mkShared v (trace s)).

(** A call on what [get()] returned; nothing is passed but an invalid handle when
    the member was empty. *)
Definition use (h : option Z) (s : shared) : shared :=
  match h with Some h => log (Use h) s | None => s end.

(** ** Sending

    [SendRaw]: the member is looked at, read again for the call, and reset when
    the call fails.  [SDone] is before the first and after each send. *)
Inductive sender := SDone | SCheck | SChecked | SGot (h : option Z) | SReset (g : stage).

Inductive send_step : sender * shared -> sender * shared -> Prop :=
  | send_none s : member s = None -> send_step (SCheck, s) (SDone, s)
  | send_some s : member s <> None -> send_step (SCheck, s) (SChecked, s)
  | send_get s : send_step (SChecked, s) (SGot (member s), s)
  | send_written h s : send_step (SGot (Some h), s) (SDone, use (Some h) s)
  | send_failed h s : send_step (SGot h, s) (SReset Look, use h s)
  | send_reset g s g' s' : replace_step None (g, s) (Some g', s') -> send_step (SReset g, s) (SReset g', s')
  | send_end g s s' : replace_step None (g, s) (None, s') -> send_step (SReset g, s) (SDone, s').

(** Where a thread is in the replacement of the member. *)
Definition sender_stage (p : sender) : option stage := match p with SReset g => Some g | _ => None end.

(** ** The accept thread of a server *)

Class Acceptor (A : Type) := {
  accept_start : A;
  accept_step : A * shared -> A * shared -> Prop;
  (** The handle in a local variable of [AcceptOnce]. *)
  local : A -> option Z;
  accept_stage : A -> option stage;
  exited : A -> bool
}.

(** The three threads: the one that calls the server, and its own two; the ping
    thread is [None] when it has ended. *)
Record sys (A : Type) := mkSys {
  object : shared; caller : sender; pinger : option sender; acceptor : A
}.
Arguments mkSys {A}.
Arguments object {A}.
Arguments caller {A}.
Arguments pinger {A}.
Arguments acceptor {A}.

Inductive step {A} `{Acceptor A} : sys A -> sys A -> Prop :=
  (** [SetDevice] or [SetState], and a ping. *)
  | caller_sends o p a : step (mkSys o SDone p a) (mkSys o SCheck p a)
  | caller_step o c o' c' p a : send_step (c, o) (c', o') -> step (mkSys o c p a) (mkSys o' c' p a)
  | pinger_sends o c a : step (mkSys o c (Some SDone) a) (mkSys o c (Some SCheck) a)
  | pinger_step o p o' p' c a : send_step (p, o) (p', o') ->
      step (mkSys o c (Some p) a) (mkSys o' c (Some p') a)
  | pinger_ends o c a : step (mkSys o c (Some SDone) a) (mkSys o c None a)
  | acceptor_step o a o' a' c p : accept_step (a, o) (a', o') -> step (mkSys o c p a) (mkSys o' c p a')
  (** Both threads have been joined; the member is reset or destroyed. *)
  | stop_step o a : exited a = true -> step (mkSys o SDone None a) (mkSys o (SReset Look) None a).

Definition start {A} `{Acceptor A} : sys A :=
  mkSys (mkShared None []) SDone (Some SDone) accept_start.
Definition reachable {A} `{Acceptor A} (s : sys A) : Prop := rtc step start s.

(** The threads that are between the look at the member and the store, and the
    runs in which there is never more than one. *)
Definition inside (g : option stage) : list stage :=
  match g with Some Look | None => [] | Some g => [g] end.
Definition busy {A} `{Acceptor A} (s : sys A) : list stage :=
  inside (sender_stage (caller s)) ++ inside (pinger s ≫= sender_stage) ++ inside (accept_stage (acceptor s)).
Definition turn {A} `{Acceptor A} (s s' : sys A) : Prop := step s s' /\ (length (busy s') <= 1)%nat.

(** ** The v1 server: [AcceptLoop] and [AcceptOnce] *)

Inductive accept1 :=
  | A1Check | A1Create | A1Connect (h : Z) | A1Publish (h : Z) (g : stage) | A1Device | A1Send (p : sender)
  | A1Watch | A1Doze | A1Peek (h : option Z) | A1Reset (g : stage) | A1Exited.

Inductive accept1_step : accept1 * shared -> accept1 * shared -> Prop :=
  | a1_stop s : accept1_step (A1Check, s) (A1Exited, s)
  | a1_check s : accept1_step (A1Check, s) (A1Create, s)
  | a1_busy s : accept1_step (A1Create, s) (A1Check, s)
  | a1_create h s : h ∉ live (trace s) -> accept1_step (A1Create, s) (A1Connect h, log (Open h) s)
  | a1_failed h s : accept1_step (A1Connect h, s) (A1Check, log (Close h) (log (Use h) s))
  | a1_connected h s : accept1_step (A1Connect h, s) (A1Publish h Look, log (Use h) s)
  | a1_publish h g s g' s' : replace_step (Some h) (g, s) (Some g', s') ->
      accept1_step (A1Publish h g, s) (A1Publish h g', s')
  | a1_published h g s s' : replace_step (Some h) (g, s) (None, s') ->
      accept1_step (A1Publish h g, s) (A1Device, s')
  | a1_no_device s : accept1_step (A1Device, s) (A1Watch, s)
  | a1_device s : accept1_step (A1Device, s) (A1Send SCheck, s)
  | a1_send p s p' s' : send_step (p, s) (p', s') -> accept1_step (A1Send p, s) (A1Send p', s')
  | a1_sent s : accept1_step (A1Send SDone, s) (A1Watch, s)
  | a1_unwatched s : accept1_step (A1Watch, s) (A1Reset Look, s)
  | a1_watched s : member s <> None -> accept1_step (A1Watch, s) (A1Doze, s)
  | a1_get s : accept1_step (A1Doze, s) (A1Peek (member s), s)
  | a1_peek h s : accept1_step (A1Peek (Some h), s) (A1Watch, use (Some h) s)
  | a1_broken h s : accept1_step (A1Peek h, s) (A1Reset Look, use h s)
  | a1_reset g s g' s' : replace_step None (g, s) (Some g', s') -> accept1_step (A1Reset g, s) (A1Reset g', s')
  | a1_reset_end g s s' : replace_step None (g, s) (None, s') -> accept1_step (A1Reset g, s) (A1Check, s').

#[export] Instance v1_acceptor : Acceptor accept1 := {
  accept_start := A1Check;
  accept_step := accept1_step;
  local := fun a => match a with A1Connect h | A1Publish h _ => Some h | _ => None end;
  accept_stage := fun a => match a with
                           | A1Publish _ g | A1Reset g => Some g
                           | A1Send p => sender_stage p
                           | _ => None end;
  exited := fun a => match a with A1Exited => true | _ => false end
}.

(** ** The v2 server: [AcceptLoop] and [AcceptOnce]

    Each [ReadNBytes] is given the value of [mClientSocket.get()] and reads [n]
    more bytes from it; [hello] and [header] say which of the two messages that are
    sent, and which part of the one that is received, it is about. *)
Inductive accept2 :=
  | A2Check | A2Accept | A2Publish (h : Z) (g : stage) | A2Send (hello : bool) (p : sender) | A2Serve
  | A2Read (header : bool) (n : nat) | A2Recv (header : bool) (n : nat) (h : option Z)
  | A2Reset (g : stage) | A2Exited.

Inductive accept2_step : accept2 * shared -> accept2 * shared -> Prop :=
  | a2_stop s : accept2_step (A2Check, s) (A2Exited, s)
  | a2_check s : accept2_step (A2Check, s) (A2Accept, s)
  | a2_failed s : accept2_step (A2Accept, s) (A2Check, s)
  | a2_accepted h s : h ∉ live (trace s) -> accept2_step (A2Accept, s) (A2Publish h Look, log (Open h) s)
  | a2_publish h g s g' s' : replace_step (Some h) (g, s) (Some g', s') ->
      accept2_step (A2Publish h g, s) (A2Publish h g', s')
  | a2_published h g s s' : replace_step (Some h) (g, s) (None, s') ->
      accept2_step (A2Publish h g, s) (A2Send true SCheck, s')
  | a2_send b p s p' s' : send_step (p, s) (p', s') -> accept2_step (A2Send b p, s) (A2Send b p', s')
  | a2_device s : accept2_step (A2Send true SDone, s) (A2Send false SCheck, s)
  | a2_no_device s : accept2_step (A2Send true SDone, s) (A2Serve, s)
  | a2_sent s : accept2_step (A2Send false SDone, s) (A2Serve, s)
  | a2_asked s : accept2_step (A2Serve, s) (A2Reset Look, s)
  | a2_serve s : accept2_step (A2Serve, s) (A2Read true 12, s)
  | a2_get b n s : accept2_step (A2Read b n, s) (A2Recv b n (member s), s)
  | a2_recv b k n h s : (0 < k)%nat ->
      accept2_step (A2Recv b (k + n) (Some h), s) (A2Recv b n (Some h), use (Some h) s)
  | a2_gone b n h s : accept2_step (A2Recv b (S n) h, s) (A2Check, use h s)
  | a2_header n h s : accept2_step (A2Recv true 0 h, s) (A2Read false n, s)
  | a2_body h s : accept2_step (A2Recv false 0 h, s) (A2Serve, s)
  | a2_reset g s g' s' : replace_step None (g, s) (Some g', s') -> accept2_step (A2Reset g, s) (A2Reset g', s')
  | a2_reset_end g s s' : replace_step None (g, s) (None, s') -> accept2_step (A2Reset g, s) (A2Check, s').

#[export] Instance v2_acceptor : Acceptor accept2 := {
  accept_start := A2Check;
  accept_step := accept2_step;
  local := fun a => match a with A2Publish h _ => Some h | _ => None end;
  accept_stage := fun a => match a with
                           | A2Publish _ g | A2Reset g => Some g
                           | A2Send _ p => sender_stage p
                           | _ => None end;
  exited := fun a => match a with A2Exited => true | _ => false end
}.

(** ** Handles are closed once when replacements do not overlap *)

Lemma replay_app t u : replay (t ++ u) =
  foldl (fun o e => o ≫= fun live => replay_step live e) (replay t) u.
Proof. unfold replay; apply foldl_app. Qed.

Lemma replay_open t l h : replay t = Some l -> replay (t ++ [Open h]) = Some ({[h]} ∪ l).
Proof. intros E; by rewrite replay_app, E. Qed.
Lemma replay_close t l h : replay t = Some l -> h ∈ l -> replay (t ++ [Close h]) = Some (l ∖ {[h]}).
Proof. intros E Hh; rewrite replay_app, E; cbn; by rewrite decide_True. Qed.
Lemma replay_use t h : replay (t ++ [Use h]) = replay t.
Proof. rewrite replay_app; cbn; by destruct (replay t). Qed.

(** The open handles are the one in the member and the one in the local variable
    of the accept thread. *)
Definition set_of (o : option Z) : gset Z := match o with Some h => {[h]} | None => ∅ end.
Definition handles (m l : option Z) : gset Z := set_of m ∪ set_of l.
Ltac by_elements :=
  unfold handles; cbn; try (apply set_eq; intros x);
  rewrite ?elem_of_difference, ?elem_of_union, ?elem_of_singleton, ?elem_of_empty; intuition congruence.

Lemma handles_close h l : l <> Some h -> handles (Some h) l ∖ {[h]} = handles None l.
Proof. intros Hl; destruct l as [k|]; by_elements. Qed.
Lemma handles_drop m h : m <> Some h -> handles m (Some h) ∖ {[h]} = handles m None.
Proof. intros Hm; destruct m as [k|]; by_elements. Qed.
Lemma handles_move h : handles None (Some h) = handles (Some h) None.
Proof. by_elements. Qed.
Lemma handles_open m h : {[h]} ∪ handles m None = handles m (Some h).
Proof. destruct m; by_elements. Qed.
Lemma handles_member h l : h ∈ handles (Some h) l.
Proof. destruct l; by_elements. Qed.
Lemma handles_local m h : h ∈ handles m (Some h).
Proof. destruct m; by_elements. Qed.

(** The handle that is in the member and open: none between a close and the store
    after it. *)
Definition current (b : list stage) (m : option Z) : option Z :=
  match b with Storing :: _ => None | _ => m end.

(** The state of the handles when at most one replacement, [b], is under way and
    the accept thread holds [l]. *)
Record owned (s : shared) (b : list stage) (l : option Z) : Prop := {
  owned_open : replay (trace s) = Some (handles (current b (member s)) l);
  owned_apart : forall h, current b (member s) = Some h -> l = Some h -> False;
  owned_closing : forall h, b = [Closing h] -> member s = Some h;
  owned_one : (length b <= 1)%nat
}.

Section owned.
Context (s : shared) (b : list stage) (l : option Z) (Ho : owned s b l).

Lemma owned_use h : owned (use h s) b l.
Proof. destruct h as [h|]; [|done]; destruct Ho as [E ? ? ?]; split; [cbn; by rewrite replay_use|done..]. Qed.

Lemma owned_call h : owned (log (Use h) s) b l.
Proof. apply (owned_use (Some h)). Qed.
End owned.

Lemma owned_create s b h : owned s b None -> h ∉ live (trace s) -> owned (log (Open h) s) b (Some h).
Proof.
  intros [E Ha Hc H1]; unfold live; rewrite E; cbn; intros Hh; split; cbn; [|intros k Em [= ->]|done|done].
  - by rewrite (replay_open _ _ _ E), handles_open.
  - apply Hh; rewrite Em; apply handles_member.
Qed.

Lemma owned_drop s b h : owned s b (Some h) -> owned (log (Close h) (log (Use h) s)) b None.
Proof.
  intros [E Ha Hc H1]; split; [|done..]; cbn; rewrite <- replay_use with (h := h) in E.
  rewrite (replay_close _ _ _ E) by apply handles_local; rewrite handles_drop; [done|eauto].
Qed.

(** A step of a replacement by one thread, while the others are at [x] and [y]. *)
Lemma owned_replace v g s o s' x y l : replace_step v (g, s) (o, s') -> v = None \/ v = l ->
  owned s (x ++ inside (Some g) ++ y) l -> (length (x ++ inside o ++ y) <= 1)%nat ->
  owned s' (x ++ inside o ++ y) (match o, v with None, Some _ => None | _, _ => l end).
Proof.
  intros Hs Hv Ho Hl; assert (x = [] /\ y = []) as [-> ->].
  { destruct Ho as [_ _ _ H1]; rewrite !length_app in *.
    destruct x, y; try done; exfalso; inversion Hs; subst; cbn in *; lia. }
  inversion Hs; subst; cbn in *; rewrite ?app_nil_r in *; destruct Ho as [E Ha Hc _]; cbn in *.
  - split; cbn; [done|done|by intros ? [= <-]|lia].
  - assert (member s' = None) as Em by done; rewrite Em in E; split; cbn; [done|done|done|lia].
  - specialize (Hc h eq_refl); rewrite Hc in *; split; cbn; [|done|done|lia].
    rewrite (replay_close _ _ _ E) by apply handles_member; rewrite handles_close; [done|eauto].
  - destruct v as [h|]; cbn; [|by split].
    destruct Hv as [|<-]; [done|]; split; [|done|done|cbn; lia].
    cbn [trace member current]; by rewrite E, handles_move.
Qed.

Create HintDb owned.
#[local] Hint Resolve owned_use owned_call owned_create owned_drop : owned.

Lemma owned_send p s p' s' x y l : send_step (p, s) (p', s') ->
  owned s (x ++ inside (sender_stage p) ++ y) l ->
  (length (x ++ inside (sender_stage p') ++ y) <= 1)%nat ->
  owned s' (x ++ inside (sender_stage p') ++ y) l.
Proof.
  inversion 1; subst; cbn [sender_stage inside]; intros Ho Hl; auto with owned.
  - by eapply (owned_replace None) in Ho; [|by eauto..].
  - by eapply (owned_replace None _ _ None) in Ho; [|by eauto..].
Qed.

(** What the accept thread of a server has to do for it. *)
Class AcceptorOk A `{Acceptor A} : Prop := {
  start_local : local accept_start = None /\ accept_stage accept_start = None;
  accept_owned : forall a s a' s' x, accept_step (a, s) (a', s') ->
    owned s (x ++ inside (accept_stage a)) (local a) ->
    (length (x ++ inside (accept_stage a')) <= 1)%nat ->
    owned s' (x ++ inside (accept_stage a')) (local a')
}.

Lemma owned_replace_last v g s o s' x l : replace_step v (g, s) (o, s') -> v = None \/ v = l ->
  owned s (x ++ inside (Some g)) l -> (length (x ++ inside o) <= 1)%nat ->
  owned s' (x ++ inside o) (match o, v with None, Some _ => None | _, _ => l end).
Proof.
  pose proof (owned_replace v g s o s' x [] l) as Hr; rewrite !app_nil_r in Hr; exact Hr.
Qed.

Lemma owned_send_last p s p' s' x l : send_step (p, s) (p', s') ->
  owned s (x ++ inside (sender_stage p)) l -> (length (x ++ inside (sender_stage p')) <= 1)%nat ->
  owned s' (x ++ inside (sender_stage p')) l.
Proof.
  pose proof (owned_send p s p' s' x [] l) as Hr; rewrite !app_nil_r in Hr; exact Hr.
Qed.

Ltac accept_case :=
  first [ solve [eauto with owned]
        | match goal with
          | Hr : replace_step ?v (?g, _) (?o, _), Ho : owned _ (_ ++ _) ?l |- _ =>
              by apply (owned_replace_last v g _ o _ _ l Hr); [auto|..]
          | Hr : send_step _ _, Ho : owned _ _ _ |- _ => by refine (owned_send_last _ _ _ _ _ _ Hr Ho _)
          end ].

#[export] Instance v1_acceptor_ok : AcceptorOk accept1.
Proof. split; [done|]; intros a s a' s' x Hs Ho Hl; inversion Hs; subst; cbn in *; accept_case. Qed.
#[export] Instance v2_acceptor_ok : AcceptorOk accept2.
Proof. split; [done|]; intros a s a' s' x Hs Ho Hl; inversion Hs; subst; cbn in *; accept_case. Qed.

Lemma turn_owned {A} `{AcceptorOk A} (s s' : sys A) : turn s s' ->
  owned (object s) (busy s) (local (acceptor s)) -> owned (object s') (busy s') (local (acceptor s')).
Proof.
  unfold busy; intros [[] Hl] Ho; unfold busy in Hl; cbn in *; try exact Ho.
  - by eapply (owned_send _ _ _ _ []).
  - by eapply (owned_send _ _ _ _ (inside (sender_stage _))).
  - rewrite app_assoc in *; by eapply accept_owned.
Qed.

Lemma turns_owned {A} `{AcceptorOk A} (s : sys A) : rtc turn start s ->
  owned (object s) (busy s) (local (acceptor s)).
Proof.
  assert (owned (object start) (busy start) (local (acceptor (A := A) start))) as Hs.
  { unfold busy; cbn; destruct start_local as [-> ->]; split; cbn; done || lia. }
  revert Hs; generalize (start (A := A)); intros s0 Hs Hr.
  induction Hr as [|s1 s2 s3 Hs12 Hr IH]; [done|]; by apply IH, (turn_owned s1).
Qed.

(** ** Handles are closed twice, used after they are closed, and lost *)

(** A call was made on a handle that was not open. *)
Definition stale (t : list event) : Prop :=
  exists t1 h t2, t = t1 ++ Use h :: t2 /\ h ∉ live t1.

Lemma closed_not_live t h : h ∉ live (t ++ [Close h]).
Proof.
  unfold live; rewrite replay_app; cbn; destruct (replay t) as [l|]; cbn; [|apply not_elem_of_empty].
  destruct (decide (h ∈ l)); cbn; [|apply not_elem_of_empty].
  rewrite elem_of_difference, elem_of_singleton; tauto.
Qed.

Lemma replay_close_twice t h : replay ((t ++ [Close h]) ++ [Close h]) = None.
Proof.
  rewrite replay_app; cbn; pose proof (closed_not_live t h) as Hl; unfold live in Hl.
  destruct (replay (t ++ [Close h])) as [l|]; [|done]; cbn in *; by rewrite decide_False.
Qed.

(** One step of a run from a state that is known. *)
Ltac go c := eapply rtc_l; [eapply c; try reflexivity; try done|]; cbn [object].

(** The caller and the ping thread have both read the handle, for a call each. *)
Lemma both_got {A} `{Acceptor A} o (a : A) h : member o = Some h ->
  rtc step (mkSys o SDone (Some SDone) a) (mkSys o (SGot (Some h)) (Some (SGot (Some h))) a).
Proof.
  intros Em; go @caller_sends; go @caller_step; [apply send_some; by rewrite Em|].
  go @caller_step; [apply send_get|]; rewrite Em; go @pinger_sends.
  go @pinger_step; [apply send_some; by rewrite Em|].
  eapply rtc_once, pinger_step; rewrite <- Em; apply send_get.
Qed.

(** The one whose call fails closes the handle, and then the other makes its
    call. *)
Lemma stale_possible {A} `{Acceptor A} o (a : A) h : member o = Some h ->
  exists s, rtc step (mkSys o SDone (Some SDone) a) s /\ stale (trace (object s)).
Proof.
  intros Em; set (o1 := log (Close h) (use (Some h) o)).
  exists (mkSys (use (Some h) o1) SDone (Some (SReset Storing)) a); split.
  - etrans; [by apply both_got|].
    go @pinger_step; [apply send_failed|]; go @pinger_step; [by apply send_reset, look_valid|].
    go @pinger_step; [by apply send_reset, replace_close|]; apply rtc_once, caller_step, send_written.
  - exists (trace o1), h, []; split; [done|]; apply closed_not_live.
Qed.

(** Both calls fail, and both threads close the handle. *)
Lemma closed_twice_possible {A} `{Acceptor A} o (a : A) h : member o = Some h ->
  exists s, rtc step (mkSys o SDone (Some SDone) a) s /\ replay (trace (object s)) = None.
Proof.
  intros Em; set (o1 := use (Some h) (use (Some h) o)).
  exists (mkSys (log (Close h) (log (Close h) o1)) (SReset Storing) (Some (SReset Storing)) a); split.
  - etrans; [by apply both_got|].
    go @pinger_step; [apply send_failed|]; go @caller_step; [apply send_failed|].
    go @pinger_step; [by apply send_reset, look_valid|]; go @caller_step; [by apply send_reset, look_valid|].
    go @pinger_step; [by apply send_reset, replace_close|].
    apply rtc_once, caller_step, send_reset, replace_close.
  - apply replay_close_twice.
Qed.

(** What holds of the member of a server, and what can happen to it. *)
Definition closed_once (A : Type) `{Acceptor A} : Prop := forall s : sys A, rtc turn start s ->
  replay (trace (object s)) =
    Some (handles (current (busy s) (member (object s))) (local (acceptor s))).
Definition connects (A : Type) `{Acceptor A} : Prop := exists o (a : A) h,
  rtc turn start (mkSys o SDone (Some SDone) a) /\ member o = Some h.
Definition closed_twice (A : Type) `{Acceptor A} : Prop := forall o (a : A) h,
  reachable (mkSys o SDone (Some SDone) a) -> member o = Some h ->
  exists s, rtc step (mkSys o SDone (Some SDone) a) s /\ replay (trace (object s)) = None.
Definition used_after_close (A : Type) `{Acceptor A} : Prop := forall o (a : A) h,
  reachable (mkSys o SDone (Some SDone) a) -> member o = Some h ->
  exists s, rtc step (mkSys o SDone (Some SDone) a) s /\ stale (trace (object s)).
(** No close was wrong, and a handle is open that no thread knows. *)
Definition lost (A : Type) `{Acceptor A} : Prop := exists o (a : A) h,
  reachable (mkSys o SDone (Some SDone) a) /\ replay (trace o) = Some {[h]} /\
  member o = None /\ local a = None /\ accept_stage a = None.

(** The first client of each server is connected, and nobody else does anything. *)
Definition o1 : shared := mkShared (Some 1) [Open 1; Use 1].
Definition o2 : shared := mkShared (Some 1) [Open 1].

Tactic Notation "acts" tactic3(t) := eapply rtc_l; [split; [eapply acceptor_step; t|cbn; lia]|]; cbn [object].

Lemma v1_connects : rtc turn start (mkSys o1 SDone (Some SDone) A1Device).
Proof.
  acts (apply a1_check); acts (apply (a1_create 1), not_elem_of_empty).
  acts (apply a1_connected); acts (by apply a1_publish, look_empty).
  acts (by apply a1_published, replace_store); apply rtc_refl.
Qed.
Lemma v2_connects : rtc turn start (mkSys o2 SDone (Some SDone) (A2Send true SCheck)).
Proof.
  acts (apply a2_check); acts (apply (a2_accepted 1), not_elem_of_empty).
  acts (by apply a2_publish, look_empty).
  acts (by apply a2_published, replace_store); apply rtc_refl.
Qed.

Lemma turns_reachable {A} `{Acceptor A} (s : sys A) : rtc turn start s -> reachable s.
Proof. intros Hr; unfold reachable; induction Hr as [|? ? ? [Hs _]]; [done|by eapply rtc_l]. Qed.

(** The caller sees the member empty in the reset after a failed call, the accept
    thread stores the next handle, and the caller stores nothing over it. *)
Lemma v1_loses : lost accept1.
Proof.
  exists (mkShared None [Open 1; Use 1; Use 1; Close 1; Open 2; Use 2]), A1Device, 2.
  split; [|by split; [vm_compute; reflexivity|]].
  unfold reachable; etrans; [apply turns_reachable, v1_connects|].
  go @caller_sends; go @caller_step; [by apply send_some|]; go @caller_step; [apply send_get|].
  go @caller_step; [apply send_failed|].
  go @acceptor_step; [apply a1_no_device|]; go @acceptor_step; [apply a1_unwatched|].
  go @acceptor_step; [by apply a1_reset, look_valid|]; go @acceptor_step; [by apply a1_reset, replace_close|].
  go @acceptor_step; [by apply a1_reset_end, replace_store|].
  go @caller_step; [by apply send_reset, look_empty|].
  go @acceptor_step; [apply a1_check|]; go @acceptor_step; [apply (a1_create 2); vm_compute; by intros ?|].
  go @acceptor_step; [apply a1_connected|]; go @acceptor_step; [by apply a1_publish, look_empty|].
  go @acceptor_step; [by apply a1_published, replace_store|].
  apply rtc_once, caller_step; apply (send_end Storing), (replace_store None).
Qed.

(** The same in the v2 server, where it is the ping thread that has emptied the
    member. *)
Lemma v2_loses : lost accept2.
Proof.
  exists (mkShared None [Open 1; Use 1; Use 1; Close 1; Open 2]), (A2Send true SCheck), 2.
  split; [|by split; [vm_compute; reflexivity|]].
  unfold reachable; etrans; [apply turns_reachable, v2_connects|]; etrans; [by apply (both_got _ _ 1)|].
  go @caller_step; [apply send_failed|]; go @pinger_step; [apply send_failed|].
  go @pinger_step; [by apply send_reset, look_valid|]; go @pinger_step; [by apply send_reset, replace_close|].
  go @pinger_step; [by apply send_end, replace_store|].
  go @caller_step; [by apply send_reset, look_empty|].
  go @acceptor_step; [by apply a2_send, send_none|]; go @acceptor_step; [apply a2_no_device|].
  go @acceptor_step; [apply a2_serve|]; go @acceptor_step; [apply a2_get|].
  go @acceptor_step; [apply a2_gone|]; go @acceptor_step; [apply a2_check|].
  go @acceptor_step; [apply (a2_accepted 2); vm_compute; by intros ?|].
  go @acceptor_step; [by apply a2_publish, look_empty|].
  go @acceptor_step; [by apply a2_published, replace_store|].
  apply rtc_once, caller_step; apply (send_end Storing), (replace_store None).
Qed.

(** C31: the handle of the client, shared without a lock.  In both servers, in every
    interleaving of the reads of [mPipe] and [mClientSocket], the calls on them
    and the steps of replacing them, in which no two threads replace the member
    at the same time, a handle is closed at most once and none is lost: the open
    handles are the one in the member and the one the accept thread holds.  That
    the threads keep apart is luck: whenever there is a client, the caller and the
    ping thread can come to close its handle twice, or to make a call on it after
    it was closed, and there are runs in which the handle of a new client is
    overwritten and stays open for ever. *)
Theorem shared_handles :
  (closed_once accept1 /\ closed_once accept2) /\ (connects accept1 /\ connects accept2) /\
  (closed_twice accept1 /\ closed_twice accept2) /\
  (used_after_close accept1 /\ used_after_close accept2) /\ (lost accept1 /\ lost accept2).
Proof.
  split; [split; intros s Hs; apply owned_open, turns_owned, Hs|].
  split; [split; [exists o1, A1Device, 1; split; [apply v1_connects|done]
                 |exists o2, (A2Send true SCheck), 1; split; [apply v2_connects|done]]|].
  split; [split; intros o a h _; apply closed_twice_possible|].
  split; [split; intros o a h _; apply stale_possible|split; [apply v1_loses|apply v2_loses]].
Qed.
End Races.
