(* ===== verification/V2Service.v ===== *)
(** * The OTD-IPC v2 server: serving

    What clients can count on before [Stop] is called.  The positions of the
    accept and ping threads are those of V2Shutdown, and the code follows them
    (V2Control); instead of stopping, the main thread sends devices and states. *)

From S2P Require Import Prelude Fairness V2Shutdown.
Import Fairness V2Shutdown.

Module V2Service.

Inductive thread := Caller | Of (t : V2Shutdown.thread).
#[export] Instance v2_service_thread_eq : EqDecision thread.
Proof. solve_decision. Defined.

Definition set_device c := mkCtl (main_at c) (ping_at c) (accept_at c) (listening c) (waiting c)
  (client c) true (ping_stop c) (accept_stop c).

(** [SetDevice] stores the device and sends it, [SetState] sends a state. *)
Inductive call_step : ctl -> ctl -> Prop :=
  | call_store c : call_step c (set_device c)
  | call_send c k : sends (client c) k -> call_step c (set_client k c).

Definition step (t : thread) (c c' : ctl) : Prop :=
  match t with
  | Caller => call_step c c'
  | Of TMain => False
  | Of t => V2Shutdown.tstep t c c'
  end.

(** The server has been started and not been stopped. *)
Definition up (c : ctl) : Prop :=
  listening c = true /\ accept_stop c = false /\ ping_stop c = false.

(** The client has ended the connection, or has been dropped. *)
Definition gone (k : option peer) : Prop :=
  match k with Some p => hung_up p = true | None => True end.

(** The accept thread has no client, or one that is gone. *)
Definition free (c : ctl) : Prop :=
  match accept_at c with
  | ACheck | AAccept => True
  | AServe | ARecv _ _ => gone (client c)
  | _ => False
  end.

Definition at_handshake (c : ctl) : Prop := accept_at c = AHello \/ accept_at c = ADevice.

Ltac service_step :=
  repeat match goal with
  | H : step ?t _ _ |- _ => destruct t as [|[]]; cbn in H
  | H : False |- _ => destruct H
  | H : call_step _ _ |- _ => destruct H
  end;
  ctl_step.

Lemma v2_up_step t c c' : step t c c' -> up c -> up c'.
Proof.
  unfold up; intros Hs (H1 & H2 & H3); by service_step.
Qed.
Lemma up_arrives c c' : arrives c c' -> up c -> up c'.
Proof. by intros [] Hu. Qed.

(** ** The next client *)

(** A client waits for the accept thread, or is about to be greeted. *)
Definition pending (c : ctl) : Prop :=
  match accept_at c with
  | AHello => True
  | _ => free c /\ (0 < waiting c)%nat
  end.

(** What the accept thread still has to do: read what a client that is gone has
    left behind, then take the next one. *)
Definition unread (c : ctl) : nat := match client c with Some p => avail p | None => 0 end.
Definition ahead (c : ctl) : rank :=
  match accept_at c with
  | ACheck => (0, 0, 4)
  | AAccept => (0, 0, 3)
  | AHello => (0, 0, 2)
  | AServe => (1, unread c, 3)
  | ARecv true 0 => (1, unread c, 5)
  | ARecv true _ => (1, unread c, 2)
  | ARecv false _ => (1, unread c, 4)
  | _ => (0, 0, 0)
  end%nat.

Lemma pending_enabled c : up c -> pending c -> (accept_at c = AHello -> full c = false) ->
  enabled step (Of TAccept) c.
Proof.
  unfold pending, free; intros (Hl & Ha & _) Hp Hf.
  destruct (accept_at c) as [| | | | |h [|n]| |] eqn:Ep; destruct_and?; try done.
  - eexists; by apply accept_check.
  - destruct (waiting c) as [|n] eqn:Ew; [lia|]; eexists; by apply (accept_client c n 0 0).
  - destruct (sends_enabled _ (Hf eq_refl)) as [k Hk]; eexists; by eapply accept_hello.
  - eexists; by apply accept_serve.
  - destruct h; eexists; [by apply (accept_header _ 0)|by apply accept_body].
  - destruct (client c) as [[r [|a] k]|] eqn:Ec; cbn in *; subst.
    + eexists; by eapply accept_closed.
    + eexists; by apply (accept_recv c h 0 n r a true).
    + eexists; by eapply accept_dropped.
Qed.

Lemma pending_accept c c' : up c -> pending c -> accept_step c c' ->
  (accept_at c = AAccept -> accept_at c' = AHello) ->
  accept_at c = AHello \/ pending c' /\ lex (ahead c') (ahead c).
Proof.
  unfold up, pending, free, ahead, unread; intros (Hl & Ha & _) Hp Hs Hstay; ctl_step; try by left.
  all: right; cbn in *; try (by specialize (Hstay eq_refl)); destruct_and?.
  all: try (split; [done|lia]).
  all: destruct header; (split; [by split|]); try destruct n; cbn; lia.
Qed.

(** What the other threads and the clients leave of it. *)
Record apart (c c' : ctl) : Prop := {
  apart_at : accept_at c' = accept_at c;
  apart_waiting : (waiting c <= waiting c')%nat;
  apart_gone : gone (client c) -> gone (client c') /\ (unread c' <= unread c)%nat
}.

Lemma sends_apart k c : sends (client c) k -> apart c (set_client k c).
Proof.
  intros Hk; split; [done|done|]; unfold unread; cbn; destruct Hk; cbn; intros; split; try done; lia.
Qed.

Lemma v2_others_apart t c c' : t <> Of TAccept -> step t c c' -> apart c c'.
Proof.
  intros Ht Hs; destruct t as [|[]]; cbn in Hs; try done.
  - destruct Hs as [c|c k Hk]; [by split|by apply sends_apart].
  - destruct Hs as [c|c|c|c k _ Hk]; [by split..|]; destruct (sends_apart k c Hk); by split.
  - destruct Hs as [c k Hd]; split; [done|done|]; unfold unread; cbn; by destruct Hd.
  - destruct Hs as [c r a n Ec|c r a Ec]; (split; [done|done|]); rewrite Ec; by intros ?.
Qed.

Lemma arrives_apart c c' : arrives c c' -> apart c c'.
Proof. intros []; split; cbn; [done|lia|done]. Qed.

Lemma pending_apart c c' : apart c c' -> pending c ->
  pending c' /\ (lex (ahead c') (ahead c) \/ ahead c' = ahead c).
Proof.
  intros [Ea Hw Hg]; unfold pending, free, ahead; rewrite Ea.
  destruct (accept_at c) as [| | | | |[] [|n]| |]; intros Hp; destruct_and?; try done;
    try (split; [by split; try lia|by right]).
  all: destruct Hg as [Hg Hu]; [done|]; split; [split; [done|lia]|]; cbn; destruct (decide (unread c' = unread c)) as [->|]; [by right|left; lia].
Qed.

Lemma hello_moves c c' : accept_step c c' -> accept_at c = AHello ->
  sends (client c) (client c') /\ accept_at c' = ADevice.
Proof. intros Hs Ea; by ctl_step. Qed.
Lemma v2_device_moves c c' : accept_step c c' -> accept_at c = ADevice ->
  (has_device c = true -> sends (client c) (client c')) /\ accept_at c' = AServe.
Proof. intros Hs Ea; ctl_step; split; [|done]; by intros ->. Qed.

(** ** A run of the server *)

Section run.
Context (r : run ctl thread) (Hr : valid step arrives r) (Hf : forall t, fair step t r).
Context (Hup : up (at_time r 0)).
(** Clients that wait stay until they are accepted, and a client that is being
    greeted takes what it is sent. *)
Context (Hstay : forall n, accept_at (at_time r n) = AAccept -> moves r n = Some (Of TAccept) ->
  accept_at (at_time r (S n)) = AHello).
Context (Htakes : forall n, at_handshake (at_time r n) -> full (at_time r n) = false).

Lemma v2_up_always n : up (at_time r n).
Proof.
  induction n as [|n IH]; [done|]; specialize (Hr n); destruct (moves r n) as [t|]; [by eapply v2_up_step|].
  destruct Hr as [He|<-]; [by eapply up_arrives|done].
Qed.

(** A move of the accept thread, or one that leaves it where it is. *)
Lemma v2_move_cases n :
  moves r n = Some (Of TAccept) /\ accept_step (at_time r n) (at_time r (S n)) \/
  moves r n <> Some (Of TAccept) /\ apart (at_time r n) (at_time r (S n)).
Proof.
  specialize (Hr n); destruct (moves r n) as [t|]; [|right; split; [done|]].
  - destruct (decide (t = Of TAccept)) as [->|Ht]; [by left|right; split; [congruence|by eapply v2_others_apart]].
  - destruct Hr as [He|<-]; [by apply arrives_apart|by split].
Qed.

(** The next client is sent the Hello. *)
Lemma v2_greeted n : pending (at_time r n) -> exists m, (n <= m)%nat /\
  moves r m = Some (Of TAccept) /\ accept_at (at_time r m) = AHello.
Proof.
  apply (response step r Hf (fun n => pending (at_time r n))
    (fun m => moves r m = Some (Of TAccept) /\ accept_at (at_time r m) = AHello)
    (fun n => ahead (at_time r n)) (fun _ => Of TAccept)).
  - intros k Hk; apply pending_enabled; [apply v2_up_always|done|]; intros E; apply Htakes; by left.
  - intros k Hk; destruct (v2_move_cases k) as [[Hm Hs]|[Hm Ha]].
    + destruct (pending_accept _ _ (v2_up_always k) Hk Hs (fun E => Hstay k E Hm)) as [?|[? ?]]; auto.
    + destruct (pending_apart _ _ Ha Hk) as [? [?|?]]; right; auto.
Qed.

(** And then the device, if there is one. *)
Lemma introduced n : accept_at (at_time r n) = ADevice -> exists m, (n <= m)%nat /\
  moves r m = Some (Of TAccept) /\ accept_at (at_time r m) = ADevice.
Proof.
  apply (response step r Hf (fun n => accept_at (at_time r n) = ADevice)
    (fun m => moves r m = Some (Of TAccept) /\ accept_at (at_time r m) = ADevice)
    (fun _ => (0, 0, 0)%nat) (fun _ => Of TAccept)).
  - intros k Hk; destruct (sends_enabled _ (Htakes k (or_intror Hk))) as [p Hp].
    destruct (has_device (at_time r k)) eqn:Ed; eexists; apply accept_device; try done; by rewrite Ed.
  - intros k Hk; destruct (v2_move_cases k) as [[Hm Hs]|[Hm [Ea _ _]]]; [by left|right; rewrite Ea; auto].
Qed.
End run.

(** ** Pings *)

Definition ping_left (p : pinger) : rank :=
  match p with PCheck => (0, 0, 3) | PSleep => (0, 0, 2) | PCheckAgain => (0, 0, 1) | _ => (0, 0, 0) end%nat.

Lemma others_ping t c c' : t <> Of TPing -> step t c c' -> ping_at c' = ping_at c.
Proof.
  intros Ht Hs; destruct t as [|[]]; cbn in Hs; try done; destruct Hs; try done.
  by destruct (accept_stop c).
Qed.

Lemma v2_ping_closer c c' : ping_step c c' -> ping_stop c = false ->
  (ping_at c = PSend \/ ping_at c = PCheckAgain /\ client c = None) \/
  ping_at c' <> PExited /\ lex (ping_left (ping_at c')) (ping_left (ping_at c)).
Proof.
  intros Hs Hp; destruct Hs as [c Ep|c Ep|c Ep|c p Ep _]; [..|by left; left]; rewrite Ep; cbn; try rewrite Hp.
  - right; split; [done|cbn; lia].
  - right; split; [done|cbn; lia].
  - destruct (client c); [right; split; [done|cbn; lia]|left; by right].
Qed.

Lemma ping_sends c c' : ping_step c c' -> ping_at c = PSend -> sends (client c) (client c').
Proof. by intros []; rewrite ?H; try congruence. Qed.

Section pings.
Context (r : run ctl thread) (Hr : valid step arrives r) (Hf : forall t, fair step t r).
Context (Hup : up (at_time r 0)).
Context (Htakes : forall n, ping_at (at_time r n) = PSend -> full (at_time r n) = false).

Lemma v2_ping_moves n :
  moves r n = Some (Of TPing) /\ ping_step (at_time r n) (at_time r (S n)) \/
  moves r n <> Some (Of TPing) /\ ping_at (at_time r (S n)) = ping_at (at_time r n).
Proof.
  specialize (Hr n); destruct (moves r n) as [t|]; [|right; split; [done|]].
  - destruct (decide (t = Of TPing)) as [->|Ht]; [by left|right; split; [congruence|by eapply others_ping]].
  - by destruct Hr as [[]|<-].
Qed.

(** It does not end before it is asked to. *)
Lemma v2_ping_stays n : ping_at (at_time r 0) <> PExited -> ping_at (at_time r n) <> PExited.
Proof.
  intros H0; induction n as [|n IH]; [done|].
  destruct (v2_ping_moves n) as [[_ Hs]|[_ ->]]; [|done].
  destruct (v2_up_always r Hr Hup n) as (_ & _ & Hps); destruct Hs; cbn in *; rewrite ?Hps; try done.
  by destruct (client c).
Qed.

(** The ping thread sends a ping, or finds that nobody is connected. *)
Definition pings (n : nat) : Prop :=
  moves r n = Some (Of TPing) /\
  (ping_at (at_time r n) = PSend \/ ping_at (at_time r n) = PCheckAgain /\ client (at_time r n) = None).

Lemma v2_ping_again n : ping_at (at_time r n) <> PExited -> exists m, (n <= m)%nat /\ pings m.
Proof.
  apply (response step r Hf (fun n => ping_at (at_time r n) <> PExited) pings
    (fun n => ping_left (ping_at (at_time r n))) (fun _ => Of TPing)).
  - intros k Hk; apply V2Shutdown.ping_enabled; [done|].
    destruct (ping_at (at_time r k)) eqn:E; try done; cbn; by apply Htakes.
  - intros k Hk; destruct (v2_ping_moves k) as [[Hm Hs]|[Hm E]]; [|right; rewrite E; auto].
    destruct (v2_up_always r Hr Hup k) as (_ & _ & Hps).
    destruct (v2_ping_closer _ _ Hs Hps) as [?|[? ?]]; [by left|right; auto].
Qed.
End pings.

(** ** One client at a time *)

Definition serving (c : ctl) : Prop := match accept_at c with AServe | ARecv _ _ => True | _ => False end.
Definition connected (c : ctl) : Prop := match client c with Some p => hung_up p = false | None => False end.

Lemma serving_step c c' : accept_step c c' -> up c -> serving c -> connected c ->
  serving c' /\ waiting c' = waiting c.
Proof.
  unfold up, serving, connected; intros Hs (_ & Ha & _); ctl_step; try done; by intros.
Qed.

Section busy.
Context (r : run ctl thread) (Hr : valid step arrives r) (Hup : up (at_time r 0)).

Lemma stays_busy n k : (n <= k)%nat -> serving (at_time r n) ->
  (forall i, (n <= i < k)%nat -> connected (at_time r i)) ->
  serving (at_time r k) /\ (waiting (at_time r n) <= waiting (at_time r k))%nat.
Proof.
  intros Hk Hs; induction Hk as [|k Hk IH]; intros Hc; [by split|].
  destruct IH as [Hsk Hw]; [intros i Hi; apply Hc; lia|].
  destruct (v2_move_cases r Hr k) as [[_ Hm]|[_ [Ea Hwk _]]].
  - destruct (serving_step _ _ Hm (v2_up_always r Hr Hup k) Hsk (Hc k ltac:(lia))) as [? ->]; auto.
  - split; [|lia]; unfold serving; by rewrite Ea.
Qed.
End busy.

(** ** A run *)

Module Sample.
(** A client comes, is greeted and sends a message from time to time, while the
    server pings it and the caller stores the same device again. *)
Definition client_with (room avail : nat) : option peer := Some (mkPeer room avail false).
Definition ctl_at (p : pinger) (a : accepting) (w : nat) (k : option peer) (d : bool) : ctl :=
  mkCtl CloseListen p a true w k d false false.
Definition start : ctl := ctl_at PCheck ACheck 1 None false.
Definition first : list (thread * ctl) :=
  [(Caller, ctl_at PCheck ACheck 1 None true);
   (Of TAccept, ctl_at PCheck AAccept 1 None true);
   (Of TAccept, ctl_at PCheck AHello 0 (client_with 4 0) true);
   (Of TAccept, ctl_at PCheck ADevice 0 (client_with 3 0) true);
   (Of TAccept, ctl_at PCheck AServe 0 (client_with 2 0) true);
   (Of TAccept, ctl_at PCheck (ARecv true 12) 0 (client_with 2 0) true)].
Definition loop : list (thread * ctl) :=
  [(Caller, ctl_at PCheck (ARecv true 12) 0 (client_with 2 0) true);
   (Of TPing, ctl_at PSleep (ARecv true 12) 0 (client_with 2 0) true);
   (Of TPing, ctl_at PCheckAgain (ARecv true 12) 0 (client_with 2 0) true);
   (Of TPing, ctl_at PSend (ARecv true 12) 0 (client_with 2 0) true);
   (Of TPing, ctl_at PCheck (ARecv true 12) 0 (client_with 1 0) true);
   (Of TDrain, ctl_at PCheck (ARecv true 12) 0 (client_with 2 0) true);
   (Of TAnswer, ctl_at PCheck (ARecv true 12) 0 (client_with 2 12) true);
   (Of TAccept, ctl_at PCheck (ARecv true 0) 0 (client_with 2 0) true);
   (Of TAccept, ctl_at PCheck (ARecv false 0) 0 (client_with 2 0) true);
   (Of TAccept, ctl_at PCheck AServe 0 (client_with 2 0) true);
   (Of TAccept, ctl_at PCheck (ARecv true 12) 0 (client_with 2 0) true)].
Definition served : run ctl thread := lasso_run start first loop.

Lemma steps_chained : chained step start (first ++ loop).
Proof.
  unfold first, loop; cbn [app chained]; split_and!; try exact I.
  - exact (call_store start).
  - by apply (accept_check (ctl_at PCheck ACheck 1 None true)).
  - by apply (accept_client (ctl_at PCheck AAccept 1 None true) 0 3 0).
  - apply (accept_hello (ctl_at PCheck AHello 0 (client_with 4 0) true)); [done|constructor].
  - apply (accept_device (ctl_at PCheck ADevice 0 (client_with 3 0) true)); [done|constructor].
  - by apply (accept_serve (ctl_at PCheck AServe 0 (client_with 2 0) true)).
  - exact (call_store (ctl_at PCheck (ARecv true 12) 0 (client_with 2 0) true)).
  - by apply (ping_check (ctl_at PCheck (ARecv true 12) 0 (client_with 2 0) true)).
  - by apply (ping_sleep (ctl_at PSleep (ARecv true 12) 0 (client_with 2 0) true)).
  - by apply (ping_check_again (ctl_at PCheckAgain (ARecv true 12) 0 (client_with 2 0) true)).
  - apply (ping_send (ctl_at PSend (ARecv true 12) 0 (client_with 2 0) true)); [done|constructor].
  - apply (client_reads (ctl_at PCheck (ARecv true 12) 0 (client_with 1 0) true)); by apply (drain 1 1).
  - by apply (client_sends (ctl_at PCheck (ARecv true 12) 0 (client_with 2 0) true) 2 0 11).
  - by apply (accept_recv (ctl_at PCheck (ARecv true 12) 0 (client_with 2 12) true) true 11 0 2 0 false).
  - by apply (accept_header (ctl_at PCheck (ARecv true 0) 0 (client_with 2 0) true) 0).
  - by apply (accept_body (ctl_at PCheck (ARecv false 0) 0 (client_with 2 0) true)).
  - by apply (accept_serve (ctl_at PCheck AServe 0 (client_with 2 0) true)).
Qed.

Lemma served_valid : valid step arrives served.
Proof. apply lasso_valid; [cbn; lia|reflexivity|exact steps_chained]. Qed.

Lemma served_fair t : fair step t served.
Proof.
  apply lasso_fair; [cbn; lia|]; destruct t as [|[]].
  - exists 6%nat; split; [cbn; lia|by left].
  - exists 6%nat; split; [cbn; lia|right]; by intros [? []].
  - exists 7%nat; split; [cbn; lia|by left].
  - exists 13%nat; split; [cbn; lia|by left].
  - exists 11%nat; split; [cbn; lia|by left].
  - exists 12%nat; split; [cbn; lia|by left].
Qed.

(** A condition on the steps of the run that can be evaluated. *)
Lemma served_all (q : ctl -> option thread -> ctl -> bool) :
  forallb (fun i => q (final start (take i (first ++ loop))) (fst <$> (first ++ loop) !! i)
                      (final start (take (1 + i) (first ++ loop)))) (seq 0 17) = true ->
  forall n, q (at_time served n) (moves served n) (at_time served (1 + n)) = true.
Proof.
  intros Hq; apply (lasso_all start first loop ltac:(cbn; lia) eq_refl (fun s t s' => q s t s' = true)).
  intros i Hi; rewrite forallb_forall in Hq; apply Hq, in_seq; cbn in Hi; lia.
Qed.
End Sample.

(** ** Properties *)

(** C5: the next client is served.  While the server is up, when the accept thread
    has no client, or one that has ended its connection or was dropped, and
    somebody waits for it, a client is accepted, sent the Hello and then the
    device if one is known.  Clients that wait have to stay until they are
    accepted, and a client that is being greeted has to take what it is sent;
    what the client before has left unread is read first, whatever it is. *)
Theorem v2_next_client_greeted (r : run ctl thread) (n : nat) :
  valid step arrives r -> (forall t, fair step t r) -> up (at_time r 0) ->
  (forall k, accept_at (at_time r k) = AAccept -> moves r k = Some (Of TAccept) ->
     accept_at (at_time r (S k)) = AHello) ->
  (forall k, at_handshake (at_time r k) -> full (at_time r k) = false) ->
  free (at_time r n) -> (0 < waiting (at_time r n))%nat ->
  exists h d, (n <= h < d)%nat /\
    accept_at (at_time r h) = AHello /\ moves r h = Some (Of TAccept) /\
    sends (client (at_time r h)) (client (at_time r (S h))) /\
    accept_at (at_time r d) = ADevice /\ moves r d = Some (Of TAccept) /\
    (has_device (at_time r d) = true -> sends (client (at_time r d)) (client (at_time r (S d)))) /\
    accept_at (at_time r (S d)) = AServe.
Proof.
  intros Hr Hf Hup Hstay Htakes Hfree Hw.
  assert (pending (at_time r n)) as Hp by (unfold pending, free in *; by destruct (accept_at (at_time r n))).
  destruct (v2_greeted r Hr Hf Hup Hstay Htakes n Hp) as (h & Hh & Hm & Ea).
  destruct (v2_move_cases r Hr h) as [[_ Hs]|[Hn _]]; [|done].
  destruct (hello_moves _ _ Hs Ea) as [Hk Ed].
  destruct (introduced r Hr Hf Htakes (S h) Ed) as (d & Hd & Hmd & Ead).
  destruct (v2_move_cases r Hr d) as [[_ Hsd]|[Hn _]]; [|done].
  destruct (v2_device_moves _ _ Hsd Ead) as [Hkd Es].
  exists h, d; split_and!; try done; lia.
Qed.

Lemma v2_next_client_greeted_witness :
  exists h d, (0 <= h < d)%nat /\ accept_at (at_time Sample.served h) = AHello /\
    accept_at (at_time Sample.served d) = ADevice.
Proof.
  edestruct (v2_next_client_greeted Sample.served 0) as (h & d & Hhd & Hh & _ & _ & Hd & _);
    [exact Sample.served_valid|exact Sample.served_fair|done|..|done|cbn; lia|by exists h, d].
  - intros k Ea _; pose proof (Sample.served_all (fun c _ c' => match accept_at c with
      | AAccept => match accept_at c' with AHello => true | _ => false end | _ => true end) eq_refl k) as Hk.
    cbv beta in Hk; rewrite Ea in Hk; change (1 + k)%nat with (S k) in Hk.
    by destruct (accept_at (at_time Sample.served (S k))).
  - intros k Ha; pose proof (Sample.served_all (fun c _ _ => match accept_at c with
      | AHello | ADevice => negb (full c) | _ => true end) eq_refl k) as Hk; cbv beta in Hk.
    destruct Ha as [Ea|Ea]; rewrite Ea in Hk; by apply negb_true_iff.
Defined.

(** C16: a client is pinged again and again.  While the server is up and clients take
    the pings they are sent, after any time there is another ping: the ping
    thread sends one, or finds that nobody is connected. *)
Theorem v2_pings_recur (r : run ctl thread) (n : nat) :
  valid step arrives r -> (forall t, fair step t r) -> up (at_time r 0) ->
  (forall k, ping_at (at_time r k) = PSend -> full (at_time r k) = false) ->
  ping_at (at_time r 0) <> PExited ->
  exists m, (n <= m)%nat /\ moves r m = Some (Of TPing) /\
    (ping_at (at_time r m) = PSend /\ sends (client (at_time r m)) (client (at_time r (S m))) \/
     ping_at (at_time r m) = PCheckAgain /\ client (at_time r m) = None).
Proof.
  intros Hr Hf Hup Htakes H0; pose proof (v2_ping_stays r Hr Hup n H0) as Hp.
  destruct (v2_ping_again r Hr Hf Hup Htakes n Hp) as (m & Hm & Hmm & Hc).
  exists m; split_and!; [done|done|]; destruct Hc as [Hs|Hn]; [left; split; [done|]|by right].
  destruct (v2_ping_moves r Hr m) as [[_ Hst]|[Hn _]]; [by apply (ping_sends _ _ Hst)|done].
Qed.

Lemma v2_pings_recur_witness :
  exists m, (1000 <= m)%nat /\ moves Sample.served m = Some (Of TPing) /\
    (ping_at (at_time Sample.served m) = PSend /\
       sends (client (at_time Sample.served m)) (client (at_time Sample.served (S m))) \/
     ping_at (at_time Sample.served m) = PCheckAgain /\ client (at_time Sample.served m) = None).
Proof.
  apply (v2_pings_recur Sample.served 1000);
    [exact Sample.served_valid|exact Sample.served_fair|done|..].
  - intros k Ep; pose proof (Sample.served_all (fun c _ _ => match ping_at c with
      | PSend => negb (full c) | _ => true end) eq_refl k) as Hk; cbv beta in Hk.
    rewrite Ep in Hk; by apply negb_true_iff.
  - done.
Defined.

(** There is one client at a time.  As long as the client that is being served
    is connected, whatever it sends and however long that is, nobody else is
    accepted: whoever waits goes on waiting. *)
Theorem v2_one_client (r : run ctl thread) (n k : nat) :
  valid step arrives r -> up (at_time r 0) -> (n <= k)%nat -> serving (at_time r n) ->
  (forall i, (n <= i < k)%nat -> connected (at_time r i)) ->
  serving (at_time r k) /\ (waiting (at_time r n) <= waiting (at_time r k))%nat.
Proof. intros Hr Hup; by apply stays_busy. Qed.

Lemma v2_one_client_witness : serving (at_time Sample.served 17) /\
  (waiting (at_time Sample.served 6) <= waiting (at_time Sample.served 17))%nat.
Proof.
  apply (v2_one_client Sample.served 6 17); [exact Sample.served_valid|done|lia|exact I|].
  intros i Hi; do 17 (destruct i as [|i]; [first [lia|reflexivity]|]); lia.
Defined.
End V2Service.
