(* ===== verification/V1Service.v ===== *)
(** * The OTD-IPC v1 server: serving

    What clients can count on before [Stop] is called, as V2Service has it for the
    v2 server.  The positions of the threads are those of V1Shutdown, which the
    code follows (V1Control); instead of stopping, the main thread sends devices
    and states. *)

From S2P Require Import Prelude Fairness V1Shutdown.
Import Fairness V1Shutdown.

Module V1Service.

Inductive thread := Caller | Of (t : V1Shutdown.thread).
#[export] Instance v1_service_thread_eq : EqDecision thread.
Proof. solve_decision. Defined.

Definition set_device c := mkCtl (main_at c) (ping_at c) (accept_at c) (opened c) (pipe c) true
  (ping_stop c) (accept_stop c).

(** [SetDevice] stores the device and sends it, [SetState] sends a state. *)
Inductive call_step : ctl -> ctl -> Prop :=
  | call_store c : call_step c (set_device c)
  | call_send c k : sends (pipe c) k -> call_step c (set_pipe k c).

Definition step (t : thread) (c c' : ctl) : Prop :=
  match t with
  | Caller => call_step c c'
  | Of TMain => False
  | Of t => V1Shutdown.tstep t c c'
  end.

(** The server has been started and not been stopped. *)
Definition up (c : ctl) : Prop := accept_stop c = false /\ ping_stop c = false.

(** The accept thread has no client, or one that is gone. *)
Definition free (c : ctl) : Prop :=
  match accept_at c with
  | AWatch | ADoze | APeek => is_gone (pipe c) = true
  | AExited => False
  | _ => True
  end.

(** What the accept thread still has to do, and who has to move. *)
Definition ahead (c : ctl) : nat :=
  match accept_at c with
  | AWatch => 10 | ADoze => 9 | APeek => 8 | AReset | ABusy => 7 | ACheck => 6 | ACreate => 5
  | AConnect => if opened c then 3 else 4
  | _ => 2
  end.
Definition awaited (c : ctl) : thread :=
  match accept_at c with
  | AConnect => if opened c then Of TAccept else Of TOpen
  | _ => Of TAccept
  end.

Lemma v1_up_step t c c' : step t c c' -> up c -> up c'.
Proof. intros Hs Hu; destruct t as [|[]]; cbn in Hs; try done; by destruct Hs. Qed.
Lemma up_leaves c c' : leaves_pipe c c' -> up c -> up c'.
Proof. by intros [] Hu. Qed.

Lemma free_enabled c : free c -> (accept_at c = ADevice -> full c = false) -> enabled step (awaited c) c.
Proof.
  unfold free, awaited; intros Hf Ht; destruct (accept_at c) eqn:Ea; try done.
  - eexists; by apply accept_check.
  - eexists; by apply accept_create.
  - eexists; by apply accept_retry.
  - destruct (opened c) eqn:Eo; [eexists; by apply (accept_client c 0 0 false)|eexists; by apply client_opens].
  - destruct (sends_enabled _ (Ht eq_refl)) as [k Hk].
    destruct (has_device c) eqn:Ed; eexists; apply accept_device; try done; by rewrite Ed.
  - eexists; by apply accept_watch.
  - eexists; by apply accept_doze.
  - eexists; by apply accept_peek.
  - eexists; by apply accept_reset.
Qed.

(** A move of the accept thread comes closer to the end of the greeting. *)
Lemma free_accept c c' : up c -> free c -> accept_step c c' ->
  (accept_at c = ACreate -> accept_at c' = AConnect) -> (accept_at c = AConnect -> accept_at c' = ADevice) ->
  accept_at c = ADevice \/ free c' /\ (ahead c' < ahead c)%nat.
Proof.
  unfold up, free, ahead; intros (Ha & _) Hf Hs H1 H2.
  destruct Hs as [c Ea|c Ea|c Ea|c Ea|c rm av g Ea Eo|c Ea Eo|c k Ea Hk|c Ea|c Ea|c Ea|c Ea]; rewrite Ea in *;
    cbn in *; try (by left); right; try (by specialize (H1 eq_refl)); try (by specialize (H2 eq_refl)).
  all: rewrite ?Ha, ?Hf, ?Eo; cbn; try (split; [done|lia]).
  destruct (pipe c); cbn; split; try done; lia.
Qed.

(** What the other threads and the client leave of it. *)
Record apart (c c' : ctl) : Prop := {
  apart_at : accept_at c' = accept_at c;
  apart_opened : opened c = true -> opened c' = true;
  apart_gone : is_gone (pipe c) = true -> is_gone (pipe c') = true
}.

Lemma v1_others_apart t c c' : t <> Of TAccept -> step t c c' -> apart c c'.
Proof.
  assert (forall c k, sends (pipe c) k -> apart c (set_pipe k c)) as Hsend.
  { intros c0 k Hk; split; [done|done|]; cbn; by destruct Hk. }
  intros Ht Hs; destruct t as [|[]]; cbn in Hs; try done.
  - destruct Hs as [c|c k Hk]; [by split|auto].
  - destruct Hs as [c|c|c k _ Hk]; [by split..|]; destruct (Hsend c k Hk); by split.
  - destruct Hs; by split.
  - destruct Hs as [c k Hd]; split; [done|done|]; cbn; by destruct Hd.
Qed.

Lemma leaves_apart c c' : leaves_pipe c c' -> apart c c'.
Proof. by intros []. Qed.

Lemma free_apart c c' : apart c c' -> free c ->
  free c' /\ ((ahead c' < ahead c)%nat \/ ahead c' = ahead c /\ awaited c' = awaited c).
Proof.
  intros [Ea Ho Hg]; unfold free, ahead, awaited; rewrite Ea.
  destruct (accept_at c); intros Hf; auto.
  split; [done|]; destruct (opened c) eqn:E1, (opened c') eqn:E2; auto; left; lia.
Qed.

Lemma v1_device_moves c c' : accept_step c c' -> accept_at c = ADevice ->
  (has_device c = true -> sends (pipe c) (pipe c')) /\ accept_at c' = AWatch.
Proof.
  destruct 1; intros Ea; try congruence; split; [|done].
  intros Hd; cbn; by match goal with Hk : if _ then _ else _ |- _ => rewrite Hd in Hk end.
Qed.

(** ** A run of the server *)

Section run.
Context (r : run ctl thread) (Hr : valid step leaves_pipe r) (Hf : forall t, fair step t r).
Context (Hup : up (at_time r 0)).

Lemma v1_up_always n : up (at_time r n).
Proof.
  induction n as [|n IH]; [done|]; specialize (Hr n); destruct (moves r n) as [t|]; [by eapply v1_up_step|].
  destruct Hr as [He|<-]; [by eapply up_leaves|done].
Qed.

Lemma v1_move_cases n :
  moves r n = Some (Of TAccept) /\ accept_step (at_time r n) (at_time r (S n)) \/
  moves r n <> Some (Of TAccept) /\ apart (at_time r n) (at_time r (S n)).
Proof.
  specialize (Hr n); destruct (moves r n) as [t|]; [|right; split; [done|]].
  - destruct (decide (t = Of TAccept)) as [->|Ht]; [by left|right; split; [congruence|by eapply v1_others_apart]].
  - destruct Hr as [He|<-]; [by apply leaves_apart|by split].
Qed.

(** A client that is awaited opens the pipe. *)
Lemma open_moves n : moves r n = Some (Of TOpen) ->
  accept_at (at_time r n) = AConnect /\ accept_at (at_time r (S n)) = AConnect /\
  opened (at_time r n) = false /\ opened (at_time r (S n)) = true.
Proof. specialize (Hr n); intros Hm; rewrite Hm in Hr; by destruct Hr. Qed.

Section greeting.
(** The pipe can be created and connected, and a new client takes the device. *)
Context (Hcreate : forall n, accept_at (at_time r n) = ACreate -> moves r n = Some (Of TAccept) ->
  accept_at (at_time r (S n)) = AConnect).
Context (Hconnect : forall n, accept_at (at_time r n) = AConnect -> moves r n = Some (Of TAccept) ->
  accept_at (at_time r (S n)) = ADevice).
Context (Htakes : forall n, accept_at (at_time r n) = ADevice -> full (at_time r n) = false).

Lemma v1_greeted n : free (at_time r n) -> exists m, (n <= m)%nat /\
  moves r m = Some (Of TAccept) /\ accept_at (at_time r m) = ADevice.
Proof.
  apply (response step r Hf (fun n => free (at_time r n))
    (fun m => moves r m = Some (Of TAccept) /\ accept_at (at_time r m) = ADevice)
    (fun n => (0, 0, ahead (at_time r n))%nat) (fun n => awaited (at_time r n))).
  - intros k Hk; apply free_enabled; [done|apply Htakes].
  - intros k Hk; destruct (v1_move_cases k) as [[Hm Hs]|[Hm Ha]].
    + destruct (free_accept _ _ (v1_up_always k) Hk Hs (fun E => Hcreate k E Hm) (fun E => Hconnect k E Hm))
        as [?|[? ?]]; [by left|right; split; [done|left; cbn; lia]].
    + right; destruct (free_apart _ _ Ha Hk) as [? [?|[E1 E2]]]; (split; [done|]); [left; cbn; lia|].
      right; rewrite E1, E2; split_and!; [|done|done]; intros E.
      unfold awaited in E; destruct (accept_at (at_time r k)) eqn:Ea; try done.
      destruct (opened (at_time r k)) eqn:Eo; [done|].
      destruct (open_moves k E) as (_ & Ea' & _ & Eo'); unfold ahead in E1; rewrite Ea, Ea', Eo, Eo' in E1; lia.
Qed.
End greeting.

(** ** Pings *)

Lemma v1_ping_moves n :
  moves r n = Some (Of TPing) /\ ping_step (at_time r n) (at_time r (S n)) \/
  moves r n <> Some (Of TPing) /\ ping_at (at_time r (S n)) = ping_at (at_time r n).
Proof.
  specialize (Hr n); destruct (moves r n) as [t|]; [|right; split; [done|]].
  - destruct (decide (t = Of TPing)) as [->|Ht]; [by left|right; split; [congruence|]].
    destruct t as [|[]]; cbn in Hr; try done; by destruct Hr.
  - by destruct Hr as [[]|<-].
Qed.

Definition ping_left (p : pinger) : rank :=
  match p with PCheck => (0, 0, 2) | PSleep => (0, 0, 1) | _ => (0, 0, 0) end%nat.

Lemma v1_ping_closer c c' : ping_step c c' -> ping_stop c = false ->
  ping_at c = PSend /\ sends (pipe c) (pipe c') \/
  ping_at c' <> PExited /\ lex (ping_left (ping_at c')) (ping_left (ping_at c)).
Proof.
  intros Hs Hp; destruct Hs as [c Ep|c Ep|c p Ep Hk]; [..|by left]; right; rewrite Ep; cbn; try rewrite Hp.
  all: split; [done|cbn; lia].
Qed.

Lemma v1_ping_stays n : ping_at (at_time r 0) <> PExited -> ping_at (at_time r n) <> PExited.
Proof.
  intros H0; induction n as [|n IH]; [done|].
  destruct (v1_ping_moves n) as [[_ Hs]|[_ ->]]; [|done].
  destruct (v1_up_always n) as (_ & Hps); destruct Hs; cbn in *; by rewrite ?Hps.
Qed.

Lemma v1_ping_again n : (forall k, ping_at (at_time r k) = PSend -> full (at_time r k) = false) ->
  ping_at (at_time r n) <> PExited -> exists m, (n <= m)%nat /\ moves r m = Some (Of TPing) /\
    ping_at (at_time r m) = PSend /\ sends (pipe (at_time r m)) (pipe (at_time r (S m))).
Proof.
  intros Htakes; apply (response step r Hf (fun n => ping_at (at_time r n) <> PExited)
    (fun m => moves r m = Some (Of TPing) /\ ping_at (at_time r m) = PSend /\
       sends (pipe (at_time r m)) (pipe (at_time r (S m))))
    (fun n => ping_left (ping_at (at_time r n))) (fun _ => Of TPing)).
  - intros k Hk; apply V1Shutdown.v1_ping_enabled; [done|].
    destruct (ping_at (at_time r k)) eqn:E; try done; cbn; by apply Htakes.
  - intros k Hk; destruct (v1_ping_moves k) as [[Hm Hs]|[Hm E]]; [|right; rewrite E; auto].
    destruct (v1_up_always k) as (_ & Hps).
    destruct (v1_ping_closer _ _ Hs Hps) as [[? ?]|[? ?]]; [by left|right; auto].
Qed.
End run.

(** ** A run *)

Module Sample.
(** A client opens the pipe and is sent the device; the server pings it and looks
    at the pipe, and the caller stores the same device again. *)
Definition pipe_with (room : nat) : option peer := Some (mkPeer room 0 false).
Definition ctl_at (p : pinger) (a : accepting) (o : bool) (k : option peer) (d : bool) : ctl :=
  mkCtl AskPing p a o k d false false.
Definition start : ctl := ctl_at PCheck ACheck false None false.
Definition first : list (thread * ctl) :=
  [(Caller, ctl_at PCheck ACheck false None true);
   (Of TAccept, ctl_at PCheck ACreate false None true);
   (Of TAccept, ctl_at PCheck AConnect false None true);
   (Of TOpen, ctl_at PCheck AConnect true None true);
   (Of TAccept, ctl_at PCheck ADevice true (pipe_with 3) true);
   (Of TAccept, ctl_at PCheck AWatch true (pipe_with 2) true)].
Definition loop : list (thread * ctl) :=
  [(Caller, ctl_at PCheck AWatch true (pipe_with 2) true);
   (Of TPing, ctl_at PSleep AWatch true (pipe_with 2) true);
   (Of TPing, ctl_at PSend AWatch true (pipe_with 2) true);
   (Of TPing, ctl_at PCheck AWatch true (pipe_with 1) true);
   (Of TDrain, ctl_at PCheck AWatch true (pipe_with 2) true);
   (Of TAccept, ctl_at PCheck ADoze true (pipe_with 2) true);
   (Of TAccept, ctl_at PCheck APeek true (pipe_with 2) true);
   (Of TAccept, ctl_at PCheck AWatch true (pipe_with 2) true)].
Definition served : run ctl thread := lasso_run start first loop.

Lemma v1_steps_chained : chained step start (first ++ loop).
Proof.
  unfold first, loop; cbn [app chained]; split_and!; try exact I.
  - exact (call_store start).
  - by apply (accept_check (ctl_at PCheck ACheck false None true)).
  - by apply (accept_create (ctl_at PCheck ACreate false None true)).
  - by apply (client_opens (ctl_at PCheck AConnect false None true)).
  - by apply (accept_client (ctl_at PCheck AConnect true None true) 1 0 false).
  - apply (accept_device (ctl_at PCheck ADevice true (pipe_with 3) true)); [done|constructor].
  - exact (call_store (ctl_at PCheck AWatch true (pipe_with 2) true)).
  - by apply (ping_check (ctl_at PCheck AWatch true (pipe_with 2) true)).
  - by apply (ping_sleep (ctl_at PSleep AWatch true (pipe_with 2) true)).
  - apply (ping_send (ctl_at PSend AWatch true (pipe_with 2) true)); [done|constructor].
  - apply (client_reads (ctl_at PCheck AWatch true (pipe_with 1) true)); by apply (drain 1 1).
  - by apply (accept_watch (ctl_at PCheck AWatch true (pipe_with 2) true)).
  - by apply (accept_doze (ctl_at PCheck ADoze true (pipe_with 2) true)).
  - by apply (accept_peek (ctl_at PCheck APeek true (pipe_with 2) true)).
Qed.

Lemma v1_served_valid : valid step leaves_pipe served.
Proof. apply lasso_valid; [cbn; lia|reflexivity|exact v1_steps_chained]. Qed.

Lemma v1_served_fair t : fair step t served.
Proof.
  apply lasso_fair; [cbn; lia|]; destruct t as [|[]].
  - exists 6%nat; split; [cbn; lia|by left].
  - exists 6%nat; split; [cbn; lia|right]; by intros [? []].
  - exists 7%nat; split; [cbn; lia|by left].
  - exists 11%nat; split; [cbn; lia|by left].
  - exists 6%nat; split; [cbn; lia|right]; intros [c' Hs]; inversion Hs; discriminate.
  - exists 10%nat; split; [cbn; lia|by left].
Qed.

(** A condition on the steps of the run that can be evaluated. *)
Lemma v1_served_all (q : ctl -> option thread -> ctl -> bool) :
  forallb (fun i => q (final start (take i (first ++ loop))) (fst <$> (first ++ loop) !! i)
                      (final start (take (1 + i) (first ++ loop)))) (seq 0 14) = true ->
  forall n, q (at_time served n) (moves served n) (at_time served (1 + n)) = true.
Proof.
  intros Hq; apply (lasso_all start first loop ltac:(cbn; lia) eq_refl (fun s t s' => q s t s' = true)).
  intros i Hi; rewrite forallb_forall in Hq; apply Hq, in_seq; cbn in Hi; lia.
Qed.
End Sample.

(** ** Properties *)

(** C6: the next v1 client is served.  While the server is up, when the accept
    thread has no client or one that has closed its end, a pipe is offered, and
    the client that opens it is sent the device if one is known.  The pipe has to
    be created and connected without an error, and a new client has to take the
    device. *)
Theorem v1_next_client_greeted (r : run ctl thread) (n : nat) :
  valid step leaves_pipe r -> (forall t, fair step t r) -> up (at_time r 0) ->
  (forall k, accept_at (at_time r k) = ACreate -> moves r k = Some (Of TAccept) ->
     accept_at (at_time r (S k)) = AConnect) ->
  (forall k, accept_at (at_time r k) = AConnect -> moves r k = Some (Of TAccept) ->
     accept_at (at_time r (S k)) = ADevice) ->
  (forall k, accept_at (at_time r k) = ADevice -> full (at_time r k) = false) ->
  free (at_time r n) ->
  exists d, (n <= d)%nat /\ accept_at (at_time r d) = ADevice /\ moves r d = Some (Of TAccept) /\
    (has_device (at_time r d) = true -> sends (pipe (at_time r d)) (pipe (at_time r (S d)))) /\
    accept_at (at_time r (S d)) = AWatch.
Proof.
  intros Hr Hf Hup H1 H2 H3 Hfree.
  destruct (v1_greeted r Hr Hf Hup H1 H2 H3 n Hfree) as (d & Hd & Hm & Ea).
  destruct (v1_move_cases r Hr d) as [[_ Hs]|[Hn _]]; [|done].
  destruct (v1_device_moves _ _ Hs Ea) as [Hk Ew]; by exists d.
Qed.

Lemma v1_next_client_greeted_witness :
  exists d, accept_at (at_time Sample.served d) = ADevice /\
    accept_at (at_time Sample.served (S d)) = AWatch.
Proof.
  edestruct (v1_next_client_greeted Sample.served 0) as (d & _ & Hd & _ & _ & Hw);
    [exact Sample.v1_served_valid|exact Sample.v1_served_fair|done|..|done|by exists d].
  - intros k Ea _; pose proof (Sample.v1_served_all (fun c _ c' => match accept_at c with
      | ACreate => match accept_at c' with AConnect => true | _ => false end | _ => true end) eq_refl k) as Hk.
    cbv beta in Hk; rewrite Ea in Hk; change (1 + k)%nat with (S k) in Hk.
    by destruct (accept_at (at_time Sample.served (S k))).
  - intros k Ea Em; pose proof (Sample.v1_served_all (fun c t c' => match accept_at c, t with
      | AConnect, Some (Of TAccept) => match accept_at c' with ADevice => true | _ => false end
      | _, _ => true end) eq_refl k) as Hk.
    cbv beta in Hk; rewrite Ea, Em in Hk; change (1 + k)%nat with (S k) in Hk.
    by destruct (accept_at (at_time Sample.served (S k))).
  - intros k Ea; pose proof (Sample.v1_served_all (fun c _ _ => match accept_at c with
      | ADevice => negb (full c) | _ => true end) eq_refl k) as Hk; cbv beta in Hk.
    rewrite Ea in Hk; by apply negb_true_iff.
Defined.

(** A v1 client is pinged again and again, as long as clients take the pings. *)
Theorem v1_pings_recur (r : run ctl thread) (n : nat) :
  valid step leaves_pipe r -> (forall t, fair step t r) -> up (at_time r 0) ->
  (forall k, ping_at (at_time r k) = PSend -> full (at_time r k) = false) ->
  ping_at (at_time r 0) <> PExited ->
  exists m, (n <= m)%nat /\ moves r m = Some (Of TPing) /\ ping_at (at_time r m) = PSend /\
    sends (pipe (at_time r m)) (pipe (at_time r (S m))).
Proof.
  intros Hr Hf Hup Htakes H0; apply v1_ping_again; try done; by apply v1_ping_stays.
Qed.
End V1Service.
