(* ===== verification/V1Control.v ===== *)
(** * The OTD-IPC v1 server: its threads follow their models

    The functions [AcceptLoop] and [PingLoop] of V1Server make the calls that the
    threads of V1Shutdown make, in that order and with the branches that
    V1Shutdown takes, whatever the pipe answers and whenever the program is asked
    to stop. *)

From S2P Require Import Prelude Layout V1Messages Utf8 V1Server Fairness Control V1Shutdown.
Import Fairness Control V1Shutdown.

Module V1Control.
Import V1Server.

(** What others do meanwhile: [Stop] asks the thread to end; a client opens the
    pipe, reads or closes its end. *)
Inductive elsewhere : ctl -> ctl -> Prop :=
  | stop_accept c : elsewhere c (ask_accept c)
  | stop_ping c : elsewhere c (ask_ping c)
  | opens c c' : open_step c c' -> elsewhere c c'
  | reads c c' : drain_step c c' -> elsewhere c c'
  | closes c c' : leaves_pipe c c' -> elsewhere c c'.

(** The calls of a write: none without a client; the client is dropped when it
    fails. *)
Inductive write_calls : option peer -> option peer -> list event -> Prop :=
  | write_nobody : write_calls None None []
  | write_done k k' h data n : write_calls (Some k) (Some k') [EWriteFile h data (Some n)]
  | write_failed k h data : write_calls (Some k) None [EWriteFile h data None; ECloseHandle h].

(** The calls of each step of the accept thread. *)
Definition accept_calls (c : ctl) (t : list event) (c' : ctl) : Prop :=
  match accept_at c, accept_at c' with
  | ACheck, _ | AWatch, _ => t = [EStopRequested (accept_stop c)]
  | ACreate, AConnect => exists h, t = [ECreateNamedPipe server_pipe (inr h)]
  | ACreate, _ => exists e, (e = ERROR_ACCESS_DENIED \/ e = ERROR_PIPE_BUSY) /\
      t = [ECreateNamedPipe server_pipe (inl e)]
  | ABusy, _ => t = [ESleep 1000]
  | AConnect, ADevice => exists h r, (r = None \/ r = Some ERROR_PIPE_CONNECTED) /\
      t = [EConnectNamedPipe h r]
  | AConnect, _ => exists h e, e <> ERROR_PIPE_CONNECTED /\
      t = [EConnectNamedPipe h (Some e); ECloseHandle h]
  | ADevice, _ => if has_device c then write_calls (pipe c) (pipe c') t else t = []
  | ADoze, _ => t = [ESleep 100]
  | APeek, _ => exists h, t = [EPeekNamedPipe h (negb (is_gone (pipe c)))]
  | AReset, _ => match pipe c with Some _ => exists h, t = [ECloseHandle h] | None => t = [] end
  | AExited, _ => False
  end.
Definition accept_acts (c : ctl) (t : list event) (c' : ctl) : Prop :=
  accept_step c c' /\ accept_calls c t c'.

(** The calls of each step of the ping thread. *)
Definition ping_calls (c : ctl) (t : list event) (c' : ctl) : Prop :=
  match ping_at c with
  | PCheck => t = [EStopRequested (ping_stop c)]
  | PSleep => t = [ESleep 1000]
  | PSend => write_calls (pipe c) (pipe c') t
  | PExited => False
  end.
Definition ping_acts (c : ctl) (t : list event) (c' : ctl) : Prop :=
  ping_step c c' /\ ping_calls c t c'.

(** A stop that has been requested stays requested. *)
Class StopContract {HP : PipeOS} : Prop :=
  stop_stays t : EStopRequested true ∈ t -> os_stop_requested t = true.

(** The pipe of the server and of the model. *)
Definition same_pipe (s : V1Server) (c : ctl) : Prop :=
  match mPipe s, pipe c with Some _, Some _ | None, None => True | _, _ => False end.
Definition connected (c : ctl) : Prop :=
  match pipe c with Some k => hung_up k = false | None => True end.

(** A write, without a client or with one that takes it or is gone. *)
Inductive write_effect (s s' : V1Server) : list event -> Prop :=
  | effect_nobody : mPipe s = None -> s' = s -> write_effect s s' []
  | effect_done h data n : mPipe s = Some h -> s' = log (EWriteFile h data (Some n)) s ->
      write_effect s s' [EWriteFile h data (Some n)]
  | effect_failed h data : mPipe s = Some h ->
      s' = set_mPipe None (log (ECloseHandle h) (log (EWriteFile h data None) s)) ->
      write_effect s s' [EWriteFile h data None; ECloseHandle h].

Lemma v1_SendRaw_effect {HP : PipeOS} data size s b s' : SendRaw data size s = Ret b s' -> exists t, write_effect s s' t.
Proof.
  unfold SendRaw; destruct (negb _); [done|]; unfold gets, ask, st_bind.
  destruct (mPipe s) as [h|] eqn:Eh; [|intros [= _ <-]; eexists; by apply effect_nobody].
  destruct (os_write_file _ _ _) as [n|]; [intros [= _ <-]; eexists; by apply effect_done|].
  unfold reset_mPipe, modify, close_pipe; cbn; rewrite Eh; intros [= _ <-].
  eexists; by apply effect_failed.
Qed.

(** The model's client makes room for a message that is taken, and is gone before
    a write that fails. *)
Lemma write_sends s s' t c : write_effect s s' t -> same_pipe s c -> connected c ->
  exists k k', rtc elsewhere c (set_pipe k c) /\ sends k k' /\ write_calls k k' t /\
    same_pipe s' (set_pipe k' c) /\ connected (set_pipe k' c) /\ trace s' = trace s ++ t.
Proof.
  unfold same_pipe, connected; intros Hw Hp Ho.
  destruct Hw as [Eh ->|h data n Eh ->|h data Eh ->]; rewrite Eh in *.
  all: destruct (pipe c) as [[r a hu]|] eqn:Ep; try done; cbn in Ho; subst.
  - exists None, None; replace (set_pipe None c) with c by (destruct c; cbn in *; by subst).
    split_and!; [done|apply send_none|constructor|by rewrite Ep|by rewrite Ep|by rewrite app_nil_r].
  - exists (Some (mkPeer (S r) a false)), (Some (mkPeer r a false)); cbn; rewrite Eh.
    split_and!; [|constructor|constructor|done..].
    apply rtc_once, reads, client_reads; rewrite Ep; by constructor.
  - exists (Some (mkPeer r a true)), None; cbn.
    split_and!; [|constructor|constructor|done|done|by rewrite <- app_assoc].
    by apply rtc_once, closes, (client_leaves c r a false).
Qed.

Section accept.
Context {HA : Arch} {HP : PipeOS} {HS : StopContract} (pad : nat -> Z).

Definition has_pipe (a : accepting) : bool :=
  match a with ADevice | AWatch | ADoze | APeek | AReset => true | _ => false end.

(** The server, and the model with its accept thread at [a]. *)
Record accepts_at (a : accepting) (s : V1Server) (c : ctl) : Prop := {
  at_position : accept_at c = a;
  at_pipe : same_pipe s c;
  at_connected : a <> AReset -> connected c;
  at_no_pipe : has_pipe a = false -> mPipe s = None;
  at_device : has_device c = V1.isValid (mV1Device s);
  at_stop : accept_stop c = true -> EStopRequested true ∈ trace s
}.

Abbreviation follows := (follows trace accept_acts elsewhere).

(** The model after the stop request that the code sees, if it sees one. *)
Definition saw_stop (b : bool) (c : ctl) : ctl := if b then ask_accept c else c.

Lemma v1_saw_stop_steps b c : rtc elsewhere c (saw_stop b c).
Proof. destruct b; [apply rtc_once; constructor|done]. Qed.

Lemma saw_stop_flag a s c : accepts_at a s c ->
  accept_stop (saw_stop (os_stop_requested (trace s)) c) = os_stop_requested (trace s).
Proof.
  intros [_ _ _ _ _ Hs]; destruct (os_stop_requested (trace s)) eqn:E; [done|]; cbn.
  apply not_true_is_false; intros Hc; by rewrite (stop_stays _ (Hs Hc)) in E.
Qed.

Lemma v1_saw_stop_at a s c : accepts_at a s c ->
  let b := os_stop_requested (trace s) in
  accepts_at a (log (EStopRequested b) s) (saw_stop b c).
Proof.
  intros [H1 H2 H3 H4 H5 H6]; cbn; destruct (os_stop_requested (trace s)) eqn:E; split; try done; cbn.
  - intros _; apply elem_of_app; right; by apply list_elem_of_singleton.
  - intros Hc; apply elem_of_app; left; auto.
Qed.

(** The position moves on; nothing else changes. *)
Lemma v1_accepts_move a a' s c : accepts_at a s c -> a <> AReset ->
  (has_pipe a' = false -> mPipe s = None) -> accepts_at a' s (set_accept a' c).
Proof. intros [H1 H2 H3 H4 H5 H6] Ha Hn; split; try done; by intros _; apply H3. Qed.

Lemma v1_accepts_log a e s c : accepts_at a s c -> accepts_at a (log e s) c.
Proof. intros [H1 H2 H3 H4 H5 H6]; split; try done; cbn; intros Hc; apply elem_of_app; left; auto. Qed.

(** A stop request is looked at, at [a], where the thread decides to go to [a']. *)
Lemma stop_follows a (a' : bool -> accepting) s c : accepts_at a s c -> a <> AReset ->
  (forall b, has_pipe (a' b) = false -> mPipe s = None) ->
  (forall c1, accept_at c1 = a -> pipe c1 = pipe c -> accept_acts c1 [EStopRequested (accept_stop c1)]
     (set_accept (a' (accept_stop c1)) c1)) ->
  follows stop_requested s c (fun b s' c' => mPipe s' = mPipe s /\ accepts_at (a' b) s' c').
Proof.
  intros Hc Ha Hn Hst; pose proof (saw_stop_flag _ _ _ Hc) as Ef; pose proof (v1_saw_stop_at _ _ _ Hc) as Hs.
  set (b := os_stop_requested (trace s)) in *; cbn zeta in Hs.
  pose proof (Hst (saw_stop b c) (at_position _ _ _ Hs) ltac:(by destruct b)) as Hact; rewrite Ef in Hact.
  eapply (follows_step _ _ _ _ s c _ b (log (EStopRequested b) s));
    [done|done|apply (v1_saw_stop_steps b)|exact Hact|].
  split; [done|]; eapply v1_accepts_move; [exact Hs|done|exact (Hn b)].
Qed.

Lemma v1_check_follows s c : accepts_at ACheck s c ->
  follows stop_requested s c (fun b s' c' => accepts_at (if b then AExited else ACreate) s' c').
Proof.
  intros Hc; eapply follows_weaken; [apply (stop_follows ACheck (fun b : bool => if b then AExited else ACreate))|];
    [done..| | |by intros b s' c' [_ ?]].
  - intros b _; by apply (at_no_pipe _ _ _ Hc).
  - intros c1 Ha _; split; [by apply accept_check|]; unfold accept_calls; by rewrite Ha.
Qed.

Lemma watch_follows s c : accepts_at AWatch s c ->
  follows stop_requested s c (fun b s' c' =>
    mPipe s' = mPipe s /\
    accepts_at (if b then AReset else match mPipe s with Some _ => ADoze | None => AReset end) s' c').
Proof.
  intros Hc; pose proof (at_pipe _ _ _ Hc) as Hp.
  apply (stop_follows AWatch (fun b : bool => if b then AReset
    else match mPipe s with Some _ => ADoze | None => AReset end)); [done..| |].
  - intros []; [done|]; by destruct (mPipe s).
  - intros c1 Ha Ep; split; [|unfold accept_calls; by rewrite Ha].
    replace (match mPipe s with Some _ => ADoze | None => AReset end)
      with (match pipe c1 with Some _ => ADoze | None => AReset end); [by apply accept_watch|].
    unfold same_pipe in Hp; rewrite Ep; by destruct (mPipe s), (pipe c).
Qed.

Lemma doze_follows s c : accepts_at ADoze s c ->
  follows (sleep_for 100) s c (fun _ s' c' => mPipe s' = mPipe s /\ accepts_at APeek s' c').
Proof.
  intros Hc; eapply follows_step; [done|done|done| |].
  - split; [apply accept_doze, Hc|]; unfold accept_calls; by rewrite (at_position _ _ _ Hc).
  - split; [done|]; eapply v1_accepts_move; [by apply v1_accepts_log|done|done].
Qed.

Lemma peek_follows s c h : accepts_at APeek s c -> mPipe s = Some h ->
  follows (ask (fun t => os_peek_pipe t h) (EPeekNamedPipe h)) s c (fun ok s' c' =>
    accepts_at (if ok then AWatch else AReset) s' c').
Proof.
  intros Hc Eh; pose proof (at_pipe _ _ _ Hc) as Hp; pose proof (at_connected _ _ _ Hc ltac:(done)) as Ho.
  unfold same_pipe, connected in Hp, Ho; rewrite Eh in Hp.
  destruct (pipe c) as [[r a hu]|] eqn:Ep; [|done]; cbn in Ho; subst hu.
  destruct (os_peek_pipe (trace s) h) eqn:Ek.
  - eapply (follows_step _ _ _ _ s c _ true); [by unfold ask; rewrite Ek|done|done| |].
    + split; [apply accept_peek, Hc|]; unfold accept_calls; rewrite (at_position _ _ _ Hc), Ep; by exists h.
    + rewrite Ep; eapply v1_accepts_move; [by apply v1_accepts_log|done|done].
  - set (c1 := set_pipe (Some (mkPeer r a true)) c).
    assert (accept_at c1 = APeek) as E1 by apply Hc.
    eapply (follows_step _ _ _ _ s c _ false _ _ c1); [by unfold ask; rewrite Ek|done| | |].
    + apply rtc_once, closes; by apply (client_leaves c r a false).
    + split; [by apply accept_peek|]; unfold accept_calls; rewrite E1; by exists h.
    + destruct Hc as [H1 H2 H3 H4 H5 H6]; split; cbn; try done.
      * unfold same_pipe; cbn; by rewrite Eh.
      * intros Hs; apply elem_of_app; left; auto.
Qed.

Lemma WatchOnce_follows s c : accepts_at AWatch s c ->
  follows WatchOnce s c (fun more s' c' => accepts_at (if more then AWatch else AReset) s' c').
Proof.
  intros Hc; unfold Control.follows; rewrite WatchOnce_eq.
  match goal with |- context [?m s] => change (follows m s c (fun more s' c' =>
    accepts_at (if more then AWatch else AReset) s' c')) end.
  eapply follows_bind; [by apply watch_follows|]; intros stop s1 c1 [Ep H1].
  apply follows_gets; rewrite Ep; destruct stop; [by apply follows_ret|].
  destruct (mPipe s) as [h|]; [|by apply follows_ret].
  eapply follows_bind; [by apply doze_follows|]; intros [] s2 c2 [Ep2 H2].
  apply peek_follows; [done|]; by rewrite Ep2.
Qed.

Lemma WatchPipe_follows fuel s c : accepts_at AWatch s c ->
  follows (WatchPipe fuel) s c (fun _ s' c' => accepts_at AReset s' c').
Proof.
  revert s c; induction fuel as [|fuel IH]; intros s c Hc; [done|]; cbn [WatchPipe].
  eapply follows_bind; [by apply WatchOnce_follows|]; intros [] s1 c1 H1; [by apply IH|by apply follows_ret].
Qed.

Lemma v1_reset_follows s c : accepts_at AReset s c ->
  follows reset_mPipe s c (fun _ s' c' => accepts_at ACheck s' c').
Proof.
  intros Hc; pose proof (at_pipe _ _ _ Hc) as Hp; unfold same_pipe in Hp.
  eapply (follows_step _ _ _ _ s c _ tt _ (match mPipe s with Some h => [ECloseHandle h] | None => [] end));
    [done| |done| |].
  - cbn; unfold close_pipe; destruct (mPipe s); [done|by rewrite app_nil_r].
  - split; [apply accept_reset, Hc|]; unfold accept_calls; rewrite (at_position _ _ _ Hc).
    destruct (mPipe s), (pipe c); try done; eauto.
  - destruct Hc as [H1 H2 H3 H4 H5 H6]; unfold close_pipe; destruct (mPipe s); split; try done.
    intros Hs; apply elem_of_app; left; auto.
Qed.

Lemma device_follows s c d : accepts_at ADevice s c -> d = mV1Device s ->
  follows (when (V1.isValid d) (let* _ := Send pad d in st_ret tt)) s c
    (fun _ s' c' => accepts_at AWatch s' c').
Proof.
  intros Hc ->; destruct Hc as [H1 H2 H3 H4 H5 H6]; unfold when.
  destruct (V1.isValid (mV1Device s)) eqn:Ed.
  - eapply (follows_bind _ _ _ _ _ _ _ (fun _ s' c' => accepts_at AWatch s' c'));
      [|intros ? s1 c1 HP1; by apply follows_ret].
    destruct (Send pad (mV1Device s) s) as [b s1| | |] eqn:Es; try (unfold Control.follows; by rewrite Es).
    destruct (v1_SendRaw_effect _ _ _ _ _ Es) as [t Hw].
    destruct (write_sends _ _ _ _ Hw H2 (H3 ltac:(done))) as (k & k' & He & Hk & Ht & Hp & Ho & Et).
    eapply (follows_step _ _ _ _ s c _ b s1 t (set_pipe k c) (set_accept AWatch (set_pipe k' (set_pipe k c))));
      [done|done|done| |].
    + split; [by apply accept_device; [|cbn; rewrite H5]|]; unfold accept_calls; cbn.
      by rewrite H1, H5.
    + split; try done; cbn; [destruct Hw; subst; cbn; by rewrite H5, Ed|].
      intros Hs; rewrite Et; apply elem_of_app; left; auto.
  - eapply (follows_step _ _ _ _ s c _ tt s [] c (set_accept AWatch (set_pipe (pipe c) c)));
      [done|by rewrite app_nil_r|done| |].
    + split; [apply accept_device; [done|by rewrite H5]|]; unfold accept_calls; by rewrite H1, H5.
    + split; try done; cbn; [by intros _; apply H3|by rewrite H5, Ed].
Qed.

(** [ConnectNamedPipe] and what follows it; the client, if any, has opened the
    pipe. *)
Lemma opened_path a s c : accepts_at a s c -> a = AConnect -> exists c1,
  rtc elsewhere c c1 /\ accepts_at a s c1 /\ opened c1 = true.
Proof.
  intros Hc Ha; destruct (opened c) eqn:Eo; [by exists c|]; exists (set_opened true c).
  destruct Hc as [H1 H2 H3 H4 H5 H6]; split_and!; [|by split|done].
  apply rtc_once, opens, client_opens; [by rewrite H1|done].
Qed.

Lemma connect_follows s c h : accepts_at AConnect s c ->
  follows (let* r := ask (fun t => os_connect_pipe t h) (EConnectNamedPipe h) in
           let connected := match r with None => true | Some error => error =? ERROR_PIPE_CONNECTED end in
           if connected then
             move_to_mPipe h ;;
             let* d := gets mV1Device in
             when (V1.isValid d) (let* _ := Send pad d in st_ret tt) ;;
             st_ret true
           else modify (log (ECloseHandle h)) ;; st_ret false) s c
    (fun b s' c' => accepts_at (if b then AWatch else ACheck) s' c').
Proof.
  intros Hc; destruct (opened_path _ _ _ Hc eq_refl) as (c1 & He & H1 & Eo); clear Hc.
  destruct H1 as [H1 H2 H3 H4 H5 H6]; specialize (H4 eq_refl).
  set (r := os_connect_pipe (trace s) h).
  destruct (decide (r = None \/ r = Some ERROR_PIPE_CONNECTED)) as [Hr|Hr].
  - set (s1 := set_mPipe (Some h) (log (EConnectNamedPipe h r) s)).
    set (c2 := set_accept ADevice (set_pipe (Some (mkPeer 2 0 false)) c1)).
    eapply (follows_after _ _ _ _ (let* d := gets mV1Device in
      when (V1.isValid d) (let* _ := Send pad d in st_ret tt) ;; st_ret true) s s1 c _ c2).
    + unfold st_bind at 1, ask; fold r; cbn zeta.
      replace (match r with None => true | Some error => error =? ERROR_PIPE_CONNECTED end) with true
        by (by destruct Hr as [->| ->]).
      unfold move_to_mPipe, modify, st_bind at 1, close_pipe; cbn; by rewrite H4.
    + done.
    + eapply path_step; [exact He|]; split; [by apply accept_client|].
      unfold accept_calls; rewrite H1; by exists h, r.
    + apply follows_gets; eapply follows_bind; [apply device_follows; [|done]|];
        [split; try done|intros ? s2 c3 H; by apply follows_ret].
      intros Hs; apply elem_of_app; left; auto.
  - destruct r as [e|] eqn:Er; [|by destruct Hr; left].
    assert (e <> ERROR_PIPE_CONNECTED) as Hn by (intros ->; by destruct Hr; right).
    eapply (follows_step _ _ _ _ s c _ false (log (ECloseHandle h) (log (EConnectNamedPipe h (Some e)) s))
      [EConnectNamedPipe h (Some e); ECloseHandle h] c1 (set_accept ACheck c1)).
    + unfold st_bind at 1, ask; fold r; rewrite Er; by apply Z.eqb_neq in Hn as ->.
    + cbn; by rewrite <- app_assoc.
    + done.
    + split; [by apply accept_failed|]; unfold accept_calls; rewrite H1; by exists h, e.
    + split; try done; cbn; [by intros _; apply H3|]; intros Hs; do 2 (apply elem_of_app; left); auto.
Qed.

(** [CreateNamedPipeW]: the pipe, or another instance has it.  With any other
    error the program ends with an exception. *)
Lemma create_follows s c : accepts_at ACreate s c ->
  match os_create_pipe server_pipe (trace s) with
  | inl e => e = ERROR_ACCESS_DENIED \/ e = ERROR_PIPE_BUSY
  | inr _ => True
  end ->
  follows (ask (os_create_pipe server_pipe) (ECreateNamedPipe server_pipe)) s c (fun r s' c' =>
    r = os_create_pipe server_pipe (trace s) /\
    accepts_at (match r with inl _ => ABusy | inr _ => AConnect end) s' c').
Proof.
  intros Hc He; destruct (os_create_pipe server_pipe (trace s)) as [e|h] eqn:Er.
  all: eapply follows_step; [by unfold ask; rewrite Er|done|done| |split; [done|]].
  - split; [apply accept_busy, Hc|]; unfold accept_calls; rewrite (at_position _ _ _ Hc); by exists e.
  - eapply v1_accepts_move; [by apply v1_accepts_log|done|intros _; by apply (at_no_pipe _ _ _ Hc)].
  - split; [apply accept_create, Hc|]; unfold accept_calls; rewrite (at_position _ _ _ Hc); by exists h.
  - apply (v1_accepts_log AConnect), (v1_accepts_move ACreate); [|done|intros _; by apply (at_no_pipe _ _ _ Hc)].
    by destruct Hc; split.
Qed.

Lemma AcceptClient_eq s : AcceptClient pad s =
  (let* r := ask (os_create_pipe server_pipe) (ECreateNamedPipe server_pipe) in
   match r with
   | inl error =>
       if (error =? ERROR_ACCESS_DENIED) || (error =? ERROR_PIPE_BUSY)
       then sleep_for 1000 ;; st_ret false
       else throw (win32_error error)
   | inr pipe =>
       let* r := ask (fun t => os_connect_pipe t pipe) (EConnectNamedPipe pipe) in
       let connected := match r with None => true | Some error => error =? ERROR_PIPE_CONNECTED end in
       if connected then
         move_to_mPipe pipe ;;
         let* d := gets mV1Device in
         when (V1.isValid d) (let* _ := Send pad d in st_ret tt) ;;
         st_ret true
       else modify (log (ECloseHandle pipe)) ;; st_ret false
   end) s.
Proof.
  unfold AcceptClient, CreatePipe, ConnectPipe, GreetClient, ask, st_bind, st_ret; cbv zeta.
  destruct (os_create_pipe server_pipe (trace s)) as [e|h]; [by destruct (_ || _)|].
  by destruct (match os_connect_pipe _ _ with None => true | Some error => error =? ERROR_PIPE_CONNECTED end).
Qed.

Lemma v1_AcceptClient_follows s c : accepts_at ACreate s c ->
  follows (AcceptClient pad) s c (fun b s' c' => accepts_at (if b then AWatch else ACheck) s' c').
Proof.
  intros Hc; unfold Control.follows; rewrite AcceptClient_eq.
  match goal with |- context [?m s] => change (follows m s c (fun b s' c' =>
    accepts_at (if b then AWatch else ACheck) s' c')) end.
  destruct (os_create_pipe server_pipe (trace s)) as [e|h] eqn:Er.
  - destruct ((e =? ERROR_ACCESS_DENIED) || (e =? ERROR_PIPE_BUSY)) eqn:Ee.
    2: by unfold Control.follows, st_bind, ask; rewrite Er, Ee.
    eapply follows_bind; [apply create_follows; [done|rewrite Er; lia]|].
    intros r s1 c1 [-> H1]; rewrite Er, Ee in *.
    eapply follows_step; [done|done|done| |].
    + split; [apply accept_retry, H1|]; unfold accept_calls; by rewrite (at_position _ _ _ H1).
    + eapply v1_accepts_move; [by apply v1_accepts_log|done|intros _; by apply (at_no_pipe _ _ _ H1)].
  - eapply follows_bind; [apply create_follows; [done|by rewrite Er]|].
    intros r s1 c1 [-> H1]; rewrite Er in *; by apply connect_follows.
Qed.

Lemma v1_AcceptOnce_follows fuel s c : accepts_at ACreate s c ->
  follows (AcceptOnce pad fuel) s c (fun _ s' c' => accepts_at ACheck s' c').
Proof.
  intros Hc; eapply follows_bind; [by apply v1_AcceptClient_follows|].
  intros [] s2 c2 H2; [|by apply follows_ret].
  eapply follows_bind; [by apply WatchPipe_follows|]; intros [] s3 c3 H3; by apply v1_reset_follows.
Qed.

Lemma v1_AcceptLoop_follows n fuel s c : accepts_at ACheck s c ->
  follows (AcceptLoop pad n fuel) s c (fun _ s' c' => accepts_at AExited s' c').
Proof.
  revert s c; induction n as [|n IH]; intros s c Hc; [done|]; cbn [AcceptLoop].
  eapply follows_bind; [by apply v1_check_follows|]; intros [] s1 c1 H1; [by apply follows_ret|].
  eapply follows_bind; [by apply v1_AcceptOnce_follows|]; intros [] s2 c2; apply IH.
Qed.

(** ** The accept loop ends *)

Lemma WatchPipe_inv fuel s : inv pad s -> leaves (WatchPipe fuel s) (inv pad).
Proof.
  revert s; induction fuel as [|fuel IH]; intros s Hi; [done|]; cbn [WatchPipe].
  apply leaves_bind with (inv pad); [by apply WatchOnce_inv|done|]; intros [] s1 H1; [by apply IH|done].
Qed.

Lemma GreetClient_returns s : inv pad s -> returns (GreetClient pad s) (fun _ _ => True).
Proof.
  intros Hi; unfold GreetClient, gets, when; unfold st_bind at 1.
  destruct (inv_device _ _ Hi) as (_ & _ & Hd).
  destruct (V1.isValid (mV1Device s)) eqn:Ev; [|done]; destruct (Hd eq_refl) as (Hwf & Ht & Hs).
  unfold st_bind; rewrite (Send_eq pad (mV1Device s)) by done.
  destruct (mPipe s); [|done]; cbv zeta; by destruct (os_write_file _ _ _).
Qed.

Lemma CreatePipe_ends s : match CreatePipe s with
  | Ret _ s' => mPipe s' = mPipe s
  | Exn e _ => exists code, e = win32_error code
  | _ => False
  end.
Proof.
  unfold CreatePipe, ask, st_bind; cbv zeta; destruct (os_create_pipe server_pipe (trace s)) as [e|h]; [|done].
  destruct (_ || _); [done|by exists e].
Qed.

Lemma ConnectPipe_ends h s : returns (ConnectPipe h s) (fun _ s' => mPipe s' = mPipe s).
Proof.
  unfold ConnectPipe, ask, st_bind; cbv zeta.
  by destruct (match os_connect_pipe _ _ with None => true | Some error => error =? ERROR_PIPE_CONNECTED end).
Qed.

Lemma v1_AcceptClient_ends s : inv pad s -> mPipe s = None ->
  match AcceptClient pad s with
  | Ret b s' => inv pad s' /\ (b = false -> mPipe s' = None)
  | Exn e _ => exists code, e = win32_error code
  | _ => False
  end.
Proof.
  intros Hi Hn; enough (match AcceptClient pad s with
    | Ret b s' => b = false -> mPipe s' = None
    | Exn e _ => exists code, e = win32_error code
    | _ => False end) as He
    by (pose proof (AcceptClient_inv pad s Hi); by destruct (AcceptClient pad s)).
  pose proof (CreatePipe_inv pad s Hi) as Hi1; pose proof (CreatePipe_ends s) as H1.
  unfold AcceptClient; unfold st_bind at 1; destruct (CreatePipe s) as [[h|] s1|e s1| |]; try done; [|congruence].
  pose proof (ConnectPipe_inv pad h s1 Hi1) as Hi2; pose proof (ConnectPipe_ends h s1) as H2.
  unfold st_bind at 1; destruct (ConnectPipe h s1) as [[] s2| | |]; try done; [|by cbn in H2; congruence].
  unfold st_bind at 1; cbn [move_to_mPipe modify].
  destruct (returns_inv _ _ (GreetClient_returns (set_mPipe (Some h) (close_pipe s2))
    ltac:(by apply set_mPipe_inv, close_pipe_inv))) as ([] & s3 & E3 & _).
  unfold move_to_mPipe, modify, st_bind; by rewrite E3.
Qed.

Variables (N : nat) (HN : forall t, (N <= length t)%nat -> os_stop_requested t = true).

Lemma v1_AcceptOnce_ends s : inv pad s -> mPipe s = None ->
  match AcceptOnce pad (S N) s with
  | Ret _ s' => inv pad s' /\ mPipe s' = None /\ (length (trace s) <= length (trace s'))%nat
  | Exn e _ => exists code, e = win32_error code
  | _ => False
  end.
Proof.
  intros Hi Hn; set (c := mkCtl Stopped PExited ACreate false None (V1.isValid (mV1Device s)) false false).
  assert (accepts_at ACreate s c) as Hc by (split; try done; unfold same_pipe; by rewrite Hn).
  pose proof (v1_AcceptOnce_follows (S N) s c Hc) as Hf; pose proof (v1_AcceptClient_ends s Hi Hn) as Hp.
  revert Hf; unfold AcceptOnce, Control.follows; unfold st_bind at 1 3.
  destruct (AcceptClient pad s) as [[] s1|e s1|u|] eqn:E; try done.
  - destruct Hp as [Hi1 _]; destruct (WatchPipe_returns N (S N) s1 HN) as [s2 E2]; [lia|lia|].
    pose proof (WatchPipe_inv (S N) s1 Hi1) as Hw; unfold st_bind; rewrite E2 in *; cbn.
    intros (t & c' & Et & _); rewrite Et, length_app.
    split_and!; [by apply set_mPipe_inv, close_pipe_inv|done|lia].
  - cbn; intros (t & c' & Et & _); rewrite Et, length_app; destruct Hp as [Hi1 Hn1].
    split_and!; [done|by apply Hn1|lia].
Qed.

Lemma v1_AcceptLoop_ends n s : inv pad s -> mPipe s = None -> (N < n + length (trace s))%nat ->
  match AcceptLoop pad n (S N) s with
  | Ret _ _ => True
  | Exn e _ => exists code, e = win32_error code
  | _ => False
  end \/ n = 0%nat.
Proof.
  revert s; induction n as [|n IH]; intros s Hi Hn Hl; [by right|left]; cbn [AcceptLoop].
  unfold stop_requested, ask, st_bind at 1; set (s1 := log _ s).
  destruct (os_stop_requested (trace s)) eqn:Es; [done|].
  assert (inv pad s1) as H1 by by apply log_inv.
  pose proof (v1_AcceptOnce_ends s1 H1 Hn) as H2; unfold st_bind.
  destruct (AcceptOnce pad (S N) s1) as [[] s2|e s2|u|]; try done.
  destruct H2 as (H2 & Hn2 & Hl2); assert (length (trace s1) = S (length (trace s))) as E1
    by (cbn; rewrite length_app; cbn; lia).
  destruct (IH s2 H2 Hn2 ltac:(lia)) as [?| ->]; [done|].
  rewrite HN in Es by lia; done.
Qed.
End accept.

(** ** The ping thread *)

Section ping.
Context {HA : Arch} {HP : PipeOS} {HS : StopContract} (pad : nat -> Z).

Record pings_at (p : pinger) (s : V1Server) (c : ctl) : Prop := {
  ping_position : ping_at c = p;
  ping_pipe : same_pipe s c;
  ping_connected : connected c;
  ping_stopped : ping_stop c = true -> EStopRequested true ∈ trace s
}.

Abbreviation follows := (follows trace ping_acts elsewhere).

Lemma ping_check_follows s c : pings_at PCheck s c ->
  follows stop_requested s c (fun b s' c' => pings_at (if b then PExited else PSleep) s' c').
Proof.
  intros [H1 H2 H3 H4]; destruct (os_stop_requested (trace s)) eqn:Eb.
  - eapply (follows_step _ _ _ _ s c _ true _ _ (ask_ping c)); [by unfold stop_requested, ask; rewrite Eb|done|..].
    + apply rtc_once; constructor.
    + split; [by apply ping_check|]; unfold ping_calls; cbn; by rewrite H1.
    + split; try done; intros _; apply elem_of_app; right; by apply list_elem_of_singleton.
  - assert (ping_stop c = false) as Ef.
    { apply not_true_is_false; intros Hc; by rewrite (stop_stays _ (H4 Hc)) in Eb. }
    eapply (follows_step _ _ _ _ s c _ false); [by unfold stop_requested, ask; rewrite Eb|done|done|..].
    + split; [by apply ping_check|]; unfold ping_calls; by rewrite H1, Ef.
    + rewrite Ef; split; try done; cbn; by rewrite Ef.
Qed.

Lemma v1_PingOnce_follows s c : pings_at PSleep s c ->
  follows (PingOnce pad) s c (fun _ s' c' => pings_at PCheck s' c').
Proof.
  intros [H1 H2 H3 H4]; unfold PingOnce.
  eapply (follows_bind _ _ _ _ _ _ _ (fun _ s' c' => pings_at PSend s' c')).
  { eapply follows_step; [done|done|done| |].
    - split; [by apply ping_sleep|]; unfold ping_calls; cbn; by rewrite H1.
    - split; try done; intros Hc; apply elem_of_app; left; auto. }
  clear; intros [] s c [H1 H2 H3 H4]; apply follows_gets, follows_modify; [done|].
  eapply (follows_bind _ _ _ _ _ _ _ (fun _ s' c' => pings_at PCheck s' c'));
    [|intros ? s1 c1 HP1; by apply follows_ret].
  set (s0 := set_mPing _ _); set (ping := V1.mkPing _ _).
  destruct (Send pad ping s0) as [b s1| | |] eqn:Es; try (unfold Control.follows; by rewrite Es).
  destruct (v1_SendRaw_effect _ _ _ _ _ Es) as [t Hw].
  destruct (write_sends _ _ _ c Hw H2 H3) as (k & k' & He & Hk & Ht & Hp & Ho & Et).
  eapply (follows_step _ _ _ _ s0 c _ b s1 t (set_pipe k c) (set_ping PCheck (set_pipe k' (set_pipe k c))));
    [done|done|done| |].
  - split; [by apply ping_send|]; unfold ping_calls; cbn; by rewrite H1.
  - split; try done; intros Hs; rewrite Et; apply elem_of_app; left; auto.
Qed.

Lemma v1_PingLoop_follows n s c : pings_at PCheck s c ->
  follows (PingLoop pad n) s c (fun _ s' c' => pings_at PExited s' c').
Proof.
  revert s c; induction n as [|n IH]; intros s c Hc; [done|]; cbn [PingLoop].
  eapply follows_bind; [by apply ping_check_follows|]; intros [] s1 c1 H1; [by apply follows_ret|].
  eapply follows_bind; [by apply v1_PingOnce_follows|]; intros [] s2 c2; apply IH.
Qed.

Lemma v1_PingLoop_ends N n l s : (forall t, (N <= length t)%nat -> os_stop_requested t = true) ->
  inv pad s -> holds l s -> (N < n + length (trace s))%nat -> (0 < n)%nat ->
  returns (PingLoop pad n s) (fun _ _ => True).
Proof.
  intros HN; revert s; induction n as [|n IH]; intros s Hi Hh Hl Hn; [lia|]; cbn [PingLoop].
  unfold stop_requested, ask, st_bind at 1; set (s1 := log _ s).
  destruct (os_stop_requested (trace s)) eqn:Es; [done|].
  assert (inv pad s1) as Hi1 by by apply log_inv.
  assert (holds l s1) as Hh1 by by apply v1_holds_log.
  destruct (returns_inv _ _ (PingOnce_pipe pad l s1 Hi1 Hh1)) as ([] & s2 & E2 & Hh2 & _).
  pose proof (PingOnce_inv pad s1 Hi1) as Hi2; unfold st_bind; rewrite E2 in *.
  destruct n as [|n]; [rewrite HN in Es by lia; done|]; apply IH; [done|done| |lia].
  set (c := mkCtl Stopped PSleep AWatch false
    (match mPipe s1 with Some _ => Some (mkPeer 1 0 false) | None => None end) false false false).
  assert (pings_at PSleep s1 c) as Hc
    by (split; unfold same_pipe, connected; cbn; try done; by destruct (mPipe s)).
  pose proof (v1_PingOnce_follows s1 c Hc) as Hf; unfold Control.follows in Hf; rewrite E2 in Hf.
  destruct Hf as (t & c' & Et & _); rewrite Et, length_app; cbn; rewrite length_app; cbn; lia.
Qed.
End ping.

(** ** Concrete instances *)

Module Sample.
Definition asked (e : event) : bool := match e with EStopRequested b => b | _ => false end.

(** The pipe of the other examples; a stop request stays. *)
Definition os : PipeOS := {|
  os_create_pipe _ _ := inr 7;
  os_connect_pipe _ _ := None;
  os_peek_pipe t _ := Nat.ltb (length t) 9;
  os_write_file _ _ data := Some (Z.of_nat (length data));
  os_stop_requested t := Nat.leb 20 (length t) || existsb asked t
|}.

Lemma contract : @StopContract os.
Proof.
  intros t Ht; cbn; apply orb_true_iff; right; apply existsb_exists.
  exists (EStopRequested true); split; [by apply list_elem_of_In|done].
Qed.

Definition start : ctl := mkCtl V1Shutdown.AskPing PCheck ACheck false None false false false.

Lemma v1_start_accepts : accepts_at ACheck new_V1Server start.
Proof. by split. Qed.
Lemma v1_start_pings : pings_at PCheck new_V1Server start.
Proof. by split. Qed.
End Sample.

(** ** Properties *)

(** C13: the threads of the v1 server follow the model of their control that
    [v1_stop_returns] and [v1_stop_waits] are about.  From any reachable state,
    when a stop is requested at some time, [PingLoop] and [AcceptLoop] return (the
    latter may instead throw the error of [CreateNamedPipeW]), and the calls they
    have made are those of a path of the model's thread to its end, which looks at
    the stop request where the code does and goes where the code goes, while
    clients and [Stop] move in between. *)
Theorem v1_threads_follow {HA : Arch} {HP : PipeOS} {HC : CodePage} {HU : CodePageSpec}
    {HS : StopContract} (pad : nat -> Z) (s : V1Server) (p : phase) (c : ctl) (N : nat) :
  reachable pad (s, p) -> (forall t, (N <= length t)%nat -> os_stop_requested t = true) ->
  (accepts_at ACheck s c ->
   match AcceptLoop pad (S N) (S N) s with
   | Ret _ s' => exists t c', trace s' = trace s ++ t /\
       path accept_acts elsewhere c t c' /\ accepts_at AExited s' c'
   | Exn e _ => exists code, e = win32_error code
   | _ => False
   end) /\
  (pings_at PCheck s c ->
   returns (PingLoop pad (S N) s) (fun _ s' => exists t c', trace s' = trace s ++ t /\
     path ping_acts elsewhere c t c' /\ pings_at PExited s' c')).
Proof.
  intros Hr HN; destruct (reachable_good pad (s, p) Hr) as [Hi Hh _]; cbn in Hi, Hh; split; intros Hc.
  - pose proof (v1_AcceptLoop_follows pad (S N) (S N) s c Hc) as Hf; unfold follows in Hf.
    destruct (v1_AcceptLoop_ends pad N HN (S N) s Hi) as [He|?]; [by apply (at_no_pipe _ _ _ Hc)|lia| |done].
    by destruct (AcceptLoop pad (S N) (S N) s).
  - pose proof (v1_PingLoop_follows pad (S N) s c Hc) as Hf; unfold follows in Hf.
    destruct (returns_inv _ _ (v1_PingLoop_ends pad N (S N) _ s HN Hi Hh ltac:(lia) ltac:(lia))) as ([] & s' & E & _).
    by rewrite E in *.
Qed.

Lemma v1_threads_follow_witness :
  match @AcceptLoop Sample.os V1Server.Sample.pad 21 21 new_V1Server with
  | Ret _ s' => exists t c', trace s' = [] ++ t /\
      path accept_acts elsewhere Sample.start t c' /\ accepts_at AExited s' c'
  | Exn e _ => exists code, e = win32_error code
  | _ => False
  end /\
  returns (@PingLoop arch64 Sample.os V1Server.Sample.pad 21 new_V1Server)
    (fun _ s' => exists t c', trace s' = [] ++ t /\
       path ping_acts elsewhere Sample.start t c' /\ pings_at PExited s' c').
Proof.
  destruct (@v1_threads_follow arch64 Sample.os Utf8.Sample.codepage Utf8.Sample.spec Sample.contract
    V1Server.Sample.pad new_V1Server Accepting Sample.start 20) as [H1 H2].
  - apply rtc_refl.
  - intros t Ht; apply orb_true_iff; left; by apply Nat.leb_le.
  - split; [exact (H1 Sample.v1_start_accepts)|exact (H2 Sample.v1_start_pings)].
Defined.

End V1Control.
