(* ===== verification/V2Control.v ===== *)
(** * The OTD-IPC v2 server: its threads follow their models

    The functions [AcceptLoop] of V2Accept and [PingLoop] of V2Server make the
    calls that the threads of V2Shutdown make, in that order and with the branches
    that V2Shutdown takes, whatever the sockets answer and whenever the program is
    asked to stop. *)

From S2P Require Import Prelude Layout V2Messages V2Server V2Accept V2Reading V2Threads Fairness Control V2Shutdown.
Import V2Server V2Accept V2Reading Fairness Control V2Shutdown.

Module V2Control.

(** What others do meanwhile: [Stop] asks a thread to end; clients come, take
    what they were sent, send something or end the connection. *)
Inductive elsewhere : ctl -> ctl -> Prop :=
  | stop_accept c : elsewhere c (ask_accept c)
  | stop_ping c : elsewhere c (ask_ping c)
  | comes c c' : arrives c c' -> elsewhere c c'
  | reads c c' : drain_step c c' -> elsewhere c c'
  | answers c c' : answer_step c c' -> elsewhere c c'.

(** What is printed is not part of the control. *)
Definition is_call (e : event) : bool := match e with EPrint _ => false | _ => true end.
Definition calls (s : V2Server) : list event := List.filter is_call (trace s).

Lemma calls_log e s : calls (log e s) = calls s ++ (if is_call e then [e] else []).
Proof. unfold calls; cbn; rewrite List.filter_app; cbn; by destruct (is_call e). Qed.

(** The calls of a send: none without a client; the client is dropped when it
    fails. *)
Inductive send_calls : option peer -> option peer -> list event -> Prop :=
  | send_nobody : send_calls None None []
  | send_done k k' sock data len r : r <> SOCKET_ERROR ->
      send_calls (Some k) (Some k') [ESend sock data len r]
  | send_error k sock data len :
      send_calls (Some k) None [ESend sock data len SOCKET_ERROR; ECloseSocket sock].

(** The call that closes a socket, if there is one. *)
Definition closing {A} (held : option A) (t : list event) : Prop :=
  match held with Some _ => exists k, t = [ECloseSocket k] | None => t = [] end.

(** The calls of each step of the accept thread. *)
Definition accept_calls (c : ctl) (t : list event) (c' : ctl) : Prop :=
  match accept_at c, accept_at c' with
  | ACheck, AExited => exists (listen : option Z) u, closing listen u /\ t = EStopRequested true :: u
  | ACheck, _ => t = [EStopRequested false]
  | AAccept, AHello => exists k x u, closing (client c) u /\ t = EAccept k (Some x) :: u
  | AAccept, _ => exists k, t = [EAccept k None]
  | AHello, _ => send_calls (client c) (client c') t
  | ADevice, _ => if has_device c then send_calls (client c) (client c') t else t = []
  | AServe, _ => t = [EStopRequested (accept_stop c)]
  | ARecv _ (S n), ARecv _ m => exists k len bs, (length bs + m = S n)%nat /\
      t = [ERecv k len (RecvData bs)]
  | ARecv _ (S n), _ => exists k len r, (r = RecvData [] \/ exists e, r = RecvError e) /\
      t = [ERecv k len r]
  | ARecv _ 0, _ => t = []
  | AReset, _ => closing (client c) t
  | AExited, _ => False
  end.
Definition accept_acts (c : ctl) (t : list event) (c' : ctl) : Prop :=
  accept_step c c' /\ accept_calls c t c'.

(** The calls of each step of the ping thread. *)
Definition ping_calls (c : ctl) (t : list event) (c' : ctl) : Prop :=
  match ping_at c with
  | PCheck | PCheckAgain => t = [EStopRequested (ping_stop c)]
  | PSleep => t = [ESleep 1000]
  | PSend => send_calls (client c) (client c') t
  | PExited => False
  end.
Definition ping_acts (c : ctl) (t : list event) (c' : ctl) : Prop :=
  ping_step c c' /\ ping_calls c t c'.

(** A stop that has been requested stays requested; nothing is received without
    a socket. *)
Class ServerContract {HO : SocketOS} : Prop := {
  stop_stays t : EStopRequested true ∈ t -> os_stop_requested t = true;
  recv_nowhere t len bs : os_recv t INVALID_SOCKET len <> RecvData bs
}.

(** The client of the server and of the model. *)
Definition same_client (s : V2Server) (c : ctl) : Prop :=
  match mClientSocket s, client c with Some _, Some _ | None, None => True | _, _ => False end.
Definition connected (c : ctl) : Prop :=
  match client c with Some k => avail k = 0%nat /\ hung_up k = false | None => True end.

(** A send, without a client or with one that takes it or is gone. *)
Inductive send_effect (s s' : V2Server) : list event -> Prop :=
  | effect_nobody : mClientSocket s = None -> s' = s -> send_effect s s' []
  | effect_done k data len r : mClientSocket s = Some k -> r <> SOCKET_ERROR ->
      s' = log (ESend k data len r) s -> send_effect s s' [ESend k data len r]
  | effect_failed k data len : mClientSocket s = Some k ->
      s' = set_mClientSocket None (log (ECloseSocket k) (log (ESend k data len SOCKET_ERROR) s)) ->
      send_effect s s' [ESend k data len SOCKET_ERROR; ECloseSocket k].

Lemma v2_SendRaw_effect {HO : SocketOS} data size s b s' : SendRaw data size s = Ret b s' ->
  exists t, send_effect s s' t.
Proof.
  unfold SendRaw; destruct (negb _); [done|]; unfold gets, ask, st_bind.
  destruct (mClientSocket s) as [k|] eqn:Ek; [|intros [= _ <-]; eexists; by apply effect_nobody].
  set (r := os_send _ _ _ _); destruct (Z.eqb_spec r SOCKET_ERROR) as [Er|Er];
    [|intros [= _ <-]; eexists; by apply effect_done].
  unfold reset_mClientSocket, modify, close_client; cbn; rewrite Ek, Er; intros [= _ <-].
  eexists; by apply effect_failed.
Qed.

Lemma effect_calls s s' t : send_effect s s' t -> calls s' = calls s ++ t.
Proof.
  intros [Ek ->|k data len r Ek Hr ->|k data len Ek ->]; [by rewrite app_nil_r|by rewrite calls_log|].
  change (calls (log (ECloseSocket k) (log (ESend k data len SOCKET_ERROR) s)) =
    calls s ++ [ESend k data len SOCKET_ERROR; ECloseSocket k]).
  by rewrite !calls_log, <- app_assoc.
Qed.

(** The rest of the object stays, and the trace grows. *)
Lemma effect_same s s' t : send_effect s s' t ->
  mDevice s' = mDevice s /\ trace s' = trace s ++ t.
Proof. intros [Ek ->|k data len r Ek Hr ->|k data len Ek ->]; cbn; rewrite <- ?app_assoc, ?app_nil_r; done. Qed.

(** The model's client makes room for a message that is taken, and is gone before
    a send that fails. *)
Lemma effect_sends s s' t c : send_effect s s' t -> same_client s c -> connected c ->
  exists k k', rtc elsewhere c (set_client k c) /\ sends k k' /\ send_calls k k' t /\
    same_client s' (set_client k' c) /\ connected (set_client k' c).
Proof.
  unfold same_client, connected; intros Hw Hp Ho.
  destruct Hw as [Ek ->|x data len r Ek Hr ->|x data len Ek ->]; rewrite Ek in *.
  all: destruct (client c) as [[r0 a hu]|] eqn:Ep; try done.
  - exists None, None; replace (set_client None c) with c by (destruct c; cbn in *; by subst).
    split_and!; [done|apply send_none|constructor|by rewrite Ep|by rewrite Ep].
  - destruct Ho as [Ea Eh]; cbn in Ea, Eh; subst.
    exists (Some (mkPeer (S r0) 0 false)), (Some (mkPeer r0 0 false)); cbn; rewrite Ek.
    split_and!; [|constructor|by constructor|done..].
    apply rtc_once, reads, client_reads; rewrite Ep; by constructor.
  - destruct Ho as [Ea Eh]; cbn in Ea, Eh; subst; exists (Some (mkPeer r0 0 true)), None; cbn.
    split_and!; [|constructor|constructor|done|done].
    by apply rtc_once, answers, client_hangs_up.
Qed.

Section accept.
Context {HA : Arch} {HO : SocketOS} {HS : ServerContract} {HR : RecvContract} {HB : RecvBytes} (pad : nat -> Z).

Definition serving (a : accepting) : bool :=
  match a with AHello | ADevice | AServe | ARecv _ _ | AReset => true | _ => false end.

(** The server, and the model with its accept thread at [a]. *)
Record accepts_at (a : accepting) (s : V2Server) (c : ctl) : Prop := {
  at_position : accept_at c = a;
  at_client : same_client s c;
  at_connected : serving a = true -> connected c;
  at_listening : a <> AExited -> listening c = true;
  at_device : has_device c = match mDevice s with Some _ => true | None => false end;
  at_stop : accept_stop c = true -> EStopRequested true ∈ trace s
}.

Abbreviation follows := (follows calls accept_acts elsewhere).

(** The model after the stop request that the code sees, if it sees one. *)
Definition saw_stop (b : bool) (c : ctl) : ctl := if b then ask_accept c else c.

Lemma v2_saw_stop_steps b c : rtc elsewhere c (saw_stop b c).
Proof. destruct b; [apply rtc_once; constructor|done]. Qed.

Lemma v2_saw_stop_at a s c : accepts_at a s c ->
  let b := os_stop_requested (trace s) in
  accept_stop (saw_stop b c) = b /\ accepts_at a (log (EStopRequested b) s) (saw_stop b c).
Proof.
  intros [H1 H2 H3 H4 H5 H6]; cbn; destruct (os_stop_requested (trace s)) eqn:E.
  - split; [done|]; split; try done; cbn.
    intros _; apply elem_of_app; right; by apply list_elem_of_singleton.
  - split; [apply not_true_is_false; intros Hc; by rewrite (stop_stays _ (H6 Hc)) in E|].
    split; try done; cbn; intros Hc; apply elem_of_app; left; auto.
Qed.

Lemma v2_accepts_log a e s c : accepts_at a s c -> accepts_at a (log e s) c.
Proof. intros [H1 H2 H3 H4 H5 H6]; split; try done; cbn; intros Hc; apply elem_of_app; left; auto. Qed.

(** The position moves on; nothing else changes. *)
Lemma v2_accepts_move a a' s c : accepts_at a s c -> (serving a' = true -> serving a = true) ->
  (a' <> AExited -> a <> AExited) -> accepts_at a' s (set_accept a' c).
Proof. intros [H1 H2 H3 H4 H5 H6] Hs He; split; try done; cbn; auto. Qed.

(** The loop condition, with the close of the listening socket after the loop. *)
Lemma v2_check_follows (m : ST V2Server unit) s c Q : accepts_at ACheck s c ->
  (forall s' c', accepts_at AExited s' c' -> Q tt s' c') ->
  (forall s' c', accepts_at AAccept s' c' -> follows m s' c' Q) ->
  follows (let* stop := stop_requested in if stop then reset_mListenSocket else m) s c Q.
Proof.
  intros Hc HQ Hm; destruct (v2_saw_stop_at _ _ _ Hc) as [Ef Hs]; clear Hc.
  destruct (os_stop_requested (trace s)) eqn:Eb; cbn [saw_stop] in *.
  - set (s1 := log (EStopRequested true) s) in *.
    eapply (follows_step _ _ _ _ s c _ tt (set_mListenSocket None (close_listen s1))
      (EStopRequested true :: match mListenSocket s with Some k => [ECloseSocket k] | None => [] end)).
    + unfold stop_requested, ask, st_bind; by rewrite Eb.
    + unfold close_listen; cbn; destruct (mListenSocket s); unfold calls; cbn.
      * by rewrite <- app_assoc, List.filter_app.
      * by rewrite List.filter_app.
    + apply (v2_saw_stop_steps true).
    + split; [apply accept_check, Hs|]; pose proof (at_position _ _ _ Hs) as Ha; cbn in Ha.
      unfold accept_calls; cbn; rewrite Ha.
      exists (mListenSocket s); eexists; split; [|done]; unfold closing; destruct (mListenSocket s); eauto.
    + cbn; apply HQ; destruct Hs as [H1 H2 H3 H4 H5 H6]; unfold close_listen.
      destruct (mListenSocket s1); split; try done; cbn; intros _; repeat (apply elem_of_app; left; try by apply H6).
      all: apply elem_of_app; right; by apply list_elem_of_singleton.
  - eapply (follows_after _ _ _ _ m s (log (EStopRequested false) s) c [EStopRequested false] (set_accept AAccept c)).
    + unfold stop_requested, ask, st_bind; by rewrite Eb.
    + apply calls_log.
    + eapply path_step; [done|]; split; [|unfold accept_calls; by rewrite (at_position _ _ _ Hs)].
      pose proof (accept_check c (at_position _ _ _ Hs)) as Ha; by rewrite Ef in Ha.
    + apply Hm; by eapply v2_accepts_move.
Qed.

(** [accept], with a client or without one. *)
Lemma v2_AcceptClient_follows s c : accepts_at AAccept s c ->
  follows AcceptClient s c (fun b s' c' => accepts_at (if b then AHello else ACheck) s' c').
Proof.
  intros [H1 H2 H3 H4 H5 H6]; set (k := socket_get (mListenSocket s)).
  assert (rtc elsewhere c (set_waiting (S (waiting c)) c)) as He by apply rtc_once, comes, client_arrives.
  destruct (os_accept (trace s) k) as [x|] eqn:Ex.
  - set (s1 := log (EAccept k (Some x)) s).
    eapply (follows_step _ _ _ _ s c _ true (set_mClientSocket (Some x) (close_client s1))
      (EAccept k (Some x) :: match mClientSocket s with Some y => [ECloseSocket y] | None => [] end)).
    + unfold AcceptClient, gets, ask, st_bind; fold k; by rewrite Ex.
    + unfold close_client; cbn; destruct (mClientSocket s); unfold calls; cbn.
      * by rewrite <- app_assoc, List.filter_app.
      * by rewrite List.filter_app.
    + exact He.
    + split; [by apply (accept_client _ (waiting c) 0 0); [..|apply H4|]|].
      unfold accept_calls; cbn; rewrite H1; exists k, x; eexists; split; [|done].
      unfold closing, same_client in *; destruct (mClientSocket s), (client c); try done; eauto.
    + unfold close_client; destruct (mClientSocket s1); split; try done; cbn; intros Hs;
        repeat (apply elem_of_app; left); auto.
  - eapply (follows_step _ _ _ _ s c _ false (log (EAccept k None) s)).
    + unfold AcceptClient, gets, ask, st_bind; fold k; by rewrite Ex.
    + apply calls_log.
    + exact He.
    + split; [by apply (accept_aborted _ (waiting c)); [|apply H4|]|].
      unfold accept_calls; cbn; rewrite H1; by exists k.
    + split; try done; cbn; intros Hs; [by apply H4|]; apply elem_of_app; left; auto.
Qed.

(** A send at [a], after which the thread is at [a']. *)
Lemma send_follows {A} (m : ST V2Server A) a a' s c :
  (forall b s', m s = Ret b s' -> exists t, send_effect s s' t) ->
  accepts_at a s c -> serving a = true -> a' <> AExited ->
  (forall c1 k' t, accept_at c1 = a -> has_device c1 = has_device c -> sends (client c1) k' ->
     send_calls (client c1) k' t -> accept_acts c1 t (set_accept a' (set_client k' c1))) ->
  follows m s c (fun _ s' c' => accepts_at a' s' c').
Proof.
  intros Hm [H1 H2 H3 H4 H5 H6] Hs Ha' Hact; destruct (m s) as [b s1| | |] eqn:Es;
    try (unfold Control.follows; by rewrite Es).
  destruct (Hm b s1 eq_refl) as [t Hw]; destruct (effect_same _ _ _ Hw) as [Ed Et].
  destruct (effect_sends _ _ _ _ Hw H2 (H3 Hs)) as (k & k' & He & Hk & Ht & Hp & Ho).
  eapply (follows_step _ _ _ _ s c _ b s1 t (set_client k c) (set_accept a' (set_client k' (set_client k c))));
    [done|by apply effect_calls|done|by apply Hact|].
  split; try done; cbn.
  - intros _; apply H4; intros ->; done.
  - by rewrite H5, Ed.
  - intros Hst; rewrite Et; apply elem_of_app; left; auto.
Qed.

Lemma SendHello_follows s c : accepts_at AHello s c ->
  follows (SendHello pad) s c (fun _ s' c' => accepts_at ADevice s' c').
Proof.
  intros Hc; apply (send_follows _ AHello); [|done..|].
  - unfold SendHello, gets, st_bind; intros b s'.
    destruct (SendRaw _ _ s) as [b' s1| | |] eqn:Es; try done; intros [= _ <-]; by eapply v2_SendRaw_effect.
  - intros c1 k' t Ha _ Hk Ht; split; [by apply accept_hello|]; unfold accept_calls; by rewrite Ha.
Qed.

Lemma SendDevice_follows s c : accepts_at ADevice s c ->
  follows (SendDevice pad) s c (fun _ s' c' => accepts_at AServe s' c').
Proof.
  intros Hc; pose proof (at_device _ _ _ Hc) as Hd; destruct (mDevice s) as [d|] eqn:Ed.
  - apply (send_follows _ ADevice); [|done..|].
    + unfold SendDevice, gets, st_bind; intros b s'; rewrite Ed.
      destruct (Send pad d s) as [b' s1| | |] eqn:Es; try done; intros [= _ <-]; by eapply v2_SendRaw_effect.
    + intros c1 k' t Ha Eh Hk Ht; rewrite Hd in Eh; split; [apply accept_device; [done|by rewrite Eh]|].
      unfold accept_calls; cbn; by rewrite Ha, Eh.
  - eapply (follows_step _ _ _ _ s c _ tt s [] c (set_accept AServe (set_client (client c) c))).
    + unfold SendDevice, gets, st_bind; by rewrite Ed.
    + by rewrite app_nil_r.
    + done.
    + split; [apply accept_device; [apply Hc|by rewrite Hd]|]; unfold accept_calls.
      by rewrite (at_position _ _ _ Hc), Hd.
    + destruct Hc as [H1 H2 H3 H4 H5 H6]; split; try done; cbn.
      by intros _; apply H4.
Qed.

Lemma serve_follows s c : accepts_at AServe s c ->
  follows stop_requested s c (fun b s' c' => mClientSocket s' = mClientSocket s /\
    accepts_at (if b then AReset else ARecv true 12) s' c').
Proof.
  intros Hc; destruct (v2_saw_stop_at _ _ _ Hc) as [Ef Hs]; clear Hc.
  set (b := os_stop_requested (trace s)) in *.
  eapply (follows_step _ _ _ _ s c _ b (log (EStopRequested b) s)); [done|apply calls_log|apply (v2_saw_stop_steps b)| |].
  - split; [apply accept_serve, Hs|]; unfold accept_calls; by rewrite (at_position _ _ _ Hs), Ef.
  - split; [done|]; rewrite Ef; destruct b; by eapply v2_accepts_move.
Qed.

Lemma v2_reset_follows s c : accepts_at AReset s c ->
  follows reset_mClientSocket s c (fun _ s' c' => accepts_at ACheck s' c').
Proof.
  intros Hc; pose proof (at_client _ _ _ Hc) as Hk; unfold same_client in Hk.
  eapply (follows_step _ _ _ _ s c _ tt _
    (match mClientSocket s with Some k => [ECloseSocket k] | None => [] end)); [done| |done| |].
  - unfold close_client; destruct (mClientSocket s); unfold calls; cbn; [by rewrite List.filter_app|].
    by rewrite app_nil_r.
  - split; [apply accept_reset, Hc|]; unfold accept_calls; rewrite (at_position _ _ _ Hc).
    unfold closing; destruct (mClientSocket s), (client c); try done; eauto.
  - destruct Hc as [H1 H2 H3 H4 H5 H6]; unfold close_client; destruct (mClientSocket s); split; try done.
    all: cbn; intros Hs; try by apply H4.
    apply elem_of_app; left; auto.
Qed.

(** [recv]: some bytes, or the end. *)
Lemma data_follows h n k len bs s c : accepts_at (ARecv h (S n)) s c ->
  mClientSocket s = Some k -> (0 < length bs <= S n)%nat -> os_recv (trace s) k len = RecvData bs ->
  let s' := log (ERecv k len (RecvData bs)) s in
  exists c', path accept_acts elsewhere c [ERecv k len (RecvData bs)] c' /\
    accepts_at (ARecv h (S n - length bs)) s' c'.
Proof.
  intros [H1 H2 H3 H4 H5 H6] Ek Hl Er; unfold same_client, connected in *; rewrite Ek in H2.
  destruct (client c) as [[r a hu]|] eqn:Ec; [|done]; destruct (H3 eq_refl) as [Ea Eh]; cbn in Ea, Eh; subst.
  destruct bs as [|b bs]; [cbn in Hl; lia|]; set (l := length bs).
  set (c1 := set_client (Some (mkPeer r (0 + S l) false)) c).
  set (c2 := set_accept (ARecv h (n - l)) (set_client (Some (mkPeer r 0 false)) c1)).
  exists c2; split.
  - eapply (path_step _ _ _ _ c1); [by apply rtc_once, answers, client_sends|]; split.
    + apply (accept_recv c1 h l (n - l) r 0 false); cbn.
      * rewrite H1; f_equal; cbn in Hl; fold l in Hl; lia.
      * do 2 f_equal; lia.
    + unfold accept_calls; cbn; rewrite H1; exists k, len, (b :: bs); split; [|done].
      cbn in Hl |- *; fold l in Hl |- *; lia.
  - split; try done; cbn.
    + unfold same_client; cbn; by rewrite Ek.
    + by intros _; apply H4.
    + intros Hs; apply elem_of_app; left; auto.
Qed.

Lemma end_follows h n k len r s c : accepts_at (ARecv h (S n)) s c ->
  (r = RecvData [] \/ exists e, r = RecvError e) ->
  exists c', path accept_acts elsewhere c [ERecv k len r] c' /\
    accepts_at ACheck (log (ERecv k len r) s) c'.
Proof.
  intros [H1 H2 H3 H4 H5 H6] Hr; unfold same_client, connected in *.
  destruct (client c) as [[r0 a hu]|] eqn:Ec.
  - destruct (H3 eq_refl) as [Ea Eh]; cbn in Ea, Eh; subst.
    set (c1 := set_client (Some (mkPeer r0 0 true)) c); exists (set_accept ACheck c1); split.
    + eapply (path_step _ _ _ _ c1); [by apply rtc_once, answers, client_hangs_up|]; split.
      * by apply (accept_closed c1 h n r0).
      * unfold accept_calls; cbn; rewrite H1; by exists k, len, r.
    + split; try done; cbn; intros Hs; [by apply H4|]; apply elem_of_app; left; auto.
  - exists (set_accept ACheck c); split.
    + eapply (path_step _ _ _ _ c); [done|]; split; [by apply (accept_dropped c h n)|].
      unfold accept_calls; cbn; rewrite H1; by exists k, len, r.
    + split; try done; cbn; [unfold same_client; cbn; by rewrite Ec|by intros _; apply H4|].
      intros Hs; apply elem_of_app; left; auto.
Qed.

Lemma ReadLoop_follows fuel buf p h n s c : is_u 31 n -> accepts_at (ARecv h (Z.to_nat n)) s c ->
  follows (ReadLoop fuel (socket_get (mClientSocket s)) buf p n) s c (fun rb s' c' =>
    mClientSocket s' = mClientSocket s /\
    accepts_at (match fst rb with ReadOk => ARecv h 0 | _ => ACheck end) s' c').
Proof.
  set (k := socket_get _); intros Hn Hc; pose proof eq_refl : k = socket_get (mClientSocket s) as Hk.
  clearbody k; revert n buf s c Hn Hc Hk; induction fuel as [|fuel IH]; intros n buf s c Hn Hc Hk; [done|].
  cbn [ReadLoop]; destruct (Z.ltb_spec 0 n) as [Hpos|Hpos].
  2: { apply follows_ret; split; [done|]; replace 0%nat with (Z.to_nat n) by lia; done. }
  rewrite s32_small by (unfold is_u, is_s in *; cbn in *; lia).
  destruct (Z.to_nat n) as [|m] eqn:Em; [lia|].
  destruct (os_recv (trace s) k n) as [[|b bs]|e] eqn:Er.
  - destruct (end_follows h m k n (RecvData []) s c Hc ltac:(by left)) as (c' & Hp & Hc').
    eapply (follows_after _ _ _ _ (if (length buf <? p + 0)%nat then undef OutOfBounds
      else st_ret (SocketClosed, write_at p [] buf))); [by unfold ask, st_bind; rewrite Er|apply calls_log|exact Hp|].
    destruct (_ <? _)%nat; [done|by apply follows_ret].
  - destruct (mClientSocket s) as [x|] eqn:Ex; [|by subst k; apply recv_nowhere in Er].
    cbn in Hk; subst x; set (l := b :: bs) in *.
    assert (0 < length l <= S m)%nat as Hl.
    { pose proof (recv_fits _ _ _ _ (Z.lt_le_incl _ _ Hpos) Er); split; [cbn; lia|lia]. }
    destruct (data_follows h m k n l s c Hc Ex Hl Er) as (c' & Hp & Hc').
    set (s1 := log (ERecv k n (RecvData l)) s) in *.
    eapply (follows_after _ _ _ _ (if (length buf <? p + length l)%nat then undef OutOfBounds
      else ReadLoop fuel k (write_at p l buf) p (size_t (n - Z.of_nat (length l)))) s s1);
      [by unfold ask, st_bind; rewrite Er|apply calls_log|exact Hp|].
    destruct (_ <? _)%nat; [done|]; rewrite size_t_small by (unfold is_u in *; lia).
    eapply follows_weaken; [apply (IH (n - Z.of_nat (length l)) _ s1 c')|].
    + unfold is_u in *; lia.
    + by replace (Z.to_nat (n - Z.of_nat (length l))) with (S m - length l)%nat by lia.
    + cbn; by rewrite Ex.
    + intros rb s' c2 [E ?]; split; [|done]; rewrite E; exact Ex.
  - destruct (end_follows h m k n (RecvError e) s c Hc ltac:(right; by exists e)) as (c' & Hp & Hc').
    eapply (follows_after _ _ _ _ (st_ret (if e =? WSAECONNRESET then SocketClosed else WsaError e, buf)));
      [by unfold ask, st_bind; rewrite Er|apply calls_log|exact Hp|].
    apply follows_ret; split; [done|]; by destruct (e =? WSAECONNRESET).
Qed.

(** A read that [recv] refuses. *)
Lemma refused_follows fuel buf p n s c : (0 < fuel)%nat -> 0 < n -> s32 n < 0 ->
  accepts_at (ARecv false 1) s c ->
  follows (ReadLoop fuel (socket_get (mClientSocket s)) buf p n) s c (fun rb s' c' =>
    mClientSocket s' = mClientSocket s /\
    accepts_at (match fst rb with ReadOk => ARecv false 0 | _ => ACheck end) s' c').
Proof.
  intros Hf Hp Hn Hc; set (k := socket_get _).
  destruct (ReadLoop_refused fuel k buf p n s Hf Hp Hn) as (r & e & E & Hr & _).
  destruct (end_follows false 0 k (s32 n) (RecvError e) s c Hc ltac:(right; by exists e)) as (c' & Hpath & Hc').
  eapply (follows_after _ _ _ _ (st_ret (r, buf))); [by rewrite E|apply calls_log|exact Hpath|].
  apply follows_ret; split; [done|]; by destruct r.
Qed.

(** The body of a message, for a size the client announced, whatever it is. *)
Lemma body_follows fuel buf s c : buffer_ok buf -> 2 ^ 31 <= Z.of_nat fuel ->
  accepts_at (ARecv true 0) s c ->
  follows (ReadLoop fuel (socket_get (mClientSocket s)) (enlarged buf) 12 (size_t (size_at buf - 12))) s c
    (fun rb s' c' => mClientSocket s' = mClientSocket s /\
       accepts_at (match fst rb with ReadOk => ARecv false 0 | _ => ACheck end) s' c').
Proof.
  intros [_ Hb] Hf Hc; pose proof (size_at_u32 buf Hb) as Hz.
  assert (forall m, path accept_acts elsewhere c [] (set_accept (ARecv false m) c) /\
    accepts_at (ARecv false m) s (set_accept (ARecv false m) c)) as Hm.
  { intros m; split; [|by eapply v2_accepts_move].
    eapply (path_step _ _ _ _ c); [done|]; split; [apply accept_header, Hc|].
    unfold accept_calls; by rewrite (at_position _ _ _ Hc). }
  destruct (decide (0 <= size_at buf - 12 < 2 ^ 31)) as [Hu|Hu].
  - destruct (Hm (Z.to_nat (size_at buf - 12))) as [Hp Ha]; rewrite size_t_small by done.
    eapply (follows_after _ _ _ _ _ s s c []); [reflexivity|by rewrite app_nil_r|exact Hp|].
    by apply ReadLoop_follows.
  - destruct (Hm 1%nat) as [Hp Ha]; destruct (size_t_refused _ Hz Hu) as [H1 H2].
    eapply (follows_after _ _ _ _ _ s s c []); [reflexivity|by rewrite app_nil_r|exact Hp|].
    apply refused_follows; [lia|done|done|done].
Qed.

(** What is printed leaves the control alone. *)
Lemma print_follows {A} (m : ST V2Server A) p s c Q :
  (forall s', (forall a, accepts_at a s c -> accepts_at a s' c) -> mClientSocket s' = mClientSocket s ->
     follows m s' c Q) ->
  follows (print p ;; m) s c Q.
Proof.
  intros Hm; eapply (follows_after _ _ _ _ m s (log (EPrint p) s) c []); [done|apply calls_log|constructor|].
  apply Hm; [intros a; apply v2_accepts_log|done].
Qed.

Lemma gone_follows r s c : r <> ReadOk -> accepts_at ACheck s c ->
  follows (report_read_error r ;; st_ret (@None bytes)) s c (fun r s' c' =>
    r = None /\ accepts_at ACheck s' c').
Proof.
  intros Hr Hc; destruct r; [done|..]; apply print_follows; intros s' Ha _; apply follows_ret; auto.
Qed.

Lemma handle_follows buf h a s c : accepts_at a s c ->
  follows (handle_message buf h ;; st_ret (Some buf)) s c (fun r s' c' =>
    r = Some buf /\ mClientSocket s' = mClientSocket s /\ accepts_at a s' c').
Proof.
  intros Hc; assert (forall p, follows (print p ;; st_ret (Some buf)) s c (fun r s' c' =>
    r = Some buf /\ mClientSocket s' = mClientSocket s /\ accepts_at a s' c')) as Hp.
  { intros p; apply print_follows; intros s' Ha Ek; apply follows_ret; auto. }
  unfold handle_message; destruct (_ =? _); [by destruct (_ <? _)|].
  by destruct (_ =? _); [destruct (decode buf)|].
Qed.

Context (fuel : nat) (Hfuel : 2 ^ 31 <= Z.of_nat fuel).

Lemma ReadMessage_follows buf s c : buffer_ok buf -> accepts_at (ARecv true 12) s c ->
  follows (ReadMessage fuel buf) s c (fun r s' c' =>
    accepts_at (match r with Some _ => AServe | None => ACheck end) s' c').
Proof.
  intros [Hl Hb] Hc; unfold Control.follows; rewrite ReadMessage_eq; cbv zeta.
  match goal with |- context [?m s] => change (follows m s c (fun r s' c' =>
    accepts_at (match r with Some _ => AServe | None => ACheck end) s' c')) end.
  eapply follows_bind_eq; [by apply ReadLoop_follows|]; intros [r1 buf1] s1 c1 E1 [Ek1 H1]; cbn [fst] in H1.
  destruct r1; [|eapply follows_weaken; [by apply gone_follows|by intros ? ? ? [-> ?]]..].
  assert (buffer_ok buf1) as Hb1.
  { split; [|by eapply ReadLoop_bytes].
    pose proof (ReadLoop_spec fuel (socket_get (mClientSocket s)) buf 0 12 s ltac:(done) ltac:(lia) ltac:(lia)) as Hr.
    unfold ReadNBytes in E1; rewrite E1 in Hr; destruct Hr as (cs & _ & _ & Hr & _); cbn in Hr; lia. }
  apply follows_gets; eapply follows_bind; [by apply body_follows|].
  intros [r2 buf2] s2 c2 [Ek2 H3]; cbn [fst] in H3.
  destruct r2; [|eapply follows_weaken; [by apply gone_follows|by intros ? ? ? [-> ?]]..].
  eapply (follows_after _ _ _ _ _ s2 s2 c2 []); [reflexivity|by rewrite app_nil_r| |].
  { eapply (path_step _ _ _ _ c2 (set_accept AServe c2)); [done|]; split; [apply accept_body, H3|].
    unfold accept_calls; by rewrite (at_position _ _ _ H3). }
  eapply follows_weaken; [apply (handle_follows _ _ AServe); by eapply v2_accepts_move|].
  by intros ? ? ? (-> & _ & ?).
Qed.

Lemma ReadMessages_follows rounds buf s c : buffer_ok buf -> accepts_at AServe s c ->
  follows (ReadMessages rounds fuel buf) s c (fun b s' c' => accepts_at (if b then AReset else ACheck) s' c').
Proof.
  revert buf s c; induction rounds as [|rounds IH]; intros buf s c Hb Hc; [done|]; cbn [ReadMessages].
  eapply follows_bind; [by apply serve_follows|]; intros [] s1 c1 [_ H1]; [by apply follows_ret|].
  eapply follows_bind_eq; [by apply ReadMessage_follows|]; intros r s2 c2 E H2.
  pose proof (ReadMessage_safe fuel buf s1 Hb Hfuel) as Hs; rewrite E in Hs.
  destruct r as [buf'|]; [apply IH; auto|by apply follows_ret].
Qed.

Lemma v2_AcceptOnce_follows rounds s c : accepts_at AAccept s c ->
  follows (AcceptOnce pad rounds fuel) s c (fun _ s' c' => accepts_at ACheck s' c').
Proof.
  intros Hc; eapply follows_bind; [by apply v2_AcceptClient_follows|].
  intros [] s1 c1 H1; [|by apply follows_ret].
  eapply follows_bind; [by apply SendHello_follows|]; intros [] s2 c2 H2.
  eapply follows_bind; [by apply SendDevice_follows|]; intros [] s3 c3 H3.
  eapply follows_bind; [apply ReadMessages_follows; [apply buffer_ok_start|done]|].
  intros [] s4 c4 H4; [|by apply follows_ret].
  by apply v2_reset_follows.
Qed.

Lemma v2_AcceptLoop_follows n rounds s c : accepts_at ACheck s c ->
  follows (AcceptLoop pad n rounds fuel) s c (fun _ s' c' => accepts_at AExited s' c').
Proof.
  revert s c; induction n as [|n IH]; intros s c Hc; [done|]; cbn [AcceptLoop].
  apply v2_check_follows; [done|done|]; intros s1 c1 H1.
  eapply follows_bind; [by apply v2_AcceptOnce_follows|]; intros [] s2 c2; apply IH.
Qed.

(** ** The accept loop ends *)

Definition device_ready (s : V2Server) : Prop :=
  forall d, mDevice s = Some d -> V2.deviceinfo_wf d /\ V2.size (V2.di_header d) = sizeof V2.DeviceInfo.
Definition grows (s s' : V2Server) : Prop :=
  mDevice s' = mDevice s /\ (length (trace s) <= length (trace s'))%nat.

Lemma grows_trans s1 s2 s3 : grows s1 s2 -> grows s2 s3 -> grows s1 s3.
Proof. intros [E1 L1] [E2 L2]; split; [congruence|lia]. Qed.

Lemma grows_log e s : grows s (log e s).
Proof. split; [done|]; cbn; rewrite length_app; lia. Qed.

Lemma grows_quiet s s' : quiet s s' -> grows s s'.
Proof. intros (_ & E & _ & _ & t & Et & _); split; [done|]; rewrite Et, length_app; lia. Qed.

Lemma grows_SendRaw data size s b s' : SendRaw data size s = Ret b s' -> grows s s'.
Proof.
  intros E; destruct (v2_SendRaw_effect _ _ _ _ _ E) as [t Ht].
  destruct (effect_same _ _ _ Ht) as [Ed Et]; split; [done|]; rewrite Et, length_app; lia.
Qed.

Lemma grows_close s : grows s (set_mClientSocket None (close_client s)).
Proof. unfold close_client; destruct (mClientSocket s) as [k|]; [apply (grows_log (ECloseSocket k))|done]. Qed.

Lemma AcceptClient_ends s : returns (AcceptClient s) (fun _ s' => grows s s').
Proof.
  unfold AcceptClient, move_to_mClientSocket, modify, gets, ask, st_bind; set (k := socket_get _).
  destruct (os_accept (trace s) k) as [x|]; [|apply grows_log].
  cbn; eapply grows_trans; [apply (grows_log (EAccept k (Some x)))|]; apply grows_close.
Qed.

Lemma send_ends m s : size_at m = Z.of_nat (length m) ->
  returns ((let* _ := SendRaw m (Z.of_nat (length m)) in st_ret tt) s) (fun _ s' => grows s s').
Proof.
  intros Hm; destruct (returns_inv _ _ (SendRaw_sent m s Hm)) as (b & s' & E & _).
  unfold st_bind; rewrite E; by eapply grows_SendRaw.
Qed.

Lemma SendHello_ends s : returns (SendHello pad s) (fun _ s' => grows s s').
Proof.
  unfold SendHello, gets; unfold st_bind at 1; set (m := encode pad _).
  destruct (v2_message_size pad m) as [Hs _]; [apply hello_is_message; [apply hello_message_wf|done]|].
  assert (sizeof V2.Hello = Z.of_nat (length m)) as ->
    by (symmetry; apply (length_encode pad), hello_message_wf).
  by apply send_ends.
Qed.

Lemma SendDevice_ends s : device_ready s -> returns (SendDevice pad s) (fun _ s' => grows s s').
Proof.
  intros Hd; unfold SendDevice, gets; unfold st_bind at 1.
  destruct (mDevice s) as [d|] eqn:Ed; [|by split; cbn]; destruct (Hd d Ed) as [Hw Hs].
  unfold Send; rewrite <- (length_encode pad d) by done; apply send_ends.
  by rewrite (msg_size_at (T := V2.DeviceInfo) pad d), (length_encode pad d).
Qed.

Variables (N : nat) (HN : forall t, (N <= length t)%nat -> os_stop_requested t = true).

Lemma ReadMessages_ends s :
  returns (ReadMessages (S N) fuel (replicate BUFFER_SIZE 0) s) (fun _ s' => grows s s').
Proof.
  assert (forall rounds buf s b s', ReadMessages rounds fuel buf s = Ret b s' -> quiet s s') as Hq.
  { intros rounds; induction rounds as [|rounds IH]; [done|]; cbn [ReadMessages].
    intros buf s0; apply quietly_bind; [apply quietly_stop|]; intros []; [apply quietly_ret|].
    apply quietly_bind; [apply quietly_ReadMessage|]; intros [buf'|]; [|apply quietly_ret].
    intros s1 b s2; apply IH. }
  assert (returns (ReadMessages (S N) fuel (replicate BUFFER_SIZE 0) s) (fun _ _ => True)) as Hr.
  { eapply returns_weaken; [apply (ReadMessages_safe N); try done|done]; [apply buffer_ok_start|lia|lia]. }
  destruct (returns_inv _ _ Hr) as (b & s' & E & _); rewrite E; by eapply grows_quiet, Hq.
Qed.

Lemma v2_AcceptOnce_ends s : device_ready s ->
  returns (AcceptOnce pad (S N) fuel s) (fun _ s' => grows s s').
Proof.
  intros Hd; eapply returns_bind; [apply AcceptClient_ends|]; intros [] s1 G1; [|done].
  eapply returns_bind; [apply SendHello_ends|]; intros [] s2 G2.
  assert (grows s s2) as G by by eapply grows_trans.
  eapply returns_bind; [apply SendDevice_ends|]; [intros d; rewrite (proj1 G); apply Hd|]; intros [] s3 G3.
  eapply returns_bind; [apply ReadMessages_ends|]; intros b s4 G4.
  assert (grows s s4) as G' by exact (grows_trans _ _ _ G (grows_trans _ _ _ G3 G4)).
  destruct b; [|done]; eapply grows_trans; [exact G'|apply grows_close].
Qed.

Lemma v2_AcceptLoop_ends n s : device_ready s -> (N < n + length (trace s))%nat -> (0 < n)%nat ->
  returns (AcceptLoop pad n (S N) fuel s) (fun _ _ => True).
Proof.
  revert s; induction n as [|n IH]; intros s Hd Hl Hn; [lia|]; cbn [AcceptLoop].
  unfold stop_requested, ask, st_bind at 1; set (s1 := log _ s).
  destruct (os_stop_requested (trace s)) eqn:Es; [done|].
  eapply returns_bind; [by apply v2_AcceptOnce_ends|]; intros [] s2 [Ed Hl2].
  cbn in Hl2; rewrite length_app in Hl2; cbn in Hl2.
  destruct n as [|n]; [rewrite HN in Es by lia; done|]; apply IH; [|lia|lia].
  intros d; rewrite Ed; apply Hd.
Qed.
End accept.

(** ** The ping thread *)

Section ping.
Context {HA : Arch} {HO : SocketOS} {HS : ServerContract} (pad : nat -> Z).

Record pings_at (p : pinger) (s : V2Server) (c : ctl) : Prop := {
  ping_position : ping_at c = p;
  ping_client : same_client s c;
  ping_connected : connected c;
  ping_stopped : ping_stop c = true -> EStopRequested true ∈ trace s
}.

Abbreviation follows := (follows calls ping_acts elsewhere).

(** A stop request is looked at, at [p], where the thread decides to go to [p']. *)
Lemma ping_stop_follows p (p' : bool -> pinger) s c : pings_at p s c ->
  (forall c1, ping_at c1 = p -> client c1 = client c ->
     ping_acts c1 [EStopRequested (ping_stop c1)] (set_ping (p' (ping_stop c1)) c1)) ->
  follows stop_requested s c (fun b s' c' => mClientSocket s' = mClientSocket s /\ pings_at (p' b) s' c').
Proof.
  intros [H1 H2 H3 H4] Hst; destruct (os_stop_requested (trace s)) eqn:Eb.
  - eapply (follows_step _ _ _ _ s c _ true _ _ (ask_ping c));
      [by unfold stop_requested, ask; rewrite Eb|apply calls_log| |by apply (Hst (ask_ping c))|].
    + apply rtc_once; constructor.
    + split; [done|]; split; try done; intros _; apply elem_of_app; right; by apply list_elem_of_singleton.
  - assert (ping_stop c = false) as Ef.
    { apply not_true_is_false; intros Hc; by rewrite (stop_stays _ (H4 Hc)) in Eb. }
    pose proof (Hst c H1 eq_refl) as Ha; rewrite Ef in Ha.
    eapply (follows_step _ _ _ _ s c _ false);
      [by unfold stop_requested, ask; rewrite Eb|apply calls_log|done|exact Ha|].
    split; [done|]; split; try done; cbn; by rewrite Ef.
Qed.

Lemma v2_PingOnce_follows s c : pings_at PSleep s c ->
  follows (PingOnce pad) s c (fun b s' c' => pings_at (if b then PCheck else PExited) s' c').
Proof.
  intros [H1 H2 H3 H4]; unfold PingOnce.
  eapply (follows_bind _ _ _ _ _ _ _ (fun _ s' c' => pings_at PCheckAgain s' c')).
  { eapply follows_step; [done|apply calls_log|done| |].
    - split; [by apply ping_sleep|]; unfold ping_calls; cbn; by rewrite H1.
    - split; try done; intros Hc; apply elem_of_app; left; auto. }
  clear H1 H2 H3 H4 s c; intros [] s c Hc; pose proof (ping_client _ _ _ Hc) as Hk; unfold same_client in Hk.
  eapply follows_bind; [apply (ping_stop_follows PCheckAgain (fun b : bool => if b then PExited
    else match mClientSocket s with Some _ => PSend | None => PCheck end) s c Hc)|].
  { intros c1 Ha Ec; split; [|unfold ping_calls; by rewrite Ha].
    replace (match mClientSocket s with Some _ => PSend | None => PCheck end)
      with (match client c1 with Some _ => PSend | None => PCheck end); [by apply ping_check_again|].
    rewrite Ec; by destruct (mClientSocket s), (client c). }
  intros [] s1 c1 [E1 Hc1]; [by apply follows_ret|]; apply follows_gets; rewrite E1.
  destruct (mClientSocket s) as [k|]; [|by apply follows_ret].
  destruct Hc1 as [H1 H2 H3 H4]; apply follows_gets, follows_modify; [done|].
  eapply (follows_bind _ _ _ _ _ _ _ (fun _ s' c' => pings_at PCheck s' c'));
    [|intros ? s2 c2 HP1; by apply follows_ret].
  set (s0 := set_ping_seq _ _); set (ping := V2.mkPing _ _).
  destruct (Send pad ping s0) as [b s2| | |] eqn:Es; try (unfold Control.follows; by rewrite Es).
  destruct (v2_SendRaw_effect _ _ _ _ _ Es) as [t Hw]; destruct (effect_same _ _ _ Hw) as [_ Et].
  destruct (effect_sends _ _ _ c1 Hw H2 H3) as (x & k' & He & Hx & Ht & Hp & Ho).
  eapply (follows_step _ _ _ _ s0 c1 _ b s2 t (set_client x c1) (set_ping PCheck (set_client k' (set_client x c1))));
    [done|by rewrite (effect_calls _ _ _ Hw)|done| |].
  - split; [by apply ping_send|]; unfold ping_calls; cbn; by rewrite H1.
  - split; try done; intros Hs; rewrite Et; apply elem_of_app; left; auto.
Qed.

Lemma v2_PingLoop_follows n s c : pings_at PCheck s c ->
  follows (PingLoop pad n) s c (fun _ s' c' => pings_at PExited s' c').
Proof.
  revert s c; induction n as [|n IH]; intros s c Hc; [done|]; cbn [PingLoop].
  eapply follows_bind; [apply (ping_stop_follows PCheck (fun b : bool => if b then PExited else PSleep) s c Hc)|].
  { intros c1 Ha _; split; [by apply ping_check|]; unfold ping_calls; by rewrite Ha. }
  intros [] s1 c1 [_ H1]; [by apply follows_ret|].
  eapply follows_bind; [by apply v2_PingOnce_follows|]; intros [] s2 c2 H2; [by apply IH|by apply follows_ret].
Qed.

Lemma sent_grows m s s' : sent m s s' ->
  ping_seq s' = ping_seq s /\ (length (trace s) <= length (trace s'))%nat.
Proof.
  unfold sent; destruct (mClientSocket s) as [k|]; [|by intros ->].
  intros [r ->]; destruct (r =? SOCKET_ERROR); cbn; rewrite !length_app; cbn; split; [done|lia|done|lia].
Qed.

Lemma v2_PingLoop_ends N n s : (forall t, (N <= length t)%nat -> os_stop_requested t = true) ->
  is_u 64 (ping_seq s) -> (N < n + length (trace s))%nat -> (0 < n)%nat ->
  returns (PingLoop pad n s) (fun _ _ => True).
Proof.
  intros HN; revert s; induction n as [|n IH]; intros s Hq Hl Hn; [lia|]; cbn [PingLoop].
  unfold stop_requested, ask, st_bind at 1; set (s1 := log _ s).
  destruct (os_stop_requested (trace s)) eqn:Es; [done|].
  destruct (PingOnce_sent pad s1 Hq) as (b & s2 & s' & E & E2 & Hs); unfold st_bind; rewrite E.
  destruct b; [|done]; destruct n as [|n]; [rewrite HN in Es by lia; done|].
  assert (is_u 64 (ping_seq s') /\ (S (length (trace s)) <= length (trace s'))%nat) as [Hq' Hl'].
  { assert (length (trace s2) = S (S (S (length (trace s))))) as L2
      by (rewrite E2; cbn; rewrite !length_app; cbn; lia).
    destruct Hs as [->|[_ Hs]]; [split; [by rewrite E2|lia]|].
    destruct (sent_grows _ _ _ Hs) as [-> Hg]; split; [apply u64_bounds|].
    change (trace (set_ping_seq _ s2)) with (trace s2) in Hg; lia. }
  apply IH; [done|lia|lia].
Qed.
End ping.

(** ** Concrete instances *)

Module Sample.
Definition asked (e : event) : bool := match e with EStopRequested b => b | _ => false end.

(** Clients that connect and reset the connection; a stop request stays. *)
Definition os : SocketOS := V2Server.Sample.os_with (fun _ _ _ => RecvError WSAECONNRESET)
  (fun t => Nat.leb 20 (length t) || existsb asked t).

Lemma server_contract : @ServerContract os.
Proof.
  split; [|done]; intros t Ht; apply orb_true_iff; right; apply existsb_exists.
  exists (EStopRequested true); split; [by apply list_elem_of_In|done].
Qed.
Lemma recv_contract : @RecvContract os.
Proof. by intros t k len bs Hl E. Qed.
Lemma recv_bytes_only : @RecvBytes os.
Proof. by split. Qed.

Definition start : ctl := mkCtl CloseListen PCheck ACheck true 0 None false false false.

Lemma start_reachable : @V2Threads.reachable arch64 os V2Server.Sample.pad
  (V2Threads.mkSys V2Server.Sample.object V2Threads.Idle V2Threads.Ready).
Proof. exists V2Server.Sample.object; split; [by split_and!|apply rtc_refl]. Qed.
Lemma v2_start_accepts : accepts_at ACheck V2Server.Sample.object start.
Proof. by split. Qed.
Lemma v2_start_pings : pings_at PCheck V2Server.Sample.object start.
Proof. by split. Qed.
End Sample.

(** ** Properties *)



End V2Control.
