(* ===== verification/Handler.v ===== *)
(** * Handlers: who gets the device and the pen states

    [IHandler] of src/src/IHandler.hpp as a type class over the state of the
    handling object, the contract its callers rely on ([HandlerSpec]), and the
    handlers of the program: the two servers and, from src/src/main.cpp,
    [MultiHandler] and [DeviceLogger]. *)

From S2P Require Import Prelude Layout V2Messages V1Messages Utf8 V1Server V2Server V2Accept.

Module Handler.

(** The virtual functions of the interface, on the state of the object. *)
Class IHandler (H : Type) := {
  handle_device : V2.DeviceInfo -> ST H unit;
  handle_state : V2.State -> ST H unit
}.

(** What a source of events may rely on: a handler that accepts a device returns
    from [SetDevice] and is ready; a ready handler returns from [SetState] and
    stays ready.  Nothing is promised for a state before the first device. *)
Class HandlerSpec (H : Type) {HI : IHandler H} := {
  accepts : H -> Prop;
  ready : H -> Prop;
  ready_accepts : forall h, ready h -> accepts h;
  device_returns : forall d h, V2.deviceinfo_wf d -> accepts h ->
    returns (handle_device d h) (fun _ h' => ready h');
  state_returns : forall st h, V2.state_wf st -> ready h ->
    returns (handle_state st h) (fun _ h' => ready h')
}.

(** A sequence of states. *)
Fixpoint handle_states {H : Type} {HI : IHandler H} (states : list V2.State) : ST H unit :=
  match states with
  | [] => st_ret tt
  | st :: states => handle_state st ;; handle_states states
  end.

Lemma handle_states_returns {H} {HI : IHandler H} {HS : HandlerSpec H} states h :
  Forall V2.state_wf states -> ready h ->
  returns (handle_states states h) (fun _ h' => ready h').
Proof.
  intros Hst; revert h; induction Hst as [|st states Hs Hss IH]; intros h Hh; cbn [handle_states]; [done|].
  eapply returns_bind; [by apply state_returns|]; intros ? h' Hh'; by apply IH.
Qed.

(** ** The servers *)

Section servers.
Context {HA : Arch} {HO : V2Server.SocketOS} {HP : V1Server.PipeOS} {HC : CodePage}.
Context (pad : nat -> Z).

#[global] Instance V2Server_handler : IHandler V2Server.V2Server := {
  handle_device := V2Server.SetDevice pad;
  handle_state := V2Server.SetState pad
}.

#[global] Instance V1Server_handler : IHandler V1Server.V1Server := {
  handle_device := V1Server.SetDevice pad;
  handle_state := V1Server.SetState pad
}.

(** A pointer to one of the servers; the call is dispatched on the object. *)
Inductive server :=
  | PtrV2 (s : V2Server.V2Server)
  | PtrV1 (s : V1Server.V1Server).

Definition lift_res {S T A} (f : S -> T) (r : res S A) : res T A :=
  match r with
  | Ret a s => Ret a (f s)
  | Exn e s => Exn e (f s)
  | Undef u => Undef u
  | NoFuel => NoFuel
  end.

#[global] Instance server_handler : IHandler server := {
  handle_device d h := match h with
    | PtrV2 s => lift_res PtrV2 (handle_device d s)
    | PtrV1 s => lift_res PtrV1 (handle_device d s)
    end;
  handle_state st h := match h with
    | PtrV2 s => lift_res PtrV2 (handle_state st s)
    | PtrV1 s => lift_res PtrV1 (handle_state st s)
    end
}.
End servers.

(** ** MultiHandler: the handlers in a vector, in order *)

Section multi.
Context {H : Type} {HI : IHandler H}.

(** A call on every element; an exception leaves the loop. *)
Fixpoint for_each (f : ST H unit) (hs : list H) : res (list H) unit :=
  match hs with
  | [] => Ret tt []
  | h :: hs =>
      match f h with
      | Ret _ h' => lift_res (cons h') (for_each f hs)
      | Exn e h' => Exn e (h' :: hs)
      | Undef u => Undef u
      | NoFuel => NoFuel
      end
  end.

Definition MultiHandler : Type := list H.
Definition push_back (h : H) (m : MultiHandler) : MultiHandler := m ++ [h].

#[global] Instance MultiHandler_handler : IHandler MultiHandler := {
  handle_device d := for_each (handle_device d);
  handle_state st := for_each (handle_state st)
}.

(** ** DeviceLogger: prints the device and passes everything on *)

Record DeviceLogger := mkDeviceLogger {
  mNext : option H;
  printed : list (bytes * bytes)
}.

Definition log_device (d : V2.DeviceInfo) (l : DeviceLogger) : DeviceLogger :=
  mkDeviceLogger (mNext l) (printed l ++ [(V2.GetName d, V2.GetPersistentId d)]).

Definition to_next (f : ST H unit) : ST DeviceLogger unit :=
  fun l => match mNext l with
           | Some h => lift_res (fun h' => mkDeviceLogger (Some h') (printed l)) (f h)
           | None => Ret tt l
           end.

#[global] Instance DeviceLogger_handler : IHandler DeviceLogger := {
  handle_device d := modify (log_device d) ;; to_next (handle_device d);
  handle_state st := to_next (handle_state st)
}.
End multi.
Arguments MultiHandler H : clear implicits.
Arguments DeviceLogger H : clear implicits.

(** ** The contract holds for every handler *)

Lemma returns_lift {S T A} (f : S -> T) (r : res S A) (Q : A -> T -> Prop) :
  returns r (fun a s => Q a (f s)) -> returns (lift_res f r) Q.
Proof. by destruct r. Qed.

(** A server that has a device. *)
Definition v2_ready (s : V2Server.V2Server) : Prop :=
  exists d, V2Server.mDevice s = Some d /\ V2.deviceinfo_wf d.

Lemma sent_device m s s' : V2Server.sent m s s' -> V2Server.mDevice s' = V2Server.mDevice s.
Proof.
  unfold V2Server.sent; destruct (V2Server.mClientSocket s); [|by intros ->].
  intros [r ->]; by destruct (r =? V2Server.SOCKET_ERROR).
Qed.

#[global, refine] Instance V2Server_spec {HA : Arch} {HO : V2Server.SocketOS} (pad : nat -> Z) :
    HandlerSpec V2Server.V2Server (HI := V2Server_handler pad) := {|
  accepts _ := True; ready := v2_ready;
  ready_accepts := _; device_returns := _; state_returns := _ |}.
Proof.
  - done.
  - intros d s Hd _; eapply returns_weaken; [by apply V2Server.SetDevice_sent|].
    intros ? s' E; apply sent_device in E; exists (V2Server.stored_device d); split; [exact E|].
    by apply V2Server.stored_device_wf.
  - intros st s Hst (d & Ed & Hd); eapply returns_weaken; [by apply (V2Server.SetState_sent pad st s d)|].
    intros ? s' E; apply sent_device in E; exists d; by rewrite E.
Defined.

#[global, refine] Instance V1Server_spec {HA : Arch} {HP : V1Server.PipeOS} {HC : CodePage}
    {HS : CodePageSpec} (pad : nat -> Z) :
    HandlerSpec V1Server.V1Server (HI := V1Server_handler pad) := {|
  accepts := V1Server.inv pad; ready := V1Server.inv pad;
  ready_accepts := _; device_returns := _; state_returns := _ |}.
Proof.
  - done.
  - intros d s Hd Hi; eapply returns_weaken; [by apply V1Server.SetDevice_inv|by intros ? ? []].
  - intros st s Hst Hi; eapply returns_weaken; [by apply V1Server.SetState_inv|by intros ? ? []].
Defined.

#[global, refine] Instance server_spec {HA : Arch} {HO : V2Server.SocketOS} {HP : V1Server.PipeOS}
    {HC : CodePage} {HS : CodePageSpec} (pad : nat -> Z) :
    HandlerSpec server (HI := server_handler pad) := {|
  accepts h := match h with PtrV2 s => True | PtrV1 s => V1Server.inv pad s end;
  ready h := match h with PtrV2 s => v2_ready s | PtrV1 s => V1Server.inv pad s end;
  ready_accepts := _; device_returns := _; state_returns := _ |}.
Proof.
  - by intros [].
  - intros d [s|s] Hd Ha; apply returns_lift.
    + exact (device_returns (HandlerSpec := V2Server_spec pad) d s Hd Ha).
    + exact (device_returns (HandlerSpec := V1Server_spec pad) d s Hd Ha).
  - intros st [s|s] Hst Ha; apply returns_lift.
    + exact (state_returns (HandlerSpec := V2Server_spec pad) st s Hst Ha).
    + exact (state_returns (HandlerSpec := V1Server_spec pad) st s Hst Ha).
Defined.

Lemma for_each_returns {H} (f : ST H unit) (P Q : H -> Prop) hs :
  (forall h, P h -> returns (f h) (fun _ h' => Q h')) -> Forall P hs ->
  returns (for_each f hs) (fun _ hs' => Forall Q hs').
Proof.
  intros Hf; induction 1 as [|h hs Hh Hhs IH]; cbn [for_each]; [by constructor|].
  apply Hf in Hh; destruct (f h) as [a h'| | |]; try done.
  apply returns_lift; eapply returns_weaken; [exact IH|]; by constructor.
Qed.

Lemma for_each_ret {H} (f : ST H unit) hs hs' :
  for_each f hs = Ret tt hs' <-> Forall2 (fun h h' => f h = Ret tt h') hs hs'.
Proof.
  split.
  - revert hs'; induction hs as [|h hs IH]; intros hs' E; cbn [for_each] in E; [by injection E as <-|].
    destruct (f h) as [[] h'| | |] eqn:Ef; try done.
    destruct (for_each f hs) as [[] l| | |] eqn:El; try done.
    injection E as <-; constructor; auto.
  - induction 1 as [|h h' hs hs' Ef Hl IH]; cbn [for_each]; [done|by rewrite Ef, IH].
Qed.

Lemma for_each_exn {H} (f : ST H unit) hs hs' e :
  for_each f hs = Exn e hs' <->
  exists before before' h h' after,
    hs = before ++ h :: after /\ hs' = before' ++ h' :: after /\
    Forall2 (fun h h' => f h = Ret tt h') before before' /\ f h = Exn e h'.
Proof.
  split.
  - revert hs'; induction hs as [|h hs IH]; intros hs' E; cbn [for_each] in E; [done|].
    destruct (f h) as [[] h'|e' h'| |] eqn:Ef; try done.
    + destruct (for_each f hs) as [|e' l| |] eqn:El; try done.
      injection E as -> <-; destruct (IH l eq_refl) as (b & b' & x & x' & a & -> & -> & Hb & Hx).
      exists (h :: b), (h' :: b'), x, x', a; split_and!; try done; by constructor.
    + injection E as -> <-; exists [], [], h, h', hs; split_and!; try done; constructor.
  - intros (b & b' & h & h' & a & -> & -> & Hb & Hx).
    induction Hb as [|x x' b b' Ef Hb IH]; cbn [for_each app]; [by rewrite Hx|by rewrite Ef, IH].
Qed.

#[global, refine] Instance MultiHandler_spec {H} {HI : IHandler H} {HS : HandlerSpec H} :
    HandlerSpec (MultiHandler H) := {|
  accepts := Forall accepts; ready := Forall ready;
  ready_accepts := _; device_returns := _; state_returns := _ |}.
Proof.
  - intros hs Hr; eapply Forall_impl; [exact Hr|]; apply ready_accepts.
  - intros d hs Hd Ha; apply (for_each_returns _ accepts); auto using device_returns.
  - intros st hs Hst Ha; apply (for_each_returns _ ready); auto using state_returns.
Defined.

#[global, refine] Instance DeviceLogger_spec {H} {HI : IHandler H} {HS : HandlerSpec H} :
    HandlerSpec (DeviceLogger H) := {|
  accepts l := match mNext l with Some h => accepts h | None => True end;
  ready l := match mNext l with Some h => ready h | None => True end;
  ready_accepts := _; device_returns := _; state_returns := _ |}.
Proof.
  - intros l; destruct (mNext l); auto using ready_accepts.
  - intros d l Hd Ha; cbn; unfold st_bind, modify, to_next; cbn.
    destruct (mNext l) as [h|] eqn:E; [|cbn; by rewrite E].
    apply returns_lift; by apply device_returns.
  - intros st l Hst Ha; cbn; unfold to_next; destruct (mNext l) as [h|] eqn:E; [|cbn; by rewrite E].
    apply returns_lift; by apply state_returns.
Defined.

(** ** What is on the wire *)

(** The bytes have the type [mt] and their own length, the size of the struct,
    where a client looks for them, and the client reads the value [v] back,
    whatever follows. *)
Definition typed {T} `{Wire T} (mt : Z) (m : bytes) (v : T) : Prop :=
  type_at m = mt /\ size_at m = sizeof T /\ Z.of_nat (length m) = sizeof T /\
  forall rest, decode (m ++ rest) = Some v.

Lemma typed_encode (pad : nat -> Z) (T : Type) `{Message T} (mt : Z) (v : T) : wire_wf v -> msg_type v = mt -> msg_size v = sizeof T ->
  typed mt (encode pad v) v.
Proof.
  intros Hv <- Hs; unfold typed; rewrite (msg_type_at pad v), (msg_size_at pad v), (length_encode pad v) by done.
  split_and!; try done; intros rest; by apply (decode_encode pad v).
Qed.

Section wire.
Context {HA : Arch} {HO : V2Server.SocketOS} {HP : V1Server.PipeOS} {HC : CodePage} {HS : CodePageSpec}.
Context (pad : nat -> Z).

(** A ping of the v2 server to its client, when it has not been asked to stop. *)
Lemma v2_ping_typed s : V2Server.mClientSocket s <> None ->
  V2Server.os_stop_requested (V2Server.trace s ++ [V2Server.ESleep 1000]) = false ->
  returns (V2Server.PingOnce pad s) (fun _ s' => exists m,
    typed 3 m (V2.mkPing (V2.mkHeader 3 24 0) (u64 (V2Server.ping_seq s + 1))) /\
    V2Server.sent m (V2Server.set_ping_seq (u64 (V2Server.ping_seq s + 1))
      (V2Server.log (V2Server.EStopRequested false) (V2Server.log (V2Server.ESleep 1000) s))) s').
Proof.
  intros Hk Hs; unfold V2Server.PingOnce, V2Server.sleep_for, V2Server.stop_requested, modify, gets, V2Server.ask.
  unfold st_bind at 1 2; cbn [V2Server.trace V2Server.log]; rewrite Hs.
  unfold st_bind at 1; cbn [V2Server.mClientSocket V2Server.log].
  destruct (V2Server.mClientSocket s) as [k|] eqn:Ek; [|done].
  unfold st_bind at 1 2; cbn [V2Server.ping_seq V2Server.log].
  set (p := V2.mkPing _ _); assert (wire_wf p) as Hwf.
  { split; [by apply V2Server.init_header_wf|apply u64_bounds]. }
  eapply returns_bind; [by apply (V2Server.Send_sent pad p)|]; intros b s' E.
  exists (encode pad p); split; [by apply (typed_encode pad _ _ p)|exact E].
Qed.

(** A ping of the v1 server. *)
Lemma v1_ping_typed s : V1Server.inv pad s ->
  let h := V1.di_header (V1Server.mV1Device s) in
  let n := size_t (V1Server.mPingSequenceNumber s + 1) in
  returns (V1Server.PingOnce pad s) (fun _ s' => exists m,
    typed 3 m (V1.mkPing (V1.mkHeader 3 24 (V1.vid h) (V1.pid h)) n) /\
    V1Server.written m (V1Server.set_mPing n (V1Server.log (V1Server.ESleep 1000) s)) s').
Proof.
  intros Hi h n; destruct (V1Server.inv_device _ _ Hi) as (Hv & Hp & _).
  unfold V1Server.PingOnce, V1Server.sleep_for, modify, gets; unfold st_bind at 1 2 3; cbn [id].
  set (p := V1.mkPing _ _); assert (wire_wf p) as Hwf.
  { split; [by apply V1Server.create_header_wf|].
    by destruct (arch_bounds (V1Server.mPingSequenceNumber s + 1)). }
  eapply returns_bind; [by apply (V1Server.Send_written pad p)|]; intros b s' E.
  exists (encode pad p); split; [by apply (typed_encode pad _ _ p)|exact E].
Qed.
End wire.

(** ** Properties *)

(** C19: messages are typed.  Each operation that sends makes at most one send, of
    bytes that have the type of the message in that protocol (1 for a device, 2 for
    a state, 3 for a ping; in v2 also 4 for a debug message and 6 for the
    [Hello]) and the size of the struct where a client looks for them, and from
    which the client reads back the message with the fields it was given, whatever
    the padding holds and whatever follows.  Devices and states come from
    well-formed messages of the tablet, and the v2 server has a device when it is
    given a state. *)
Theorem messages_typed {HA : Arch} {HO : V2Server.SocketOS} {HP : V1Server.PipeOS}
    {HC : CodePage} {HS : CodePageSpec} (pad : nat -> Z) (v2 : V2Server.V2Server) (v1 : V1Server.V1Server) :
  V1Server.inv pad v1 ->
  (forall d, V2.deviceinfo_wf d ->
     let d2 := V2.mkDeviceInfo (V2.mkHeader 1 536 (V2.nonPersistentTabletId (V2.di_header d)))
                 (V2.maxX d) (V2.maxY d) (V2.maxPressure d) (V2.persistentId d) (V2.name d) in
     returns (V2Server.SetDevice pad d v2) (fun _ s' => exists m,
       typed 1 m d2 /\ V2Server.sent m (V2Server.set_mDevice (Some d2) v2) s') /\
     returns (V1Server.SetDevice pad d v1) (fun _ s' => exists m,
       typed 1 m (V1Server.v1_device d) /\
       V1Server.written m (V1Server.set_mV1Device (V1Server.v1_device d) v1) s')) /\
  (forall st d, V2.state_wf st -> V2Server.mDevice v2 = Some d -> V2.deviceinfo_wf d ->
     returns (V2Server.SetState pad st v2) (fun _ s' => exists m,
       typed 2 m (V2.mkState (V2.mkHeader 2 44 (V2.nonPersistentTabletId (V2.di_header d)))
         (V2.validBits st) (V2.x st) (V2.y st) (V2.pressure st) (V2.penButtons st)
         (V2.auxButtons st) (V2.hoverDistance st) (V2.penIsNearSurface st)) /\
       V2Server.sent m v2 s')) /\
  (forall st, V2.state_wf st ->
     let h := V1.di_header (V1Server.mV1Device v1) in
     let st1 := V1Server.convert_state (V1.vid h) (V1.pid h) st in
     returns (V1Server.SetState pad st v1) (fun _ s' => exists m,
       typed 2 m st1 /\ V1Server.written m (V1Server.set_mV1State st1 v1) s')) /\
  (V2Server.mClientSocket v2 <> None ->
   V2Server.os_stop_requested (V2Server.trace v2 ++ [V2Server.ESleep 1000]) = false ->
   returns (V2Server.PingOnce pad v2) (fun _ s' => exists m,
     typed 3 m (V2.mkPing (V2.mkHeader 3 24 0) (u64 (V2Server.ping_seq v2 + 1))) /\
     V2Server.sent m (V2Server.set_ping_seq (u64 (V2Server.ping_seq v2 + 1))
       (V2Server.log (V2Server.EStopRequested false) (V2Server.log (V2Server.ESleep 1000) v2))) s')) /\
  (let h := V1.di_header (V1Server.mV1Device v1) in
   let n := size_t (V1Server.mPingSequenceNumber v1 + 1) in
   returns (V1Server.PingOnce pad v1) (fun _ s' => exists m,
     typed 3 m (V1.mkPing (V1.mkHeader 3 24 (V1.vid h) (V1.pid h)) n) /\
     V1Server.written m (V1Server.set_mPing n (V1Server.log (V1Server.ESleep 1000) v1)) s')) /\
  (forall text, Z.of_nat (length text) + 12 < 2 ^ 32 ->
     returns (V2Server.SendDebugMessage pad text v2) (fun _ s' => exists m,
       type_at m = 4 /\ size_at m = Z.of_nat (length m) /\ drop 12 m = text /\ V2Server.sent m v2 s')) /\
  returns (V2Accept.SendHello pad v2) (fun _ s' => exists m,
    typed 6 m (V2Server.hello_message (V2Server.mConfig v2)) /\ V2Server.sent m v2 s').
Proof.
  intros Hi; destruct (V1Server.inv_device _ _ Hi) as (Hv & Hp & _).
  split_and!; [intros d Hd; split| | |by apply v2_ping_typed|by apply v1_ping_typed| |].
  - pose proof (V2Server.stored_device_wf d Hd) as Hwf.
    eapply returns_weaken; [by apply V2Server.SetDevice_sent|]; intros ? s Es.
    eexists; split; [|exact Es]; by apply (typed_encode pad _ _ (V2Server.stored_device d)).
  - destruct (V1Server.v1_device_ok d Hd) as (H1 & (_ & _ & H3) & H2); rewrite V1Server.SetDevice_eq by done.
    eapply returns_bind; [by apply (V1Server.Send_written pad (V1Server.v1_device d))|]; intros b s Es.
    eexists; split; [|exact Es].
    apply (typed_encode pad _ _ (V1Server.v1_device d)); [done| |done].
    unfold V1Server.v1_device; by destruct (V1Server.SynthesizeVidPid _).
  - intros st d Hst Ed Hd; eapply returns_weaken; [by apply (V2Server.SetState_sent pad st v2 d)|]; intros ? s Es.
    eexists; split; [|exact Es].
    apply (typed_encode pad _ _ (V2Server.InitHeader_state st (V2.nonPersistentTabletId (V2.di_header d)))); [|done..].
    apply V2Server.InitHeader_state_wf; [done|]; by destruct Hd as ((_ & _ & ?) & _).
  - intros st Hst h st1; assert (V1.state_wf st1) as Hwf by by apply V1Server.convert_state_wf.
    unfold V1Server.SetState, gets, modify; unfold st_bind at 1 2.
    eapply returns_bind; [by apply (V1Server.Send_written pad st1)|]; intros b s Es.
    eexists; split; [|exact Es]; by apply (typed_encode pad _ _ st1).
  - intros text Hl; eapply returns_weaken; [by apply V2Server.SendDebugMessage_sent|]; intros ? s Es.
    destruct (V2Server.debug_size pad text Hl) as [Hsz _]; set (h := V2.init_header _ _ _) in *.
    assert (V2.header_wf h) as Hh by by apply V2Server.init_header_wf.
    pose proof (length_encode pad h Hh) as Hlen; rewrite V2.v2_header_sizeof in Hlen; unfold V2.HEADER_SIZE in Hlen.
    eexists; split_and!; [|exact Hsz| |exact Es].
    + rewrite V2Server.type_at_app by lia; exact (msg_type_at (T := V2.Header) pad h Hh).
    + by rewrite drop_app_length' by lia.
  - unfold V2Accept.SendHello, gets; unfold st_bind at 1.
    set (hello := V2Server.hello_message _); pose proof (V2Server.hello_message_wf (V2Server.mConfig v2)) as Hh.
    eapply returns_bind; [by apply (V2Server.Send_sent pad hello)|]; intros b s Es.
    eexists; split; [|exact Es]; by apply (typed_encode pad _ _ hello).
Qed.

Lemma messages_typed_witness :
  let s := V1Server.set_mPipe (Some 7) V1Server.new_V1Server in
  returns (@V1Server.PingOnce arch64 V1Server.Sample.os V2Server.Sample.pad s) (fun _ s' => exists m,
    typed 3 m (V1.mkPing (V1.mkHeader 3 24 0 0) 1) /\
    V1Server.written m (V1Server.set_mPing 1 (V1Server.log (V1Server.ESleep 1000) s)) s').
Proof.
  intros s; assert (@V1Server.inv arch64 V2Server.Sample.pad s) as Hi.
  { split; [by split; [|split]|done|constructor]. }
  by destruct (@messages_typed arch64 V2Server.Sample.os V1Server.Sample.os Utf8.Sample.codepage
    Utf8.Sample.spec V2Server.Sample.pad V2Server.Sample.object s Hi) as (_ & _ & _ & _ & H & _).
Defined.

(** [MultiHandler] calls every handler once, in order, with the same
    argument: a call returns exactly when each handler's does, and then every
    handler has its own result; when one throws, the handlers before it have
    theirs, and those after it are untouched. *)
Theorem multi_handler_fans_out {H} {HI : IHandler H} (d : V2.DeviceInfo) (hs hs' : MultiHandler H) :
  (handle_device d hs = Ret tt hs' <-> Forall2 (fun h h' => handle_device d h = Ret tt h') hs hs') /\
  (forall e, handle_device d hs = Exn e hs' <->
     exists before before' h h' after,
       hs = before ++ h :: after /\ hs' = before' ++ h' :: after /\
       Forall2 (fun h h' => handle_device d h = Ret tt h') before before' /\
       handle_device d h = Exn e h').
Proof.
  split; [apply for_each_ret|intros e; apply for_each_exn].
Qed.

(** The servers of the program honour the contract of the interface whatever
    the network does: after a device, every state is handled, by calls that
    return (no exception, nothing undefined), and every server is still ready. *)
Theorem servers_handle_states {HA : Arch} {HO : V2Server.SocketOS} {HP : V1Server.PipeOS}
    {HC : CodePage} {HS : CodePageSpec} (pad : nat -> Z)
    (servers : MultiHandler server) (d : V2.DeviceInfo) (states : list V2.State) :
  V2.deviceinfo_wf d -> Forall V2.state_wf states ->
  Forall (fun h => forall v1, h = PtrV1 v1 -> V1Server.inv pad v1) servers ->
  let HI := server_handler pad in
  returns ((handle_device d ;; handle_states states) servers) (fun _ servers' =>
    Forall (fun h => match h with
                     | PtrV2 s => v2_ready s
                     | PtrV1 s => V1Server.inv pad s
                     end) servers').
Proof.
  intros Hd Hst Ha HI.
  eapply returns_bind; [apply (device_returns (HandlerSpec := MultiHandler_spec (HS := server_spec pad)) d); [done|]|].
  - eapply Forall_impl; [exact Ha|]; intros [s|s] H; cbn; auto.
  - intros ? hs Hr; exact (handle_states_returns (HS := MultiHandler_spec (HS := server_spec pad)) states hs Hst Hr).
Qed.

Lemma servers_handle_states_witness :
  let HI := @server_handler V2Server.Sample.os V1Server.Sample.os Utf8.Sample.codepage
              V2Server.Sample.pad in
  returns ((handle_device V2Server.Sample.device ;; handle_states [V2Server.Sample.state])
             [PtrV2 V2Server.Sample.object; PtrV1 V1Server.new_V1Server]) (fun _ servers' =>
    Forall (fun h => match h with
                     | PtrV2 s => v2_ready s
                     | PtrV1 s => @V1Server.inv arch64 V2Server.Sample.pad s
                     end) servers').
Proof.
  apply (@servers_handle_states arch64 V2Server.Sample.os V1Server.Sample.os Utf8.Sample.codepage
           Utf8.Sample.spec V2Server.Sample.pad
           [PtrV2 V2Server.Sample.object; PtrV1 V1Server.new_V1Server]
           V2Server.Sample.device [V2Server.Sample.state]).
  - apply V2Server.Sample.sample_device_wf.
  - constructor; [apply V2Server.Sample.state_wf|constructor].
  - constructor; [done|]; constructor; [|constructor]; intros v1 [= <-]; split.
    + by split; [|split].
    + by vm_compute.
    + constructor.
Defined.

End Handler.
