(* ===== verification/ForegroundOverride.v ===== *)
(** * The foreground override shared with a hijacked driver

    src/src/ForegroundOverride.cpp and src/src/ForegroundOverrideDll.cpp.  The
    adapter (the writer) owns a named mutex for as long as it lives and stores
    its window in a named mapping; the hooks inside the driver process (the
    readers) use the stored window while they cannot take the mutex.  The named
    objects are the shared state [kernel]; threads are numbers. *)

From S2P Require Import Prelude.

Module ForegroundOverride.

(** The mutex with its owner and recursion count, the mapped window handle
    (zero when nothing was stored), and the windows that exist. *)
Record kernel := mkKernel {
  owner : option (Z * nat);
  mView : Z;
  IsWindow : Z -> bool
}.

Definition set_owner (o : option (Z * nat)) (k : kernel) : kernel := mkKernel o (mView k) (IsWindow k).
Definition set_view (w : Z) (k : kernel) : kernel := mkKernel (owner k) w (IsWindow k).

(** Errors of the calls that create and map the named objects. *)
Class KernelCalls := {
  create_mutex_error : option Z;
  create_mapping_error : option Z;
  map_view_error : option Z
}.

Inductive Disposition := Read | Write.

(** [mMutex.acquire(nullptr, timeout)] as of the end of the wait; an abandoned
    mutex is acquired like a free one. *)
Definition acquire (tid : Z) : ST kernel bool :=
  fun k => match owner k with
           | None => Ret true (set_owner (Some (tid, 1%nat)) k)
           | Some (o, n) =>
               if o =? tid then Ret true (set_owner (Some (tid, S n)) k) else Ret false k
           end.

Definition release : ST kernel unit :=
  modify (fun k => match owner k with
                   | Some (o, S (S n)) => set_owner (Some (o, S n)) k
                   | _ => set_owner None k
                   end).

Definition null_error {A} (e : Z) : ST kernel A := throw (win32_error e).

Section override.
Context {HK : KernelCalls}.

(** [ForegroundOverride(Disposition)].  The lock is a member: when a later step
    throws, it is released. *)
Definition OpenOverride (tid : Z) (d : Disposition) : ST kernel unit :=
  match create_mutex_error with
  | Some e => null_error e
  | None =>
      let* locked := (match d with Read => st_ret true | Write => acquire tid end) in
      if negb locked then throw (RuntimeError "Failed to acquire foreground window lock")
      else
        let unlock := match d with Read => st_ret tt | Write => release end in
        match create_mapping_error with
        | Some e => unlock ;; null_error e
        | None =>
            match map_view_error with
            | Some e => unlock ;; null_error e
            | None => st_ret tt
            end
        end
  end.

(** [ForegroundOverride()] and [ForegroundOverride(HWND)]. *)
Definition OpenReader (tid : Z) : ST kernel unit := OpenOverride tid Read.
Definition OpenWriter (tid window : Z) : ST kernel unit :=
  OpenOverride tid Write ;; modify (set_view window).

(** [Get]: the lock it may take is released when it returns. *)
Definition Get (tid : Z) : ST kernel Z :=
  let* lock := acquire tid in
  if lock then release ;; st_ret 0
  else gets (fun k => if IsWindow k (mView k) then mView k else 0).

(** ** The hooks *)

(** [GetOverride]: a static object, opened by the first call. *)
Definition GetOverride (tid : Z) : ST (bool * kernel) Z :=
  fun '(opened, k) =>
    match (if opened then Ret tt k else OpenReader tid k) with
    | Ret _ k => match Get tid k with
                 | Ret w k => Ret w (true, k)
                 | Exn e k => Exn e (true, k)
                 | Undef u => Undef u
                 | NoFuel => NoFuel
                 end
    | Exn e k => Exn e (false, k)
    | Undef u => Undef u
    | NoFuel => NoFuel
    end.

(** [hooked_GetForegroundWindow] and [hooked_WindowFromPoint]; [previous] is the
    original function, a null pointer until the hook has been created. *)
Definition hooked_GetForegroundWindow (previous : option Z) (tid : Z) : ST (bool * kernel) Z :=
  let* value := GetOverride tid in
  if truthy value then st_ret value
  else match previous with Some w => st_ret w | None => undef NullCall end.

Definition hooked_WindowFromPoint (previous : option (Z * Z -> Z)) (tid : Z) (point : Z * Z) :
    ST (bool * kernel) Z :=
  let* value := GetOverride tid in
  if truthy value then st_ret value
  else match previous with Some f => st_ret (f point) | None => undef NullCall end.

End override.

(** ** Installing the hooks

    The hooking library MinHook is not part of the program: its state is [mh],
    and its functions answer with a status.  [created] says for which functions
    there is a hook, [diverted] which calls go to the detour. *)

Inductive target := GetForegroundWindow | WindowFromPoint.
#[export] Instance target_eq : EqDecision target.
Proof. solve_decision. Defined.

Class MinHook := {
  mh : Type;
  mh_start : mh;
  mh_initialize : mh -> Z * mh;
  mh_create_hook : target -> mh -> Z * bool * mh;   (* whether the original was stored *)
  mh_enable_all : mh -> Z * mh;
  mh_uninitialize : mh -> Z * mh;
  created : mh -> target -> bool;
  diverted : mh -> target -> bool
}.

Definition MH_OK : Z := 0.

(** What the library promises: only functions with a hook are diverted; a hook
    appears only when [MH_CreateHook] has stored the original function; when it
    succeeds the hook is there, and those that were there stay; enabling all
    hooks, when it succeeds, diverts all that were created. *)
Class MinHookSpec {HM : MinHook} : Prop := {
  mh_clean u : created mh_start u = false;
  mh_initialize_keeps m u : created (mh_initialize m).2 u = created m u;
  mh_create_new t m u : let '(_, stored, m') := mh_create_hook t m in
    created m' u = true -> created m u = true \/ u = t /\ stored = true;
  mh_create_ok t m u : let '(status, stored, m') := mh_create_hook t m in
    status = MH_OK -> stored = true /\ created m' t = true /\ (created m u = true -> created m' u = true);
  mh_enable_keeps m u : created (mh_enable_all m).2 u = created m u;
  mh_enable_ok m u : (mh_enable_all m).1 = MH_OK ->
    created m u = true -> diverted (mh_enable_all m).2 u = true;
  mh_uninitialize_drops m u : created (mh_uninitialize m).2 u = true -> created m u = true;
  mh_only_created m u : diverted m u = true -> created m u = true
}.

(** What the DLL asks of the system and of the library, with the status. *)
Inductive dll_call :=
  | OutputDebugStringA (text : bytes)
  | DisableThreadLibraryCalls
  | MH_Initialize (status : Z)
  | MH_CreateHook (t : target) (status : Z)
  | MH_EnableHook (status : Z)
  | MH_Uninitialize (status : Z).

(** The DLL in its process: the library, the two pointers to the original
    functions ([None] while they are null), and the calls made. *)
Record dll {HM : MinHook} := mkDll {
  hooks : mh;
  previous_GetForegroundWindow : option target;
  previous_WindowFromPoint : option target;
  dll_calls : list dll_call
}.

Section dll.
Context {HM : MinHook}.

Definition new_dll : dll := mkDll _ mh_start None None [].

Definition record_call (c : dll_call) (d : dll) : dll :=
  mkDll _ (hooks d) (previous_GetForegroundWindow d) (previous_WindowFromPoint d) (dll_calls d ++ [c]).
Definition set_hooks (m : mh) (d : dll) : dll :=
  mkDll _ m (previous_GetForegroundWindow d) (previous_WindowFromPoint d) (dll_calls d).

Definition previous (t : target) (d : dll) : option target :=
  match t with
  | GetForegroundWindow => previous_GetForegroundWindow d
  | WindowFromPoint => previous_WindowFromPoint d
  end.
Definition set_previous (t : target) (d : dll) : dll :=
  match t with
  | GetForegroundWindow => mkDll _ (hooks d) (Some t) (previous_WindowFromPoint d) (dll_calls d)
  | WindowFromPoint => mkDll _ (hooks d) (previous_GetForegroundWindow d) (Some t) (dll_calls d)
  end.

Definition dprint (msg : bytes) : ST dll unit :=
  modify (record_call (OutputDebugStringA (str "[OTD-IPC-Wintab] " ++ msg ++ [10]))).

(** A call to the library; no caller looks at the status. *)
Definition mh_call (f : mh -> Z * mh) (c : Z -> dll_call) : ST dll unit :=
  modify (fun d => let '(status, m) := f (hooks d) in record_call (c status) (set_hooks m d)).
Definition create_hook (t : target) : ST dll unit :=
  modify (fun d => let '(status, stored, m) := mh_create_hook t (hooks d) in
    record_call (MH_CreateHook t status) (set_hooks m (if stored then set_previous t d else d))).

Definition InstallHooks : ST dll unit :=
  mh_call mh_initialize MH_Initialize ;;
  create_hook GetForegroundWindow ;;
  create_hook WindowFromPoint ;;
  mh_call mh_enable_all MH_EnableHook.
Definition UninstallHooks : ST dll unit := mh_call mh_uninitialize MH_Uninitialize.

Definition DLL_PROCESS_DETACH : Z := 0.
Definition DLL_PROCESS_ATTACH : Z := 1.

Definition DllMain (fdwReason : Z) (reserved : bool) : ST dll bool :=
  (if fdwReason =? DLL_PROCESS_ATTACH then
     dprint (str "Injecting into process") ;;
     modify (record_call DisableThreadLibraryCalls) ;;
     InstallHooks ;;
     dprint (str "Added hooks")
   else if fdwReason =? DLL_PROCESS_DETACH then
     let terminating := reserved in
     when (negb terminating) UninstallHooks
   else st_ret tt) ;;
  st_ret true.

(** A call that a thread of the process makes to one of the two functions:
    [foreground] and [window_at] are what the functions themselves answer. *)
Definition call_GetForegroundWindow {HK : KernelCalls} (d : dll) (foreground tid : Z) :
    ST (bool * kernel) Z :=
  if diverted (hooks d) GetForegroundWindow
  then hooked_GetForegroundWindow ((fun _ => foreground) <$> previous_GetForegroundWindow d) tid
  else st_ret foreground.
Definition call_WindowFromPoint {HK : KernelCalls} (d : dll) (window_at : Z * Z -> Z) (tid : Z)
    (point : Z * Z) : ST (bool * kernel) Z :=
  if diverted (hooks d) WindowFromPoint
  then hooked_WindowFromPoint ((fun _ => window_at) <$> previous_WindowFromPoint d) tid point
  else st_ret (window_at point).

(** The calls of [DllMain] that the loader makes, in order. *)
Inductive loaded : dll -> Prop :=
  | loaded_new : loaded new_dll
  | loaded_call d d' fdwReason reserved : loaded d -> DllMain fdwReason reserved d = Ret true d' ->
      loaded d'.

(** A function with a hook has its original stored. *)
Definition hooks_ok (d : dll) : Prop := forall t, created (hooks d) t = true -> previous t d = Some t.

Context {HS : MinHookSpec}.

Lemma mh_call_ok f c d : (forall m u, created (f m).2 u = true -> created m u = true) -> hooks_ok d ->
  returns (mh_call f c d) (fun _ d' => hooks_ok d').
Proof.
  intros Hf Hd; unfold mh_call, modify; cbn; specialize (Hf (hooks d)).
  destruct (f (hooks d)) as [status m]; intros u Hu; specialize (Hd u (Hf u Hu)); by destruct u.
Qed.

Lemma record_ok c d : hooks_ok d -> returns (modify (record_call c) d) (fun _ d' => hooks_ok d').
Proof. intros Hd t Ht; specialize (Hd t Ht); by destruct t. Qed.

Lemma create_hook_ok t d : hooks_ok d -> returns (create_hook t d) (fun _ d' => hooks_ok d').
Proof.
  intros Hd; unfold create_hook, modify; cbn; intros u; pose proof (mh_create_new t (hooks d) u) as Hn.
  destruct (mh_create_hook t (hooks d)) as [[status stored] m]; cbn; intros Hu.
  destruct (Hn Hu) as [Hc|[-> ->]]; [|by destruct t].
  specialize (Hd u Hc); by destruct stored, t, u.
Qed.

Lemma DllMain_ok fdwReason reserved d : hooks_ok d ->
  returns (DllMain fdwReason reserved d) (fun b d' => b = true /\ hooks_ok d').
Proof.
  intros Hd; unfold DllMain.
  apply returns_bind with (P := fun _ d' => hooks_ok d'); [|done].
  destruct (fdwReason =? DLL_PROCESS_ATTACH); [|destruct (fdwReason =? DLL_PROCESS_DETACH); [|done]].
  - do 2 (eapply returns_bind; [by apply record_ok|]; clear d Hd; intros [] d Hd).
    apply returns_bind with (P := fun _ d' => hooks_ok d'); [|intros [] d' Hd'; by apply record_ok].
    eapply returns_bind; [apply mh_call_ok; [intros m u; by rewrite mh_initialize_keeps|done]|].
    intros [] d1 H1; eapply returns_bind; [by apply create_hook_ok|].
    intros [] d2 H2; eapply returns_bind; [by apply create_hook_ok|].
    intros [] d3 H3; apply mh_call_ok; [intros m u; by rewrite mh_enable_keeps|done].
  - destruct reserved; [done|]; apply mh_call_ok; [apply mh_uninitialize_drops|done].
Qed.

Lemma loaded_ok d : loaded d -> hooks_ok d.
Proof.
  induction 1 as [|d d' r b _ IH E]; [intros t; cbn; by rewrite mh_clean|].
  pose proof (DllMain_ok r b d IH) as Hd; rewrite E in Hd; by destruct Hd.
Qed.

(** Every call to the library has succeeded. *)
Definition succeeded (c : dll_call) : Prop :=
  match c with
  | MH_Initialize s | MH_CreateHook _ s | MH_EnableHook s | MH_Uninitialize s => s = MH_OK
  | _ => True
  end.

Lemma InstallHooks_ok d : exists d', InstallHooks d = Ret tt d' /\
  exists s0 s1 s2 s3, dll_calls d' = dll_calls d ++ [MH_Initialize s0; MH_CreateHook GetForegroundWindow s1;
    MH_CreateHook WindowFromPoint s2; MH_EnableHook s3] /\
  (s1 = MH_OK -> s2 = MH_OK -> s3 = MH_OK -> forall t, diverted (hooks d') t = true /\ previous t d' = Some t).
Proof.
  unfold InstallHooks, mh_call, create_hook, modify, st_bind.
  destruct (mh_initialize (hooks d)) as [s0 m0].
  set (d0 := record_call _ (set_hooks m0 d)); change (hooks d0) with m0.
  pose proof (mh_create_ok GetForegroundWindow m0 GetForegroundWindow) as H1.
  destruct (mh_create_hook GetForegroundWindow m0) as [[s1 b1] m1].
  set (d1 := record_call (MH_CreateHook GetForegroundWindow s1) _); change (hooks d1) with m1.
  pose proof (mh_create_ok WindowFromPoint m1 GetForegroundWindow) as H2.
  destruct (mh_create_hook WindowFromPoint m1) as [[s2 b2] m2].
  set (d2 := record_call (MH_CreateHook WindowFromPoint s2) _); change (hooks d2) with m2.
  pose proof (mh_enable_ok m2) as H3; destruct (mh_enable_all m2) as [s3 m3]; cbn [fst snd] in H3.
  eexists; split; [reflexivity|]; exists s0, s1, s2, s3; split.
  - unfold d2, d1, d0; destruct b1, b2; cbn; by rewrite <- !app_assoc.
  - intros E1 E2 E3; destruct (H1 E1) as (-> & C1 & _), (H2 E2) as (-> & C2 & C3).
    intros []; split; (done || apply H3; auto).
Qed.

Lemma attach_hooks reserved d : DllMain DLL_PROCESS_ATTACH reserved new_dll = Ret true d ->
  Forall succeeded (dll_calls d) -> forall t, diverted (hooks d) t = true /\ previous t d = Some t.
Proof.
  unfold DllMain; rewrite Z.eqb_refl; unfold dprint, modify, st_bind; cbv beta iota.
  match goal with |- context [InstallHooks ?x] => set (d0 := x) end.
  destruct (InstallHooks_ok d0) as (d1 & E & s0 & s1 & s2 & s3 & Ec & Ht); rewrite E; intros [= <-].
  cbn [dll_calls record_call]; rewrite Ec, !Forall_app, !Forall_cons.
  intros [(_ & _ & H1 & H2 & H3 & _) _] t; destruct (Ht H1 H2 H3 t); by destruct t.
Qed.
End dll.

(** ** Writer and readers

    The readers run [Get] in two steps, taking the lock and finishing, so that
    several of them interleave; windows come and go. *)

Inductive reader := Outside | Holding | Refused.

Record sys := mkSys {
  shared : kernel;
  writer : option (Z * Z);          (* its thread and its window *)
  readers : list (Z * reader)       (* threads of the driver process *)
}.

Inductive step {HK : KernelCalls} : sys -> sys -> Prop :=
  | step_open tid w k k' rs : tid ∉ rs.*1 -> OpenWriter tid w k = Ret tt k' ->
      step (mkSys k None rs) (mkSys k' (Some (tid, w)) rs)
  | step_exit tid w k k' rs : release k = Ret tt k' ->
      step (mkSys k (Some (tid, w)) rs) (mkSys k' None rs)
  | step_windows k f wr rs :
      step (mkSys k wr rs) (mkSys (mkKernel (owner k) (mView k) f) wr rs)
  | step_try tid k k' b wr before after : acquire tid k = Ret b k' ->
      step (mkSys k wr (before ++ (tid, Outside) :: after))
           (mkSys k' wr (before ++ (tid, if b then Holding else Refused) :: after))
  | step_release tid k k' wr before after : release k = Ret tt k' ->
      step (mkSys k wr (before ++ (tid, Holding) :: after))
           (mkSys k' wr (before ++ (tid, Outside) :: after))
  | step_read tid k wr before after :
      step (mkSys k wr (before ++ (tid, Refused) :: after))
           (mkSys k wr (before ++ (tid, Outside) :: after)).

(** Nobody has the mutex, and no reader is inside [Get]. *)
Definition initial (s : sys) : Prop :=
  owner (shared s) = None /\ writer s = None /\ NoDup (readers s).*1 /\
  Forall (fun r => snd r = Outside) (readers s).

Definition reachable {HK : KernelCalls} (s : sys) : Prop := exists s0, initial s0 /\ rtc step s0 s.

(** What the mutex says about the threads. *)
Record inv (s : sys) : Prop := {
  inv_nodup : NoDup (readers s).*1;
  inv_writer : forall tid w, writer s = Some (tid, w) ->
    owner (shared s) = Some (tid, 1%nat) /\ mView (shared s) = w /\ tid ∉ (readers s).*1;
  inv_holding : forall tid, (tid, Holding) ∈ readers s -> owner (shared s) = Some (tid, 1%nat);
  inv_owner : forall o, owner (shared s) = Some o ->
    (exists tid w, writer s = Some (tid, w)) \/ (exists tid, (tid, Holding) ∈ readers s)
}.

(** A reader's entry replaced: the others are where they were. *)
Lemma fst_replace (b a : list (Z * reader)) t x y :
  (b ++ (t, x) :: a).*1 = (b ++ (t, y) :: a).*1.
Proof. by rewrite !fmap_app. Qed.

Lemma in_replaced (b a : list (Z * reader)) t x y t' z :
  NoDup (b ++ (t, x) :: a).*1 -> (t', z) ∈ b ++ (t, y) :: a ->
  (t' = t /\ z = y) \/ (t' <> t /\ (t', z) ∈ b ++ (t, x) :: a).
Proof.
  intros Hn Hin; rewrite fmap_app in Hn; cbn in Hn.
  apply NoDup_app in Hn as (_ & Hb & Hn); apply NoDup_cons in Hn as [Ha _].
  rewrite elem_of_app, elem_of_cons in Hin |- *.
  destruct Hin as [Hin|[[= -> ->]|Hin]]; [|by left|]; right; (split; [intros ->|tauto]).
  - apply (Hb t); [by apply (list_elem_of_fmap_2 fst b (t, z))|left].
  - apply Ha; by apply (list_elem_of_fmap_2 fst a (t, z)).
Qed.

Lemma here (b a : list (Z * reader)) t x : (t, x) ∈ b ++ (t, x) :: a.
Proof. apply elem_of_app; right; left. Qed.

Lemma in_threads (rs : list (Z * reader)) t x : (t, x) ∈ rs -> t ∈ rs.*1.
Proof. apply (list_elem_of_fmap_2 fst rs (t, x)). Qed.

Lemma OpenWriter_inv {HK : KernelCalls} tid w k k' : OpenWriter tid w k = Ret tt k' ->
  exists k1, acquire tid k = Ret true k1 /\ k' = set_view w k1.
Proof.
  unfold OpenWriter, OpenOverride, st_bind, null_error, throw, modify, st_ret.
  destruct create_mutex_error; [done|].
  destruct (acquire tid k) as [[] k1| | |] eqn:Ea; cbn; try done.
  destruct create_mapping_error; [done|]; destruct map_view_error; [done|].
  intros [= <-]; eauto.
Qed.

Lemma inv_free s : inv s -> owner (shared s) = None ->
  writer s = None /\ forall t, (t, Holding) ∉ readers s.
Proof.
  intros [_ Hw Hh _] Ho; split.
  - destruct (writer s) as [[t w]|]; [|done]; destruct (Hw t w eq_refl); congruence.
  - intros t Ht; apply Hh in Ht; congruence.
Qed.

Lemma inv_open {HK : KernelCalls} tid w k k' rs : tid ∉ rs.*1 -> OpenWriter tid w k = Ret tt k' ->
  inv (mkSys k None rs) -> inv (mkSys k' (Some (tid, w)) rs).
Proof.
  intros Ht E Hi; apply OpenWriter_inv in E as (k1 & Ea & ->).
  assert (owner k = None) as Ho.
  { destruct (owner k) as [[o n]|] eqn:Eo; [|done]; exfalso.
    destruct (inv_owner _ Hi (o, n) Eo) as [(? & ? & [=])|(t & Hin)].
    pose proof (inv_holding _ Hi t Hin) as Eh; cbn in Eh; rewrite Eo in Eh.
    unfold acquire in Ea; rewrite Eo in Ea; destruct (Z.eqb_spec o tid); [|done].
    apply Ht; replace tid with t by congruence; by apply (in_threads _ _ _ Hin). }
  destruct (inv_free _ Hi Ho) as [_ Hno]; unfold acquire in Ea; rewrite Ho in Ea; injection Ea as <-.
  destruct Hi as [Hn _ _ _]; split; cbn in *; [done|by intros ? ? [= <- <-]| |by eauto].
  intros t Hin; by apply Hno in Hin.
Qed.

Lemma inv_exit tid w k k' rs : release k = Ret tt k' ->
  inv (mkSys k (Some (tid, w)) rs) -> inv (mkSys k' None rs).
Proof.
  intros E [Hn Hw Hh _]; destruct (Hw tid w eq_refl) as (Ho & _ & Ht); cbn in *.
  unfold release, modify in E; rewrite Ho in E; injection E as <-.
  split; cbn; [done|done| |done].
  intros t Hin; exfalso; pose proof (Hh t Hin) as E; rewrite Ho in E; injection E as <-.
  by apply Ht, (in_threads _ _ _ Hin).
Qed.

Lemma inv_try tid k k' (b : bool) wr bf af : acquire tid k = Ret b k' ->
  inv (mkSys k wr (bf ++ (tid, Outside) :: af)) ->
  inv (mkSys k' wr (bf ++ (tid, if b then Holding else Refused) :: af)).
Proof.
  intros E Hi; pose proof Hi as [Hn Hw Hh Hx]; cbn in *; unfold acquire in E.
  destruct (owner k) as [[o n]|] eqn:Eo.
  - assert (o <> tid) as Hne.
    { intros ->; destruct (Hx _ eq_refl) as [(t & w & E')|(t & Hin)].
      - destruct (Hw t w E') as ([= -> ->] & _ & Ht); apply Ht, (in_threads _ _ _ (here _ _ _ _)).
      - pose proof (Hh t Hin) as [= -> ->].
        by destruct (in_replaced _ _ _ _ _ _ _ Hn Hin) as [[_ [=]]|[? _]]. }
    destruct (Z.eqb_spec o tid); [done|]; injection E as <- <-; split; cbn.
    + by rewrite (fst_replace _ _ _ _ Outside).
    + intros t w E'; rewrite (fst_replace _ _ _ _ Outside), Eo; by apply Hw.
    + intros t Hin; destruct (in_replaced _ _ _ _ _ _ _ Hn Hin) as [[_ [=]]|[_ ?]].
      rewrite Eo; auto.
    + intros o' E'; rewrite Eo in E'; destruct (Hx o' E') as [?|(t & Hin)]; [by left|right; exists t].
      rewrite (fst_replace _ _ _ _ Refused) in Hn.
      by destruct (in_replaced _ _ _ _ _ _ _ Hn Hin) as [[_ [=]]|[_ ?]].
  - destruct (inv_free _ Hi Eo) as [Hnw Hno]; cbn in Hnw, Hno; subst wr.
    injection E as <- <-; split; cbn; [|done| |].
    + by rewrite (fst_replace _ _ _ _ Outside).
    + intros t Hin; destruct (in_replaced _ _ _ _ _ _ _ Hn Hin) as [[-> _]|[_ ?]]; [done|].
      exfalso; by eapply Hno.
    + intros _ _; right; exists tid; apply here.
Qed.

Lemma inv_release tid k k' wr bf af : release k = Ret tt k' ->
  inv (mkSys k wr (bf ++ (tid, Holding) :: af)) -> inv (mkSys k' wr (bf ++ (tid, Outside) :: af)).
Proof.
  intros E [Hn Hw Hh Hx]; cbn in *.
  pose proof (Hh tid (here _ _ _ _)) as Ho.
  unfold release, modify in E; rewrite Ho in E; injection E as <-.
  split; cbn; [by rewrite (fst_replace _ _ _ _ Holding)| | |done].
  - intros t w E; exfalso; destruct (Hw t w E) as (E' & _ & Ht); rewrite Ho in E'; injection E' as <-.
    apply Ht, (in_threads _ _ _ (here _ _ _ _)).
  - intros t Hin; destruct (in_replaced _ _ _ _ _ _ _ Hn Hin) as [[_ [=]]|[Hne Hin']].
    exfalso; pose proof (Hh t Hin') as E; rewrite Ho in E; congruence.
Qed.

Lemma inv_read tid k wr bf af :
  inv (mkSys k wr (bf ++ (tid, Refused) :: af)) -> inv (mkSys k wr (bf ++ (tid, Outside) :: af)).
Proof.
  intros [Hn Hw Hh Hx]; cbn in *; split; cbn.
  - by rewrite (fst_replace _ _ _ _ Refused).
  - intros t w; rewrite (fst_replace _ _ _ _ Refused); auto.
  - intros t Hin; destruct (in_replaced _ _ _ _ _ _ _ Hn Hin) as [[_ [=]]|[_ ?]]; auto.
  - intros o Eo; destruct (Hx o Eo) as [?|(t & Hin)]; [by left|right; exists t].
    rewrite (fst_replace _ _ _ _ Outside) in Hn.
    by destruct (in_replaced _ _ _ _ _ _ _ Hn Hin) as [[_ [=]]|[_ ?]].
Qed.

Lemma hooks_inv_step {HK : KernelCalls} s s' : step s s' -> inv s -> inv s'.
Proof.
  destruct 1; eauto using inv_open, inv_exit, inv_try, inv_release, inv_read.
  by intros [].
Qed.

Lemma hooks_reachable_inv {HK : KernelCalls} s : reachable s -> inv s.
Proof.
  intros (s0 & (Ho & Hw & Hn & Hr) & Hs).
  assert (inv s0) as Hi.
  { split; [done|congruence| |congruence].
    intros t Hin; exfalso; rewrite Forall_forall in Hr; by apply Hr in Hin. }
  clear Ho Hw Hn Hr; induction Hs; eauto using hooks_inv_step.
Qed.

Lemma Get_refused tid o n k : owner k = Some (o, n) -> o <> tid ->
  Get tid k = Ret (if IsWindow k (mView k) then mView k else 0) k.
Proof.
  intros Eo Hne; unfold Get, acquire, st_bind; rewrite Eo; by destruct (Z.eqb_spec o tid).
Qed.

Lemma Get_free tid k : owner k = None -> Get tid k = Ret 0 k.
Proof.
  intros Eo; unfold Get, acquire, release, modify, st_bind, st_ret; rewrite Eo; cbn.
  unfold set_owner; cbn; rewrite <- Eo; by destruct k.
Qed.

(** What [GetOverride] returns to a thread of the driver. *)
Lemma GetOverride_follows {HK : KernelCalls} (s : sys) (t : Z) :
  reachable s -> t ∈ (readers s).*1 ->
  (forall tid w, writer s = Some (tid, w) ->
     GetOverride t (true, shared s) = Ret (if IsWindow (shared s) w then w else 0) (true, shared s)) /\
  (writer s = None -> (forall t', (t', Holding) ∉ readers s) ->
     GetOverride t (true, shared s) = Ret 0 (true, shared s)).
Proof.
  intros Hr Ht; apply hooks_reachable_inv in Hr as [_ Hw _ Hx]; unfold GetOverride; split.
  - intros tid w Ew; destruct (Hw tid w Ew) as (Eo & Ev & Htid).
    rewrite (Get_refused t tid 1) by (done || intros ->; done); by rewrite Ev.
  - intros Ew Hno; rewrite Get_free; [done|].
    destruct (owner (shared s)) as [o|] eqn:Eo; [|done].
    destruct (Hx o eq_refl) as [(tid & w & E)|(t' & Hin)]; [congruence|by apply Hno in Hin].
Qed.

Lemma GetOverride_defined {HK : KernelCalls} t c : defined (GetOverride t c).
Proof.
  destruct c as [opened k]; unfold GetOverride.
  assert (defined (if opened then Ret tt k else OpenReader t k)) as Ho.
  { destruct opened; [done|]; unfold OpenReader, OpenOverride, st_bind; cbn.
    by destruct create_mutex_error, create_mapping_error, map_view_error. }
  destruct (if opened then _ else _) as [u k1| | |]; try done.
  unfold Get, acquire, st_bind; destruct (owner k1) as [[o n]|]; [|done].
  by destruct (o =? t).
Qed.

(** ** Concrete runs *)

Module Sample.
(** A hooking library that does what it is asked: the functions with a hook, and
    whether they are enabled. *)
Definition minhook : MinHook := {|
  mh := list target * bool;
  mh_start := ([], false);
  mh_initialize m := (MH_OK, m);
  mh_create_hook t m := (MH_OK, true, (t :: m.1, m.2));
  mh_enable_all m := (MH_OK, (m.1, true));
  mh_uninitialize m := (MH_OK, ([], false));
  created m t := bool_decide (t ∈ m.1);
  diverted m t := bool_decide (t ∈ m.1) && m.2
|}.

Lemma minhook_spec : @MinHookSpec minhook.
Proof.
  split; cbn; try done.
  - intros t m u; rewrite !bool_decide_eq_true, elem_of_cons; tauto.
  - intros t m u _; rewrite !bool_decide_eq_true, !elem_of_cons; tauto.
  - intros m u _ ->; done.
  - by intros m u [? _]%andb_prop.
Qed.

Definition injected : @dll minhook :=
  match @DllMain minhook DLL_PROCESS_ATTACH false new_dll with Ret _ d => d | _ => new_dll end.

Lemma injected_ok : Forall succeeded (dll_calls injected).
Proof. repeat constructor. Qed.

Definition calls : KernelCalls := {|
  create_mutex_error := None; create_mapping_error := None; map_view_error := None |}.
Definition fresh : kernel := mkKernel None 0 (fun w => w =? 77).
(** The adapter (thread 1, window 77) and two driver threads. *)
Definition idle : list (Z * reader) := [(8, Outside); (9, Outside)].
Definition held : kernel := mkKernel (Some (1, 1%nat)) 77 (fun w => w =? 77).

Lemma started : @step calls (mkSys fresh None idle) (mkSys held (Some (1, 77)) idle).
Proof. apply step_open; [|reflexivity]; unfold idle; cbn; rewrite !not_elem_of_cons; by split_and!; [..|apply not_elem_of_nil]. Qed.

Lemma fresh_initial : initial (mkSys fresh None idle).
Proof. split_and!; [done|done| |by repeat constructor]. by apply (bool_decide_unpack _); vm_compute. Qed.

Lemma running : @reachable calls (mkSys held (Some (1, 77)) idle).
Proof. exists (mkSys fresh None idle); split; [apply fresh_initial|apply rtc_once, started]. Qed.
End Sample.

(** ** Properties *)

(** C27: the hooks follow the adapter.  After the DLL has been loaded and MinHook
    has reported success, and while the adapter lives, [GetForegroundWindow] and
    [WindowFromPoint] return its window to every driver thread as long as that
    window exists; once it is gone and no other thread is inside [Get], they
    return what the original functions return.  Either way the mutex is left as
    it was. *)
Theorem hooks_follow_adapter {HK : KernelCalls} {HM : MinHook} {HS : MinHookSpec} (d : dll) (s : sys)
    (t foreground : Z) (window_at : Z * Z -> Z) (point : Z * Z) :
  DllMain DLL_PROCESS_ATTACH false new_dll = Ret true d -> Forall succeeded (dll_calls d) ->
  reachable s -> t ∈ (readers s).*1 ->
  (forall tid w, writer s = Some (tid, w) -> w <> 0 ->
     let answer previous := Ret (if IsWindow (shared s) w then w else previous) (true, shared s) in
     call_GetForegroundWindow d foreground t (true, shared s) = answer foreground /\
     call_WindowFromPoint d window_at t point (true, shared s) = answer (window_at point)) /\
  (writer s = None -> (forall t', (t', Holding) ∉ readers s) ->
     call_GetForegroundWindow d foreground t (true, shared s) = Ret foreground (true, shared s) /\
     call_WindowFromPoint d window_at t point (true, shared s) = Ret (window_at point) (true, shared s)).
Proof.
  intros Hd Hok Hr Ht; destruct (GetOverride_follows s t Hr Ht) as [H1 H2].
  pose proof (attach_hooks false d Hd Hok) as Ha.
  destruct (Ha GetForegroundWindow) as [D1 P1], (Ha WindowFromPoint) as [D2 P2]; cbn [previous] in P1, P2.
  unfold call_GetForegroundWindow, call_WindowFromPoint; rewrite D1, D2, P1, P2.
  unfold hooked_GetForegroundWindow, hooked_WindowFromPoint, st_bind; split.
  - intros tid w Ew Hw0; rewrite (H1 tid w Ew); unfold truthy.
    destruct (IsWindow (shared s) w); [|done]; by destruct (Z.eqb_spec w 0).
  - intros Ew Hno; by rewrite (H2 Ew Hno).
Qed.

Lemma hooks_follow_adapter_witness :
  @call_GetForegroundWindow Sample.minhook Sample.calls Sample.injected 5 8 (true, Sample.held) =
    Ret 77 (true, Sample.held) /\
  @call_WindowFromPoint Sample.minhook Sample.calls Sample.injected fst 8 (6, 7) (true, Sample.held) =
    Ret 77 (true, Sample.held).
Proof.
  exact (proj1 (@hooks_follow_adapter Sample.calls Sample.minhook Sample.minhook_spec Sample.injected
    (mkSys Sample.held (Some (1, 77)) Sample.idle) 8 5 fst (6, 7) eq_refl
    Sample.injected_ok Sample.running ltac:(left)) 1 77 eq_refl ltac:(done)).
Defined.

(** C28: a hook never calls through a null pointer.  Whatever MinHook answers to
    the calls of the DLL, whose results are not looked at, and in whatever order
    the loader calls [DllMain], a call of [GetForegroundWindow] or
    [WindowFromPoint] by any thread is well defined, whether or not it is
    diverted: a function is diverted only when its original has been stored. *)
Theorem hooks_never_null {HK : KernelCalls} {HM : MinHook} {HS : MinHookSpec} (d : dll) (c : bool * kernel)
    (t foreground : Z) (window_at : Z * Z -> Z) (point : Z * Z) :
  loaded d ->
  defined (call_GetForegroundWindow d foreground t c) /\
  defined (call_WindowFromPoint d window_at t point c).
Proof.
  intros Hd; pose proof (loaded_ok d Hd) as Hok; pose proof (GetOverride_defined t c) as Hg.
  unfold call_GetForegroundWindow, call_WindowFromPoint, hooked_GetForegroundWindow, hooked_WindowFromPoint.
  split; destruct (diverted _ _) eqn:E; try done; apply mh_only_created, Hok in E; cbn in E; rewrite E.
  all: unfold st_bind; destruct (GetOverride t c) as [w c'|e c'|u|]; try done; by destruct (truthy w).
Qed.

Lemma hooks_never_null_witness :
  defined (@call_GetForegroundWindow Sample.minhook Sample.calls Sample.injected 5 8 (false, Sample.held)) /\
  defined (@call_WindowFromPoint Sample.minhook Sample.calls Sample.injected fst 8 (6, 7) (false, Sample.held)).
Proof.
  apply (@hooks_never_null Sample.calls Sample.minhook Sample.minhook_spec).
  apply (loaded_call new_dll Sample.injected DLL_PROCESS_ATTACH false (loaded_new)); reflexivity.
Defined.

(** The override can outlive the adapter for a moment.  When the adapter is
    gone and one driver thread has just taken the mutex inside [Get], another
    thread cannot take it and concludes that the override is still in place: if
    a window with the stored handle exists, it gets that window. *)
Theorem override_outlives_adapter :
  exists (HK : KernelCalls) (s : sys) (t w : Z),
    reachable s /\ writer s = None /\ (t, Outside) ∈ readers s /\ w <> 0 /\
    Get t (shared s) = Ret w (shared s).
Proof.
  exists Sample.calls,
    (mkSys (mkKernel (Some (8, 1%nat)) 77 (fun w => w =? 77)) None [(8, Holding); (9, Outside)]), 9, 77.
  split; [|by split_and!; [| right; left | |]].
  exists (mkSys Sample.fresh None Sample.idle); split; [apply Sample.fresh_initial|].
  eapply rtc_l; [apply Sample.started|].
  eapply rtc_l; [by apply (step_exit 1 77 Sample.held (set_owner None Sample.held))|].
  apply rtc_once; by apply (step_try 8 _ _ true None [] [(9, Outside)]).
Qed.

End ForegroundOverride.
