(* ===== verification/InjectDll.v ===== *)
(** * Loading the hook library into a driver process

    src/src/InjectDll.cpp: finding the process by the name of its executable in
    the list the kernel returns, and making it load a library.  The Windows
    calls are the interface [InjectOS], answered from the calls made so far; the
    state of a run is that list of calls. *)

From S2P Require Import Prelude.

Module InjectDll.

(** An entry of the list of [NtQuerySystemInformation]; entries follow each
    other in the buffer, and the last one has offset zero. *)
Record SYSTEM_PROCESS_INFORMATION := mkProcess {
  NextEntryOffset : Z;
  Buffer : option (list Z);      (* ImageName.Buffer, with the characters there *)
  Length : Z;                    (* ImageName.Length, in bytes *)
  UniqueProcessId : Z
}.

Inductive query_result :=
  | LengthMismatch (needed : Z)
  | Filled (entries : list SYSTEM_PROCESS_INFORMATION)
  | QueryFailed (status : Z).

Inductive event :=
  | EQuery (size : Z) (r : query_result)
  | EExists (b : bool)
  | EOpenProcess (pid : Z) (r : Z + Z)
  | EEnumModules (process : Z) (r : option (list Z * Z))
  | EModuleName (process module : Z) (name : option (list Z))
  | EAlloc (process size : Z) (r : Z + Z)
  | EWrite (process address : Z) (path : list Z) (err : option Z)
  | EGetProcAddress (r : Z + Z)
  | ECreateThread (process address : Z) (r : Z + Z)
  | EWait (thread : Z)
  | EFree (process address : Z)
  | ECloseThread (thread : Z)
  | ECloseProcess (process : Z)
  | EPrintSkipped (pid : Z)
  | EPrintInjected (name : list Z) (pid : Z).

Class InjectOS := {
  os_entry_size : Z;      (* sizeof(SYSTEM_PROCESS_INFORMATION) *)
  os_query : list event -> Z -> query_result;
  os_exists : list event -> bool;
  os_open_process : list event -> Z -> Z + Z;
  (** The handles stored and the number of bytes all of them need. *)
  os_enum_modules : list event -> Z -> option (list Z * Z);
  os_module_name : list event -> Z -> Z -> option (list Z);
  os_alloc : list event -> Z -> Z -> Z + Z;
  os_write : list event -> Z -> Z -> list Z -> option Z;
  os_load_library : list event -> Z + Z;
  os_create_thread : list event -> Z -> Z -> Z + Z
}.

Definition state := list event.
Definition ask {A} (f : list event -> A) (e : A -> event) : ST state A :=
  fun t => let a := f t in Ret a (t ++ [e a]).
Definition emit (e : event) : ST state unit := fun t => Ret tt (t ++ [e]).

(** [m], and then [d] (a destructor) however [m] ends. *)
Definition finally {A} (m : ST state A) (d : ST state unit) : ST state A :=
  fun t => match m t with
           | Ret a t' => match d t' with
                         | Ret _ t'' => Ret a t''
                         | Exn e t'' => Exn e t''
                         | Undef u => Undef u
                         | NoFuel => NoFuel
                         end
           | Exn e t' => match d t' with
                         | Ret _ t'' | Exn _ t'' => Exn e t''
                         | Undef u => Undef u
                         | NoFuel => NoFuel
                         end
           | Undef u => Undef u
           | NoFuel => NoFuel
           end.

Definition E_INVALIDARG : Z := 0x80070057.
Definition ERROR_ACCESS_DENIED : Z := 5.
Definition MAX_MODULES : nat := 1024.

(** [_wcsicmp(a, b) == 0] in the "C" locale. *)
Definition lower (c : Z) : Z := if (65 <=? c) && (c <=? 90) then c + 32 else c.
Definition wcsicmp_equal (a b : list Z) : bool :=
  bool_decide (lower <$> until_nul a = lower <$> until_nul b).

Definition permission_message : string :=
  "Windows says you don't have permission to hijack the driver process; try restarting the driver, or running wintab-adapter as administrator.".

Section inject.
Context {HA : Arch} {HI : InjectOS}.

(** The loop over the modules of the process, from index [i]: whether one of the
    first [count] has the name. *)
Fixpoint already_loaded (process : Z) (modules : list Z) (dllName : list Z) (count i : nat) :
    ST state bool :=
  match count with
  | O => st_ret false
  | S count =>
      if (MAX_MODULES <=? i)%nat then undef OutOfBounds
      else
        let m := default 0 (modules !! i) in
        let* name := ask (fun t => os_module_name t process m) (EModuleName process m) in
        match name with
        | Some n => if wcsicmp_equal n dllName then st_ret true
                    else already_loaded process modules dllName count (S i)
        | None => already_loaded process modules dllName count (S i)
        end
  end.

(** Steps 5 and 6: write the path and run [LoadLibraryW] on it. *)
Definition RunLoadLibrary (processId : Z) (dllName : list Z) (process memory : Z) (fullPath : list Z) :
    ST state unit :=
  let* err := ask (fun t => os_write t process memory (fullPath ++ [0])) (EWrite process memory (fullPath ++ [0])) in
  match err with
  | Some e => throw (win32_error e)
  | None =>
      let* proc := ask os_load_library EGetProcAddress in
      match proc with
      | inl e => throw (win32_error e)
      | inr _ =>
          let* thread := ask (fun t => os_create_thread t process memory) (ECreateThread process memory) in
          match thread with
          | inl e => throw (win32_error e)
          | inr h => finally (emit (EWait h) ;; emit (EPrintInjected dllName processId)) (emit (ECloseThread h))
          end
      end
  end.

Definition InjectDll (processId : Z) (dllName fullPath : list Z) : ST state unit :=
  let* present := ask os_exists EExists in
  if negb present then throw (WilError E_INVALIDARG)
  else
    let* opened := ask (fun t => os_open_process t processId) (EOpenProcess processId) in
    match opened with
    | inl e =>
        if e =? ERROR_ACCESS_DENIED then throw (RuntimeError permission_message)
        else throw (win32_error e)
    | inr process =>
        finally
          (let* modules := ask (fun t => os_enum_modules t process) (EEnumModules process) in
           let* loaded := (match modules with
             | Some (handles, cbNeeded) =>
                 already_loaded process handles dllName
                   (Z.to_nat (cbNeeded / (ArchBitness / 8))) 0
             | None => st_ret false
             end) in
           if loaded then emit (EPrintSkipped processId)
           else
             let pathSize := size_t ((Z.of_nat (length fullPath) + 1) * 2) in
             let* memory := ask (fun t => os_alloc t process pathSize) (EAlloc process pathSize) in
             match memory with
             | inl e => throw (win32_error e)
             | inr address =>
                 finally
                   (RunLoadLibrary processId dllName process address fullPath)
                   (emit (EFree process address))
             end)
          (emit (ECloseProcess process))
    end.

(** The name of the executable of an entry; [None] when the loop skips it. *)
Definition image_name (p : SYSTEM_PROCESS_INFORMATION) : option (list Z) :=
  match Buffer p with
  | Some b => if Length p =? 0 then None else Some (take (Z.to_nat (Length p / 2)) b)
  | None => None
  end.

(** The loop over the processes: the identifier of the first match. *)
Fixpoint find_process (entries : list SYSTEM_PROCESS_INFORMATION) (name : list Z) : option Z :=
  match entries with
  | [] => None
  | p :: rest =>
      if NextEntryOffset p =? 0 then None
      else if bool_decide (image_name p = Some name) then Some (u32 (UniqueProcessId p))
      else find_process rest name
  end.

(** A zeroed buffer, which is what the loop sees when the query failed. *)
Definition zeroed : list SYSTEM_PROCESS_INFORMATION := [mkProcess 0 None 0 0].

(** [NtQuerySystemInformation] until the buffer is large enough. *)
Fixpoint QueryProcesses (fuel : nat) (infoByteCount : Z) : ST state (list SYSTEM_PROCESS_INFORMATION) :=
  match fuel with
  | O => nofuel
  | S fuel =>
      let* r := ask (fun t => os_query t infoByteCount) (EQuery infoByteCount) in
      match r with
      | LengthMismatch needed => QueryProcesses fuel (u32 (needed + os_entry_size * 32))
      | Filled entries => st_ret entries
      | QueryFailed _ => st_ret zeroed
      end
  end.

Definition InjectDllByExecutableFileName (fuel : nat) (executableFileName dllName fullPath : list Z) :
    ST state unit :=
  let* entries := QueryProcesses fuel (u32 (os_entry_size * 1024)) in
  match find_process entries executableFileName with
  | Some pid => InjectDll pid dllName fullPath
  | None => throw (RuntimeError "Could not find target driver process to inject")
  end.

End inject.

(** ** Resources

    The handles and the remote memory a run holds, as a stack; [None] when
    something is released that is not the last thing acquired. *)

Inductive resource := RProcess (h : Z) | RMemory (process address : Z) | RThread (h : Z).

#[global] Instance resource_eq_dec : EqDecision resource.
Proof. solve_decision. Defined.

Definition acquired (e : event) : option resource :=
  match e with
  | EOpenProcess _ (inr h) => Some (RProcess h)
  | EAlloc p _ (inr a) => Some (RMemory p a)
  | ECreateThread _ _ (inr h) => Some (RThread h)
  | _ => None
  end.
Definition released (e : event) : option resource :=
  match e with
  | EFree p a => Some (RMemory p a)
  | ECloseThread h => Some (RThread h)
  | ECloseProcess h => Some (RProcess h)
  | _ => None
  end.

Definition use (st : list resource) (e : event) : option (list resource) :=
  match acquired e, released e, st with
  | Some r, _, _ => Some (r :: st)
  | None, Some r, r' :: st' => if decide (r = r') then Some st' else None
  | None, Some _, [] => None
  | None, None, _ => Some st
  end.

Fixpoint use_all (st : list resource) (t : list event) : option (list resource) :=
  match t with
  | [] => Some st
  | e :: t => match use st e with Some st' => use_all st' t | None => None end
  end.

Lemma use_all_app st t u :
  use_all st (t ++ u) = match use_all st t with Some st' => use_all st' u | None => None end.
Proof. revert st; induction t as [|e t IH]; intros st; cbn; [done|]; by destruct (use st e). Qed.

(** Nothing undefined happens, and what is acquired is released in reverse
    order, however the run ends. *)
Definition neutral {A} (m : ST state A) : Prop :=
  forall t, leaves (m t) (fun t' => exists u, t' = t ++ u /\ forall st, use_all st u = Some st).

Lemma neutral_ret {A} (a : A) : neutral (st_ret a).
Proof. intros t; exists []; by rewrite app_nil_r. Qed.

Lemma neutral_throw {A} e : neutral (@throw state A e).
Proof. intros t; exists []; by rewrite app_nil_r. Qed.

Lemma neutral_emit e : acquired e = None -> released e = None -> neutral (emit e).
Proof. intros Ha Hr t; exists [e]; split; [done|]; intros st; cbn; unfold use; by rewrite Ha, Hr. Qed.

Lemma neutral_ask {A} f (e : A -> event) :
  (forall a, acquired (e a) = None /\ released (e a) = None) -> neutral (ask f e).
Proof. intros He t; apply neutral_emit; apply He. Qed.

Lemma neutral_bind {A B} (m : ST state A) (k : A -> ST state B) :
  neutral m -> (forall a, neutral (k a)) -> neutral (st_bind m k).
Proof.
  intros Hm Hk t; specialize (Hm t); unfold st_bind; destruct (m t) as [a t1| | |]; try done.
  destruct Hm as (u & -> & Hu); specialize (Hk a (t ++ u)).
  destruct (k a (t ++ u)) as [b t2|e t2| |]; cbn in *; try done.
  all: destruct Hk as (v & -> & Hv); exists (u ++ v); split; [by rewrite app_assoc|];
    intros st; rewrite use_all_app, Hu; apply Hv.
Qed.

(** The continuation of a call is only run on its possible answers. *)
Lemma neutral_answer {A B} f (e : A -> event) (k : A -> ST state B) :
  (forall a, acquired (e a) = None /\ released (e a) = None) -> (forall t, neutral (k (f t))) ->
  neutral (st_bind (ask f e) k).
Proof.
  intros He Hk t; unfold st_bind, ask; cbv zeta.
  specialize (Hk t (t ++ [e (f t)])); destruct (He (f t)) as [Ha Hr].
  destruct (k (f t) (t ++ [e (f t)])) as [b t'|x t'| |]; cbn in *; try done.
  all: destruct Hk as (u & -> & Hu); exists (e (f t) :: u); split; [by rewrite <- app_assoc|].
  all: intros st; cbn; unfold use; by rewrite Ha, Hr.
Qed.

(** A call that may acquire [r a], and then a scope that releases it. *)
Lemma neutral_scope {A B} f (e : A -> event) (k : A -> ST state B) :
  (forall a, match acquired (e a) with
             | None => released (e a) = None /\ neutral (k a)
             | Some r => exists m c, k a = finally m (emit c) /\ neutral m /\
                         acquired c = None /\ released c = Some r
             end) ->
  neutral (st_bind (ask f e) k).
Proof.
  intros He t; specialize (He (f t)); unfold st_bind, ask; cbv zeta.
  set (a := f t) in *; clearbody a.
  destruct (acquired (e a)) as [r|] eqn:Ea.
  - destruct He as (m & c & -> & Hm & Hc & Hr); specialize (Hm (t ++ [e a])); unfold finally, emit.
    destruct (m (t ++ [e a])) as [b t'|x t'| |]; cbn in *; try done.
    all: destruct Hm as (u & -> & Hu); exists ([e a] ++ u ++ [c]); split; [by rewrite <- !app_assoc|].
    all: intros st; cbn; unfold use at 1; rewrite Ea, use_all_app, Hu; cbn; unfold use.
    all: by rewrite Hc, Hr, decide_True.
  - destruct He as [Hr Hk]; specialize (Hk (t ++ [e a])).
    destruct (k a (t ++ [e a])) as [b t'|x t'| |]; cbn in *; try done.
    all: destruct Hk as (u & -> & Hu); exists (e a :: u); split; [by rewrite <- app_assoc|].
    all: intros st; cbn; unfold use; by rewrite Ea, Hr.
Qed.

Create HintDb neutral.
#[global] Hint Resolve neutral_ret neutral_throw neutral_bind : neutral.
#[global] Hint Extern 1 (neutral (emit _)) => apply neutral_emit; reflexivity : neutral.

Section resources.
Context {HA : Arch} {HI : InjectOS}.

Lemma neutral_already_loaded p ms n count i : (count + i <= MAX_MODULES)%nat ->
  neutral (already_loaded p ms n count i).
Proof.
  revert i; induction count as [|count IH]; intros i Hi; cbn [already_loaded]; [auto with neutral|].
  destruct (Nat.leb_spec MAX_MODULES i); [lia|].
  apply neutral_bind; [by apply neutral_ask|]; intros [name|]; [|apply IH; lia].
  destruct (wcsicmp_equal name n); [auto with neutral|apply IH; lia].
Qed.

(** The loop finds a module with the name. *)
Lemma already_loaded_true p ms n i m count i0 t :
  ms !! i = Some m -> (i0 <= i < i0 + count)%nat -> (i0 + count <= MAX_MODULES)%nat ->
  (forall t, exists nm, os_module_name t p m = Some nm /\ wcsicmp_equal nm n = true) ->
  exists u, already_loaded p ms n count i0 t = Ret true (t ++ u) /\
    Forall (fun e => exists m nm, e = EModuleName p m nm) u.
Proof.
  intros Hi; revert i0 t; induction count as [|count IH]; intros i0 t Hr Hc Hm; [lia|].
  cbn [already_loaded]; destruct (Nat.leb_spec MAX_MODULES i0); [lia|].
  unfold ask, st_bind; cbv zeta; destruct (decide (i0 = i)) as [->|Hne].
  - rewrite Hi; cbn [default from_option]; destruct (Hm t) as (nm & En & Ew); cbn; rewrite En, Ew.
    eexists; split; [done|]; constructor; [by eauto|constructor].
  - set (m0 := default 0 (ms !! i0)); set (e := EModuleName p m0 _).
    destruct (IH (S i0) (t ++ [e]) ltac:(lia) ltac:(lia) Hm) as (u & Eu & Hu).
    destruct (os_module_name t p m0) as [nm|] eqn:En; [destruct (wcsicmp_equal nm n)|].
    + exists [e]; split; [done|]; constructor; [by unfold e; eauto|constructor].
    + exists (e :: u); rewrite Eu, <- app_assoc; split; [done|]; constructor; [by unfold e; eauto|done].
    + exists (e :: u); rewrite Eu, <- app_assoc; split; [done|]; constructor; [by unfold e; eauto|done].
Qed.

Lemma neutral_RunLoadLibrary pid n p a path : neutral (RunLoadLibrary pid n p a path).
Proof.
  apply neutral_bind; [by apply neutral_ask|]; intros [e|]; [auto with neutral|].
  apply neutral_bind; [by apply neutral_ask|]; intros [e|l]; [auto with neutral|].
  apply neutral_scope; intros [e|h]; cbn; [auto with neutral|].
  do 2 eexists; split; [reflexivity|]; split; [auto with neutral|done].
Qed.

(** The process has at most 1024 modules. *)
Definition modules_fit : Prop :=
  forall t p ms cb, os_enum_modules t p = Some (ms, cb) -> cb / (ArchBitness / 8) <= 1024.

Lemma neutral_InjectDll pid dllName fullPath : modules_fit -> neutral (InjectDll pid dllName fullPath).
Proof.
  intros Hmod.
  apply neutral_bind; [by apply neutral_ask|]; intros [|]; cbn [negb]; [|auto with neutral].
  apply neutral_scope; intros [e|h]; cbn; [split; [done|]; case_match; auto with neutral|].
  do 2 eexists; split; [reflexivity|]; split; [|done].
  apply neutral_answer; [done|]; intros t0.
  apply neutral_bind.
  { destruct (os_enum_modules t0 h) as [[ms cb]|] eqn:E; [|auto with neutral].
    apply Hmod in E; apply neutral_already_loaded; unfold MAX_MODULES; lia. }
  intros [|]; [auto with neutral|].
  apply neutral_scope; intros [e|a]; cbn; [auto with neutral|].
  do 2 eexists; split; [reflexivity|]; split; [|done].
  apply neutral_RunLoadLibrary.
Qed.

(** [InjectDll] has no loop that could run out of fuel. *)
Lemma already_loaded_fueled p ms n count i t : already_loaded p ms n count i t <> NoFuel.
Proof.
  revert i t; induction count as [|count IH]; intros i t; cbn [already_loaded]; [done|].
  destruct (_ <=? _)%nat; [done|]; unfold ask, st_bind; cbv zeta.
  destruct (os_module_name _ _ _) as [nm|]; [destruct (wcsicmp_equal nm n); [done|]|]; apply IH.
Qed.

Lemma InjectDll_fueled pid dllName fullPath t : InjectDll pid dllName fullPath t <> NoFuel.
Proof.
  unfold InjectDll, ask; unfold st_bind at 1; cbv zeta; destruct (os_exists t); [|done]; cbn [negb].
  unfold st_bind at 1; destruct (os_open_process _ _) as [e|h]; [by destruct (_ =? _)|].
  unfold finally at 1; unfold st_bind at 1.
  match goal with |- context [st_bind ?m ?k ?t] => assert (st_bind m k t <> NoFuel) as Hne end.
  - unfold st_bind at 1.
    match goal with |- context [match ?m ?t with Ret _ _ => _ | _ => _ end] =>
      assert (m t <> NoFuel) as Hm by (case_match; [case_match; apply already_loaded_fueled|done]);
      destruct (m t) as [[]| | |]; try done end.
    unfold st_bind at 1; destruct (os_alloc _ _ _) as [e|a]; [done|].
    unfold finally, RunLoadLibrary, ask, st_bind, emit, finally; cbv zeta.
    by repeat case_match.
  - by destruct (st_bind _ _ _).
Qed.

(** The query ends when the system says at some point that the buffer is large
    enough. *)
Lemma QueryProcesses_returns M fuel n t :
  (forall t n r, (M <= length t)%nat -> os_query t n <> LengthMismatch r) ->
  (0 < fuel)%nat -> (M < fuel + length t)%nat ->
  returns (QueryProcesses fuel n t) (fun _ t' => True).
Proof.
  intros HM; revert n t; induction fuel as [|fuel IH]; intros n t Hf Hl; [lia|]; cbn [QueryProcesses].
  unfold ask, st_bind; cbv zeta; destruct (os_query t n) as [r| |] eqn:E; [|done..].
  assert (length t < M)%nat by (destruct (decide (M <= length t)%nat); [by apply HM in E|lia]).
  apply IH; [lia|rewrite length_app; cbn; lia].
Qed.

(** A process whose modules need more room than the array of 1024 handles. *)
Definition too_many_modules : Prop :=
  exists t p ms cb, os_enum_modules t p = Some (ms, cb) /\ 1024 < cb / (ArchBitness / 8).

Lemma already_loaded_undef p ms n count i t u :
  already_loaded p ms n count i t = Undef u -> u = OutOfBounds /\ (MAX_MODULES < count + i)%nat.
Proof.
  revert i t; induction count as [|count IH]; intros i t; cbn [already_loaded]; [done|].
  destruct (Nat.leb_spec MAX_MODULES i); [intros [= <-]; split; [done|lia]|].
  unfold ask, st_bind; cbv zeta; intros E.
  enough (already_loaded p ms n count (S i) (t ++ [EModuleName p (default 0 (ms !! i))
    (os_module_name t p (default 0 (ms !! i)))]) = Undef u) as [-> ?]%IH by (split; [done|lia]).
  destruct (os_module_name _ _ _) as [nm|]; [destruct (wcsicmp_equal nm n); [done|]|]; exact E.
Qed.

Lemma InjectDll_undef pid dllName fullPath t u :
  InjectDll pid dllName fullPath t = Undef u -> u = OutOfBounds /\ too_many_modules.
Proof.
  unfold InjectDll, ask; unfold st_bind at 1; cbv zeta; destruct (os_exists t); [|done]; cbn [negb].
  unfold st_bind at 1; destruct (os_open_process _ _) as [e|h]; [by destruct (_ =? _)|].
  unfold finally at 1; unfold st_bind at 1.
  set (t1 := (t ++ _) ++ _); destruct (os_enum_modules t1 h) as [[ms cb]|] eqn:Em.
  - unfold st_bind at 1; destruct (already_loaded _ _ _ _ _ _) as [[] t2|e t2|v|] eqn:El; try done.
    + unfold RunLoadLibrary, ask, st_bind, emit, finally; cbv zeta; by repeat case_match.
    + intros [= <-]; apply already_loaded_undef in El as [-> Hc]; split; [done|].
      exists t1, h, ms, cb; split; [done|]; unfold MAX_MODULES in Hc; lia.
  - unfold RunLoadLibrary, ask, st_bind, emit, finally; cbv zeta; by repeat case_match.
Qed.

Lemma InjectByName_within M fuel exe dllName fullPath t :
  (forall t n r, (M <= length t)%nat -> os_query t n <> LengthMismatch r) -> (M < fuel)%nat ->
  within (InjectDllByExecutableFileName fuel exe dllName fullPath t) (fun _ _ => True) (fun _ _ => True)
    (fun u => u = OutOfBounds /\ too_many_modules).
Proof.
  intros HM Hf; eapply within_bind; [apply returns_within, (QueryProcesses_returns M); [done|lia..]|].
  intros es t' _; destruct (find_process es exe) as [pid|]; [|done].
  pose proof (InjectDll_fueled pid dllName fullPath t') as Hfuel.
  destruct (InjectDll pid dllName fullPath t') eqn:E; try done; by eapply InjectDll_undef.
Qed.
End resources.

(** ** Concrete processes *)

Module Sample.
Definition name : list Z := str "TabletDriver.exe".
Definition entry (off pid : Z) (n : list Z) : SYSTEM_PROCESS_INFORMATION :=
  mkProcess off (Some n) (2 * Z.of_nat (length n)) pid.
Definition os : InjectOS := {|
  os_entry_size := 256;
  os_query _ _ := Filled [entry 256 4 (str "System"); entry 256 42 name; entry 0 50 (str "explorer.exe")];
  os_exists _ := true;
  os_open_process _ _ := inr 7;
  os_enum_modules _ _ := Some ([100; 101], 16);
  os_module_name _ _ m := if m =? 101 then Some (str "Hook.DLL") else Some (str "ntdll.dll");
  os_alloc _ _ _ := inr 4096;
  os_write _ _ _ _ := None;
  os_load_library _ := inr 1;
  os_create_thread _ _ _ := inr 9
|}.
End Sample.

(** ** Properties *)

(** C23: no resource of the driver process is leaked.  For every behaviour of the
    system in which the process has at most 1024 modules, [InjectDll] does
    nothing undefined, and the process handle, the remote memory and the remote
    thread it acquires are each released exactly once, in reverse order, whether
    it returns or throws. *)
Theorem inject_releases_everything {HA : Arch} {HI : InjectOS} (pid : Z) (dllName fullPath : list Z)
    (t : state) :
  modules_fit ->
  leaves (InjectDll pid dllName fullPath t) (fun t' => exists u, t' = t ++ u /\ use_all [] u = Some []).
Proof.
  intros Hmod; pose proof (neutral_InjectDll pid dllName fullPath Hmod t) as Hn.
  destruct (InjectDll _ _ _ t); try done; destruct Hn as (u & E & Hu); eexists; eauto.
Qed.

Lemma inject_releases_everything_witness :
  leaves (@InjectDll arch64 Sample.os 42 (str "Other.dll") (str "Other.dll") [])
    (fun t' => exists u, t' = [] ++ u /\ use_all [] u = Some []).
Proof.
  apply (@inject_releases_everything arch64 Sample.os 42 (str "Other.dll") (str "Other.dll") []).
  intros t p ms cb [= <- <-]; by vm_compute.
Defined.

(** A list as the kernel fills it: offsets up to the last entry, which has
    none. *)
Fixpoint chained (es : list SYSTEM_PROCESS_INFORMATION) : Prop :=
  match es with
  | [] => False
  | [p] => NextEntryOffset p = 0
  | p :: rest => NextEntryOffset p <> 0 /\ chained rest
  end.

(** Which process is found.  The search returns the first entry with the
    name among all entries but the last: the loop condition is the offset of the
    entry it would look at, so the last process of the list is never
    considered. *)
Theorem find_process_skips_last (es : list SYSTEM_PROCESS_INFORMATION) (name : list Z) :
  chained es ->
  find_process es name =
  (fun r => u32 (UniqueProcessId (snd r))) <$>
    list_find (fun p => image_name p = Some name) (removelast es).
Proof.
  induction es as [|p es IH]; [done|]; destruct es as [|q es].
  - intros Hp; cbn in *; by rewrite Hp.
  - intros [Hp Hes]; specialize (IH Hes).
    change (removelast (p :: q :: es)) with (p :: removelast (q :: es)).
    change (find_process (p :: q :: es) name) with
      (if NextEntryOffset p =? 0 then None
       else if bool_decide (image_name p = Some name) then Some (u32 (UniqueProcessId p))
       else find_process (q :: es) name).
    destruct (Z.eqb_spec (NextEntryOffset p) 0); [done|]; cbn [list_find].
    destruct (decide (image_name p = Some name)) as [E|E].
    + by rewrite bool_decide_eq_true_2.
    + rewrite bool_decide_eq_false_2, IH by done; by destruct (list_find _ _) as [[]|].
Qed.

Lemma find_process_skips_last_witness :
  let es := [Sample.entry 256 4 (str "System"); Sample.entry 0 42 Sample.name] in
  find_process es Sample.name = None.
Proof.
  intros es; rewrite (find_process_skips_last es Sample.name); [reflexivity|by split].
Defined.

(** A process is hijacked once.  When one of its modules has the name of the
    library, in any capitalisation, [InjectDll] says so and returns without
    touching the process: nothing is allocated or written there and no thread is
    started. *)
Theorem inject_skips_loaded {HA : Arch} {HI : InjectOS} (pid h : Z) (dllName fullPath : list Z)
    (ms : list Z) (i : nat) (m : Z) (t : state) :
  (forall t, os_exists t = true) -> (forall t, os_open_process t pid = inr h) ->
  (forall t, os_enum_modules t h = Some (ms, Z.of_nat (length ms) * (ArchBitness / 8))) ->
  (length ms <= 1024)%nat -> ms !! i = Some m ->
  (forall t, exists n, os_module_name t h m = Some n /\ wcsicmp_equal n dllName = true) ->
  returns (InjectDll pid dllName fullPath t) (fun _ t' => exists u, t' = t ++ u /\
    EPrintSkipped pid ∈ u /\
    Forall (fun e => match e with
                     | EAlloc _ _ _ | EWrite _ _ _ _ | ECreateThread _ _ _ => False
                     | _ => True end) u).
Proof.
  intros Hex Hop Hen Hlen Hi Hm.
  assert (Z.to_nat (Z.of_nat (length ms) * (ArchBitness / 8) / (ArchBitness / 8)) = length ms) as Hc.
  { rewrite Z.div_mul, Nat2Z.id; [done|]; destruct arch_width as [->| ->]; by vm_compute. }
  unfold InjectDll, ask; unfold st_bind at 1; cbv zeta; rewrite Hex; cbn [negb].
  unfold st_bind at 1; rewrite Hop; unfold finally; unfold st_bind at 1; rewrite Hen, Hc.
  destruct (already_loaded_true h ms dllName i m (length ms) 0
    (((t ++ [EExists true]) ++ [EOpenProcess pid (inr h)]) ++
     [EEnumModules h (Some (ms, Z.of_nat (length ms) * (ArchBitness / 8)))]))
    as (u & Eu & Hu); try done; [apply lookup_lt_Some in Hi; lia|].
  unfold st_bind; rewrite Eu; cbn -[app]; eexists; split; [by rewrite <- !app_assoc|].
  split; [rewrite !elem_of_app, !list_elem_of_singleton; auto 10|].
  repeat (apply Forall_app; split); try (by repeat constructor).
  eapply Forall_impl; [exact Hu|]; by intros ? (m' & nm & ->).
Qed.

Lemma inject_skips_loaded_witness :
  returns (@InjectDll arch64 Sample.os 42 (str "hook.dll") (str "hook.dll") []) (fun _ t' =>
    exists u, t' = [] ++ u /\ EPrintSkipped 42 ∈ u /\
    Forall (fun e => match e with
                     | EAlloc _ _ _ | EWrite _ _ _ _ | ECreateThread _ _ _ => False
                     | _ => True end) u).
Proof.
  apply (@inject_skips_loaded arch64 Sample.os 42 7 (str "hook.dll") (str "hook.dll") [100; 101] 1 101 []);
    try reflexivity; try (cbn; lia).
  intros t; exists (str "Hook.DLL"); split; [reflexivity|vm_compute; reflexivity].
Defined.

End InjectDll.
