(* ===== verification/Wintab.v ===== *)
(** * The WinTab programming interface

    The constants and structs of src/include/wintab/WINTAB.H and PKTDEF.H that
    the adapter uses.  The packet structs are those the preprocessor leaves for
    the [PACKETDATA] of src/src/WintabTablet.cpp (how it does is in Packets).  The driver itself is the
    interface [WintabDriver]: the functions of WINTAB32.dll, answered from the
    calls made so far. *)

From S2P Require Import Prelude.

Module Wintab.

(** ** Messages *)
Definition WT_DEFBASE : Z := 0x7FF0.
Definition WT_PACKET : Z := WT_DEFBASE + 0.
Definition WT_CTXOVERLAP : Z := WT_DEFBASE + 4.
Definition WT_PROXIMITY : Z := WT_DEFBASE + 5.
Definition WT_PACKETEXT : Z := WT_DEFBASE + 8.

(** ** Packet bits *)
Definition PK_CONTEXT : Z := 0x0001.
Definition PK_STATUS : Z := 0x0002.
Definition PK_TIME : Z := 0x0004.
Definition PK_CHANGED : Z := 0x0008.
Definition PK_SERIAL_NUMBER : Z := 0x0010.
Definition PK_CURSOR : Z := 0x0020.
Definition PK_BUTTONS : Z := 0x0040.
Definition PK_X : Z := 0x0080.
Definition PK_Y : Z := 0x0100.
Definition PK_Z : Z := 0x0200.
Definition PK_NORMAL_PRESSURE : Z := 0x0400.
Definition PK_TANGENT_PRESSURE : Z := 0x0800.
Definition PK_ORIENTATION : Z := 0x1000.
Definition PK_ROTATION : Z := 0x2000.
Definition PKEXT_ABSOLUTE : Z := 1.
Definition PKEXT_RELATIVE : Z := 2.

(** ** Information categories *)
Definition WTI_INTERFACE : Z := 1.
Definition IFC_WINTABID : Z := 1.
Definition WTI_DEFCONTEXT : Z := 3.
Definition WTI_DEVICES : Z := 100.
Definition DVC_NAME : Z := 1.
Definition DVC_X : Z := 12.
Definition DVC_Y : Z := 13.
Definition DVC_NPRESSURE : Z := 15.
Definition DVC_PNPID : Z := 19.
Definition WTI_EXTENSIONS : Z := 300.
Definition EXT_TAG : Z := 2.
Definition EXT_MASK : Z := 3.
Definition WTX_OBT : Z := 0.
Definition WTX_EXPKEYS2 : Z := 8.
Definition CXO_MESSAGES : Z := 0x0004.
Definition CXS_ONTOP : Z := 0x0004.
Definition LCNAMELEN : nat := 40.

Record AXIS := mkAXIS { axMin : Z; axMax : Z; axUnits : Z; axResolution : Z }.

Record LOGCONTEXTW := mkLOGCONTEXTW {
  lcName : list Z;
  lcOptions : Z; lcStatus : Z; lcLocks : Z; lcMsgBase : Z; lcDevice : Z; lcPktRate : Z;
  lcPktData : Z; lcPktMode : Z; lcMoveMask : Z; lcBtnDnMask : Z; lcBtnUpMask : Z;
  lcInOrgX : Z; lcInOrgY : Z; lcInOrgZ : Z; lcInExtX : Z; lcInExtY : Z; lcInExtZ : Z;
  lcOutOrgX : Z; lcOutOrgY : Z; lcOutOrgZ : Z; lcOutExtX : Z; lcOutExtY : Z; lcOutExtZ : Z;
  lcSensX : Z; lcSensY : Z; lcSensZ : Z;
  lcSysMode : Z; lcSysOrgX : Z; lcSysOrgY : Z; lcSysExtX : Z; lcSysExtY : Z;
  lcSysSensX : Z; lcSysSensY : Z
}.

(** [LOGCONTEXTW logicalContext {}]. *)
Definition zero_LOGCONTEXTW : LOGCONTEXTW :=
  mkLOGCONTEXTW (replicate LCNAMELEN 0) 0 0 0 0 0 0 0 0 0 0 0 0 0 0 0 0 0 0 0 0 0 0 0 0 0 0
    0 0 0 0 0 0 0.

Record PACKET := mkPACKET {
  pkChanged : Z;
  pkButtons : Z;
  pkX : Z;
  pkY : Z;
  pkZ : Z;
  pkNormalPressure : Z
}.

(** [PACKET packet {}]. *)
Definition zero_PACKET : PACKET := mkPACKET 0 0 0 0 0 0.

Record EXTENSIONBASE := mkEXTENSIONBASE {
  nContext : Z; nStatus : Z; nTime : Z; nSerialNumber : Z
}.
Record EXPKEYSDATA := mkEXPKEYSDATA {
  nTablet : Z; nControl : Z; nLocation : Z; nReserved : Z; nState : Z
}.
Record PACKETEXT := mkPACKETEXT { pkBase : EXTENSIONBASE; pkExpKeys : EXPKEYSDATA }.

Definition packet_wf (p : PACKET) : Prop :=
  is_u 32 (pkChanged p) /\ is_u 32 (pkButtons p) /\ is_s 32 (pkX p) /\ is_s 32 (pkY p) /\
  is_s 32 (pkZ p) /\ is_u 32 (pkNormalPressure p).
Definition axis_wf (a : AXIS) : Prop := is_s 32 (axMin a) /\ is_s 32 (axMax a).

(** ** The driver *)

Inductive wt_function := WTInfoW | WTInfoA | WTOpenW | WTClose | WTOverlap | WTPacket.

Inductive event :=
  | EInfoContext (lc : LOGCONTEXTW)
  | EInfoAxis (index : Z) (r : option AXIS)
  | EInfoTag (category : Z) (r : option Z)
  | EInfoMask (category : Z) (r : option Z)
  | EInfoString (category index : Z) (written : bytes) (count : Z)
  | EOpen (window : Z) (lc : LOGCONTEXTW) (enable : bool) (context : Z)
  | EOverlap (context : Z) (to_top : bool)
  | EClose (context : Z)
  | EPacket (context serial : Z) (r : option PACKET)
  | EPacketExt (context serial : Z) (r : option PACKETEXT)
  | EPrintOpened
  | EPrintRegaining.

Class WintabDriver := {
  (** [LoadLibraryW] and [GetProcAddress]. *)
  wt_loaded : bool;
  wt_exports : wt_function -> bool;
  (** [WTInfo]: what it stores; [None] when it returns zero and stores
      nothing. *)
  wt_defcontext : list event -> option LOGCONTEXTW;
  wt_axis : list event -> Z -> option AXIS;
  wt_ext_tag : list event -> Z -> option Z;
  wt_ext_mask : list event -> Z -> option Z;
  (** [WTInfoA]: the bytes stored and the number returned. *)
  wt_string : list event -> Z -> Z -> bytes * Z;
  (** [WTOpen]: the context (zero: failure) and the updated description. *)
  wt_open : list event -> Z -> LOGCONTEXTW -> Z * LOGCONTEXTW;
  wt_packet : list event -> Z -> Z -> option PACKET;
  wt_packet_ext : list event -> Z -> Z -> option PACKETEXT
}.

(** The driver stores values of the types of the structs. *)
Class DriverTypes {HW : WintabDriver} : Prop := {
  wt_axis_wf : forall t i a, wt_axis t i = Some a -> axis_wf a;
  wt_packet_wf : forall t c s p, wt_packet t c s = Some p -> packet_wf p
}.

End Wintab.
