(* ===== verification/WintabTablet.v ===== *)
(** * The tablet (src/src/WintabTablet.cpp)

    The object that opens a WinTab context, announces the device to its handler
    and turns the messages of its window into pen states.  [Tablet] is the state
    of the object together with what it shares with the rest of the process: the
    global [gInstance], the foreground override, and the calls made to the driver
    and to the process that is hijacked. *)

From S2P Require Import Prelude Layout V2Messages Float32 Wintab.
From S2P Require Import V2Accept V2Discovery Handler ForegroundOverride InjectDll.
Import Wintab Float32.

Module WintabTablet.

Inductive InjectableBuggyDriver := Huion | HuionAlternate | Gaomon | XPPen.

(** [WintabTablet* gInstance]: null, the object, or an object whose constructor
    threw. *)
Inductive instance := NoInstance | Instance | Dangling.

(** The generated build-config.hpp and the path of the executable. *)
Class BuildConfig := {
  HijackDllName : bytes;
  module_file_name : bytes
}.

Record Tablet (H : Type) := mkTablet {
  mWindow : Z;
  mForegroundOverride : ForegroundOverride.kernel;
  mHandler : H;
  mContext : Z;
  mNextTabletID : Z;
  mDeviceInfo : V2.DeviceInfo;
  mState : V2.State;
  gInstance : instance;
  driver : list event;
  injected : InjectDll.state
}.
Arguments mkTablet {H}.
Arguments mWindow {H}. Arguments mForegroundOverride {H}. Arguments mHandler {H}.
Arguments mContext {H}. Arguments mNextTabletID {H}. Arguments mDeviceInfo {H}.
Arguments mState {H}. Arguments gInstance {H}. Arguments driver {H}. Arguments injected {H}.

Section updates.
Context {H : Type}.
Implicit Types s : Tablet H.
Definition set_mForegroundOverride k s : Tablet H :=
  mkTablet (mWindow s) k (mHandler s) (mContext s) (mNextTabletID s) (mDeviceInfo s) (mState s)
    (gInstance s) (driver s) (injected s).
Definition set_mHandler h s : Tablet H :=
  mkTablet (mWindow s) (mForegroundOverride s) h (mContext s) (mNextTabletID s) (mDeviceInfo s)
    (mState s) (gInstance s) (driver s) (injected s).
Definition set_mContext c s : Tablet H :=
  mkTablet (mWindow s) (mForegroundOverride s) (mHandler s) c (mNextTabletID s) (mDeviceInfo s)
    (mState s) (gInstance s) (driver s) (injected s).
Definition set_mDeviceInfo d s : Tablet H :=
  mkTablet (mWindow s) (mForegroundOverride s) (mHandler s) (mContext s) (mNextTabletID s) d
    (mState s) (gInstance s) (driver s) (injected s).
Definition set_mState st s : Tablet H :=
  mkTablet (mWindow s) (mForegroundOverride s) (mHandler s) (mContext s) (mNextTabletID s)
    (mDeviceInfo s) st (gInstance s) (driver s) (injected s).
Definition set_gInstance g s : Tablet H :=
  mkTablet (mWindow s) (mForegroundOverride s) (mHandler s) (mContext s) (mNextTabletID s)
    (mDeviceInfo s) (mState s) g (driver s) (injected s).
Definition set_injected t s : Tablet H :=
  mkTablet (mWindow s) (mForegroundOverride s) (mHandler s) (mContext s) (mNextTabletID s)
    (mDeviceInfo s) (mState s) (gInstance s) (driver s) t.
Definition log e s : Tablet H :=
  mkTablet (mWindow s) (mForegroundOverride s) (mHandler s) (mContext s) (mNextTabletID s)
    (mDeviceInfo s) (mState s) (gInstance s) (driver s ++ [e]) (injected s).
End updates.

(** The members before the body of the constructor runs. *)
Definition new_Tablet {H} (window : Z) (handler : H) (k : ForegroundOverride.kernel) (g : instance) :
    Tablet H :=
  mkTablet window k handler 0 1 V2.new_DeviceInfo V2.new_State g [] [].

(** ** Text *)

(** [to_buffer(dest, src)]. *)
Definition to_buffer (N : nat) (src : bytes) : bytes := fill_copy N src.

(** [std::format_to_n(dest, N, ...)] of the text [s]: at most [N] characters, no
    terminator. *)
Definition format_to_n (N : nat) (dest s : bytes) : bytes :=
  take N s ++ drop (length (take N s)) dest.

(** The trailing characters [c] with [c <= 32] are erased, unless there is no
    other one. *)
Definition trim_junk (buffer : bytes) : bytes :=
  match V2Discovery.drop_while (fun c => negb (32 <? schar c)) (reverse buffer) with
  | [] => buffer
  | rest => reverse rest
  end.

Definition INFO_BUFFER : nat := 1024.

(** [std::string::resize(n)]. *)
Definition resize (n : nat) (s : bytes) : bytes := take n s ++ replicate (n - length s) 0.

(** ** Logical contexts *)

Definition PACKETDATA : Z :=
  PK_X .| PK_Y .| PK_Z .| PK_BUTTONS .| PK_NORMAL_PRESSURE .| PK_CHANGED.
Definition PACKETMODE : Z := 0.
Definition contextName : list Z := str "OTDIPC-WinTab-Adapter".

(** Lines 176 to 187: name, options and masks. *)
Definition set_options (lc : LOGCONTEXTW) : LOGCONTEXTW :=
  mkLOGCONTEXTW (contextName ++ [0] ++ drop (length contextName + 1) (lcName lc))
    CXO_MESSAGES (lcStatus lc) (lcLocks lc) (lcMsgBase lc) (lcDevice lc) (lcPktRate lc)
    PACKETDATA PACKETMODE PACKETDATA (u32 (-1)) (u32 (-1))
    (lcInOrgX lc) (lcInOrgY lc) (lcInOrgZ lc) (lcInExtX lc) (lcInExtY lc) (lcInExtZ lc)
    (lcOutOrgX lc) (lcOutOrgY lc) (lcOutOrgZ lc) (lcOutExtX lc) (lcOutExtY lc) (lcOutExtZ lc)
    (lcSensX lc) (lcSensY lc) (lcSensZ lc) 0 (lcSysOrgX lc) (lcSysOrgY lc) (lcSysExtX lc)
    (lcSysExtY lc) (lcSysSensX lc) (lcSysSensY lc).

(** Lines 192 to 195 and 198 to 201. *)
Definition set_x_axis (org ext : Z) (lc : LOGCONTEXTW) : LOGCONTEXTW :=
  mkLOGCONTEXTW (lcName lc) (lcOptions lc) (lcStatus lc) (lcLocks lc) (lcMsgBase lc) (lcDevice lc)
    (lcPktRate lc) (lcPktData lc) (lcPktMode lc) (lcMoveMask lc) (lcBtnDnMask lc) (lcBtnUpMask lc)
    org (lcInOrgY lc) (lcInOrgZ lc) ext (lcInExtY lc) (lcInExtZ lc)
    0 (lcOutOrgY lc) (lcOutOrgZ lc) ext (lcOutExtY lc) (lcOutExtZ lc)
    (lcSensX lc) (lcSensY lc) (lcSensZ lc) (lcSysMode lc) (lcSysOrgX lc) (lcSysOrgY lc)
    (lcSysExtX lc) (lcSysExtY lc) (lcSysSensX lc) (lcSysSensY lc).
Definition set_y_axis (org ext : Z) (lc : LOGCONTEXTW) : LOGCONTEXTW :=
  mkLOGCONTEXTW (lcName lc) (lcOptions lc) (lcStatus lc) (lcLocks lc) (lcMsgBase lc) (lcDevice lc)
    (lcPktRate lc) (lcPktData lc) (lcPktMode lc) (lcMoveMask lc) (lcBtnDnMask lc) (lcBtnUpMask lc)
    (lcInOrgX lc) org (lcInOrgZ lc) (lcInExtX lc) ext (lcInExtZ lc)
    (lcOutOrgX lc) 0 (lcOutOrgZ lc) (lcOutExtX lc) ext (lcOutExtZ lc)
    (lcSensX lc) (lcSensY lc) (lcSensZ lc) (lcSysMode lc) (lcSysOrgX lc) (lcSysOrgY lc)
    (lcSysExtX lc) (lcSysExtY lc) (lcSysSensX lc) (lcSysSensY lc).
(** [lcPktData |= mask]. *)
Definition add_packet_data (mask : Z) (lc : LOGCONTEXTW) : LOGCONTEXTW :=
  mkLOGCONTEXTW (lcName lc) (lcOptions lc) (lcStatus lc) (lcLocks lc) (lcMsgBase lc) (lcDevice lc)
    (lcPktRate lc) (lcPktData lc .| mask) (lcPktMode lc) (lcMoveMask lc) (lcBtnDnMask lc)
    (lcBtnUpMask lc) (lcInOrgX lc) (lcInOrgY lc) (lcInOrgZ lc) (lcInExtX lc) (lcInExtY lc)
    (lcInExtZ lc) (lcOutOrgX lc) (lcOutOrgY lc) (lcOutOrgZ lc) (lcOutExtX lc) (lcOutExtY lc)
    (lcOutExtZ lc) (lcSensX lc) (lcSensY lc) (lcSensZ lc) (lcSysMode lc) (lcSysOrgX lc)
    (lcSysOrgY lc) (lcSysExtX lc) (lcSysExtY lc) (lcSysSensX lc) (lcSysSensY lc).

(** ** Pen states *)

Definition upd_x v bits (st : V2.State) : V2.State :=
  V2.mkState (V2.st_header st) bits v (V2.y st) (V2.pressure st) (V2.penButtons st)
    (V2.auxButtons st) (V2.hoverDistance st) (V2.penIsNearSurface st).
Definition upd_y v bits (st : V2.State) : V2.State :=
  V2.mkState (V2.st_header st) bits (V2.x st) v (V2.pressure st) (V2.penButtons st)
    (V2.auxButtons st) (V2.hoverDistance st) (V2.penIsNearSurface st).
Definition upd_hover v bits (st : V2.State) : V2.State :=
  V2.mkState (V2.st_header st) bits (V2.x st) (V2.y st) (V2.pressure st) (V2.penButtons st)
    (V2.auxButtons st) v (V2.penIsNearSurface st).
Definition upd_pressure v bits (st : V2.State) : V2.State :=
  V2.mkState (V2.st_header st) bits (V2.x st) (V2.y st) v (V2.penButtons st)
    (V2.auxButtons st) (V2.hoverDistance st) (V2.penIsNearSurface st).
Definition upd_buttons v bits (st : V2.State) : V2.State :=
  V2.mkState (V2.st_header st) bits (V2.x st) (V2.y st) (V2.pressure st) v
    (V2.auxButtons st) (V2.hoverDistance st) (V2.penIsNearSurface st).
Definition upd_aux v bits (st : V2.State) : V2.State :=
  V2.mkState (V2.st_header st) bits (V2.x st) (V2.y st) (V2.pressure st) (V2.penButtons st)
    v (V2.hoverDistance st) (V2.penIsNearSurface st).
Definition upd_near v bits (st : V2.State) : V2.State :=
  V2.mkState (V2.st_header st) bits (V2.x st) (V2.y st) (V2.pressure st) (V2.penButtons st)
    (V2.auxButtons st) (V2.hoverDistance st) v.

(** [mState.validBits |= bit]. *)
Definition valid (bit : Z) (st : V2.State) : Z := V2.mask_or (V2.validBits st) bit.

(** A change of the packet: [packet.pkChanged & bit]. *)
Definition changed (p : PACKET) (bit : Z) : bool := truthy (pkChanged p .& bit).

(** The body of the WT_PACKET case (lines 315 to 334); [None] when the distance
    does not fit its type, which the language leaves undefined. *)
Definition apply_packet (maxY : Z) (p : PACKET) (st : V2.State) : option V2.State :=
  let st := if changed p PK_X
            then upd_x (float_bits (int_to_float (pkX p))) (valid V2.ValidMask.PositionX st) st
            else st in
  let st := if changed p PK_Y
            then upd_y (float_bits (float_sub (float_of_bits maxY) (int_to_float (pkY p))))
                   (valid V2.ValidMask.PositionY st) st
            else st in
  let hover := if changed p PK_Z
               then match float_to_u32 (int_to_float (pkZ p)) with
                    | Some z => Some (upd_hover z (valid V2.ValidMask.HoverDistance st) st)
                    | None => None
                    end
               else Some st in
  match hover with
  | None => None
  | Some st =>
      let st := if changed p PK_NORMAL_PRESSURE
                then upd_pressure (pkNormalPressure p) (valid V2.ValidMask.Pressure st) st
                else st in
      let st := if changed p PK_BUTTONS
                then upd_buttons (u32 (pkButtons p)) (valid V2.ValidMask.PenButtons st) st
                else st in
      Some st
  end.

(** [1ui16 << nControl], stored in an [uint16_t]; the shift is done in [int] and
    undefined from 32 on. *)
Definition control_mask (nControl : Z) : option Z :=
  if nControl <? 32 then Some (u16 (1 << nControl)) else None.

(** The body of the WT_PACKETEXT case (lines 344 to 350). *)
Definition apply_control (k : EXPKEYSDATA) (st : V2.State) : option V2.State :=
  match control_mask (nControl k) with
  | None => None
  | Some mask =>
      let aux := if truthy (nState k) then V2.auxButtons st .| mask
                 else u32 (V2.auxButtons st .& Z.lnot mask) in
      Some (upd_aux aux (valid V2.ValidMask.AuxButtons st) st)
  end.

(** ** Operations *)

Section tablet.
Context {HA : Arch} {HB : BuildConfig} {HW : WintabDriver} {HK : ForegroundOverride.KernelCalls}.
Context {HJ : InjectDll.InjectOS} {H : Type} {HI : Handler.IHandler H}.

(** A call through one of the function pointers of [LibWintab]. *)
Definition call {A} (f : wt_function) (m : list event -> A) (e : A -> event) : ST (Tablet H) A :=
  if wt_exports f
  then fun s => let a := m (driver s) in Ret a (log (e a) s)
  else undef NullCall.

Definition print (e : event) : ST (Tablet H) unit := modify (log e).

Definition GetInfoString (wCategory nIndex : Z) : ST (Tablet H) bytes :=
  let* (written, byteCount) := call WTInfoA (fun t => wt_string t wCategory nIndex)
                                 (fun r => EInfoString wCategory nIndex (fst r) (snd r)) in
  if (INFO_BUFFER <? length written)%nat then undef OutOfBounds
  else
    let buffer := V2Accept.write_at 0 written (replicate INFO_BUFFER 0) in
    st_ret (trim_junk (resize (Z.to_nat byteCount) buffer)).

(** [WTInfoW] of an axis into the local [axis]. *)
Definition InfoAxis (index : Z) (axis : AXIS) : ST (Tablet H) AXIS :=
  let* r := call WTInfoW (fun t => wt_axis t index) (EInfoAxis index) in
  st_ret (default axis r).

(** [axMax - axMin], a signed subtraction. *)
Definition extent (a : AXIS) : ST (Tablet H) Z :=
  let d := axMax a - axMin a in
  if is_sb 32 d then st_ret d else undef SignedOverflow.

(** The loop over the extensions from index [i] (lines 205 to 213). *)
Fixpoint ScanExtensions (fuel : nat) (i : Z) (lc : LOGCONTEXTW) : ST (Tablet H) LOGCONTEXTW :=
  match fuel with
  | O => nofuel
  | S fuel =>
      let category := u32 (WTI_EXTENSIONS + i) in
      let* tag := call WTInfoW (fun t => wt_ext_tag t category) (EInfoTag category) in
      match tag with
      | None => st_ret lc
      | Some tag =>
          if (tag =? WTX_EXPKEYS2) || (tag =? WTX_OBT) then
            let* mask := call WTInfoW (fun t => wt_ext_mask t category) (EInfoMask category) in
            st_ret (add_packet_data (default 0 mask) lc)
          else ScanExtensions fuel (u32 (i + 1)) lc
      end
  end.

Definition ActivateContext : ST (Tablet H) unit :=
  let* c := gets mContext in
  let* _ := call WTOverlap (fun _ => tt) (fun _ => EOverlap c true) in
  st_ret tt.

(** The logical context that is requested (lines 174 to 213), with the axis of
    the pressure, which is read later. *)
Definition DescribeContext (fuel : nat) (junk : AXIS) : ST (Tablet H) (LOGCONTEXTW * AXIS) :=
  let* lc := call WTInfoW wt_defcontext (fun r => EInfoContext (default zero_LOGCONTEXTW r)) in
  let lc := set_options (default zero_LOGCONTEXTW lc) in
  let* axis := InfoAxis DVC_X junk in
  let* ext := extent axis in
  let lc := set_x_axis (axMin axis) ext lc in
  let* axis := InfoAxis DVC_Y axis in
  let* ext := extent axis in
  let lc := set_y_axis (axMin axis) ext lc in
  let* axis := InfoAxis DVC_NPRESSURE axis in
  let* lc := ScanExtensions fuel 0 lc in
  st_ret (lc, axis).

(** The persistent identifier (lines 228 to 243). *)
Definition IdentifyTablet (old : bytes) : ST (Tablet H) bytes :=
  let* pnpId := GetInfoString WTI_DEVICES DVC_PNPID in
  match pnpId with
  | _ :: _ => st_ret (format_to_n V2.PersistentIdMaxLength old (str "wintab-pnpid:" ++ pnpId))
  | [] =>
      let* interfaceId := GetInfoString WTI_INTERFACE IFC_WINTABID in
      match interfaceId with
      | _ :: _ => st_ret (format_to_n V2.PersistentIdMaxLength old (str "wintab-id:" ++ interfaceId))
      | [] => st_ret old
      end
  end.

(** [junk] is the content of the uninitialised local [axis]. *)
Definition ConnectToTablet (fuel : nat) (junk : AXIS) : ST (Tablet H) unit :=
  let* (lc, axis) := DescribeContext fuel junk in
  let* window := gets mWindow in
  let* (context, lc) := call WTOpenW (fun t => wt_open t window lc)
                          (fun r => EOpen window lc true (fst r)) in
  modify (set_mContext context) ;;
  if context =? 0 then throw (PointerThrown "Failed to open wintab tablet")
  else
    print EPrintOpened ;;
    let* d := gets mDeviceInfo in
    let* nm := GetInfoString WTI_DEVICES DVC_NAME in
    let* id := IdentifyTablet (V2.persistentId d) in
    let d := V2.mkDeviceInfo (V2.di_header d)
               (float_bits (int_to_float (lcOutExtX lc))) (float_bits (int_to_float (lcOutExtY lc)))
               (u32 (axMax axis)) id (to_buffer V2.NameMaxLength nm) in
    modify (set_mDeviceInfo d) ;;
    zoom mHandler set_mHandler (Handler.handle_device d) ;;
    ActivateContext.

(** [hijack<DriverBitness>(executableFileName)]. *)
Definition bits_string (b : Z) : string := if b =? 32 then "32" else "64".
Definition hijack (fuel : nat) (DriverBitness : Z) (executableFileName : list Z) : ST (Tablet H) unit :=
  if negb (DriverBitness =? ArchBitness) then
    throw (RuntimeError (String.concat "" ["This driver can only be hijacked by a ";
      bits_string DriverBitness; "-bit wintab-adapter; this version is "; bits_string ArchBitness;
      "-bit."]%string))
  else
    let hijackDll := V2Discovery.path_append (V2Discovery.parent_path module_file_name) HijackDllName in
    zoom injected set_injected
      (InjectDll.InjectDllByExecutableFileName fuel executableFileName HijackDllName hijackDll).

Definition hijack_driver (fuel : nat) (d : InjectableBuggyDriver) : ST (Tablet H) unit :=
  match d with
  | Huion => hijack fuel 64 (str "HuionTabletCore.exe")
  | HuionAlternate => hijack fuel 64 (str "TabletDriver.exe")
  | Gaomon => hijack fuel 32 (str "TabletDriver.exe")
  | XPPen => hijack fuel 32 (str "XPPenTablet.exe")
  end.

(** [m], and when it throws the clean-up [f] of what is already there. *)
Definition on_throw (f : Tablet H -> Tablet H) (m : ST (Tablet H) unit) : ST (Tablet H) unit :=
  fun s => match m s with Exn e s' => Exn e (f s') | r => r end.

(** Destruction of the member [mForegroundOverride]. *)
Definition drop_override (s : Tablet H) : Tablet H :=
  match ForegroundOverride.release (mForegroundOverride s) with
  | Ret _ k => set_mForegroundOverride k s
  | _ => s
  end.

(** The constructor, on the state with the members initialised, run by thread
    [tid].  When it throws, the members are destroyed, the destructor does not
    run, and a pointer to the object is left in [gInstance]. *)
Definition Construct (fuel : nat) (junk : AXIS) (tid : Z)
    (injectInto : option InjectableBuggyDriver) : ST (Tablet H) unit :=
  let* window := gets mWindow in
  zoom mForegroundOverride set_mForegroundOverride (ForegroundOverride.OpenWriter tid window) ;;
  on_throw drop_override
    (let* g := gets gInstance in
     match g with
     | NoInstance =>
         if negb wt_loaded then throw (RuntimeError "Failed to load WINTAB32.dll")
         else
           modify (set_gInstance Instance) ;;
           on_throw (set_gInstance Dangling)
             ((match injectInto with
               | Some d => hijack_driver fuel d
               | None => st_ret tt
               end) ;;
              ConnectToTablet fuel junk)
     | _ => throw (RuntimeError "Only one WintabTablet at a time!")
     end).

(** The destructor. *)
Definition Destroy : ST (Tablet H) unit :=
  modify (set_gInstance NoInstance) ;;
  let* c := gets mContext in
  (if truthy c then
     let* _ := call WTClose (fun _ => tt) (fun _ => EClose c) in
     modify (set_mContext 0)
   else st_ret tt) ;;
  modify drop_override.

(** ** Messages *)

Definition CanProcessMessage (message : Z) : bool :=
  (message =? WT_PROXIMITY) || (message =? WT_PACKET) || (message =? WT_PACKETEXT)
  || (message =? WT_CTXOVERLAP).

Definition ProcessMessageImpl (message wParam lParam : Z) : ST (Tablet H) bool :=
  if message =? WT_PROXIMITY then
    modify (fun s => set_mState
      (upd_near (truthy (lParam .& 0xffff)) (valid V2.ValidMask.PenIsNearSurface (mState s)) (mState s)) s) ;;
    st_ret true
  else if message =? WT_CTXOVERLAP then
    let* c := gets mContext in
    (if (size_t wParam =? c) && negb (truthy (u32 lParam .& CXS_ONTOP))
     then print EPrintRegaining ;; ActivateContext
     else st_ret tt) ;;
    st_ret true
  else if message =? WT_PACKET then
    let ctx := size_t lParam in
    let serial := u32 wParam in
    let* packet := call WTPacket (fun t => wt_packet t ctx serial) (EPacket ctx serial) in
    match packet with
    | None => st_ret false
    | Some p =>
        let* d := gets mDeviceInfo in
        let* st := gets mState in
        match apply_packet (V2.maxY d) p st with
        | Some st => modify (set_mState st) ;; st_ret true
        | None => undef BadFloatToInt
        end
    end
  else if message =? WT_PACKETEXT then
    let ctx := size_t lParam in
    let serial := u32 wParam in
    let* packet := call WTPacket (fun t => wt_packet_ext t ctx serial) (EPacketExt ctx serial) in
    match packet with
    | None => st_ret false
    | Some p =>
        let* st := gets mState in
        match apply_control (pkExpKeys p) st with
        | Some st => modify (set_mState st) ;; st_ret true
        | None => undef BadShift
        end
    end
  else st_ret false.

Definition ProcessMessage (hwnd message wParam lParam : Z) : ST (Tablet H) bool :=
  if negb (CanProcessMessage message) then st_ret false
  else
    let* g := gets gInstance in
    match g with
    | NoInstance => st_ret false
    | Dangling => undef DanglingPointer
    | Instance =>
        let* window := gets mWindow in
        if negb (window =? hwnd) then st_ret false
        else
          let* handled := ProcessMessageImpl message wParam lParam in
          if handled then
            let* st := gets mState in
            zoom mHandler set_mHandler (Handler.handle_state st) ;;
            st_ret true
          else st_ret false
    end.

(** The messages of the window, in order. *)
Fixpoint ProcessMessages (ms : list (Z * Z * Z * Z)) : ST (Tablet H) unit :=
  match ms with
  | [] => st_ret tt
  | (hwnd, message, wParam, lParam) :: ms =>
      let* _ := ProcessMessage hwnd message wParam lParam in ProcessMessages ms
  end.

End tablet.

End WintabTablet.
