(* ===== verification/TabletProofs.v ===== *)
(** * The tablet: pen states and safety

    Theorems on the model of src/src/WintabTablet.cpp in WintabTablet: what a
    packet does to the pen state, exactness of the coordinates, the text the
    driver returns, and that the object, from its construction on, handles every
    sequence of window messages without undefined behaviour and keeps the
    contract of its handler. *)

From S2P Require Import Prelude Layout V2Messages Float32 Wintab.
From S2P Require Import V2Accept V2Discovery V2Reading Handler ForegroundOverride InjectDll WintabTablet.
Import Wintab Float32 WintabTablet.

Module TabletProofs.

(** ** Pen states stay well-formed *)

Lemma valid_u32 bit st : is_u 32 (valid bit st).
Proof. apply u32_bounds. Qed.

(** An update of one member of a well-formed state. *)
Ltac upd_wf :=
  intros;
  match goal with Hst : V2.state_wf _ |- _ => destruct Hst as (? & ? & ? & ? & ? & ? & ? & ?) end;
  by refine (conj _ (conj _ (conj _ (conj _ (conj _ (conj _ (conj _ _))))))).

Lemma upd_x_wf v b st : is_u 32 v -> is_u 32 b -> V2.state_wf st -> V2.state_wf (upd_x v b st).
Proof. upd_wf. Qed.
Lemma upd_y_wf v b st : is_u 32 v -> is_u 32 b -> V2.state_wf st -> V2.state_wf (upd_y v b st).
Proof. upd_wf. Qed.
Lemma upd_hover_wf v b st : is_u 32 v -> is_u 32 b -> V2.state_wf st -> V2.state_wf (upd_hover v b st).
Proof. upd_wf. Qed.
Lemma upd_pressure_wf v b st : is_u 32 v -> is_u 32 b -> V2.state_wf st -> V2.state_wf (upd_pressure v b st).
Proof. upd_wf. Qed.
Lemma upd_buttons_wf v b st : is_u 32 v -> is_u 32 b -> V2.state_wf st -> V2.state_wf (upd_buttons v b st).
Proof. upd_wf. Qed.
Lemma upd_aux_wf v b st : is_u 32 v -> is_u 32 b -> V2.state_wf st -> V2.state_wf (upd_aux v b st).
Proof. upd_wf. Qed.
Lemma upd_near_wf v b st : is_u 32 b -> V2.state_wf st -> V2.state_wf (upd_near v b st).
Proof. upd_wf. Qed.

Create HintDb pen.
#[global] Hint Resolve upd_x_wf upd_y_wf upd_hover_wf upd_pressure_wf upd_buttons_wf upd_aux_wf
  upd_near_wf valid_u32 float_bits_u32 u32_bounds : pen.

Lemma float_to_u32_bounds f z : float_to_u32 f = Some z -> is_u 32 z.
Proof.
  unfold float_to_u32, is_ub; destruct (float_trunc f) as [y|]; [|done].
  destruct (Z.leb_spec 0 y), (Z.ltb_spec y (2 ^ 32)); cbn; intros [= <-]; done.
Qed.

Lemma apply_packet_wf maxY p st st' : packet_wf p -> V2.state_wf st ->
  apply_packet maxY p st = Some st' -> V2.state_wf st'.
Proof.
  intros (_ & _ & _ & _ & _ & Hp) Hst; unfold apply_packet.
  set (st1 := if changed p PK_X then _ else st).
  assert (V2.state_wf st1) as H1 by (unfold st1; destruct (changed p PK_X); auto with pen).
  clearbody st1; set (st2 := if changed p PK_Y then _ else st1).
  assert (V2.state_wf st2) as H2 by (unfold st2; destruct (changed p PK_Y); auto with pen).
  clearbody st2; set (h := if changed p PK_Z then _ else Some st2).
  assert (forall st3, h = Some st3 -> V2.state_wf st3) as H3.
  { unfold h; destruct (changed p PK_Z); [|by intros ? [= <-]].
    destruct (float_to_u32 _) as [z|] eqn:Ez; [|done]; intros ? [= <-].
    apply float_to_u32_bounds in Ez; auto with pen. }
  clearbody h; destruct h as [st3|]; [|done]; specialize (H3 st3 eq_refl); intros [= <-].
  destruct (changed p PK_BUTTONS), (changed p PK_NORMAL_PRESSURE); auto with pen.
Qed.

Lemma control_mask_bounds n m : control_mask n = Some m -> is_u 16 m.
Proof. unfold control_mask; destruct (n <? 32); [|done]; intros [= <-]; apply u16_bounds. Qed.

Lemma apply_control_wf k st st' : V2.state_wf st -> apply_control k st = Some st' -> V2.state_wf st'.
Proof.
  intros Hst; unfold apply_control; destruct (control_mask (nControl k)) as [m|] eqn:Em; [|done].
  intros [= <-]; apply control_mask_bounds in Em.
  apply upd_aux_wf; [|auto with pen|done]; destruct (truthy (nState k)); [|auto with pen].
  apply is_u_lor; [lia| |by apply (is_u_weaken 16)]; by destruct Hst as (_ & _ & _ & _ & _ & _ & Ha & _).
Qed.

(** ** What a packet changes *)

(** The validity bits after the members of a packet were applied. *)
Definition packet_bits (p : PACKET) (bits : Z) : Z :=
  let add (pk b v : Z) := if changed p pk then V2.mask_or v b else v in
  add PK_BUTTONS V2.ValidMask.PenButtons (add PK_NORMAL_PRESSURE V2.ValidMask.Pressure
    (add PK_Z V2.ValidMask.HoverDistance (add PK_Y V2.ValidMask.PositionY
      (add PK_X V2.ValidMask.PositionX bits)))).

Lemma apply_packet_eq maxY p st : apply_packet maxY p st =
  match (if changed p PK_Z then float_to_u32 (int_to_float (pkZ p)) else Some (V2.hoverDistance st)) with
  | None => None
  | Some hover => Some (V2.mkState (V2.st_header st) (packet_bits p (V2.validBits st))
      (if changed p PK_X then float_bits (int_to_float (pkX p)) else V2.x st)
      (if changed p PK_Y then float_bits (float_sub (float_of_bits maxY) (int_to_float (pkY p))) else V2.y st)
      (if changed p PK_NORMAL_PRESSURE then pkNormalPressure p else V2.pressure st)
      (if changed p PK_BUTTONS then u32 (pkButtons p) else V2.penButtons st)
      (V2.auxButtons st) hover (V2.penIsNearSurface st))
  end.
Proof.
  unfold apply_packet, packet_bits; destruct st.
  destruct (changed p PK_Z); [destruct (float_to_u32 (int_to_float (pkZ p))) as [z|]|].
  all: destruct (changed p PK_X), (changed p PK_Y), (changed p PK_NORMAL_PRESSURE), (changed p PK_BUTTONS);
    reflexivity.
Qed.

Lemma packet_bits_testbit p bits i : 0 <= i < 32 ->
  Z.testbit (packet_bits p bits) i =
  Z.testbit bits i || (changed p PK_X && (i =? 0)) || (changed p PK_Y && (i =? 1)) ||
  (changed p PK_NORMAL_PRESSURE && (i =? 2)) || (changed p PK_BUTTONS && (i =? 3)) ||
  (changed p PK_Z && (i =? 6)).
Proof.
  intros Hi; unfold packet_bits.
  assert (forall pk k v, 0 <= k < 32 ->
    Z.testbit (if changed p pk then V2.mask_or v (1 << k) else v) i =
    Z.testbit v i || (changed p pk && (i =? k))) as Hadd.
  { intros pk k v Hk; destruct (changed p pk); cbn [andb]; [|by rewrite orb_false_r].
    unfold V2.mask_or, u32; rewrite wrap_testbit, Z.lor_spec by lia.
    destruct (Z.ltb_spec i 32); [|lia]; cbn [andb]; f_equal.
    apply testbit_one_shl; lia. }
  unfold V2.ValidMask.PenButtons, V2.ValidMask.Pressure, V2.ValidMask.HoverDistance,
    V2.ValidMask.PositionY, V2.ValidMask.PositionX; rewrite !Hadd by lia.
  destruct (Z.testbit bits i), (changed p PK_X), (changed p PK_Y), (changed p PK_NORMAL_PRESSURE),
    (changed p PK_BUTTONS), (changed p PK_Z), (i =? 0), (i =? 1), (i =? 2), (i =? 3), (i =? 6); done.
Qed.

(** ** Texts *)

Lemma drop_while_app (f : Z -> bool) a c b : Forall (fun x => f x = true) a -> f c = false ->
  V2Discovery.drop_while f (a ++ c :: b) = c :: b.
Proof. intros Ha Hc; induction Ha as [|x a Hx Ha IH]; cbn; [by rewrite Hc|by rewrite Hx]. Qed.

Lemma trim_junk_app text c junk : 32 < schar c -> Forall (fun d => schar d <= 32) junk ->
  trim_junk ((text ++ [c]) ++ junk) = text ++ [c].
Proof.
  intros Hc Hj; unfold trim_junk; rewrite !reverse_app, reverse_singleton; cbn [app].
  rewrite drop_while_app.
  - by rewrite reverse_cons, reverse_involutive.
  - apply Forall_reverse; eapply Forall_impl; [exact Hj|]; intros d Hd; cbn in Hd.
    destruct (Z.ltb_spec 32 (schar d)); [lia|done].
  - by destruct (Z.ltb_spec 32 (schar c)); [|lia].
Qed.

(** The buffer cut to the number of characters stored. *)
Lemma resize_written w : (length w <= INFO_BUFFER)%nat ->
  resize (length w) (V2Accept.write_at 0 w (replicate INFO_BUFFER 0)) = w.
Proof.
  intros Hl; unfold resize; rewrite V2Reading.length_write_at by (rewrite length_replicate; lia).
  rewrite length_replicate; replace (length w - INFO_BUFFER)%nat with 0%nat by lia.
  unfold V2Accept.write_at; rewrite take_0; change ([] ++ ?l) with l.
  rewrite take_app_length; apply app_nil_r.
Qed.

(** ** Calls to the driver *)

Definition set_driver {H} (t : list event) (s : Tablet H) : Tablet H :=
  mkTablet (mWindow s) (mForegroundOverride s) (mHandler s) (mContext s) (mNextTabletID s)
    (mDeviceInfo s) (mState s) (gInstance s) t (injected s).

(** Only calls to the driver were made. *)
Definition queries {H} (s s' : Tablet H) : Prop := exists t, s' = set_driver (driver s ++ t) s.

Lemma queries_refl {H} (s : Tablet H) : queries s s.
Proof. exists []; rewrite app_nil_r; by destruct s. Qed.

Lemma queries_log {H} e (s : Tablet H) : queries s (log e s).
Proof. by exists [e]. Qed.

Lemma queries_trans {H} (s1 s2 s3 : Tablet H) : queries s1 s2 -> queries s2 s3 -> queries s1 s3.
Proof. intros [t ->] [u ->]; exists (t ++ u); cbn; by rewrite app_assoc. Qed.

(** [m] returns a value with [Q], after calls to the driver only, or is undefined
    for the reason [U]. *)
Definition asks {H A} (U : ub -> Prop) (m : ST (Tablet H) A) (Q : A -> Prop) : Prop :=
  forall s, within (m s) (fun a s' => queries s s' /\ Q a) (fun _ _ => False) U.

Lemma asks_ret {H A} U (a : A) (Q : A -> Prop) : Q a -> asks (H := H) U (st_ret a) Q.
Proof. intros Ha s; split; [apply queries_refl|done]. Qed.

Lemma asks_undef {H A} (U : ub -> Prop) u (Q : A -> Prop) : U u -> asks (H := H) U (undef u) Q.
Proof. by intros Hu s. Qed.

Lemma asks_gets {H A} U (f : Tablet H -> A) : asks U (gets f) (fun _ => True).
Proof. intros s; split; [apply queries_refl|done]. Qed.

Lemma asks_bind {H A B} U (m : ST (Tablet H) A) (k : A -> ST (Tablet H) B) P Q :
  asks U m P -> (forall a, P a -> asks U (k a) Q) -> asks U (st_bind m k) Q.
Proof.
  intros Hm Hk s; eapply within_bind; [apply Hm|]; intros a s1 [H1 Ha].
  eapply within_weaken; [by apply Hk| |done|done].
  intros b s2 [H2 Hb]; split; [by eapply queries_trans|done].
Qed.

Section driver.
Context {HA : Arch} {HB : BuildConfig} {HW : WintabDriver} {HK : ForegroundOverride.KernelCalls}.
Context {HJ : InjectDll.InjectOS} {H : Type} {HI : Handler.IHandler H}.

(** The same for a run that is known to return, with any driver. *)
Definition asking {A} (m : ST (Tablet H) A) : Prop := forall s a s', m s = Ret a s' -> queries s s'.

Lemma asking_ret {A} (a : A) : asking (st_ret a).
Proof. intros s ? ? [= _ <-]; apply queries_refl. Qed.

Lemma asking_undef {A} u : asking (A := A) (undef u).
Proof. done. Qed.

Lemma asking_call {A} f (m : list event -> A) e : asking (call f m e).
Proof. intros s ? ?; unfold call; destruct (wt_exports f); [|done]; intros [= _ <-]; apply queries_log. Qed.

Lemma asking_bind {A B} (m : ST (Tablet H) A) (k : A -> ST (Tablet H) B) :
  asking m -> (forall a, asking (k a)) -> asking (st_bind m k).
Proof.
  intros Hm Hk s b s' E; apply bind_Ret in E as (a & s1 & E1 & E2).
  eapply queries_trans; [by eapply Hm|by eapply Hk].
Qed.

#[local] Hint Resolve asking_ret asking_undef asking_call asking_bind : pen.

Lemma asking_string c i : asking (GetInfoString c i).
Proof. apply asking_bind; [apply asking_call|]; intros [w n]; destruct (_ <? _)%nat; auto with pen. Qed.

Lemma asking_axis i a : asking (InfoAxis i a).
Proof. apply asking_bind; auto with pen. Qed.

Lemma asking_extent a : asking (extent a).
Proof. unfold extent; destruct (is_sb _ _); auto with pen. Qed.

Lemma asking_scan fuel i lc : asking (ScanExtensions fuel i lc).
Proof.
  revert i; induction fuel as [|fuel IH]; intros i; cbn [ScanExtensions]; [done|].
  apply asking_bind; [apply asking_call|]; intros [tag|]; [|auto with pen].
  destruct (_ || _); [|apply IH]; apply asking_bind; auto with pen.
Qed.

#[local] Hint Resolve asking_string asking_axis asking_extent asking_scan : pen.

Lemma asking_describe fuel junk : asking (DescribeContext fuel junk).
Proof. unfold DescribeContext; repeat (apply asking_bind; [auto with pen|intros]); auto with pen. Qed.

Lemma asking_identify old : asking (IdentifyTablet old).
Proof.
  apply asking_bind; [apply asking_string|]; intros [|c id]; [|auto with pen].
  apply asking_bind; [apply asking_string|]; intros [|c id]; auto with pen.
Qed.

Lemma ActivateContext_eq (s s' : Tablet H) : ActivateContext s = Ret tt s' ->
  s' = log (EOverlap (mContext s) true) s.
Proof.
  unfold ActivateContext, gets, call, st_bind; destruct (wt_exports WTOverlap); [|done].
  by intros [= <-].
Qed.

(** An assumption on the driver beyond what WinTab documents: it exports the
    functions, and its answers fit the program: axes
    whose extent is a [LONG], texts that fit the buffer, distances that are not
    negative and keys that are numbered below 32. *)
Class SaneDriver : Prop := {
  sane_types :: DriverTypes;
  sane_exports : forall f, wt_exports f = true;
  sane_axis : forall t i a, wt_axis t i = Some a -> is_s 32 (axMax a - axMin a);
  sane_string : forall t c i, (length (fst (wt_string t c i)) <= INFO_BUFFER)%nat;
  sane_distance : forall t c s p, wt_packet t c s = Some p -> changed p PK_Z = true -> 0 <= pkZ p < 2 ^ 24;
  sane_control : forall t c s p, wt_packet_ext t c s = Some p -> nControl (pkExpKeys p) < 32
}.

(** An axis as the driver or the uninitialised variable gives it. *)
Definition axis_ok (a : AXIS) : Prop := axis_wf a /\ is_s 32 (axMax a - axMin a).

Lemma is_sb_spec w z : if is_sb w z then is_s w z else ~ is_s w z.
Proof.
  unfold is_s, is_sb.
  destruct (Z.leb_spec (- 2 ^ (w - 1)) z), (Z.ltb_spec z (2 ^ (w - 1))); cbn; lia.
Qed.

(** ** What the driver can do wrong

    An axis of the driver, or the uninitialised variable when the driver does not
    answer. *)
Definition axis_of (junk a : AXIS) : Prop := a = junk \/ exists t i, wt_axis t i = Some a.

(** The answers of the driver that make a connection undefined: a function that
    is not exported, an axis whose extent is not a [LONG], a text longer than the
    buffer. *)
Definition driver_blamed (junk : AXIS) (u : ub) : Prop :=
  match u with
  | NullCall => exists f, wt_exports f = false
  | SignedOverflow => exists a, axis_of junk a /\ ~ is_s 32 (axMax a - axMin a)
  | OutOfBounds => exists t c i, (INFO_BUFFER < length (fst (wt_string t c i)))%nat
  | _ => False
  end.

(** The same, or a process with more modules than the injection has room for. *)
Definition blamed (junk : AXIS) (u : ub) : Prop :=
  driver_blamed junk u \/ u = OutOfBounds /\ InjectDll.too_many_modules.

Lemma sane_not_blamed {HS : SaneDriver} junk u : axis_ok junk -> ~ driver_blamed junk u.
Proof.
  intros [_ Hj]; destruct u; cbn; try tauto.
  - intros (t & c & i & Hl); pose proof (sane_string t c i); lia.
  - intros (a & [->|(t & i & E)] & Ha); [done|]; by apply Ha, (sane_axis t i).
  - intros [g E]; by rewrite sane_exports in E.
Qed.

Section connecting.
Variable junk : AXIS.

Lemma asks_call {A} f (m : list event -> A) e (Q : A -> Prop) :
  (forall t, Q (m t)) -> asks (H := H) (driver_blamed junk) (call f m e) Q.
Proof.
  intros Hq; unfold call; destruct (wt_exports f) eqn:Ef; [|apply asks_undef; by exists f].
  intros s; split; [apply queries_log|apply Hq].
Qed.

Lemma asks_string c i : asks (H := H) (driver_blamed junk) (GetInfoString c i) (fun _ => True).
Proof.
  eapply asks_bind; [apply (asks_call _ _ _ (fun r => exists t, r = wt_string t c i)); eauto|].
  intros [w n] [t Ew]; destruct (Nat.ltb_spec INFO_BUFFER (length w)); [|by apply asks_ret].
  apply asks_undef; exists t, c, i; by rewrite <- Ew.
Qed.

Lemma asks_axis i a : axis_of junk a -> asks (H := H) (driver_blamed junk) (InfoAxis i a) (axis_of junk).
Proof.
  intros Ha; eapply asks_bind; [apply (asks_call _ _ _ (fun r => exists t, r = wt_axis t i)); eauto|].
  intros [b|] [t Et]; apply asks_ret; cbn; [right; eauto|done].
Qed.

Lemma asks_extent a : axis_of junk a -> asks (H := H) (driver_blamed junk) (extent a) (fun _ => True).
Proof.
  intros Ha; unfold extent; pose proof (is_sb_spec 32 (axMax a - axMin a)) as Hs.
  destruct (is_sb _ _); [by apply asks_ret|apply asks_undef; by exists a].
Qed.

Lemma asks_scan N fuel i lc :
  (forall t j, Z.of_nat N <= j < 2 ^ 31 -> wt_ext_tag t (WTI_EXTENSIONS + j) = None) ->
  0 <= i -> Z.of_nat N < i + Z.of_nat fuel < 2 ^ 31 - 300 -> (0 < fuel)%nat ->
  asks (H := H) (driver_blamed junk) (ScanExtensions fuel i lc) (fun _ => True).
Proof.
  intros Hext; revert i; induction fuel as [|fuel IH]; intros i Hi Hf Hp; [lia|]; cbn [ScanExtensions].
  assert (u32 (WTI_EXTENSIONS + i) = WTI_EXTENSIONS + i) as ->
    by (apply wrap_small; unfold is_u, WTI_EXTENSIONS; lia).
  assert (u32 (i + 1) = i + 1) as -> by (apply wrap_small; unfold is_u; lia).
  eapply asks_bind.
  - apply (asks_call _ _ _ (fun r => Z.of_nat N <= i -> r = None)).
    intros t Hn; apply Hext; lia.
  - intros [tag|] Hn; [|by apply asks_ret]; destruct (_ || _).
    + eapply asks_bind; [by apply (asks_call _ _ _ (fun _ => True))|].
      intros; by apply asks_ret.
    + destruct (Z.le_gt_cases (Z.of_nat N) i) as [Hle|Hgt]; [by apply Hn in Hle|].
      apply IH; lia.
Qed.

Lemma asks_activate : asks (H := H) (driver_blamed junk) ActivateContext (fun _ => True).
Proof.
  eapply asks_bind; [apply asks_gets|]; intros c _.
  eapply asks_bind; [by apply (asks_call _ _ _ (fun _ => True))|]; intros; by apply asks_ret.
Qed.

Lemma length_format_to_n N dest s : length dest = N -> length (format_to_n N dest s) = N.
Proof.
  intros Hd; unfold format_to_n; rewrite length_app, length_drop, Hd, length_take; lia.
Qed.

Lemma asks_identify old : length old = V2.PersistentIdMaxLength ->
  asks (H := H) (driver_blamed junk) (IdentifyTablet old) (fun id => length id = V2.PersistentIdMaxLength).
Proof.
  intros Ho; eapply asks_bind; [apply asks_string|]; intros [|c pnp] _.
  - eapply asks_bind; [apply asks_string|]; intros [|c id] _; apply asks_ret; [done|].
    by apply length_format_to_n.
  - by apply asks_ret, length_format_to_n.
Qed.

(** ** The object *)

(** There are fewer than [N] extensions. *)
Definition extensions_below (N : nat) : Prop :=
  forall t j, Z.of_nat N <= j < 2 ^ 31 -> wt_ext_tag t (WTI_EXTENSIONS + j) = None.

Lemma asks_describe N fuel : extensions_below N -> (N < fuel)%nat -> Z.of_nat fuel < 2 ^ 31 - 300 ->
  asks (H := H) (driver_blamed junk) (DescribeContext fuel junk) (fun _ => True).
Proof.
  intros HN Hf Hf'; unfold DescribeContext.
  eapply asks_bind; [by apply (asks_call _ _ _ (fun _ => True))|]; intros lc _.
  eapply asks_bind; [by apply asks_axis; left|]; intros ax Hx.
  eapply asks_bind; [by apply asks_extent|]; intros ex _.
  eapply asks_bind; [by apply asks_axis|]; intros ay Hy.
  eapply asks_bind; [by apply asks_extent|]; intros ey _.
  eapply asks_bind; [by apply asks_axis|]; intros ap Hp.
  eapply asks_bind; [apply (asks_scan N); [done|lia..]|]; intros; by apply asks_ret.
Qed.
End connecting.

Context {HL : Handler.HandlerSpec H}.

(** The object between its construction and its destruction. *)
Record running (s : Tablet H) : Prop := {
  run_device : V2.deviceinfo_wf (mDeviceInfo s);
  run_state : V2.state_wf (mState s);
  run_handler : Handler.ready (mHandler s);
  run_instance : gInstance s = Instance
}.

(** The object before the handler knows the device. *)
Record fresh (s : Tablet H) : Prop := {
  fresh_device : V2.deviceinfo_wf (mDeviceInfo s);
  fresh_state : V2.state_wf (mState s);
  fresh_handler : Handler.accepts (mHandler s);
  fresh_instance : gInstance s = Instance
}.

Lemma fresh_queries s s' : queries s s' -> fresh s -> fresh s'.
Proof. intros [t ->] []; by split. Qed.

Lemma running_queries s s' : queries s s' -> running s -> running s'.
Proof. intros [t ->] []; by split. Qed.

Lemma asks_keeps {A} U (m : ST (Tablet H) A) Q s (P : Tablet H -> Prop) E :
  asks U m Q -> (forall s s', queries s s' -> P s -> P s') -> P s ->
  within (m s) (fun a s' => P s' /\ Q a) E U.
Proof.
  intros Hm Hp Hs; eapply within_weaken; [apply Hm| |done|done]; intros a s' [? ?]; eauto.
Qed.

Lemma new_device_wf d id nm mx my mp : V2.deviceinfo_wf d -> length id = V2.PersistentIdMaxLength ->
  is_u 32 mx -> is_u 32 my -> is_u 32 mp -> length nm = V2.NameMaxLength ->
  V2.deviceinfo_wf (V2.mkDeviceInfo (V2.di_header d) mx my mp id nm).
Proof. intros [Hh _] ? ? ? ? ?; split; [done|]; by refine (conj _ (conj _ (conj _ (conj _ _)))). Qed.

(** [ConnectToTablet] ends with a running object, throws when the driver does not
    open the context, and is undefined only by a fault of the driver. *)
Lemma ConnectToTablet_within N fuel junk s :
  extensions_below N -> (N < fuel)%nat -> Z.of_nat fuel < 2 ^ 31 - 300 -> fresh s ->
  within (ConnectToTablet fuel junk s) (fun _ s' => running s')
    (fun e s' => e = PointerThrown "Failed to open wintab tablet" /\ fresh s' /\ mContext s' = 0)
    (driver_blamed junk).
Proof.
  intros HN Hf Hf' Hs; unfold ConnectToTablet.
  eapply within_bind; [apply (asks_keeps _ _ _ s fresh _ (asks_describe junk N fuel HN Hf Hf') fresh_queries Hs)|].
  intros [lc axis] s1 [H1 _].
  eapply within_bind; [exact (asks_keeps _ _ _ s1 fresh _ (asks_gets _ _) fresh_queries H1)|].
  intros window s2 [H2 _].
  eapply within_bind; [apply (asks_keeps _ _ (fun _ => True) s2 fresh); [by apply asks_call|exact fresh_queries|done]|].
  intros [ctx lc'] s3 [H3 _].
  apply within_bind with (Q := fun _ s' => fresh s' /\ mContext s' = ctx); [by destruct H3|]; intros ? s4 [H4 Ec].
  destruct (Z.eqb_spec ctx 0) as [->|_]; [done|].
  apply within_bind with (Q := fun _ s' => fresh s'); [by destruct H4|]; intros ? s5 H5.
  apply within_bind with (Q := fun d s' => fresh s' /\ d = mDeviceInfo s'); [done|]; intros d s6 [H6 ->].
  pose proof (fresh_device _ H6) as Hd; set (d := mDeviceInfo s6) in *; clearbody d.
  assert (length (V2.persistentId d) = V2.PersistentIdMaxLength) as Hold by apply Hd.
  eapply within_bind; [exact (asks_keeps _ _ _ s6 fresh _ (asks_string junk _ _) fresh_queries H6)|].
  intros nm s7 [H7 _].
  eapply within_bind; [exact (asks_keeps _ _ _ s7 fresh _ (asks_identify junk (V2.persistentId d) Hold) fresh_queries H7)|].
  intros id s8 [H8 Hid].
  assert (V2.deviceinfo_wf (V2.mkDeviceInfo (V2.di_header d) (float_bits (int_to_float (lcOutExtX lc')))
    (float_bits (int_to_float (lcOutExtY lc'))) (u32 (axMax axis)) id (to_buffer V2.NameMaxLength nm))) as Hd'.
  { apply new_device_wf; auto with pen; apply length_fill_copy. }
  set (d' := V2.mkDeviceInfo _ _ _ _ _ _) in *; clearbody d'.
  apply within_bind with (Q := fun _ s' => fresh s'); [destruct H8; by split|]; intros ? s9 H9.
  apply within_bind with (Q := fun _ s' => running s').
  { pose proof (Handler.device_returns d' (mHandler s9) Hd' (fresh_handler _ H9)) as Hh.
    unfold zoom; destruct (Handler.handle_device d' (mHandler s9)); try done.
    destruct H9; by split. }
  intros ? s10 H10; eapply within_weaken;
    [exact (asks_keeps _ _ _ s10 running (fun _ _ => False) (asks_activate junk) running_queries H10)|by intros ? ? []|done|done].
Qed.

Lemma ConnectToTablet_running `{!SaneDriver} N fuel junk s :
  extensions_below N -> (N < fuel)%nat -> Z.of_nat fuel < 2 ^ 31 - 300 -> axis_ok junk -> fresh s ->
  ends (ConnectToTablet fuel junk s) (fun _ s' => running s')
    (fun e s' => e = PointerThrown "Failed to open wintab tablet" /\ fresh s' /\ mContext s' = 0).
Proof.
  intros HN Hf Hf' Hj Hs; eapply within_ends; [by apply (ConnectToTablet_within N)|].
  intros u; by apply sane_not_blamed.
Qed.

Lemma ConnectToTablet_fails `{!SaneDriver} N fuel junk s :
  extensions_below N -> (N < fuel)%nat -> Z.of_nat fuel < 2 ^ 31 - 300 -> axis_ok junk -> fresh s ->
  (forall t w lc, fst (wt_open t w lc) = 0) ->
  exists s', ConnectToTablet fuel junk s = Exn (PointerThrown "Failed to open wintab tablet") s' /\ fresh s'.
Proof.
  intros HN Hf Hf' Hj Hs Hopen; unfold ConnectToTablet.
  pose proof (within_returns _ _ _ (asks_keeps _ _ _ s fresh _ (asks_describe junk N fuel HN Hf Hf')
    fresh_queries Hs) (fun u => sane_not_blamed junk u Hj)) as Hd.
  apply returns_inv in Hd as ([lc axis] & s1 & E1 & H1 & _).
  unfold st_bind at 1; rewrite E1; unfold gets, call, modify; rewrite sane_exports.
  unfold st_bind at 1 2; cbv zeta; specialize (Hopen (driver s1) (mWindow s1) lc).
  destruct (wt_open (driver s1) (mWindow s1) lc) as [ctx lc']; cbn in Hopen; subst ctx.
  unfold st_bind at 1; cbn [Z.eqb throw]; eexists; split; [reflexivity|]; destruct H1; by split.
Qed.

(** ** Messages *)

Lemma running_state s st : V2.state_wf st -> running s -> running (set_mState st s).
Proof. intros Hst []; by split. Qed.

Lemma apply_packet_some maxY p st : is_s 32 (pkZ p) ->
  match apply_packet maxY p st with
  | Some _ => changed p PK_Z && (pkZ p <? 0) = false
  | None => changed p PK_Z && (pkZ p <? 0) = true
  end.
Proof.
  intros Hz; rewrite apply_packet_eq; destruct (changed p PK_Z); [|done]; cbn [andb].
  apply float_to_u32_near in Hz; destruct (float_to_u32 _); [destruct Hz|];
    destruct (Z.ltb_spec (pkZ p) 0); try done; lia.
Qed.

Lemma apply_control_some k st :
  match apply_control k st with Some _ => (nControl k <? 32) = true | None => (nControl k <? 32) = false end.
Proof. unfold apply_control, control_mask; by destruct (nControl k <? 32). Qed.

(** What is undefined in the handling of a message: a call of a function the
    driver does not export, a negative distance that has changed, a key with a
    number above 31. *)
Definition impl_fault (m w l : Z) (s : Tablet H) : option ub :=
  if m =? WT_PROXIMITY then None
  else if m =? WT_CTXOVERLAP then
    if (size_t w =? mContext s) && negb (truthy (u32 l .& CXS_ONTOP)) && negb (wt_exports WTOverlap)
    then Some NullCall else None
  else if m =? WT_PACKET then
    if wt_exports WTPacket then
      match wt_packet (driver s) (size_t l) (u32 w) with
      | Some p => if changed p PK_Z && (pkZ p <? 0) then Some BadFloatToInt else None
      | None => None
      end
    else Some NullCall
  else if m =? WT_PACKETEXT then
    if wt_exports WTPacket then
      match wt_packet_ext (driver s) (size_t l) (u32 w) with
      | Some p => if nControl (pkExpKeys p) <? 32 then None else Some BadShift
      | None => None
      end
    else Some NullCall
  else None.
Definition fault (hwnd m w l : Z) (s : Tablet H) : option ub :=
  if CanProcessMessage m && (mWindow s =? hwnd) then impl_fault m w l s else None.

(** The run is undefined with [o], or returns with [P] when there is none. *)
Definition faults_or {S A} (o : option ub) (r : res S A) (P : A -> S -> Prop) : Prop :=
  match o with None => returns r P | Some u => r = Undef u end.

Lemma ProcessMessageImpl_exact `{!DriverTypes} m w l s : running s ->
  faults_or (impl_fault m w l s) (ProcessMessageImpl m w l s) (fun _ s' => running s').
Proof.
  intros Hs; unfold ProcessMessageImpl, impl_fault; destruct (m =? WT_PROXIMITY).
  { apply running_state; [|done]; apply upd_near_wf; [apply valid_u32|apply Hs]. }
  destruct (m =? WT_CTXOVERLAP).
  { unfold gets, print, modify, ActivateContext, call, gets; unfold st_bind at 1.
    destruct ((size_t w =? mContext s) && _); cbn [andb]; [|done]; unfold st_bind; cbn.
    destruct (wt_exports WTOverlap); cbn; [|done].
    apply (running_queries _ _ (queries_log _ _)), (running_queries _ _ (queries_log _ _)), Hs. }
  destruct (m =? WT_PACKET).
  { unfold call, gets; destruct (wt_exports WTPacket); [|done]; unfold st_bind; cbv zeta.
    destruct (wt_packet _ _ _) as [p|] eqn:Ep; [|by apply (running_queries _ _ (queries_log _ _))].
    set (s1 := log _ s); assert (running s1) as H1 by apply (running_queries _ _ (queries_log _ _) Hs).
    pose proof (wt_packet_wf _ _ _ _ Ep) as Hwf.
    pose proof (apply_packet_some (V2.maxY (mDeviceInfo s1)) p (mState s1) ltac:(apply Hwf)) as Ha.
    destruct (apply_packet _ _ _) as [st'|] eqn:E; rewrite Ha; [|done].
    apply running_state; [|done]; eapply apply_packet_wf; [done|apply H1|exact E]. }
  destruct (m =? WT_PACKETEXT); [|done].
  unfold call, gets; destruct (wt_exports WTPacket); [|done]; unfold st_bind; cbv zeta.
  destruct (wt_packet_ext _ _ _) as [p|] eqn:Ep; [|by apply (running_queries _ _ (queries_log _ _))].
  set (s1 := log _ s); assert (running s1) as H1 by apply (running_queries _ _ (queries_log _ _) Hs).
  pose proof (apply_control_some (pkExpKeys p) (mState s1)) as Ha.
  destruct (apply_control _ _) as [st'|] eqn:E; rewrite Ha; [|done].
  apply running_state; [|done]; eapply apply_control_wf; [apply H1|exact E].
Qed.

Lemma ProcessMessage_exact `{!DriverTypes} hwnd m w l s : running s ->
  faults_or (fault hwnd m w l s) (ProcessMessage hwnd m w l s) (fun _ s' => running s').
Proof.
  intros Hs; unfold ProcessMessage, fault; destruct (CanProcessMessage m); [|done]; cbn [negb andb].
  unfold gets; unfold st_bind at 1; rewrite (run_instance _ Hs).
  unfold st_bind at 1; destruct (mWindow s =? hwnd); cbn [negb]; [|done].
  pose proof (ProcessMessageImpl_exact m w l s Hs) as Hi.
  destruct (impl_fault m w l s); cbn in *; [by unfold st_bind; rewrite Hi|].
  eapply returns_bind; [exact Hi|]; intros [|] s1 H1; [|done].
  unfold st_bind at 1; cbn in H1.
  apply returns_bind with (P := fun _ s' => running s'); [|done].
  pose proof (Handler.state_returns (mState s1) (mHandler s1) (run_state _ H1) (run_handler _ H1)) as Hh.
  unfold zoom; destruct (Handler.handle_state (mState s1) (mHandler s1)); try done.
  destruct H1; by split.
Qed.

(** A sequence of messages returns, or one of them has a fault. *)
Fixpoint fault_in (ms : list (Z * Z * Z * Z)) (s : Tablet H) : option ub :=
  match ms with
  | [] => None
  | (hwnd, m, w, l) :: ms =>
      match fault hwnd m w l s, ProcessMessage hwnd m w l s with
      | Some u, _ => Some u
      | None, Ret _ s' => fault_in ms s'
      | None, _ => None
      end
  end.

Lemma ProcessMessages_exact `{!DriverTypes} ms s : running s ->
  faults_or (fault_in ms s) (ProcessMessages ms s) (fun _ s' => running s').
Proof.
  revert s; induction ms as [|[[[hwnd m] w] l] ms IH]; intros s Hs; cbn [ProcessMessages fault_in]; [done|].
  pose proof (ProcessMessage_exact hwnd m w l s Hs) as He; unfold st_bind.
  destruct (fault hwnd m w l s); cbn in He; [by rewrite He|].
  destruct (ProcessMessage hwnd m w l s); try done; by apply IH.
Qed.

Lemma sane_no_fault `{!SaneDriver} hwnd m w l s : fault hwnd m w l s = None.
Proof.
  unfold fault, impl_fault; rewrite !sane_exports; repeat case_match; try done.
  - by rewrite andb_false_r in *.
  - match goal with E : wt_packet _ _ _ = Some ?p, E' : _ && _ = true |- _ =>
      apply andb_true_iff in E' as [Hc Hz]; apply Z.ltb_lt in Hz; pose proof (sane_distance _ _ _ _ E Hc); lia end.
  - match goal with E : wt_packet_ext _ _ _ = Some ?p, E' : (_ <? _) = false |- _ =>
      apply Z.ltb_ge in E'; pose proof (sane_control _ _ _ _ E); lia end.
Qed.

Lemma ProcessMessage_running `{!SaneDriver} hwnd m w l s : running s ->
  returns (ProcessMessage hwnd m w l s) (fun _ s' => running s').
Proof. intros Hs; pose proof (ProcessMessage_exact hwnd m w l s Hs) as He; by rewrite sane_no_fault in He. Qed.

Lemma ProcessMessages_running `{!SaneDriver} ms s : running s -> returns (ProcessMessages ms s) (fun _ s' => running s').
Proof.
  revert s; induction ms as [|[[[hwnd m] w] l] ms IH]; intros s Hs; cbn [ProcessMessages]; [done|].
  eapply returns_bind; [by apply ProcessMessage_running|]; intros ? s' Hs'; by apply IH.
Qed.

(** ** Construction *)

Lemma hijack_within M fuel d s :
  (forall t n r, (M <= length t)%nat -> InjectDll.os_query t n <> InjectDll.LengthMismatch r) ->
  (M < fuel)%nat -> fresh s ->
  within (hijack_driver fuel d s) (fun _ s' => fresh s') (fun _ s' => fresh s')
    (fun u => u = OutOfBounds /\ InjectDll.too_many_modules).
Proof.
  intros HM Hf Hs.
  assert (forall b exe, within (hijack fuel b exe s) (fun _ s' => fresh s') (fun _ s' => fresh s')
    (fun u => u = OutOfBounds /\ InjectDll.too_many_modules)) as Hh.
  { intros b exe; unfold hijack; destruct (negb (b =? ArchBitness)); [done|].
    set (m := InjectDll.InjectDllByExecutableFileName _ _ _ _).
    assert (within (m (injected s)) (fun _ _ => True) (fun _ _ => True)
      (fun u => u = OutOfBounds /\ InjectDll.too_many_modules)) as Hm by by apply (InjectDll.InjectByName_within M).
    unfold zoom; destruct (m (injected s)); try done; destruct Hs; by split. }
  destruct d; apply Hh.
Qed.

Lemma hijack_ends M fuel d s :
  (forall t n r, (M <= length t)%nat -> InjectDll.os_query t n <> InjectDll.LengthMismatch r) ->
  (M < fuel)%nat -> InjectDll.modules_fit -> fresh s ->
  ends (hijack_driver fuel d s) (fun _ s' => fresh s') (fun _ s' => fresh s').
Proof.
  intros HM Hf Hmod Hs; eapply within_ends; [by apply (hijack_within M)|].
  intros u (_ & t & p & ms & cb & E & Hcb); apply Hmod in E; lia.
Qed.

Lemma drop_override_instance (s : Tablet H) : gInstance (drop_override s) = gInstance s.
Proof. unfold drop_override; by destruct (ForegroundOverride.release _). Qed.

Lemma OpenWriter_ends tid w k :
  ends (ForegroundOverride.OpenWriter tid w k) (fun _ _ => True) (fun _ _ => True).
Proof.
  unfold ForegroundOverride.OpenWriter, ForegroundOverride.OpenOverride, ForegroundOverride.null_error.
  unfold st_bind, throw, modify, st_ret, ForegroundOverride.release, modify.
  destruct ForegroundOverride.create_mutex_error; [done|].
  unfold ForegroundOverride.acquire; destruct (ForegroundOverride.owner k) as [[o n]|]; [destruct (o =? tid)|]; cbn; try done.
  all: destruct ForegroundOverride.create_mapping_error; [done|]; by destruct ForegroundOverride.map_view_error.
Qed.

Lemma Construct_within M N fuel junk tid inject s :
  (forall t n r, (M <= length t)%nat -> InjectDll.os_query t n <> InjectDll.LengthMismatch r) ->
  (M < fuel)%nat -> extensions_below N -> (N < fuel)%nat -> Z.of_nat fuel < 2 ^ 31 - 300 ->
  fresh (set_gInstance Instance s) -> gInstance s = NoInstance ->
  within (Construct fuel junk tid inject s) (fun _ s' => running s')
    (fun e s' => gInstance s' <> Instance) (blamed junk).
Proof.
  intros HM Hf HN Hf2 Hf' Hs Hg; unfold Construct, gets; unfold st_bind at 1.
  unfold st_bind at 1; unfold zoom at 1.
  pose proof (OpenWriter_ends tid (mWindow s) (mForegroundOverride s)) as Ho.
  destruct (ForegroundOverride.OpenWriter _ _ _) as [[] k|e k| |]; try done; [|cbn; by rewrite Hg].
  clear Ho; set (s1 := set_mForegroundOverride k s).
  assert (fresh (set_gInstance Instance s1)) as H1 by (destruct Hs; by split).
  unfold on_throw at 1; unfold st_bind at 1; change (gInstance s1) with (gInstance s); rewrite Hg.
  destruct (negb wt_loaded); [unfold throw; cbn [within]; rewrite drop_override_instance; cbn; by rewrite Hg|].
  unfold modify; unfold st_bind at 1; set (s2 := set_gInstance Instance s1) in *; clearbody s2.
  unfold on_throw at 1.
  assert (within (((match inject with Some d => hijack_driver fuel d | None => st_ret tt end) ;;
    ConnectToTablet fuel junk) s2) (fun _ s' => running s') (fun _ s' => fresh s') (blamed junk)) as He.
  { eapply within_bind with (Q := fun _ s' => fresh s').
    - destruct inject as [d|]; [|done].
      eapply within_weaken; [by apply (hijack_within M)|done|done|by right].
    - intros ? s3 H3; eapply within_weaken; [by apply (ConnectToTablet_within N)|done| |by left]; by intros ? ? (_ & ? & _). }
  destruct (st_bind _ _ s2); try done; cbn [within]; by rewrite drop_override_instance.
Qed.

Lemma Construct_ends `{!SaneDriver} M N fuel junk tid inject s :
  (forall t n r, (M <= length t)%nat -> InjectDll.os_query t n <> InjectDll.LengthMismatch r) ->
  (M < fuel)%nat -> InjectDll.modules_fit ->
  extensions_below N -> (N < fuel)%nat -> Z.of_nat fuel < 2 ^ 31 - 300 -> axis_ok junk ->
  fresh (set_gInstance Instance s) -> gInstance s = NoInstance ->
  ends (Construct fuel junk tid inject s) (fun _ s' => running s')
    (fun e s' => gInstance s' <> Instance).
Proof.
  intros HM Hf Hmod HN Hf2 Hf' Hj Hs Hg; eapply within_ends; [by apply (Construct_within M N)|].
  intros u [Hu|(_ & t & p & ms & cb & E & Hcb)]; [by apply (sane_not_blamed junk u)|].
  apply Hmod in E; lia.
Qed.

End driver.

(** ** Concrete drivers *)

Module Sample.
Definition axis : AXIS := mkAXIS 0 21600 0 0.
Definition packet : PACKET := mkPACKET (PK_X .| PK_Y .| PK_NORMAL_PRESSURE) 0 1234 5000 0 600.
Definition key : PACKETEXT := mkPACKETEXT (mkEXTENSIONBASE 1 0 0 0) (mkEXPKEYSDATA 0 3 0 0 1).
Definition opened (context : Z) : WintabDriver := {|
  wt_loaded := true;
  wt_exports _ := true;
  wt_defcontext _ := Some zero_LOGCONTEXTW;
  wt_axis _ _ := Some axis;
  wt_ext_tag _ c := if c =? WTI_EXTENSIONS then Some WTX_EXPKEYS2 else None;
  wt_ext_mask _ _ := Some 0x8000;
  wt_string _ _ _ := (str "Pen" ++ [0], 4);
  wt_open _ _ lc := (context, lc);
  wt_packet _ _ _ := Some packet;
  wt_packet_ext _ _ _ := Some key
|}.
Definition driver : WintabDriver := opened 1.
(** A driver with more keys than an [int] has bits, and a pen below the surface. *)
Definition many_keys : WintabDriver := {|
  wt_loaded := true;
  wt_exports _ := true;
  wt_defcontext _ := Some zero_LOGCONTEXTW;
  wt_axis _ _ := Some axis;
  wt_ext_tag _ c := if c =? WTI_EXTENSIONS then Some WTX_EXPKEYS2 else None;
  wt_ext_mask _ _ := Some 0x8000;
  wt_string _ _ _ := (str "Pen" ++ [0], 4);
  wt_open _ _ lc := (1, lc);
  wt_packet _ _ _ := Some (mkPACKET PK_Z 0 0 0 (-1) 0);
  wt_packet_ext _ _ _ := Some (mkPACKETEXT (mkEXTENSIONBASE 1 0 0 0) (mkEXPKEYSDATA 0 40 0 0 1))
|}.
Lemma many_keys_types : @DriverTypes many_keys.
Proof. split; [by intros ? ? ? [= <-]|by intros ? ? ? ? [= <-]]. Qed.

(** A driver that answers every query for a text in the same way. *)
Definition answering (r : bytes * Z) : WintabDriver := {|
  wt_loaded := true;
  wt_exports _ := true;
  wt_defcontext _ := None;
  wt_axis _ _ := None;
  wt_ext_tag _ _ := None;
  wt_ext_mask _ _ := None;
  wt_string _ _ _ := r;
  wt_open _ _ lc := (1, lc);
  wt_packet _ _ _ := None;
  wt_packet_ext _ _ _ := None
|}.

Lemma driver_sane c : @SaneDriver (opened c).
Proof.
  split.
  - split; [by intros ? ? ? [= <-]|by intros ? ? ? ? [= <-]].
  - done.
  - by intros ? ? ? [= <-].
  - intros; cbn; unfold INFO_BUFFER; lia.
  - by intros ? ? ? ? [= <-].
  - by intros ? ? ? ? [= <-].
Qed.

Definition config : BuildConfig := {|
  HijackDllName := str "hook.dll"; module_file_name := str "C:/adapter/wintab-adapter-64.exe" |}.

(** A handler that remembers the states it was given. *)
Definition recorder : Handler.IHandler (list V2.State) := {|
  Handler.handle_device _ := st_ret tt;
  Handler.handle_state st := modify (fun l => l ++ [st]) |}.
Definition recorder_spec : @Handler.HandlerSpec (list V2.State) recorder.
Proof. by refine {| Handler.accepts _ := True; Handler.ready _ := True |}. Defined.

Definition start : Tablet (list V2.State) :=
  new_Tablet 77 [] ForegroundOverride.Sample.fresh NoInstance.
Definition connected : Tablet (list V2.State) :=
  match @ConnectToTablet driver _ recorder 4 axis start with Ret _ s => s | _ => start end.
End Sample.

(** ** Properties *)

(** C10: what the tablet can do wrong is what the driver makes it do.  With any
    driver whose packets and axes are values of their types (that is all
    [DriverTypes] asks), a driver with fewer than [N] extensions and a system that
    at some point gives the list of processes, the constructor returns, or throws
    and leaves no pointer that counts as an object alive, or is undefined for one
    of the reasons of [blamed]: a function that is not exported, an axis (of the
    driver, or the uninitialised variable) whose extent is not a [LONG], a text
    longer than the buffer, a process of more than 1024 modules.  Once it has
    returned, every sequence of window messages is processed without exception and
    the handler is given well-formed states only after its device, unless one of
    the messages has a fault that is computed from the driver's answer to it
    ([fault]): a function that is not exported, a changed distance that is
    negative, a key numbered 32 or above; then it is undefined. *)
Theorem tablet_safe {HA : Arch} {HB : BuildConfig} {HW : WintabDriver}
    {HK : ForegroundOverride.KernelCalls} {HJ : InjectDll.InjectOS} {H : Type}
    {HI : Handler.IHandler H} {HL : Handler.HandlerSpec H} {HD : DriverTypes}
    (M N fuel : nat) (junk : AXIS) (tid window : Z) (handler : H) (k : ForegroundOverride.kernel)
    (injectInto : option InjectableBuggyDriver) :
  (forall t n r, (M <= length t)%nat -> InjectDll.os_query t n <> InjectDll.LengthMismatch r) ->
  extensions_below N -> Handler.accepts handler ->
  (M < fuel)%nat -> (N < fuel)%nat -> Z.of_nat fuel < 2 ^ 31 - 300 ->
  within (Construct fuel junk tid injectInto (new_Tablet window handler k NoInstance))
    (fun _ s => running s /\ forall ms,
       match fault_in ms s with
       | None => returns (ProcessMessages ms s) (fun _ s' => running s')
       | Some u => ProcessMessages ms s = Undef u
       end)
    (fun _ s => gInstance s <> Instance) (blamed junk).
Proof.
  intros HM HN Ha Hf1 Hf2 Hf3; eapply within_weaken;
    [apply (Construct_within M N); try done; by repeat split| |done|done].
  intros [] s Hs; split; [done|]; intros ms; apply (ProcessMessages_exact ms s Hs).
Qed.

(** A driver with a key numbered 40: the constructor returns, and the message of
    that key is the fault. *)
Lemma tablet_safe_witness :
  within (@Construct arch64 Sample.config Sample.many_keys ForegroundOverride.Sample.calls
          InjectDll.Sample.os _ Sample.recorder 4 Sample.axis 1 (Some HuionAlternate) Sample.start)
    (fun _ s => @running _ Sample.recorder Sample.recorder_spec s /\
       forall ms, match @fault_in arch64 Sample.many_keys _ Sample.recorder ms s with
         | None => returns (@ProcessMessages arch64 Sample.many_keys _ Sample.recorder ms s)
             (fun _ s' => @running _ Sample.recorder Sample.recorder_spec s')
         | Some u => @ProcessMessages arch64 Sample.many_keys _ Sample.recorder ms s = Undef u
         end)
    (fun _ s => gInstance s <> Instance)
    (@blamed arch64 Sample.many_keys InjectDll.Sample.os Sample.axis) /\
  @fault arch64 Sample.many_keys _ 77 WT_PACKETEXT 0 0 Sample.start = Some BadShift.
Proof.
  split; [|vm_compute; reflexivity].
  apply (@tablet_safe arch64 Sample.config Sample.many_keys ForegroundOverride.Sample.calls
    InjectDll.Sample.os (list V2.State) Sample.recorder Sample.recorder_spec Sample.many_keys_types
    0 1 4 Sample.axis 1 77 [] ForegroundOverride.Sample.fresh (Some HuionAlternate)).
  - done.
  - intros t j Hj; cbn; destruct (Z.eqb_spec (WTI_EXTENSIONS + j) WTI_EXTENSIONS); [lia|done].
  - done.
  - lia.
  - lia.
  - cbn; lia.
Defined.

(** C20: a packet updates exactly what it says has changed.  The members whose bit
    is in [pkChanged] get the packet's value and become valid, all others keep
    value and validity; express keys, proximity and header are untouched.  The
    hover distance goes through [float]: it is the reported one exactly below
    2^24, and within one part in 2^24 of it above; a negative one has no
    result. *)
Theorem packet_updates_changed (maxY : Z) (p : PACKET) (st st' : V2.State) :
  apply_packet maxY p st = Some st' ->
  (V2.st_header st' = V2.st_header st /\ V2.auxButtons st' = V2.auxButtons st /\
   V2.penIsNearSurface st' = V2.penIsNearSurface st) /\
  V2.x st' = (if changed p PK_X then float_bits (int_to_float (pkX p)) else V2.x st) /\
  V2.y st' = (if changed p PK_Y
              then float_bits (float_sub (float_of_bits maxY) (int_to_float (pkY p)))
              else V2.y st) /\
  V2.pressure st' = (if changed p PK_NORMAL_PRESSURE then pkNormalPressure p else V2.pressure st) /\
  V2.penButtons st' = (if changed p PK_BUTTONS then u32 (pkButtons p) else V2.penButtons st) /\
  (if changed p PK_Z then float_to_u32 (int_to_float (pkZ p)) = Some (V2.hoverDistance st')
   else V2.hoverDistance st' = V2.hoverDistance st) /\
  (changed p PK_Z = true -> is_s 32 (pkZ p) ->
     0 <= pkZ p /\ 2 ^ 24 * Z.abs (V2.hoverDistance st' - pkZ p) <= pkZ p /\
     (pkZ p < 2 ^ 24 -> V2.hoverDistance st' = pkZ p)) /\
  (V2.HasData st' V2.ValidMask.PositionX = V2.HasData st V2.ValidMask.PositionX || changed p PK_X) /\
  (V2.HasData st' V2.ValidMask.PositionY = V2.HasData st V2.ValidMask.PositionY || changed p PK_Y) /\
  (V2.HasData st' V2.ValidMask.Pressure =
     V2.HasData st V2.ValidMask.Pressure || changed p PK_NORMAL_PRESSURE) /\
  (V2.HasData st' V2.ValidMask.PenButtons =
     V2.HasData st V2.ValidMask.PenButtons || changed p PK_BUTTONS) /\
  (V2.HasData st' V2.ValidMask.HoverDistance =
     V2.HasData st V2.ValidMask.HoverDistance || changed p PK_Z) /\
  (V2.HasData st' V2.ValidMask.AuxButtons = V2.HasData st V2.ValidMask.AuxButtons) /\
  (V2.HasData st' V2.ValidMask.PenIsNearSurface = V2.HasData st V2.ValidMask.PenIsNearSurface).
Proof.
  rewrite apply_packet_eq.
  destruct (if changed p PK_Z then _ else _) as [z|] eqn:Ez; [|congruence].
  intros E; apply (inj Some) in E; rewrite <- E; clear E st'.
  split; [done|]; do 4 (split; [done|]).
  split; [destruct (changed p PK_Z); [done|by injection Ez as <-]|].
  split.
  { cbn [V2.hoverDistance]; intros Hc Hz; rewrite Hc in Ez; pose proof (float_to_u32_near _ Hz) as Hn.
    rewrite Ez in Hn; destruct Hn as [H0 Hn]; unfold near in Hn; split_and!; [done|lia|].
    intros Hlt; rewrite float_to_u32_int in Ez by lia; destruct (Z.leb_spec 0 (pkZ p)); [by injection Ez|lia]. }
  rewrite !V2.HasData_PositionX, !V2.HasData_PositionY, !V2.HasData_Pressure, !V2.HasData_PenButtons,
    !V2.HasData_HoverDistance, !V2.HasData_AuxButtons, !V2.HasData_PenIsNearSurface; cbn [V2.validBits].
  rewrite !packet_bits_testbit by lia; cbn [Z.eqb Pos.eqb]; rewrite !andb_false_r, !andb_true_r, !orb_false_r.
  done.
Qed.

Lemma packet_updates_changed_witness :
  exists st', apply_packet 0 Sample.packet V2.new_State = Some st' /\
    V2.pressure st' = 600 /\ V2.HasData st' V2.ValidMask.Pressure = true /\
    V2.HasData st' V2.ValidMask.PenButtons = false.
Proof.
  eexists; split; [vm_compute; reflexivity|].
  pose proof (packet_updates_changed 0 Sample.packet V2.new_State _ eq_refl)
    as (_ & _ & _ & Hp & _ & _ & _ & _ & _ & Hv & Hb & _).
  split; [exact Hp|]; split; [exact Hv|exact Hb].
Defined.

(** Positions are exact.  On a tablet with less than 2^24 points per axis the
    position that is sent is the position the driver reported, with the vertical
    axis turned over: the pen at [(pkX, pkY)] is sent as [(pkX, maxY - pkY)],
    with no rounding. *)
Theorem packet_position_exact (maxY : Z) (p : PACKET) (st st' : V2.State) :
  Z.abs (pkX p) < 2 ^ 24 -> 0 <= pkY p <= maxY -> maxY < 2 ^ 24 ->
  changed p PK_X = true -> changed p PK_Y = true ->
  apply_packet (float_bits (int_to_float maxY)) p st = Some st' ->
  float_trunc (float_of_bits (V2.x st')) = Some (pkX p) /\
  float_trunc (float_of_bits (V2.y st')) = Some (maxY - pkY p) /\
  V2.y st' = float_bits (int_to_float (maxY - pkY p)) /\
  V2.HasData st' V2.ValidMask.Position = true.
Proof.
  intros Hx Hy Hm Ex Ey; rewrite apply_packet_eq, Ex, Ey.
  destruct (if changed p PK_Z then _ else _) as [z|]; [|congruence].
  intros E; apply (inj Some) in E; rewrite <- E; clear E st'.
  cbn [V2.x V2.y]; rewrite V2.HasData_Position; cbn [V2.validBits].
  rewrite !bits_int_to_float, float_sub_exact by lia.
  rewrite bits_int_to_float by lia; rewrite !int_to_float_exact by lia.
  rewrite !packet_bits_testbit, Ex, Ey by lia; cbn [Z.eqb Pos.eqb andb].
  by rewrite !orb_true_r.
Qed.

Lemma packet_position_exact_witness :
  exists st', apply_packet (float_bits (int_to_float 13500)) Sample.packet V2.new_State = Some st' /\
    float_trunc (float_of_bits (V2.x st')) = Some 1234 /\
    float_trunc (float_of_bits (V2.y st')) = Some 8500.
Proof.
  eexists; split; [vm_compute; reflexivity|].
  pose proof (packet_position_exact 13500 Sample.packet V2.new_State _ ltac:(cbn; lia) ltac:(cbn; lia)
    ltac:(lia) eq_refl eq_refl eq_refl) as (Hx & Hy & _).
  split; [exact Hx|exact Hy].
Defined.

(** C24: how precise positions are.  Whatever 32-bit coordinates the driver reports,
    the horizontal position that is sent differs from the reported one by at most
    one part in 2^24 of it, and the vertical one from [maxY - pkY] by at most
    three parts in 2^24 of the two numbers together.  When the pen is on the
    tablet ([0 <= pkY <= maxY]) that is at most four parts in 2^24 of the height,
    and on a tablet with less than 2^24 points per axis both are exact. *)
Theorem packet_position_bound (maxY : Z) (p : PACKET) (st st' : V2.State) :
  packet_wf p -> is_s 32 maxY ->
  changed p PK_X = true -> changed p PK_Y = true ->
  apply_packet (float_bits (int_to_float maxY)) p st = Some st' ->
  exists x y, float_trunc (float_of_bits (V2.x st')) = Some x /\
    float_trunc (float_of_bits (V2.y st')) = Some y /\
    2 ^ 24 * Z.abs (x - pkX p) <= Z.abs (pkX p) /\
    2 ^ 24 * Z.abs (y - (maxY - pkY p)) <= 3 * (Z.abs maxY + Z.abs (pkY p)) /\
    (0 <= pkY p <= maxY -> 2 ^ 24 * Z.abs (y - (maxY - pkY p)) <= 4 * maxY) /\
    (Z.abs (pkX p) < 2 ^ 24 -> 0 <= pkY p <= maxY -> maxY < 2 ^ 24 -> x = pkX p /\ y = maxY - pkY p).
Proof.
  intros (_ & _ & Hx & Hy & _) Hm Ex Ey Ep.
  pose proof (fun H1 Hr H2 => packet_position_exact maxY p st st' H1 Hr H2 Ex Ey Ep) as Hexact.
  revert Hexact Ep; rewrite apply_packet_eq, Ex, Ey; unfold is_s in *; intros Hexact.
  destruct (if changed p PK_Z then _ else _) as [h|]; [|congruence].
  intros E; apply (inj Some) in E; rewrite <- E in *; clear E st'; cbn [V2.x V2.y] in *.
  destruct (int_to_float_near (pkX p)) as (x & Ix & Nx); [lia|].
  destruct (int_to_float_near (pkY p)) as (y & Iy & Ny); [lia|].
  destruct (int_to_float_near maxY) as (m & Im & Nm); [lia|]; unfold near in *.
  rewrite (integral_bits _ _ Im), (integral_bits _ _ Ix), (integral_trunc _ _ Ix) in *.
  destruct (float_sub_near _ _ _ _ Im Iy ltac:(lia) ltac:(lia)) as (z & Iz & Nz); unfold near in Nz.
  rewrite (integral_bits _ _ Iz), (integral_trunc _ _ Iz) in *.
  exists x, z; split_and!; [done|done|done|lia|lia|].
  intros H1 Hr H2; by destruct (Hexact H1 Hr H2) as ([= ->] & [= ->] & _).
Qed.

(** A tablet of 2^30 + 1 points in height, with the pen at an odd line. *)
Lemma packet_position_bound_witness :
  exists st' x y, apply_packet (float_bits (int_to_float 1073741825)) Sample.packet V2.new_State = Some st' /\
    float_trunc (float_of_bits (V2.x st')) = Some x /\
    float_trunc (float_of_bits (V2.y st')) = Some y /\ 2 ^ 24 * Z.abs (x - 1234) <= 1234 /\
    2 ^ 24 * Z.abs (y - (1073741825 - 5000)) <= 3 * (1073741825 + 5000) /\
    (0 <= 5000 <= 1073741825 -> 2 ^ 24 * Z.abs (y - (1073741825 - 5000)) <= 4 * 1073741825) /\
    (1234 < 2 ^ 24 -> 0 <= 5000 <= 1073741825 -> 1073741825 < 2 ^ 24 -> x = 1234 /\ y = 1073741825 - 5000).
Proof.
  eexists; edestruct (packet_position_bound 1073741825 Sample.packet V2.new_State) as (x & y & H).
  - by repeat split.
  - done.
  - reflexivity.
  - reflexivity.
  - vm_compute; reflexivity.
  - exists x, y; split; [vm_compute; reflexivity|exact H].
Defined.

(** C35: express keys.  A key message sets or clears the bit of its key among the
    first 16 and no other bit; a key numbered 16 to 31 changes no bit, because
    the mask is computed in 16 bits. *)
Theorem express_keys (k : EXPKEYSDATA) (st st' : V2.State) (i : Z) :
  0 <= nControl k -> V2.state_wf st -> 0 <= i < 32 -> apply_control k st = Some st' ->
  Z.testbit (V2.auxButtons st') i =
    (if (i =? nControl k) && (i <? 16) then truthy (nState k) else Z.testbit (V2.auxButtons st) i) /\
  V2.HasData st' V2.ValidMask.AuxButtons = true.
Proof.
  intros Hk Hst Hi; unfold apply_control, control_mask.
  destruct (Z.ltb_spec (nControl k) 32) as [Hlt|]; [|done]; intros [= <-]; cbn [V2.auxButtons upd_aux].
  rewrite V2.HasData_AuxButtons; cbn [V2.validBits upd_aux]; split.
  - assert (Z.testbit (u16 (1 << nControl k)) i = (i =? nControl k) && (i <? 16)) as Hm.
    { unfold u16; rewrite wrap_testbit, testbit_one_shl by lia; apply andb_comm. }
    destruct (truthy (nState k)).
    + rewrite Z.lor_spec, Hm; destruct (_ && _); [apply orb_true_r|apply orb_false_r].
    + unfold u32; rewrite wrap_testbit, Z.land_spec, Z.lnot_spec, Hm by lia.
      destruct (Z.ltb_spec i 32); [|lia]; destruct ((i =? nControl k) && (i <? 16)); cbn;
        [apply andb_false_r|apply andb_true_r].
  - unfold valid, V2.mask_or, u32; rewrite wrap_testbit, Z.lor_spec by lia.
    unfold V2.ValidMask.AuxButtons; rewrite (testbit_one_shl 4 4) by lia; apply orb_true_r.
Qed.

Lemma express_keys_witness :
  exists st', apply_control (mkEXPKEYSDATA 0 3 0 0 1) V2.new_State = Some st' /\
    Z.testbit (V2.auxButtons st') 3 = true /\ V2.HasData st' V2.ValidMask.AuxButtons = true.
Proof.
  eexists; split; [vm_compute; reflexivity|].
  apply (express_keys (mkEXPKEYSDATA 0 3 0 0 1) V2.new_State _ 3);
    [cbn; lia|by vm_compute|lia|vm_compute; reflexivity].
Defined.

(** The text of the driver.  The trailing characters up to the space that
    drivers leave after a text are removed, and nothing else: a text that ends in
    a character above the space comes back as it is, whatever junk follows it in
    the buffer. *)
Theorem info_string_trimmed {HA : Arch} {HW : WintabDriver} {H : Type} (category index : Z)
    (text junk : bytes) (c : Z) (s : Tablet H) :
  wt_exports WTInfoA = true ->
  wt_string (driver s) category index =
    (text ++ [c] ++ junk, Z.of_nat (length (text ++ [c] ++ junk))) ->
  (length (text ++ [c] ++ junk) <= INFO_BUFFER)%nat ->
  32 < schar c -> Forall (fun d => schar d <= 32) junk ->
  returns (GetInfoString category index s) (fun r s' => r = text ++ [c] /\ queries s s').
Proof.
  intros Hx Es Hl Hc Hj; unfold GetInfoString, call; rewrite Hx; unfold st_bind; cbv zeta; rewrite Es.
  destruct (Nat.ltb_spec INFO_BUFFER (length (text ++ [c] ++ junk))); [lia|]; cbn [st_ret returns].
  split; [|apply queries_log].
  rewrite Nat2Z.id, resize_written, (app_assoc text) by done; by apply trim_junk_app.
Qed.

Lemma info_string_trimmed_witness :
  returns (@GetInfoString Sample.driver (list V2.State) 100 1 Sample.start)
    (fun r s' => r = str "Pe" ++ str "n" /\ queries Sample.start s').
Proof.
  apply (@info_string_trimmed arch64 Sample.driver (list V2.State) 100 1 (str "Pe") [0] 110 Sample.start);
    [reflexivity|reflexivity|cbn; unfold INFO_BUFFER; lia|by vm_compute|].
  constructor; [by vm_compute|constructor].
Defined.

(** An empty identifier is not recognised as empty.  A driver that answers
    the query for the plug-and-play identifier with an empty, terminated text
    gives the tablet the identifier "wintab-pnpid:" with nothing after it, and
    the interface identifier that would tell tablets apart is not asked for. *)
Theorem empty_pnp_id_used {HW : WintabDriver} {H : Type} (s : Tablet H) :
  wt_exports WTInfoA = true -> wt_string (driver s) WTI_DEVICES DVC_PNPID = ([0], 1) ->
  returns (IdentifyTablet (replicate 256 0) s) (fun id s' =>
    until_nul id = str "wintab-pnpid:" /\
    driver s' = driver s ++ [EInfoString WTI_DEVICES DVC_PNPID [0] 1]).
Proof.
  intros Hx Es; unfold IdentifyTablet, GetInfoString, call; rewrite Hx; unfold st_bind; cbv zeta; rewrite Es.
  by vm_compute.
Qed.

Lemma empty_pnp_id_used_witness :
  exists HW : WintabDriver,
  returns (@IdentifyTablet HW (list V2.State) (replicate 256 0) Sample.start) (fun id s' =>
    until_nul id = str "wintab-pnpid:" /\ driver s' = [EInfoString WTI_DEVICES DVC_PNPID [0] 1]).
Proof.
  exists (Sample.answering ([0], 1)).
  apply (@empty_pnp_id_used (Sample.answering ([0], 1)) (list V2.State) Sample.start); reflexivity.
Defined.

(** C38: a constructor that throws leaves a dangling pointer.  When the driver
    does not open a context, the constructor throws a pointer (not an exception
    object) and [gInstance] still points to the object that was never finished:
    the next tablet message is an access to it. *)
Theorem failed_open_dangles {HA : Arch} {HB : BuildConfig} {HW : WintabDriver}
    {HK : ForegroundOverride.KernelCalls} {HJ : InjectDll.InjectOS} {H : Type}
    {HI : Handler.IHandler H} {HL : Handler.HandlerSpec H} {HS : SaneDriver}
    (N fuel : nat) (junk : AXIS) (tid window hwnd wParam lParam : Z) (handler : H)
    (k : ForegroundOverride.kernel) :
  ForegroundOverride.owner k = None -> ForegroundOverride.create_mutex_error = None ->
  ForegroundOverride.create_mapping_error = None -> ForegroundOverride.map_view_error = None ->
  wt_loaded = true -> (forall t w lc, fst (wt_open t w lc) = 0) ->
  extensions_below N -> axis_ok junk -> Handler.accepts handler ->
  (N < fuel)%nat -> Z.of_nat fuel < 2 ^ 31 - 300 ->
  exists s, Construct fuel junk tid None (new_Tablet window handler k NoInstance) =
      Exn (PointerThrown "Failed to open wintab tablet") s /\
    ProcessMessage hwnd WT_PACKET wParam lParam s = Undef DanglingPointer.
Proof.
  intros Ho Em Ep Ev Hl Hopen HN Hj Ha Hf Hf'.
  set (s0 := new_Tablet window handler k NoInstance).
  set (s1 := set_mForegroundOverride (ForegroundOverride.set_view window
    (ForegroundOverride.set_owner (Some (tid, 1%nat)) k)) s0).
  assert (fresh (set_gInstance Instance s1)) as H1 by by repeat split.
  destruct (ConnectToTablet_fails N fuel junk _ HN Hf Hf' Hj H1 Hopen) as (s2 & E2 & H2).
  exists (drop_override (set_gInstance Dangling s2)); split.
  - unfold Construct, gets; unfold st_bind at 1 2; unfold zoom.
    unfold ForegroundOverride.OpenWriter, ForegroundOverride.OpenOverride, ForegroundOverride.acquire.
    unfold st_bind at 1 2; rewrite Em; cbn [mForegroundOverride s0 new_Tablet]; rewrite Ho.
    cbn [negb]; rewrite Ep, Ev; unfold st_ret, modify; unfold on_throw at 1; unfold st_bind at 1.
    cbn [mForegroundOverride gInstance set_mForegroundOverride s0 new_Tablet]; rewrite Hl; cbn [negb].
    unfold st_bind at 1; unfold on_throw; unfold st_bind at 1; fold s0.
    by change (mWindow s0) with window; fold s1; rewrite E2.
  - unfold ProcessMessage; change (CanProcessMessage WT_PACKET) with true; cbn [negb].
    unfold gets, st_bind; by rewrite drop_override_instance.
Qed.

Lemma failed_open_dangles_witness :
  exists s, @Construct arch64 Sample.config (Sample.opened 0) ForegroundOverride.Sample.calls
      InjectDll.Sample.os _ Sample.recorder 4 Sample.axis 1 None Sample.start =
      Exn (PointerThrown "Failed to open wintab tablet") s /\
    @ProcessMessage arch64 (Sample.opened 0) _ Sample.recorder 77 WT_PACKET 0 0 s = Undef DanglingPointer.
Proof.
  apply (@failed_open_dangles arch64 Sample.config (Sample.opened 0) ForegroundOverride.Sample.calls
    InjectDll.Sample.os (list V2.State) Sample.recorder Sample.recorder_spec (Sample.driver_sane 0)
    1 4 Sample.axis 1 77 77 0 0 [] ForegroundOverride.Sample.fresh); try reflexivity; try (cbn; lia).
  - intros t j Hj; cbn; destruct (Z.eqb_spec (WTI_EXTENSIONS + j) WTI_EXTENSIONS); [lia|done].
  - by split.
Defined.

(** The handler is told the device before anything else.  A connection that
    succeeds, with any driver, has made exactly one call to the handler,
    [SetDevice] with the description the object keeps; the context is open and
    has been brought to the top last.  The tablet number in the description is
    the one it had before: the counter [mNextTabletID] is not used. *)
Theorem device_announced {HW : WintabDriver} {H : Type} {HI : Handler.IHandler H}
    (fuel : nat) (junk : AXIS) (s s' : Tablet H) :
  ConnectToTablet fuel junk s = Ret tt s' ->
  Handler.handle_device (mDeviceInfo s') (mHandler s) = Ret tt (mHandler s') /\
  mContext s' <> 0 /\ last (driver s') = Some (EOverlap (mContext s') true) /\
  V2.di_header (mDeviceInfo s') = V2.di_header (mDeviceInfo s) /\ mState s' = mState s.
Proof.
  unfold ConnectToTablet; intros E.
  apply bind_Ret in E as ([lc axis] & s1 & E1 & E); apply asking_describe in E1 as [t1 ->].
  apply bind_Ret in E as (window & s2 & [= _ <-] & E).
  apply bind_Ret in E as ([ctx lc'] & s3 & E3 & E); apply asking_call in E3 as [t3 ->].
  apply bind_Ret in E as ([] & s4 & [= <-] & E).
  destruct (Z.eqb_spec ctx 0) as [|Hctx]; [done|].
  apply bind_Ret in E as ([] & s5 & [= <-] & E).
  apply bind_Ret in E as (d0 & s6 & [= Ed <-] & E).
  apply bind_Ret in E as (nm & s7 & E7 & E); apply asking_string in E7 as [t7 ->].
  apply bind_Ret in E as (id & s8 & E8 & E); apply asking_identify in E8 as [t8 ->].
  apply bind_Ret in E as ([] & s9 & [= <-] & E).
  set (d := V2.mkDeviceInfo _ _ _ _ _ _) in E; assert (V2.di_header d = V2.di_header (mDeviceInfo s)) as Hh
    by (unfold d; by rewrite <- Ed); clearbody d.
  apply bind_Ret in E as ([] & s10 & E10 & E); apply ActivateContext_eq in E as ->.
  unfold zoom in E10; cbn in E10.
  destruct (Handler.handle_device d (mHandler s)) as [[] h'| | |] eqn:Eh; try done.
  injection E10 as <-; cbn; split; [exact Eh|]; split; [done|]; split; [apply last_snoc|done].
Qed.

Lemma device_announced_witness :
  mContext Sample.connected <> 0 /\
  last (driver Sample.connected) = Some (EOverlap (mContext Sample.connected) true).
Proof.
  destruct (@device_announced Sample.driver _ Sample.recorder 4 Sample.axis Sample.start Sample.connected)
    as (_ & Hc & Hl & _); [vm_compute; reflexivity|]; split; [exact Hc|exact Hl].
Defined.

End TabletProofs.
