(* ===== verification/TabletLife.v ===== *)
(** * The life of the tablet object

    What the object holds outside the process, from its constructor to its
    destructor: the context of the driver, opened by [ConnectToTablet], brought
    to the top by [ActivateContext] and closed by the destructor, and the mutex
    of the foreground override. *)

From S2P Require Import Prelude Layout V2Messages Handler ForegroundOverride InjectDll Wintab WintabTablet TabletProofs.
Import Wintab WintabTablet TabletProofs.

Module TabletLife.

Create HintDb life.

(** The context that is open after a sequence of calls to the driver; [None] when
    a context was opened while another was open, or when one that is not open was
    moved or closed.  Packets are asked for by the context of the message. *)
Definition context_step (held : option Z) (e : event) : option (option Z) :=
  match e with
  | EOpen _ _ _ c => if c =? 0 then Some held else match held with None => Some (Some c) | Some _ => None end
  | EOverlap c _ => if decide (held = Some c) then Some held else None
  | EClose c => if decide (held = Some c) then Some None else None
  | _ => Some held
  end.
Definition contexts (t : list event) : option (option Z) :=
  foldl (fun o e => o ≫= fun held => context_step held e) (Some None) t.

Lemma contexts_snoc t e : contexts (t ++ [e]) = contexts t ≫= fun held => context_step held e.
Proof. unfold contexts; by rewrite foldl_app. Qed.

(** Queries and packets. *)
Definition neutral (e : event) : Prop :=
  match e with EOpen _ _ _ _ | EOverlap _ _ | EClose _ => False | _ => True end.

Lemma contexts_neutral t e : neutral e -> contexts (t ++ [e]) = contexts t.
Proof. intros He; rewrite contexts_snoc; destruct (contexts t); [|done]; by destruct e. Qed.

(** [P] holds in the state that is left, however the run ends. *)
Definition stays {H A} (P : Tablet H -> Prop) (r : res (Tablet H) A) : Prop :=
  match r with Ret _ s | Exn _ s => P s | _ => True end.

Section life.
Context {HA : Arch} {HB : BuildConfig} {HW : WintabDriver} {HK : ForegroundOverride.KernelCalls}.
Context {HJ : InjectDll.InjectOS} {H : Type} {HI : Handler.IHandler H}.
Context (tid : Z).

(** The object holds the mutex, and no context or the one in [mContext]. *)
Definition locked (s : Tablet H) : Prop :=
  ForegroundOverride.owner (mForegroundOverride s) = Some (tid, 1%nat).
Definition closed (s : Tablet H) : Prop :=
  contexts (driver s) = Some None /\ mContext s = 0 /\ locked s.
Definition open (s : Tablet H) : Prop :=
  contexts (driver s) = Some (Some (mContext s)) /\ mContext s <> 0 /\ locked s.

(** What members other than these and neutral calls leave alone. *)
Class Stable (P : Tablet H -> Prop) : Prop := {
  stable_log e s : neutral e -> P s -> P (log e s);
  stable_state st s : P s -> P (set_mState st s);
  stable_device d s : P s -> P (set_mDeviceInfo d s);
  stable_handler h s : P s -> P (set_mHandler h s);
  stable_injected i s : P s -> P (set_injected i s);
  stable_instance i s : P s -> P (set_gInstance i s)
}.

#[local] Instance closed_stable : Stable closed.
Proof. split; try done; intros e s He (Hc & Hm & Hl); split; [|done]; cbn; by rewrite contexts_neutral. Qed.
#[local] Instance open_stable : Stable open.
Proof. split; try done; intros e s He (Hc & Hm & Hl); split; [|done]; cbn; by rewrite contexts_neutral. Qed.

Definition keeps {A} (P : Tablet H -> Prop) (m : ST (Tablet H) A) : Prop := forall s, P s -> stays P (m s).

Section keeps.
Context (P : Tablet H -> Prop) {HP : Stable P}.

Lemma life_ret {A} (a : A) : keeps P (st_ret a).
Proof. by intros s Hs. Qed.
Lemma life_undef {A} u : keeps (A := A) P (undef u).
Proof. done. Qed.
Lemma life_throw {A} e : keeps (A := A) P (throw e).
Proof. by intros s Hs. Qed.
Lemma life_gets {A} (f : Tablet H -> A) : keeps P (gets f).
Proof. by intros s Hs. Qed.
Lemma life_bind {A B} (m : ST (Tablet H) A) (k : A -> ST (Tablet H) B) :
  keeps P m -> (forall a, keeps P (k a)) -> keeps P (st_bind m k).
Proof.
  intros Hm Hk s Hs; specialize (Hm s Hs); unfold st_bind; destruct (m s) as [a s1| | |]; try done.
  by apply Hk.
Qed.
Lemma life_call {A} f (m : list event -> A) e : (forall a, neutral (e a)) -> keeps P (call f m e).
Proof. intros He s Hs; unfold call; destruct (wt_exports f); [|done]; cbn; by apply stable_log. Qed.
Lemma life_modify f : (forall s, P s -> P (f s)) -> keeps P (modify f).
Proof. intros Hf s Hs; by apply Hf. Qed.
Lemma life_zoom {T A} get (set : T -> Tablet H -> Tablet H) (m : ST T A) :
  (forall x s, P s -> P (set x s)) -> keeps P (zoom get set m).
Proof. intros Hset s Hs; unfold zoom; destruct (m (get s)); try done; by apply Hset. Qed.
End keeps.

#[local] Hint Resolve life_ret life_undef life_throw life_gets : life.
#[local] Hint Extern 1 (keeps _ (call _ _ _)) => apply life_call; first [exact _ | by intros] : life.

Section phases.
Context (P : Tablet H -> Prop) {HP : Stable P}.

Lemma life_string c i : keeps P (GetInfoString c i).
Proof.
  apply life_bind; [auto with life|]; intros [w n]; destruct (_ <? _)%nat; auto with life.
Qed.
Lemma life_axis i a : keeps P (InfoAxis i a).
Proof. apply life_bind; auto with life. Qed.
Lemma life_extent a : keeps P (extent a).
Proof. unfold extent; destruct (is_sb _ _); auto with life. Qed.
Lemma life_scan fuel i lc : keeps P (ScanExtensions fuel i lc).
Proof.
  revert i; induction fuel as [|fuel IH]; intros i; cbn [ScanExtensions]; [done|].
  apply life_bind; [auto with life|]; intros [tag|]; [|auto with life].
  destruct (_ || _); [|apply IH]; apply life_bind; auto with life.
Qed.
#[local] Hint Resolve life_string life_axis life_extent life_scan : life.

Lemma life_describe fuel junk : keeps P (DescribeContext fuel junk).
Proof. unfold DescribeContext; repeat (apply life_bind; [auto with life|intros]); auto with life. Qed.

Lemma life_identify old : keeps P (IdentifyTablet old).
Proof.
  apply life_bind; [apply life_string|]; intros [|c id]; [|auto with life].
  apply life_bind; [apply life_string|]; intros [|c id]; auto with life.
Qed.

Lemma life_hijack fuel d : keeps P (hijack_driver fuel d).
Proof.
  assert (forall b exe, keeps P (hijack fuel b exe)) as Hh; [|destruct d; apply Hh].
  intros b exe; unfold hijack; destruct (negb _); [auto with life|].
  apply life_zoom; intros; by apply stable_injected.
Qed.
End phases.

(** The open context is brought to the top. *)
Lemma life_activate : keeps open ActivateContext.
Proof.
  intros s (Hc & Hm & Hl); unfold ActivateContext, gets, call, st_bind.
  destruct (wt_exports WTOverlap); [|done]; cbn; split; [|done].
  cbn; rewrite contexts_snoc, Hc; cbn; by rewrite decide_True.
Qed.

Lemma life_message m w l : keeps open (ProcessMessageImpl m w l).
Proof.
  unfold ProcessMessageImpl; destruct (m =? WT_PROXIMITY).
  { apply life_bind; [|auto with life]; apply life_modify; intros ?; apply stable_state. }
  destruct (m =? WT_CTXOVERLAP).
  { apply life_bind; [auto with life|]; intros c; apply life_bind; [|auto with life].
    destruct (_ && _); [|auto with life]; apply life_bind; [|intros; apply life_activate].
    apply life_modify; intros ?; by apply stable_log. }
  destruct (m =? WT_PACKET).
  { apply life_bind; [auto with life|]; intros [p|]; [|auto with life].
    do 2 (apply life_bind; [auto with life|]; intros ?).
    destruct (apply_packet _ _ _); [|auto with life]; apply life_bind; [|auto with life].
    apply life_modify; intros ?; apply stable_state. }
  destruct (m =? WT_PACKETEXT); [|auto with life].
  apply life_bind; [auto with life|]; intros [p|]; [|auto with life].
  apply life_bind; [auto with life|]; intros ?.
  destruct (apply_control _ _); [|auto with life]; apply life_bind; [|auto with life].
  apply life_modify; intros ?; apply stable_state.
Qed.

Lemma life_process hwnd m w l : keeps open (ProcessMessage hwnd m w l).
Proof.
  unfold ProcessMessage; destruct (negb _); [auto with life|]; apply life_bind; [auto with life|]; intros []; auto with life.
  apply life_bind; [auto with life|]; intros window; destruct (negb _); [auto with life|].
  apply life_bind; [apply life_message|]; intros []; [|auto with life].
  apply life_bind; [auto with life|]; intros st; apply life_bind; [|auto with life].
  apply life_zoom; intros; by apply stable_handler.
Qed.

Lemma life_messages ms : keeps open (ProcessMessages ms).
Proof.
  induction ms as [|[[[hwnd m] w] l] ms IH]; cbn [ProcessMessages]; [auto with life|].
  apply life_bind; [apply life_process|intros; apply IH].
Qed.

(** [ConnectToTablet] opens a context, or fails without one; what comes after may
    fail with it. *)
Lemma connect_life fuel junk s : closed s ->
  match ConnectToTablet fuel junk s with
  | Ret _ s' => open s'
  | Exn _ s' => closed s' \/ open s'
  | _ => True
  end.
Proof.
  intros Hs; unfold ConnectToTablet; unfold st_bind at 1.
  pose proof (life_describe closed fuel junk s Hs) as H1.
  destruct (DescribeContext fuel junk s) as [[lc axis] s1|e s1| |]; try done; [|by left].
  cbn in H1; destruct H1 as (Hc & Hm & Hl).
  unfold gets at 1; unfold st_bind at 1; unfold st_bind at 1; unfold call at 1.
  destruct (wt_exports WTOpenW); [|done].
  destruct (wt_open (driver s1) (mWindow s1) lc) as [ctx lc'] eqn:Eo; cbv zeta.
  unfold modify at 1; unfold st_bind at 1; set (s2 := set_mContext _ _).
  destruct (Z.eqb_spec ctx 0) as [->|Hctx].
  - left; split_and!; [|done|done]; cbn; by rewrite contexts_snoc, Hc.
  - assert (open s2) as H2.
    { split_and!; [|done|done]; cbn; rewrite contexts_snoc, Hc; cbn.
      by destruct (Z.eqb_spec ctx 0). }
    clearbody s2; match goal with |- match ?m s2 with _ => _ end => assert (keeps open m) as Hk end.
    { apply life_bind; [apply life_modify; intros ?; by apply stable_log|]; intros _.
      apply life_bind; [auto with life|]; intros d.
      apply life_bind; [by apply life_string; exact _|]; intros nm.
      apply life_bind; [by apply life_identify; exact _|]; intros id.
      apply life_bind; [apply life_modify; intros ?; apply stable_device|]; intros _.
      apply life_bind; [apply life_zoom; intros; by apply stable_handler|]; intros _.
      apply life_activate. }
    specialize (Hk s2 H2); match goal with |- match ?m s2 with _ => _ end => destruct (m s2) end; try done; by right.
Qed.

(** ** Construction and destruction *)

Lemma drop_locked s : locked s -> ForegroundOverride.owner (mForegroundOverride (drop_override s)) = None.
Proof. unfold locked, drop_override, ForegroundOverride.release, modify; intros E; cbn; by rewrite E. Qed.

Lemma drop_driver (s : Tablet H) : driver (drop_override s) = driver s.
Proof. done. Qed.

(** The mutex is taken when it was free, and given back on failure. *)
Lemma OpenWriter_owner window k : (forall n, ForegroundOverride.owner k <> Some (tid, n)) ->
  ends (ForegroundOverride.OpenWriter tid window k)
    (fun _ k' => ForegroundOverride.owner k = None /\ ForegroundOverride.owner k' = Some (tid, 1%nat))
    (fun _ k' => ForegroundOverride.owner k' = ForegroundOverride.owner k).
Proof.
  intros Hk; unfold ForegroundOverride.OpenWriter, ForegroundOverride.OpenOverride, ForegroundOverride.null_error.
  unfold st_bind, throw, modify, st_ret, ForegroundOverride.release, modify.
  destruct ForegroundOverride.create_mutex_error; [done|].
  unfold ForegroundOverride.acquire; destruct (ForegroundOverride.owner k) as [[o n]|] eqn:Eo; cbn.
  { destruct (Z.eqb_spec o tid) as [->|]; [by destruct (Hk n)|by cbn]. }
  destruct ForegroundOverride.create_mapping_error; [done|]; by destruct ForegroundOverride.map_view_error.
Qed.

Context {HL : Handler.HandlerSpec H} {HS : SaneDriver}.

Lemma connect_whole N fuel junk s :
  extensions_below N -> (N < fuel)%nat -> Z.of_nat fuel < 2 ^ 31 - 300 -> axis_ok junk -> fresh s -> closed s ->
  ends (ConnectToTablet fuel junk s) (fun _ s' => running s' /\ open s') (fun _ s' => closed s').
Proof.
  intros HN Hf Hf' Hj Hs Hc; pose proof (ConnectToTablet_running N fuel junk s HN Hf Hf' Hj Hs) as Hr.
  pose proof (connect_life fuel junk s Hc) as Hl; destruct (ConnectToTablet fuel junk s); try done.
  destruct Hr as (_ & _ & E), Hl as [?|(_ & ? & _)]; done.
Qed.

Lemma hijack_whole M fuel d s :
  (forall t n r, (M <= length t)%nat -> InjectDll.os_query t n <> InjectDll.LengthMismatch r) ->
  (M < fuel)%nat -> InjectDll.modules_fit -> fresh s -> closed s ->
  ends (hijack_driver fuel d s) (fun _ s' => fresh s' /\ closed s') (fun _ s' => closed s').
Proof.
  intros HM Hf Hm Hs Hc; pose proof (hijack_ends M fuel d s HM Hf Hm Hs) as He.
  pose proof (life_hijack closed fuel d s Hc) as Hk; by destruct (hijack_driver fuel d s).
Qed.

Lemma construct_whole M N fuel junk inject s :
  (forall t n r, (M <= length t)%nat -> InjectDll.os_query t n <> InjectDll.LengthMismatch r) ->
  (M < fuel)%nat -> InjectDll.modules_fit ->
  extensions_below N -> (N < fuel)%nat -> Z.of_nat fuel < 2 ^ 31 - 300 -> axis_ok junk ->
  fresh (set_gInstance Instance s) -> gInstance s = NoInstance -> contexts (driver s) = Some None ->
  mContext s = 0 -> (forall n, ForegroundOverride.owner (mForegroundOverride s) <> Some (tid, n)) ->
  ends (Construct fuel junk tid inject s)
    (fun _ s' => running s' /\ open s' /\ ForegroundOverride.owner (mForegroundOverride s) = None)
    (fun _ s' => contexts (driver s') = Some None /\
       ForegroundOverride.owner (mForegroundOverride s') = ForegroundOverride.owner (mForegroundOverride s)).
Proof.
  intros HM Hf Hmod HN Hf2 Hf' Hj Hs Hg Hc Hm Ho; unfold Construct, gets; unfold st_bind at 1.
  unfold st_bind at 1; unfold zoom at 1.
  pose proof (OpenWriter_owner (mWindow s) (mForegroundOverride s) Ho) as Hw.
  destruct (ForegroundOverride.OpenWriter _ _ _) as [[] k|e k| |]; try done.
  destruct Hw as [-> Hk]; set (s1 := set_mForegroundOverride k s).
  assert (fresh (set_gInstance Instance s1)) as H1 by (destruct Hs; by split).
  assert (closed s1) as H2 by done.
  unfold on_throw at 1; unfold st_bind at 1; change (gInstance s1) with (gInstance s); rewrite Hg.
  clearbody s1; clear Hk Hc Hm Hs.
  destruct (negb wt_loaded); [unfold throw; cbn [ends]; rewrite drop_locked by apply H2; by destruct H2|].
  unfold modify; unfold st_bind at 1; apply (stable_instance Instance) in H2.
  set (s2 := set_gInstance Instance s1) in *; clearbody s2; clear s1; unfold on_throw at 1.
  assert (ends (((match inject with Some d => hijack_driver fuel d | None => st_ret tt end) ;;
    ConnectToTablet fuel junk) s2) (fun _ s' => running s' /\ open s') (fun _ s' => closed s')) as He.
  { eapply ends_bind_exn with (Q := fun _ s' => fresh s' /\ closed s').
    - destruct inject as [d|]; [by apply (hijack_whole M)|done].
    - intros ? s3 [H3 H4]; by apply (connect_whole N). }
  destruct (st_bind _ _ s2) as [[] s3|e s3| |]; try done; cbn [ends] in *; [by destruct He|].
  apply (stable_instance Dangling) in He; rewrite drop_locked by apply He; by destruct He.
Qed.

(** The destructor closes the context and gives the mutex back. *)
Lemma destroy_whole s : open s -> returns (Destroy s) (fun _ s' =>
  contexts (driver s') = Some None /\ driver s' = driver s ++ [EClose (mContext s)] /\
  gInstance s' = NoInstance /\ ForegroundOverride.owner (mForegroundOverride s') = None).
Proof.
  intros (Hc & Hm & Hl); unfold Destroy, modify, gets, call, st_bind, truthy; cbn [mContext set_gInstance].
  destruct (Z.eqb_spec (mContext s) 0) as [?|_]; [done|]; cbn [negb].
  rewrite sane_exports; cbn [returns].
  split_and!; [|done|done|by apply drop_locked].
  cbn; rewrite contexts_snoc, Hc; cbn; by rewrite decide_True.
Qed.

Lemma processed_whole ms s : running s -> open s ->
  returns (ProcessMessages ms s) (fun _ s' => running s' /\ open s').
Proof.
  intros Hr Ho; pose proof (ProcessMessages_running ms s Hr) as H1; pose proof (life_messages ms s Ho) as H2.
  by destruct (ProcessMessages ms s).
Qed.
End life.


End TabletLife.
