(* ===== verification/Packets.v ===== *)
(** * Packets in memory

    src/include/wintab/PKTDEF.H makes the struct [PACKET] out of the macros that
    are defined when it is included: a member is there when its bit is in
    [PACKETDATA].  The driver stores a packet in the format of the context it
    belongs to, which is given by [lcPktData] and [lcPktMode] of the description
    the context was opened with.  This file has the struct as a function of these
    values, and what is in the variable after [WTPacket] has stored a packet
    there. *)

From S2P Require Import Prelude Layout V2Messages Handler ForegroundOverride Wintab WintabTablet TabletProofs.
Import Wintab WintabTablet TabletProofs.

Module Packets.

(** The types of the members. *)
Inductive ctype :=
  | t_HCTX | t_UINT | t_DWORD | t_WTPKT | t_LONG | t_int
  | t_ORIENTATION | t_ROTATION | t_TILT
  | t_EXTENSIONBASE | t_EXPKEYSDATA | t_SLIDERDATA.

Section structs.
Context {HA : Arch}.

Definition f_handle : field := let n := Z.to_nat (ArchBitness / 8) in Field n n.
Definition f_struct (fs : list field) : field := Field (struct_size fs) (max_align fs).

Definition field_of (t : ctype) : field :=
  match t with
  | t_HCTX => f_handle
  | t_UINT | t_DWORD | t_WTPKT | t_LONG | t_int => f_u32
  | t_ORIENTATION | t_ROTATION => f_struct [f_u32; f_u32; f_u32]
  | t_TILT => f_struct [f_u32; f_u32]
  | t_EXTENSIONBASE => f_struct [f_handle; f_u32; f_u32; f_u32]
  | t_EXPKEYSDATA | t_SLIDERDATA => f_struct [f_u8; f_u8; f_u8; f_u8; f_u32]
  end.
End structs.

(** [#if b]. *)
Definition when (b : bool) (name : string) (t : ctype) : list (string * ctype) :=
  if b then [(name, t)] else [].

(** An extension is used when its macro is one of the two values; a macro that is
    not defined counts as zero. *)
Definition ext_used (x : Z) : bool := (x =? PKEXT_RELATIVE) || (x =? PKEXT_ABSOLUTE).

Definition pressure_type (mode bit : Z) : ctype := if truthy (mode .& bit) then t_int else t_UINT.

(** [struct tagPACKET]. *)
Definition packet_members (data mode FKEYS TILT : Z) : list (string * ctype) :=
  when (truthy (data .& PK_CONTEXT)) "pkContext" t_HCTX ++
  when (truthy (data .& PK_STATUS)) "pkStatus" t_UINT ++
  when (truthy (data .& PK_TIME)) "pkTime" t_DWORD ++
  when (truthy (data .& PK_CHANGED)) "pkChanged" t_WTPKT ++
  when (truthy (data .& PK_SERIAL_NUMBER)) "pkSerialNumber" t_UINT ++
  when (truthy (data .& PK_CURSOR)) "pkCursor" t_UINT ++
  when (truthy (data .& PK_BUTTONS)) "pkButtons" t_DWORD ++
  when (truthy (data .& PK_X)) "pkX" t_LONG ++
  when (truthy (data .& PK_Y)) "pkY" t_LONG ++
  when (truthy (data .& PK_Z)) "pkZ" t_LONG ++
  when (truthy (data .& PK_NORMAL_PRESSURE)) "pkNormalPressure" (pressure_type mode PK_NORMAL_PRESSURE) ++
  when (truthy (data .& PK_TANGENT_PRESSURE)) "pkTangentPressure" (pressure_type mode PK_TANGENT_PRESSURE) ++
  when (truthy (data .& PK_ORIENTATION)) "pkOrientation" t_ORIENTATION ++
  when (truthy (data .& PK_ROTATION)) "pkRotation" t_ROTATION ++
  when (ext_used FKEYS) "pkFKeys" t_UINT ++
  when (ext_used TILT) "pkTilt" t_TILT.

(** [struct tagPACKETEXT]. *)
Definition packetext_members (EXPKEYS TOUCHSTRIP TOUCHRING : Z) : list (string * ctype) :=
  ("pkBase", t_EXTENSIONBASE) ::
  when (ext_used EXPKEYS) "pkExpKeys" t_EXPKEYSDATA ++
  when (ext_used TOUCHSTRIP) "pkTouchStrip" t_SLIDERDATA ++
  when (ext_used TOUCHRING) "pkTouchRing" t_SLIDERDATA.

(** The macros of src/src/WintabTablet.cpp; those of the other extensions are not
    defined. *)
Definition PACKETEXPKEYS : Z := PKEXT_ABSOLUTE.
Definition PACKET_members : list (string * ctype) := packet_members PACKETDATA PACKETMODE 0 0.
Definition PACKETEXT_members : list (string * ctype) := packetext_members PACKETEXPKEYS 0 0.

Section memory.
Context {HA : Arch}.

Definition fields_of (ms : list (string * ctype)) : list field := map (fun m => field_of (snd m)) ms.

#[global] Instance PACKET_wire : Wire PACKET := {
  wire_fields := fields_of PACKET_members;
  wire_put := fun p => [put_u 4 (pkChanged p); put_u 4 (pkButtons p); put_u 4 (pkX p); put_u 4 (pkY p);
                        put_u 4 (pkZ p); put_u 4 (pkNormalPressure p)];
  wire_get := fun l => match l with
    | [c; b; x; y; z; n] =>
        Some (mkPACKET (le_value c) (le_value b) (s32 (le_value x)) (s32 (le_value y))
                (s32 (le_value z)) (le_value n))
    | _ => None end;
  wire_wf := packet_wf
}.

(** The members of the packets of a context opened with the description [lc].
    Extensions in the mask that have no data in the packet add none. *)
Definition format (lc : LOGCONTEXTW) : list (string * ctype) :=
  packet_members (lcPktData lc) (lcPktMode lc) 0 0.

(** [PACKET packet {}] after [WTPacket] has stored [written] at its address;
    [None] when that is more than the object has room for. *)
Definition stored_packet (written : bytes) : option PACKET :=
  if sizeof PACKET <? Z.of_nat (length written) then None
  else decode (written ++ drop (length written) (encode (fun _ => 0) zero_PACKET)).

(** ** Sizes *)

Fixpoint total (fs : list field) : nat :=
  match fs with [] => 0%nat | f :: fs => (fsize f + total fs)%nat end.

Lemma end_offset_total off fs : aligned fs -> (off + total fs <= end_offset off fs)%nat.
Proof.
  intros Ha; revert off; induction Ha as [|f fs Hf Ha IH]; intros off; cbn; [lia|].
  pose proof (align_up_ge (falign f) off Hf); specialize (IH (align_up (falign f) off + fsize f)%nat); lia.
Qed.

Lemma struct_size_total fs : aligned fs -> (total fs <= struct_size fs)%nat.
Proof. intros Ha; pose proof (end_offset_total 0 fs Ha); pose proof (struct_size_ge fs); lia. Qed.

Lemma total_app fs gs : total (fs ++ gs) = (total fs + total gs)%nat.
Proof. induction fs; cbn; lia. Qed.

Lemma handle_size : fsize f_handle = 4%nat \/ fsize f_handle = 8%nat.
Proof. unfold f_handle; cbn; destruct arch_width as [-> | ->]; auto. Qed.

Lemma type_aligned t : (0 < falign (field_of t))%nat.
Proof.
  assert (0 < falign f_handle)%nat by (destruct handle_size as [E|E]; change (falign f_handle) with (fsize f_handle); lia).
  destruct t; cbn [field_of]; try done; try (cbn; lia); apply max_align_pos.
Qed.

Lemma members_aligned ms : aligned (fields_of ms).
Proof. apply Forall_map, Forall_forall; intros; apply type_aligned. Qed.

Lemma total_when b name t : total (fields_of (when b name t)) = if b then fsize (field_of t) else 0%nat.
Proof. destruct b; cbn; lia. Qed.

Lemma fields_app ms ns : fields_of (ms ++ ns) = fields_of ms ++ fields_of ns.
Proof. apply map_app. Qed.

Lemma type_size t : (4 <= fsize (field_of t))%nat.
Proof.
  destruct t; cbn [field_of]; try (cbn; lia).
  - destruct handle_size; lia.
  - cbn [f_struct fsize]; etrans; [|apply struct_size_total].
    + cbn; lia.
    + repeat constructor; cbn; try lia; apply (type_aligned t_HCTX).
Qed.

(** ** The format of the adapter's contexts *)

(** The items that are not extensions. *)
Definition STANDARD : Z := 0x3fff.

Lemma standard_bit data mask bit : mask .& STANDARD = 0 -> bit = STANDARD .& bit ->
  (data .| mask) .& bit = data .& bit.
Proof.
  intros Hm Hb; rewrite Z.land_lor_distr_l, Hb at 1; rewrite Hb at 2.
  by rewrite (Z.land_assoc mask), Hm, Z.land_0_l, Z.lor_0_r, <- Hb.
Qed.

Lemma members_standard data mask mode f t : mask .& STANDARD = 0 ->
  packet_members (data .| mask) mode f t = packet_members data mode f t.
Proof. intros Hm; unfold packet_members; by rewrite !(standard_bit data mask) by done. Qed.

Lemma bytes4 v : length v = 4%nat -> Forall is_byte v ->
  le_bytes 4 (le_value v) = v /\ is_u 32 (le_value v).
Proof.
  intros Hl Hv; pose proof (le_bytes_le_value v Hv) as E; pose proof (le_value_bound v Hv) as B.
  by rewrite Hl in E, B.
Qed.

(** A packet that is stored in the struct's own format. *)
Lemma stored_own pad vs : fits (fields_of PACKET_members) vs -> Forall (Forall is_byte) vs ->
  exists p, stored_packet (struct_bytes pad (fields_of PACKET_members) vs) = Some p /\
    packet_wf p /\ wire_put p = vs.
Proof.
  intros Hf Hb; unfold stored_packet.
  pose proof (length_struct_bytes pad _ vs (members_aligned _) Hf) as Hlen.
  destruct (Z.ltb_spec (sizeof PACKET) (Z.of_nat (length (struct_bytes pad (fields_of PACKET_members) vs)))) as [Hlt|_].
  { rewrite Hlen in Hlt; unfold sizeof in Hlt; cbn [wire_fields PACKET_wire] in Hlt; lia. }
  unfold decode; cbn [wire_fields wire_get wire_put PACKET_wire].
  rewrite get_struct_bytes by (done || apply members_aligned).
  assert (length vs = 6%nat) as H6 by (apply Forall2_length in Hf; by rewrite <- Hf).
  destruct vs as [|c [|b [|x [|y [|z [|n [|? ?]]]]]]]; try done.
  change (fields_of PACKET_members) with [f_u32; f_u32; f_u32; f_u32; f_u32; f_u32] in Hf; unfold fits in Hf.
  repeat match goal with H : Forall2 _ (_ :: _) _ |- _ => apply Forall2_cons_1 in H as [? H] end.
  repeat match goal with H : Forall _ (_ :: _) |- _ => apply Forall_cons_1 in H as [? H] end.
  cbn [fsize f_u32] in *.
  repeat match goal with H : length ?v = 4%nat |- _ => destruct (bytes4 v H) as [? ?]; [done|clear H] end.
  eexists; split; [reflexivity|]; unfold put_u, packet_wf; cbn [pkChanged pkButtons pkX pkY pkZ pkNormalPressure].
  rewrite !le_bytes_s32 by done; split; [|by repeat f_equal].
  split_and!; try done; apply s32_range.
Qed.
(** ** Formats with more items *)

Lemma sub_bit data d bit : data .& d = d -> bit = d .& bit -> data .& bit = bit.
Proof. intros Hd Hb; by rewrite Hb, Z.land_assoc, Hd. Qed.

Lemma truthy_lor x y : truthy (x .| y) = truthy x || truthy y.
Proof.
  unfold truthy; destruct (Z.eqb_spec (x .| y) 0) as [E|E], (Z.eqb_spec x 0) as [->|Ex], (Z.eqb_spec y 0) as [->|Ey]; try done.
  all: by apply Z.lor_eq_0_iff in E as [??].
Qed.

(** The items [PACKET] has no member for. *)
Definition OTHERS : Z := PK_CONTEXT .| PK_STATUS .| PK_TIME .| PK_SERIAL_NUMBER .| PK_CURSOR
  .| PK_TANGENT_PRESSURE .| PK_ORIENTATION .| PK_ROTATION.

Lemma more_items data mode f t : data .& PACKETDATA = PACKETDATA -> truthy (data .& OTHERS) = true ->
  (24 < struct_size (fields_of (packet_members data mode f t)))%nat.
Proof.
  intros Hd Ho; eapply Nat.lt_le_trans; [|apply struct_size_total, members_aligned].
  unfold packet_members; rewrite !fields_app, !total_app, !total_when.
  rewrite (sub_bit data PACKETDATA PK_CHANGED), (sub_bit data PACKETDATA PK_BUTTONS),
    (sub_bit data PACKETDATA PK_X), (sub_bit data PACKETDATA PK_Y), (sub_bit data PACKETDATA PK_Z),
    (sub_bit data PACKETDATA PK_NORMAL_PRESSURE) by done.
  change (truthy PK_CHANGED) with true; change (truthy PK_BUTTONS) with true; change (truthy PK_X) with true;
    change (truthy PK_Y) with true; change (truthy PK_Z) with true; change (truthy PK_NORMAL_PRESSURE) with true.
  unfold OTHERS in Ho; rewrite !Z.land_lor_distr_r, !truthy_lor, !orb_true_iff in Ho; cbv iota.
  pose proof type_size as Hs.
  pose proof (Hs t_WTPKT); pose proof (Hs t_DWORD); pose proof (Hs t_LONG); pose proof (Hs t_HCTX);
    pose proof (Hs t_UINT); pose proof (Hs (pressure_type mode PK_NORMAL_PRESSURE));
    pose proof (Hs (pressure_type mode PK_TANGENT_PRESSURE)); pose proof (Hs t_ORIENTATION); pose proof (Hs t_ROTATION).
  destruct_or! Ho; rewrite Ho; lia.
Qed.

Lemma stored_other pad data mode f t vs : data .& PACKETDATA = PACKETDATA -> truthy (data .& OTHERS) = true ->
  fits (fields_of (packet_members data mode f t)) vs ->
  stored_packet (struct_bytes pad (fields_of (packet_members data mode f t)) vs) = None.
Proof.
  intros Hd Ho Hf; unfold stored_packet.
  rewrite (length_struct_bytes pad _ vs (members_aligned _) Hf).
  pose proof (more_items data mode f t Hd Ho) as Hm.
  change (sizeof PACKET) with 24; destruct (Z.ltb_spec 24 (Z.of_nat (struct_size (fields_of (packet_members data mode f t))))); [done|lia].
Qed.

(** ** The contexts the adapter opens *)

Context {HW : WintabDriver} {H : Type}.

(** Extensions have bits of their own. *)
Definition own_masks : Prop := forall t c m, wt_ext_mask t c = Some m -> m .& STANDARD = 0.

Lemma scan_format fuel i lc (s : Tablet H) lc' s' : own_masks ->
  ScanExtensions fuel i lc s = Ret lc' s' -> format lc' = format lc.
Proof.
  intros Hm; revert i s; induction fuel as [|fuel IH]; intros i s; cbn [ScanExtensions]; [done|].
  unfold st_bind, call; destruct (wt_exports WTInfoW); [|done].
  destruct (wt_ext_tag _ _) as [tag|]; [|by intros [= <- <-]].
  destruct (_ || _); [|apply IH].
  destruct (wt_ext_mask _ _) as [m|] eqn:Em; intros [= <- <-]; unfold format; cbn.
  - apply members_standard; by eapply Hm.
  - by rewrite Z.lor_0_r.
Qed.

Lemma describe_format fuel junk (s : Tablet H) lc axis s' : own_masks ->
  DescribeContext fuel junk s = Ret (lc, axis) s' -> format lc = PACKET_members.
Proof.
  intros Hm; unfold DescribeContext, InfoAxis, extent; unfold st_bind, call, st_ret.
  destruct (wt_exports WTInfoW); [|done].
  repeat (destruct (is_sb _ _); [|done]).
  match goal with |- context [ScanExtensions ?f ?i ?l ?s] => destruct (ScanExtensions f i l s) as [lc1 s1| | |] eqn:E end;
    try done; intros [= <- _ _]; by rewrite (scan_format _ _ _ _ _ _ Hm E).
Qed.
End memory.

(** C25: packets of the adapter's own contexts fit the variable they are read into.
    For every description that [ConnectToTablet] opens a context with, a packet
    in the format of that context is exactly a [PACKET]: it is stored within the
    object, and each member holds what the driver stored for it.  A packet of a
    context that reports further items, which [WTPacket] is asked for when another
    program forwards its messages, does not fit: it is stored past the end. *)
Theorem packet_buffer {HA : Arch} {HW : WintabDriver} {H : Type} (fuel : nat) (junk axis : AXIS)
    (s s' : Tablet H) (lc : LOGCONTEXTW) (pad : nat -> Z) :
  own_masks -> DescribeContext fuel junk s = Ret (lc, axis) s' ->
  (forall vs, fits (fields_of (format lc)) vs -> Forall (Forall is_byte) vs ->
     exists p, stored_packet (struct_bytes pad (fields_of (format lc)) vs) = Some p /\
       packet_wf p /\ wire_put p = vs) /\
  (forall other vs, lcPktData other .& PACKETDATA = PACKETDATA ->
     truthy (lcPktData other .& OTHERS) = true -> fits (fields_of (format other)) vs ->
     stored_packet (struct_bytes pad (fields_of (format other)) vs) = None).
Proof.
  intros Hm E; rewrite (describe_format fuel junk s lc axis s' Hm E).
  split; [intros vs; apply stored_own|intros other vs; apply stored_other].
Qed.

(** The pen of the sample driver, and a context that also reports the time. *)
Lemma packet_buffer_witness :
  exists lc axis s, @DescribeContext Sample.driver (list V2.State) 4 Sample.axis Sample.start = Ret (lc, axis) s /\
  exists p, @stored_packet arch64 (@encode PACKET (@PACKET_wire arch64) (fun _ => 0) Sample.packet) = Some p /\ pkX p = 1234.
Proof.
  destruct (@DescribeContext Sample.driver (list V2.State) 4 Sample.axis Sample.start) as [[lc axis] s'| | |] eqn:E;
    [|vm_compute in E; discriminate E..].
  exists lc, axis, s'; split; [reflexivity|].
  assert (@own_masks Sample.driver) as Hm by (intros t c m; cbn; by intros [= <-]).
  pose proof (@packet_buffer arch64 Sample.driver (list V2.State) 4 Sample.axis axis Sample.start s' lc (fun _ => 0) Hm E) as [Ho _].
  assert (@format lc = PACKET_members) as Ef by (vm_compute in E; injection E as <- _ _; vm_compute; reflexivity).
  rewrite Ef in Ho; destruct (Ho (@wire_put PACKET (@PACKET_wire arch64) Sample.packet)) as (p & Ep & _ & Ew).
  - repeat (constructor; [reflexivity|]); constructor.
  - repeat (constructor; [apply le_bytes_are_bytes|]); constructor.
  - exists p; split; [exact Ep|].
    cbn in Ep; vm_compute in Ep; injection Ep as <-; reflexivity.
Defined.
End Packets.
