(* ===== verification/Main.v ===== *)
(** * The program (src/src/main.cpp)

    How the parts are put together: the v2 server is started, the v1 server too
    when it was asked for, the tablet is connected with both of them as its
    handler, and the messages of its window are dispatched until the program is
    asked to stop.  The environment of a run is the class [World]. *)

From stdpp Require Import gmap.
From S2P Require Import Prelude Layout V2Messages V1Messages Utf8 V1Server V2Server V2Accept.
From S2P Require Import V2Discovery V2Threads Handler ForegroundOverride InjectDll Wintab WintabTablet TabletProofs.
Import Handler WintabTablet TabletProofs.

Module Main.

Record Args := mkArgs {
  mOtdIpcV1 : bool;
  mOverwriteDefault : bool;
  mHijackBuggyDriver : option InjectableBuggyDriver
}.

(** What other threads of the process do: those of the servers go on, which
    changes the servers, or the system runs the console handler. *)
Inductive elsewhere :=
  | OtherThreads (threads : list server -> list server)
  | ConsoleCtrl (dwCtrlType : Z).

(** What the main thread sees happen while it empties its message queue. *)
Inductive occurrence :=
  | WindowMessage (hwnd msg wParam lParam : Z)
  | Elsewhere (o : elsewhere).

(** One wait of the message loop: what happens during it, whether it fails, and
    what is found in the queue after it. *)
Record wakeup := mkWakeup {
  meanwhile : list elsewhere;
  wait_failed : bool;
  queued : list occurrence
}.

(** What the run finds: the result of [WSAStartup], the files, the result of
    [RegisterClassExW] and of [CreateWindowEx] after it, the thread, the named
    kernel objects, the build's version, what the other threads do until the
    tablet is connected and before they are joined, the console events that are
    handled before the loop, the waits, and, for each thread that is joined, what
    the threads of its server do until it has ended: [None] when it does not
    end. *)
Class World := {
  wsa_result : Z;
  disk : gmap bytes bytes;
  os_register_class : Z;
  os_create_window : Z -> Z;
  main_thread : Z;
  named_objects : ForegroundOverride.kernel;
  SemVer : bytes;
  stack_junk : Wintab.AXIS;
  others_first : list server -> list server;
  others_last : list server -> list server;
  console_first : list Z;
  wakeups : list wakeup;
  v2_ping_ends : V2Server.V2Server -> option V2Server.V2Server;
  v2_accept_ends : V2Server.V2Server -> option V2Server.V2Server;
  v1_ping_ends : V1Server.V1Server -> option V1Server.V1Server;
  v1_accept_ends : V1Server.V1Server -> option V1Server.V1Server
}.

(** [get_socket_path]; an empty path when the folder is unknown. *)
Definition get_socket_path {HO : V2Server.SocketOS} : bytes :=
  match V2Server.os_local_app_data with
  | Some localAppData =>
      V2Discovery.path_append
        (V2Discovery.path_append localAppData (str "OpenKneeboard WinTab Adapter")) (str "socket")
  | None => []
  end.

Inductive outcome :=
  | Exits (code : Z) (servers : list server)    (* main returned *)
  | Terminates (e : exn)                        (* nothing caught it *)
  | Undefined (u : ub)
  | Joins                                       (* a thread that is joined does not end *)
  | Idles.                                      (* nothing more happens in the loop *)

Definition EXIT_SUCCESS : Z := 0.
Definition EXIT_FAILURE : Z := 1.

(** The rest of [main] after a step, and what happens to an exception. *)
Definition after {S A} (r : res S A) (h : exn -> S -> outcome) (k : S -> outcome) : outcome :=
  match r with
  | Ret _ s => k s
  | Exn e s => h e s
  | Undef u => Undefined u
  | NoFuel => Idles
  end.

(** A thread is joined; nothing is done when it was not started. *)
Definition join {S} (started : bool) (ends : S -> option S) : ST S unit :=
  fun s => if started then match ends s with Some s' => Ret tt s' | None => NoFuel end else Ret tt s.

(** The destructor of a server; it does not return when one of its threads does
    not end. *)
Definition destroy_server {HX : World} (started : bool) : ST server unit :=
  fun h => match h with
           | PtrV2 s => lift_res PtrV2
               (V2Discovery.V2Server_destroy (join started v2_ping_ends) (join started v2_accept_ends) s)
           | PtrV1 s => lift_res PtrV1
               (V1Server.Stop (join started v1_ping_ends) (join started v1_accept_ends) s)
           end.

(** The servers leave their scope, the last one first. *)
Definition leave {HX : World} (started : bool) (code : Z) (servers : list server) : outcome :=
  match for_each (destroy_server started) (rev servers) with
  | Ret _ servers => Exits code (rev servers)
  | Exn e _ => Terminates e
  | Undef u => Undefined u
  | NoFuel => Joins
  end.

(** [catch (const std::exception& e)], after the scope is left; a thrown pointer
    is not caught. *)
Definition caught {HX : World} (started : bool) (e : exn) (servers : list server) : outcome :=
  if std_exception e then leave started EXIT_FAILURE servers else Terminates e.

Section main.
Context {HA : Arch} {HB : BuildConfig} {HX : World}.
Context {HO : V2Server.SocketOS} {HP : V1Server.PipeOS} {HC : CodePage} (pad : nat -> Z).
Context {HW : Wintab.WintabDriver} {HK : ForegroundOverride.KernelCalls} {HJ : InjectDll.InjectOS}.

#[local] Instance servers_handler : IHandler server := server_handler pad.

Definition v2_config : V2Server.Config :=
  V2Server.mkConfig (str "com.openkneeboard.wintab-adapter") (str "OpenKneeboard WinTab Adapter")
    SemVer (str "https://github.com/OpenKneeboard/wintab-adapter") get_socket_path.

Definition default_behavior (args : Args) : V2Server.DefaultBehavior :=
  if mOverwriteDefault args then V2Server.AlwaysSet else V2Server.SetIfUnset.

(** [WintabWndproc]: whether the message was processed; otherwise it goes to
    [DefWindowProcW]. *)
Definition WintabWndproc (hwnd msg wParam lParam : Z) : ST (Tablet (MultiHandler server)) bool :=
  ProcessMessage hwnd msg wParam lParam.

(** [CreateWintabWindow]: whether the class could be registered is not looked at;
    the window is null when it could not be created. *)
Definition CreateWintabWindow : Z := os_create_window os_register_class.

(** What the loop works on: the tablet, and whether [gExitEvent] is set. *)
Record loop := mkLoop { tablet : Tablet (MultiHandler server); gExitEvent : bool }.
Definition set_tablet (t : Tablet (MultiHandler server)) (l : loop) : loop := mkLoop t (gExitEvent l).
Definition set_gExitEvent (b : bool) (l : loop) : loop := mkLoop (tablet l) b.

Definition ConsoleCtrlHandler (dwCtrlType : Z) : ST loop bool :=
  modify (set_gExitEvent true) ;; st_ret true.

Definition runs_elsewhere (o : elsewhere) : ST loop unit :=
  match o with
  | OtherThreads threads =>
      modify (fun l => set_tablet (set_mHandler (threads (mHandler (tablet l))) (tablet l)) l)
  | ConsoleCtrl dwCtrlType => let* _ := ConsoleCtrlHandler dwCtrlType in st_ret tt
  end.

Fixpoint all_elsewhere (os : list elsewhere) : ST loop unit :=
  match os with
  | [] => st_ret tt
  | o :: os => runs_elsewhere o ;; all_elsewhere os
  end.

Definition WAIT_OBJECT_0 : Z := 0.
Definition WAIT_FAILED : Z := 0xFFFFFFFF.
Definition InputResult : Z := WAIT_OBJECT_0 + 1.

(** The wait for [gExitEvent] or input: the event is looked at first. *)
Definition MsgWaitForMultipleObjectsEx (w : wakeup) : ST loop Z :=
  all_elsewhere (meanwhile w) ;;
  let* signalled := gets gExitEvent in
  st_ret (if wait_failed w then WAIT_FAILED
          else if signalled then WAIT_OBJECT_0 else InputResult).

(** The messages of one wake-up are dispatched until the queue is empty. *)
Fixpoint DispatchAll (os : list occurrence) : ST loop unit :=
  match os with
  | [] => st_ret tt
  | WindowMessage hwnd msg wParam lParam :: os =>
      let* _ := zoom tablet set_tablet (WintabWndproc hwnd msg wParam lParam) in DispatchAll os
  | Elsewhere o :: os => runs_elsewhere o ;; DispatchAll os
  end.

(** The loop of [main]; after the listed waits it waits for ever. *)
Fixpoint MessageLoop (ws : list wakeup) : ST loop unit :=
  match ws with
  | [] => nofuel
  | w :: ws =>
      let* result := MsgWaitForMultipleObjectsEx w in
      if negb (result =? InputResult) then st_ret tt
      else DispatchAll (queued w) ;; MessageLoop ws
  end.

(** The vector of handlers: the v2 server, and the v1 server when asked for. *)
Definition make_servers (args : Args) (v2 : V2Server.V2Server) : MultiHandler server :=
  let servers := [PtrV2 v2] in
  if mOtdIpcV1 args then push_back (PtrV1 V1Server.new_V1Server) servers else servers.

(** The logger is created in front of the servers, and the tablet is given the
    servers. *)
Definition make_handlers (args : Args) (v2 : V2Server.V2Server) :
    DeviceLogger (MultiHandler server) * MultiHandler server :=
  let servers := make_servers args v2 in
  (mkDeviceLogger (Some servers) [], servers).

Definition main (fuel : nat) (args : Args) : outcome :=
  match V2Discovery.V2Server_construct wsa_result v2_config (default_behavior args) disk with
  | inl e => caught false e []
  | inr v2 =>
      after (V2Discovery.Start v2) (fun e v2 => caught false e [PtrV2 v2]) (fun v2 =>
        let '(_, servers) := make_handlers args v2 in
        let wintab := new_Tablet CreateWintabWindow (others_first servers) named_objects NoInstance in
        let leaving e wintab := caught true e (others_last (mHandler wintab)) in
        after (Construct fuel stack_junk main_thread (mHijackBuggyDriver args) wintab) leaving
          (fun wintab =>
             after ((all_elsewhere (ConsoleCtrl <$> console_first) ;; MessageLoop wakeups) (mkLoop wintab false))
               (fun e l => after (Destroy (tablet l)) leaving (leaving e))
               (fun l => after (Destroy (tablet l)) leaving
                  (fun wintab => leave true EXIT_SUCCESS (others_last (mHandler wintab))))))
  end.

(** ** Every part returns *)

Context {HD : Wintab.DriverTypes} {HU : CodePageSpec}.

#[local] Instance servers_spec : HandlerSpec (MultiHandler server) :=
  MultiHandler_spec (HS := server_spec pad).

(** What the accept and ping threads of the servers do to them. *)
Inductive background : server -> server -> Prop :=
  | background_v2 l s s' a a' c : V2Threads.by_caller l = false ->
      V2Threads.lstep pad l (V2Threads.mkSys s a c) (V2Threads.mkSys s' a' c) ->
      background (PtrV2 s) (PtrV2 s')
  | background_v1 l s s' p p' : V1Server.by_caller l = false ->
      V1Server.lstep pad l (s, p) (s', p') -> background (PtrV1 s) (PtrV1 s').

Definition threads_only (threads : list server -> list server) : Prop :=
  forall hs, Forall2 (rtc background) hs (threads hs).

Definition elsewhere_ok (o : elsewhere) : Prop :=
  match o with OtherThreads threads => threads_only threads | ConsoleCtrl _ => True end.
Definition occurs_ok (o : occurrence) : Prop :=
  match o with WindowMessage _ _ _ _ => True | Elsewhere o => elsewhere_ok o end.
Definition wakeup_ok (w : wakeup) : Prop :=
  Forall elsewhere_ok (meanwhile w) /\ Forall occurs_ok (queued w).

Definition joins_ok : Prop :=
  (forall s s', v2_ping_ends s = Some s' \/ v2_accept_ends s = Some s' -> rtc background (PtrV2 s) (PtrV2 s')) /\
  (forall s s', v1_ping_ends s = Some s' \/ v1_accept_ends s = Some s' -> rtc background (PtrV1 s) (PtrV1 s')).

Definition only_the_servers_threads : Prop :=
  threads_only others_first /\ threads_only others_last /\ Forall wakeup_ok wakeups /\ joins_ok.

(** The console handler runs (the user presses Ctrl+C or closes the console),
    during a wait or while messages are dispatched. *)
Definition ctrl_meanwhile (w : wakeup) : Prop := exists dwCtrlType, ConsoleCtrl dwCtrlType ∈ meanwhile w.
Definition ctrl_queued (w : wakeup) : Prop := exists dwCtrlType, Elsewhere (ConsoleCtrl dwCtrlType) ∈ queued w.

(** Whether the wait [w], after the waits [ws], ends the loop at the latest: it
    fails, or the handler has run before the loop, in one of [ws] or during
    [w]. *)
Definition asked (l : loop) (ws : list wakeup) (w : wakeup) : Prop :=
  gExitEvent l = true \/ Exists (fun w => ctrl_meanwhile w \/ ctrl_queued w) ws \/
  ctrl_meanwhile w \/ wait_failed w = true.

(** One of [ws] does. *)
Definition asked_in (l : loop) (ws : list wakeup) : Prop :=
  exists ws1 w ws2, ws = ws1 ++ w :: ws2 /\ asked l ws1 w.

(** The first fault of the messages that are dispatched, each looked at in the
    state it is dispatched in. *)
Fixpoint dispatch_fault (os : list occurrence) (l : loop) : option ub :=
  match os with
  | [] => None
  | o :: os =>
      match match o with
            | WindowMessage hwnd msg wParam lParam => fault hwnd msg wParam lParam (tablet l)
            | Elsewhere _ => None
            end with
      | Some u => Some u
      | None => match DispatchAll [o] l with Ret _ l' => dispatch_fault os l' | _ => None end
      end
  end.

Fixpoint loop_fault (ws : list wakeup) (l : loop) : option ub :=
  match ws with
  | [] => None
  | w :: ws =>
      match MsgWaitForMultipleObjectsEx w l with
      | Ret result l1 =>
          if negb (result =? InputResult) then None
          else match DispatchAll (queued w) l1 with
               | Ret _ l2 => loop_fault ws l2
               | _ => dispatch_fault (queued w) l1
               end
      | _ => None
      end
  end.

Lemma background_ready h h' : background h h' ->
  (ready h -> ready h') /\ (accepts h -> accepts h').
Proof.
  intros [l s s' a a' c Hl E|l s s' p p' Hl E]; cbn.
  - split; [|done]; intros (d & Ed & Hd); exists d; split; [|done].
    rewrite <- Ed; exact (proj1 (proj1 (V2Threads.step_keeps_device pad _ _ _ E Hl))).
  - split; exact (V1Server.step_inv pad _ _ (V1Server.v1_lstep_step _ _ _ _ E)).
Qed.

Lemma background_steps h h' : rtc background h h' ->
  (ready h -> ready h') /\ (accepts h -> accepts h').
Proof.
  induction 1 as [|h1 h2 h3 E _ [IH1 IH2]]; [done|].
  destruct (background_ready _ _ E); auto.
Qed.

Lemma threads_keep threads hs : threads_only threads ->
  (ready hs -> ready (threads hs)) /\ (accepts hs -> accepts (threads hs)).
Proof.
  intros Ht; split; intros Hr; eapply Forall2_Forall_r; try exact (Ht hs);
    (eapply Forall_impl; [exact Hr|]); intros h Hh h' E; by apply (background_steps h h' E).
Qed.

Definition loop_running (l : loop) : Prop := running (tablet l).

Lemma runs_elsewhere_running o l : elsewhere_ok o -> loop_running l ->
  returns (runs_elsewhere o l) (fun _ l' => loop_running l' /\
    (gExitEvent l = true \/ (exists t, o = ConsoleCtrl t) -> gExitEvent l' = true)).
Proof.
  destruct o as [threads|t]; intros Ho Hl; cbn; [|done]; split; [|by intros [?|[? [=]]]].
  destruct Hl; split; try done; by apply (threads_keep threads).
Qed.

Lemma all_elsewhere_running os l : Forall elsewhere_ok os -> loop_running l ->
  returns (all_elsewhere os l) (fun _ l' => loop_running l' /\
    (gExitEvent l = true \/ (exists t, ConsoleCtrl t ∈ os) -> gExitEvent l' = true)).
Proof.
  intros Hos; revert l; induction Hos as [|o os Ho Hos IH]; intros l Hl; cbn [all_elsewhere].
  { split; [done|]; intros [?|[t Ht]]; [done|by apply not_elem_of_nil in Ht]. }
  eapply returns_bind; [by apply runs_elsewhere_running|]; intros ? l' [Hl' He].
  eapply returns_weaken; [by apply IH|]; intros ? l'' [Hl'' He']; split; [done|].
  intros [Hg|[t Ht]]; apply He'; [by left; apply He; left|].
  apply elem_of_cons in Ht as [<-|Ht]; [left; apply He; eauto|eauto].
Qed.

Lemma wait_running w l : Forall elsewhere_ok (meanwhile w) -> loop_running l ->
  returns (MsgWaitForMultipleObjectsEx w l) (fun result l' => loop_running l' /\
    (gExitEvent l = true \/ ctrl_meanwhile w -> gExitEvent l' = true) /\
    (gExitEvent l' = true \/ wait_failed w = true -> result <> InputResult)).
Proof.
  intros Hw Hl; unfold MsgWaitForMultipleObjectsEx.
  eapply returns_bind; [by apply all_elsewhere_running|]; intros ? l' [Hl' He]; cbn; split_and!; [done|done|].
  destruct (wait_failed w); [done|]; by intros [->|[=]].
Qed.

(** Messages that are dispatched return, unless one of them has a fault. *)
Lemma DispatchAll_exact os l : Forall occurs_ok os -> loop_running l ->
  faults_or (dispatch_fault os l) (DispatchAll os l) (fun _ l' => loop_running l' /\
    (gExitEvent l = true \/ (exists t, Elsewhere (ConsoleCtrl t) ∈ os) -> gExitEvent l' = true)).
Proof.
  intros Hos; revert l; induction Hos as [|[hwnd m w lp|o] os Ho Hos IH]; intros l Hl;
    cbn [DispatchAll dispatch_fault].
  { split; [done|]; intros [?|[t Ht]]; [done|by apply not_elem_of_nil in Ht]. }
  - pose proof (ProcessMessage_exact hwnd m w lp (tablet l) Hl) as Hp.
    unfold st_bind, zoom, WintabWndproc; destruct (fault hwnd m w lp (tablet l)) as [u|]; cbn in Hp.
    { by rewrite Hp. }
    destruct (ProcessMessage hwnd m w lp (tablet l)) as [b t| | |]; try done; cbn [st_ret].
    specialize (IH (set_tablet t l) Hp); destruct (dispatch_fault os _); [done|]; cbn in *.
    eapply returns_weaken; [exact IH|]; intros ? l' [? He]; split; [done|].
    intros [?|[t' Ht]]; apply He; [by left|]; apply elem_of_cons in Ht as [[=]|?]; eauto.
  - destruct (returns_inv _ _ (runs_elsewhere_running o l Ho Hl)) as ([] & l1 & E & Hl1 & He).
    unfold st_bind; rewrite E; cbn [st_ret]; specialize (IH l1 Hl1); destruct (dispatch_fault os _); [done|]; cbn in *.
    eapply returns_weaken; [exact IH|]; intros ? l2 [? He2]; split; [done|].
    intros [?|[t' Ht]]; apply He2; [left; apply He; by left|].
    apply elem_of_cons in Ht as [[= <-]|?]; [left; apply He; eauto|eauto].
Qed.

(** A loop that is asked to exit ends with the wait [w] at the latest; what is
    queued then and what would come later is not looked at. *)
Lemma MessageLoop_ends ws w q ws' l : Forall wakeup_ok (ws ++ [w]) -> asked l ws w -> loop_running l ->
  faults_or (loop_fault ws l) (MessageLoop (ws ++ w :: ws') l) (fun _ l' => loop_running l') /\
  MessageLoop (ws ++ w :: ws') l = MessageLoop (ws ++ [mkWakeup (meanwhile w) (wait_failed w) q]) l.
Proof.
  intros Hws Hx; revert l Hx; induction ws as [|w0 ws IH]; intros l Hx Hl; cbn [app MessageLoop loop_fault] in *;
    apply Forall_cons in Hws as [[Hm Hq] Hws].
  - destruct (returns_inv _ _ (wait_running w l Hm Hl)) as (result & l1 & E & Hl1 & Hg & Hr).
    unfold st_bind; change (MsgWaitForMultipleObjectsEx (mkWakeup _ _ q) l) with (MsgWaitForMultipleObjectsEx w l).
    rewrite E; assert (result <> InputResult) as Hn.
    { apply Hr; destruct Hx as [?|[Hx|[?|?]]]; [left; auto|by apply Exists_nil in Hx|left; auto|by right]. }
    apply Z.eqb_neq in Hn; by rewrite Hn.
  - destruct (returns_inv _ _ (wait_running w0 l Hm Hl)) as (result & l1 & E & Hl1 & Hg & _).
    unfold st_bind; rewrite E; destruct (negb (result =? InputResult)); [done|].
    pose proof (DispatchAll_exact _ l1 Hq Hl1) as Hd.
    destruct (dispatch_fault (queued w0) l1) as [u|]; cbn in Hd; [by rewrite Hd|].
    destruct (returns_inv _ _ Hd) as ([] & l2 & E2 & Hl2 & Hg2); rewrite E2.
    apply IH; [done| |done]; destruct Hx as [?|[Hx|?]]; [left; auto| |by right; right].
    apply Exists_cons in Hx as [[?|?]|?]; [left; auto|left; auto|by right; left].
Qed.

Lemma MessageLoop_safe ws l : Forall wakeup_ok ws -> loop_running l ->
  match MessageLoop ws l with
  | Ret _ l' => loop_running l'
  | Exn _ _ => False
  | Undef u => loop_fault ws l = Some u
  | NoFuel => True
  end.
Proof.
  intros Hws; revert l; induction Hws as [|w ws [Hm Hq] Hws IH]; intros l Hl; [done|]; cbn [MessageLoop loop_fault].
  destruct (returns_inv _ _ (wait_running w l Hm Hl)) as (result & l1 & E1 & Hl1 & _).
  unfold st_bind; rewrite E1; destruct (negb _); [done|].
  pose proof (DispatchAll_exact _ l1 Hq Hl1) as Hd.
  destruct (dispatch_fault (queued w) l1) as [u|]; cbn in Hd; [by rewrite Hd|].
  destruct (returns_inv _ _ Hd) as ([] & l2 & E2 & Hl2 & _); rewrite E2; by apply IH.
Qed.

(** The loop of a run: it ends, a message has a fault, or nobody asks for the
    end. *)
Lemma MessageLoop_cases ws l : Forall wakeup_ok ws -> loop_running l ->
  match MessageLoop ws l with
  | Ret _ l' => loop_running l'
  | Exn _ _ => False
  | Undef u => loop_fault ws l = Some u
  | NoFuel => ~ asked_in l ws
  end.
Proof.
  intros Hws Hl; pose proof (MessageLoop_safe ws l Hws Hl) as Hs.
  destruct (MessageLoop ws l) eqn:E; try done; intros (ws1 & w & ws2 & -> & Ha).
  apply Forall_app in Hws as [H1 H2]; apply Forall_cons in H2 as [H2 _].
  destruct (MessageLoop_ends ws1 w [] ws2 l) as [Hw _]; [apply Forall_app; split; [done|by constructor]|done|done|].
  rewrite E in Hw; by destruct (loop_fault ws1 l).
Qed.

Lemma Destroy_within (s : Tablet (MultiHandler server)) junk :
  within (Destroy s) (fun _ _ => True) (fun _ _ => False) (blamed junk).
Proof.
  unfold Destroy, modify, gets, call, st_bind; cbn; destruct (truthy (mContext s)); [|done].
  destruct (Wintab.wt_exports Wintab.WTClose) eqn:E; [done|]; left; cbn; eauto.
Qed.

(** The console events before the loop leave the event set. *)
Lemma console_first_eq cs t : all_elsewhere (ConsoleCtrl <$> cs) (mkLoop t false) =
  Ret tt (mkLoop t (match cs with [] => false | _ => true end)).
Proof.
  destruct cs as [|c cs]; [done|]; cbn; revert t; induction cs as [|c' cs IH]; intros t; [done|apply IH].
Qed.

Lemma new_V1Server_inv : V1Server.inv pad V1Server.new_V1Server.
Proof.
  split; [by split; [|split]| |constructor].
  unfold is_u; destruct arch_width as [->| ->]; by vm_compute.
Qed.

Lemma servers_accept args v2 : accepts (make_servers args v2).
Proof.
  unfold make_servers; destruct (mOtdIpcV1 args); cbn.
  - constructor; [done|]; constructor; [apply new_V1Server_inv|constructor].
  - constructor; [done|constructor].
Qed.

(** A server that has been destroyed offers nothing to clients. *)
Definition closed (h : server) : Prop :=
  match h with
  | PtrV2 s => V2Server.mListenSocket s = None /\ V2Server.mClientSocket s = None
  | PtrV1 s => V1Server.mPipe s = None
  end.

(** The server has a thread that does not end. *)
Definition stuck : Prop :=
  (exists s, v2_ping_ends s = None \/ v2_accept_ends s = None) \/
  (exists s, v1_ping_ends s = None \/ v1_accept_ends s = None).

(** The threads do not listen again. *)
Lemma background_listens s s' : rtc background (PtrV2 s) (PtrV2 s') ->
  V2Server.mListenSocket s = None -> V2Server.mListenSocket s' = None.
Proof.
  intros H; remember (PtrV2 s) as h eqn:Eh; remember (PtrV2 s') as h' eqn:Eh'; revert s Eh.
  induction H as [|h1 h2 h3 E _ IH]; intros s ->; [by injection Eh' as ->|]; intros Hs.
  inversion E as [l s0 s1 a a' c Hl El|]; simplify_eq; apply (IH eq_refl s1 eq_refl).
  destruct (V2Threads.step_keeps_device pad _ _ _ El Hl) as [[_ [H|H]] _]; cbn in H; congruence.
Qed.

Lemma destroy_cases started h : joins_ok ->
  match destroy_server started h with
  | Ret _ h' => closed h'
  | NoFuel => started = true /\ stuck
  | _ => False
  end.
Proof.
  unfold stuck; intros [J2 J1]; destruct h as [s|s]; cbn.
  - unfold V2Discovery.V2Server_destroy, V2Discovery.Stop, V2Server.reset_mListenSocket, modify.
    unfold st_bind; unfold lift_res; cbn beta iota.
    generalize (eq_refl : V2Server.mListenSocket (V2Server.set_mListenSocket None (V2Server.close_listen s)) = None).
    generalize (V2Server.set_mListenSocket None (V2Server.close_listen s)) as s1; intros s1 Hs1.
    assert (forall s' : V2Server.V2Server, V2Server.mListenSocket s' = None ->
      V2Server.mListenSocket (V2Server.set_mClientSocket None (V2Server.close_client
        (V2Server.log V2Server.EWSACleanup (V2Server.log V2Server.EThreadsJoined s')))) = None) as Hc.
    { intros s' Hs; unfold V2Server.close_client; cbn; by destruct (V2Server.mClientSocket s'). }
    unfold join; destruct started; [|split; [by apply (Hc s1)|done]].
    destruct (v2_ping_ends s1) as [s2|] eqn:E1; [|solve [eauto]]; destruct (v2_accept_ends s2) as [s3|] eqn:E2; [|solve [eauto 8]].
    split; [|done]; apply Hc, (background_listens s2), (background_listens s1); auto.
  - unfold V1Server.Stop, st_bind, lift_res, join; destruct started; [|done].
    destruct (v1_ping_ends s) as [s1|] eqn:E1; [|solve [eauto]]; destruct (v1_accept_ends s1) as [s2|] eqn:E2; [done|solve [eauto 8]].
Qed.

Lemma leave_cases started code hs : joins_ok ->
  (exists hs', leave started code hs = Exits code hs' /\ Forall closed hs') \/
  leave started code hs = Joins /\ started = true /\ stuck.
Proof.
  intros HJ'; unfold leave.
  assert ((exists l, for_each (destroy_server started) (rev hs) = Ret tt l /\ Forall closed l) \/
    for_each (destroy_server started) (rev hs) = NoFuel /\ started = true /\ stuck) as [(l & E & Hl)|[E Hs]].
  - induction (rev hs) as [|h l IH]; [left; by exists []|]; cbn [for_each].
    pose proof (destroy_cases started h HJ') as Hh; destruct (destroy_server started h); try done; [|by right].
    destruct IH as [(l' & -> & Hl)|[-> ?]]; [|by right]; left; eexists; split; [done|by constructor].
  - left; rewrite E; exists (rev l); split; [done|by apply Forall_rev].
  - right; by rewrite E.
Qed.

(** The servers start and the tablet connects. *)
Definition connects_as (fuel : nat) (args : Args) (t : Tablet (MultiHandler server)) : Prop :=
  wsa_result = 0 /\ exists v2,
    V2Discovery.Start (V2Server.new_V2Server v2_config (default_behavior args) disk) = Ret tt v2 /\
    Construct fuel stack_junk main_thread (mHijackBuggyDriver args)
      (new_Tablet CreateWintabWindow (others_first (make_servers args v2)) named_objects NoInstance) = Ret tt t.
Definition connects (fuel : nat) (args : Args) : Prop := exists t, connects_as fuel args t.

(** The loop as [main] enters it. *)
Definition entered (t : Tablet (MultiHandler server)) : loop :=
  mkLoop t (match console_first with [] => false | _ => true end).

(** How a run may end.  It returns with an exit code that tells whether it got as
    far as handling messages, and everything closed; it is ended by a thrown
    pointer; it is undefined, because of what the driver or the system answered
    while the tablet was connected or released, or because of the first message
    that has a fault; it waits for a thread that does not end; or it waits in the
    loop, when nobody asked for the end. *)
Definition ended_well (fuel : nat) (args : Args) (o : outcome) : Prop :=
  match o with
  | Exits code servers =>
      (code = EXIT_SUCCESS /\ connects fuel args \/ code = EXIT_FAILURE /\ ~ connects fuel args) /\
      Forall closed servers
  | Terminates e => ~ connects fuel args /\ exists what, e = PointerThrown what
  | Undefined u =>
      blamed stack_junk u \/ exists t, connects_as fuel args t /\ loop_fault wakeups (entered t) = Some u
  | Joins => stuck
  | Idles => exists t, connects_as fuel args t /\ ~ asked_in (entered t) wakeups
  end.

Lemma leave_well fuel args hs : joins_ok -> connects fuel args ->
  ended_well fuel args (leave true EXIT_SUCCESS hs).
Proof.
  intros HJ' HC'; destruct (leave_cases true EXIT_SUCCESS hs HJ') as [(hs' & -> & ?)|(-> & _ & ?)]; [|done].
  split; [by left|done].
Qed.

Lemma caught_well fuel args started e hs : joins_ok -> ~ connects fuel args ->
  ended_well fuel args (caught started e hs).
Proof.
  intros HJ' HC'; unfold caught; destruct (std_exception e) eqn:E; [|by destruct e; try done; split; eauto].
  destruct (leave_cases started EXIT_FAILURE hs HJ') as [(hs' & -> & ?)|(-> & _ & ?)]; [|done].
  split; [by right|done].
Qed.

End main.

(** ** Concrete instances *)

Module Sample.
#[local] Existing Instance arch64.
Definition pad : nat -> Z := V2Server.Sample.pad.

(** The ping thread of the v1 server does a round. *)
Definition ping_v1 (h : server) : server :=
  match h with
  | PtrV1 s => match V1Server.PingOnce (HP := V1Server.Sample.os) pad s with
               | Ret _ s' => PtrV1 s'
               | _ => h
               end
  | PtrV2 _ => h
  end.

(** The window 77 is asked for a pen packet, with a ping before it; then the user
    presses Ctrl+C. *)
Definition world (objects : ForegroundOverride.kernel) : World := {|
  wsa_result := 0;
  disk := ∅;
  os_register_class := 49152;
  os_create_window atom := if atom =? 0 then 0 else 77;
  main_thread := 1;
  named_objects := objects;
  SemVer := str "v1.0.0";
  stack_junk := TabletProofs.Sample.axis;
  others_first hs := hs;
  others_last hs := hs;
  console_first := [];
  wakeups := [mkWakeup [] false [Elsewhere (OtherThreads (map ping_v1)); WindowMessage 77 Wintab.WT_PACKET 1 1];
              mkWakeup [ConsoleCtrl 0] false [WindowMessage 77 Wintab.WT_PACKET 2 1]];
  v2_ping_ends s := Some s;
  v2_accept_ends s := Some s;
  v1_ping_ends s := Some s;
  v1_accept_ends s := Some s
|}.

(** A system without the local application data folder. *)
Definition homeless : V2Server.SocketOS := {|
  V2Server.os_local_app_data := None;
  V2Server.os_absolute p := p;
  V2Server.os_socket _ := inr 3;
  V2Server.os_exists _ _ := false;
  V2Server.os_remove _ _ := false;
  V2Server.os_create_directories _ _ := None;
  V2Server.os_bind _ _ _ := None;
  V2Server.os_listen _ _ := None;
  V2Server.os_accept _ _ := None;
  V2Server.os_send _ _ data _ := Z.of_nat (length data);
  V2Server.os_recv _ _ _ := V2Server.RecvData [];
  V2Server.os_open_file _ _ := true;
  V2Server.os_stop_requested _ := false
|}.

Definition args : Args := mkArgs true false (Some HuionAlternate).
Definition main_on (os : V2Server.SocketOS) (fuel : nat) : outcome :=
  @main arch64 TabletProofs.Sample.config (world ForegroundOverride.Sample.fresh) os
    V1Server.Sample.os Utf8.Sample.codepage pad TabletProofs.Sample.driver
    ForegroundOverride.Sample.calls InjectDll.Sample.os fuel args.

Lemma threads_ok : @only_the_servers_threads arch64 (world ForegroundOverride.Sample.fresh)
  V2Server.Sample.os V1Server.Sample.os Utf8.Sample.codepage pad.
Proof.
  assert (forall hs, Forall2 (rtc (@background arch64 V2Server.Sample.os V1Server.Sample.os
    Utf8.Sample.codepage pad)) hs hs) as Hid by (induction hs; by constructor).
  split_and!; [done|done| |by split; intros s s' [[= <-]|[= <-]]].
  constructor; [split; [constructor|]|by repeat constructor].
  constructor; [|by repeat constructor].
  intros hs; induction hs as [|h hs IH]; cbn [map]; [constructor|constructor; [|done]].
  destruct h as [s|s]; cbn [ping_v1]; [done|].
  destruct (V1Server.PingOnce pad s) as [[] s'| | |] eqn:E; try done.
  by eapply rtc_once, (background_v1 _ V1Server.LOther s s' V1Server.Accepting), V1Server.step_ping.
Qed.

(** The tablet of the run, connected to the v2 and v1 servers. *)
Definition wintab : Tablet (MultiHandler server) :=
  new_Tablet 77 (make_servers args V2Server.Sample.object) ForegroundOverride.Sample.fresh NoInstance.
Definition connected : res (Tablet (MultiHandler server)) unit :=
  Construct (HB := TabletProofs.Sample.config) (HW := TabletProofs.Sample.driver)
    (HK := ForegroundOverride.Sample.calls) (HJ := InjectDll.Sample.os)
    (HI := MultiHandler_handler (HI := server_handler (HO := V2Server.Sample.os)
             (HP := V1Server.Sample.os) (HC := Utf8.Sample.codepage) pad))
    4 TabletProofs.Sample.axis 1 (Some HuionAlternate) wintab.
Definition start : loop :=
  mkLoop (match connected with Ret _ t => t | _ => wintab end) false.

Lemma start_running :
  @running _ (MultiHandler_handler (HI := server_handler (HO := V2Server.Sample.os)
    (HP := V1Server.Sample.os) (HC := Utf8.Sample.codepage) pad))
    (servers_spec (HO := V2Server.Sample.os) (HP := V1Server.Sample.os) (HU := Utf8.Sample.spec) pad)
    (tablet start).
Proof.
  assert (match connected with Ret _ _ => true | _ => false end = true) as E by (vm_compute; reflexivity).
  enough (ends connected (fun _ s => running (HL := servers_spec (HO := V2Server.Sample.os)
      (HP := V1Server.Sample.os) (HU := Utf8.Sample.spec) pad) s) (fun _ s => gInstance s <> Instance)) as H
    by (cbv [start tablet]; by destruct connected).
  clear E; unfold connected; apply (Construct_ends (H0 := TabletProofs.Sample.driver_sane 1) 0 1).
  - done.
  - lia.
  - intros t p ms cb [= <- <-]; by vm_compute.
  - intros t j Hj; cbn; destruct (Z.eqb_spec (Wintab.WTI_EXTENSIONS + j) Wintab.WTI_EXTENSIONS); [lia|done].
  - lia.
  - cbn; lia.
  - by split.
  - repeat split; try done; apply servers_accept.
  - done.
Qed.
End Sample.

(** ** Properties *)



(** The run of the sample gets to the loop and exits with success. *)
Example sample_run_exits : exists servers,
  Sample.main_on V2Server.Sample.os 4 = Exits EXIT_SUCCESS servers /\ Forall closed servers.
Proof. eexists; split; [vm_compute; reflexivity|by repeat constructor]. Qed.

(** C18: Ctrl+C ends the message loop.  Once the console handler has run - before
    the loop, during an earlier wait or while messages were dispatched - or during
    this wait, the loop ends with this wait at the latest: neither what is queued
    then nor anything that comes later is dispatched, whatever was handled before
    and whatever the other threads do.  The loop returns, unless one of the
    messages before has a fault. *)
Theorem ctrl_c_ends_loop {HA : Arch} {HO : V2Server.SocketOS} {HP : V1Server.PipeOS} {HC : CodePage}
    {HU : CodePageSpec} {HW : Wintab.WintabDriver} {HD : Wintab.DriverTypes} (pad : nat -> Z)
    (ws ws' : list wakeup) (w : wakeup) (l : loop) :
  Forall (wakeup_ok pad) (ws ++ [w]) ->
  gExitEvent l = true \/ Exists (fun w => ctrl_meanwhile w \/ ctrl_queued w) ws \/ ctrl_meanwhile w ->
  loop_running pad l ->
  faults_or (loop_fault pad ws l) (MessageLoop pad (ws ++ w :: ws') l) (fun _ l' => loop_running pad l') /\
  MessageLoop pad (ws ++ w :: ws') l
  = MessageLoop pad (ws ++ [mkWakeup (meanwhile w) (wait_failed w) []]) l.
Proof. intros Hws Hc Hl; apply (MessageLoop_ends pad ws w []); [done|unfold asked; tauto|done]. Qed.

Lemma ctrl_c_ends_loop_witness :
  let packet := WindowMessage 77 Wintab.WT_PACKET 1 1 in
  let run ws := @MessageLoop arch64 V2Server.Sample.os V1Server.Sample.os Utf8.Sample.codepage Sample.pad
                  TabletProofs.Sample.driver ws Sample.start in
  let ws := [mkWakeup [] false [packet; Elsewhere (ConsoleCtrl 0); packet]] in
  faults_or (@loop_fault arch64 V2Server.Sample.os V1Server.Sample.os Utf8.Sample.codepage Sample.pad
      TabletProofs.Sample.driver ws Sample.start)
    (run (ws ++ [mkWakeup [] false [packet]; mkWakeup [] false []]))
    (fun _ l => @loop_running arch64 V2Server.Sample.os V1Server.Sample.os Utf8.Sample.codepage Sample.pad
                  Utf8.Sample.spec l) /\
  run (ws ++ [mkWakeup [] false [packet]; mkWakeup [] false []]) = run (ws ++ [mkWakeup [] false []]).
Proof.
  intros packet run ws.
  apply (@ctrl_c_ends_loop arch64 V2Server.Sample.os V1Server.Sample.os Utf8.Sample.codepage
    Utf8.Sample.spec TabletProofs.Sample.driver (sane_types (SaneDriver := TabletProofs.Sample.driver_sane 1))
    Sample.pad ws [mkWakeup [] false []] (mkWakeup [] false [packet]) Sample.start).
  - by repeat constructor.
  - right; left; left; right; exists 0; by right; left.
  - exact Sample.start_running.
Defined.

(** Without the local application data folder the program cannot be found by
    its clients, and does not run: it exits with failure before any tablet is
    opened, whatever else the system does. *)
Theorem main_needs_local_app_data {HA : Arch} {HB : BuildConfig} {HX : World} {HO : V2Server.SocketOS}
    {HP : V1Server.PipeOS} {HC : CodePage} {HW : Wintab.WintabDriver}
    {HK : ForegroundOverride.KernelCalls} {HJ : InjectDll.InjectOS}
    (pad : nat -> Z) (fuel : nat) (args : Args) : joins_ok pad ->
  V2Server.os_local_app_data = None ->
  exists servers, main pad fuel args = Exits EXIT_FAILURE servers /\ Forall closed servers.
Proof.
  intros Hj Hn; unfold main, V2Discovery.V2Server_construct.
  assert (forall hs, exists servers, leave false EXIT_FAILURE hs = Exits EXIT_FAILURE servers /\ Forall closed servers)
    as Hleave by (intros hs; by destruct (leave_cases pad false EXIT_FAILURE hs Hj) as [?|(_ & [=] & _)]).
  destruct (negb (wsa_result =? 0)); [apply Hleave|].
  set (v2 := V2Server.new_V2Server _ _ _); pose proof (V2Discovery.Start_ends v2) as H1.
  destruct (V2Discovery.Start v2) as [[] v2'|e v2'| |]; try done; cbn [after ends] in *.
  unfold caught; rewrite H1; apply Hleave.
Qed.

Lemma main_needs_local_app_data_witness :
  exists servers, Sample.main_on Sample.homeless 4 = Exits EXIT_FAILURE servers /\ Forall closed servers.
Proof.
  apply (@main_needs_local_app_data arch64 TabletProofs.Sample.config
    (Sample.world ForegroundOverride.Sample.fresh) Sample.homeless V1Server.Sample.os Utf8.Sample.codepage
    TabletProofs.Sample.driver ForegroundOverride.Sample.calls InjectDll.Sample.os Sample.pad 4 Sample.args);
    [|done].
  by split; intros s s' [[= <-]|[= <-]].
Defined.

End Main.
