(* ===== verification/Process.v ===== *)
(** * The whole process

    The tablet, the two servers and their threads together.  The main thread
    processes a window message and then makes the calls the tablet asks for on
    each server in turn, as [MultiHandler] does; between any two of these steps
    the accept and ping threads of both servers go on (V2Threads, V1Server).
    What the tablet does after a call does not depend on the servers, so its calls
    are collected first and delivered then. *)

From S2P Require Import Prelude Layout V2Messages V1Messages Utf8 V1Server V1History V2Server V2Accept.
From S2P Require Import V2Threads V2History Handler ForegroundOverride InjectDll Wintab WintabTablet TabletProofs.
Import Handler Wintab WintabTablet TabletProofs.

Module Process.

(** ** A tablet that collects its calls *)

Inductive call := CDevice (d : V2.DeviceInfo) | CState (st : V2.State).

#[global] Instance collector : IHandler (list call) := {
  handle_device d := modify (fun l => l ++ [CDevice d]);
  handle_state st := modify (fun l => l ++ [CState st])
}.

Definition call_wf (c : call) : Prop :=
  match c with CDevice d => V2.deviceinfo_wf d | CState st => V2.state_wf st end.

#[global, refine] Instance collector_spec : HandlerSpec (list call) := {|
  accepts := Forall call_wf; ready := Forall call_wf;
  ready_accepts := _; device_returns := _; state_returns := _ |}.
Proof.
  - done.
  - intros d l Hd Hl; apply Forall_app; split; [done|by apply Forall_singleton].
  - intros st l Hst Hl; apply Forall_app; split; [done|by apply Forall_singleton].
Defined.

(** The tablet with another handler. *)
Definition retype {H H'} (h : H') (s : Tablet H) : Tablet H' :=
  mkTablet (mWindow s) (mForegroundOverride s) h (mContext s) (mNextTabletID s) (mDeviceInfo s)
    (mState s) (gInstance s) (WintabTablet.driver s) (injected s).

(** ** The process *)

Inductive delivery := ToV2 (c : call) | ToV1 (c : call).

Record process := mkProcess {
  wintab : Tablet (list call);
  given : list call;                                     (* every call the tablet has made *)
  todo : list delivery;                                  (* what the main thread has to do *)
  v2 : V2Threads.sys;
  v1 : option (V1Server.V1Server * V1Server.phase)       (* none without --otd-ipc-v1 *)
}.

Definition set_todo t p := mkProcess (wintab p) (given p) t (v2 p) (v1 p).
Definition set_v2 c p := mkProcess (wintab p) (given p) (todo p) c (v1 p).
Definition set_v1 c p := mkProcess (wintab p) (given p) (todo p) (v2 p) (Some c).

(** [MultiHandler]: each call goes to the v2 server, then to the v1 server. *)
Definition deliveries {A} (v1 : option A) (cs : list call) : list delivery :=
  flat_map (fun c => ToV2 c :: match v1 with Some _ => [ToV1 c] | None => [] end) cs.

Definition v1_label (c : call) : V1Server.label :=
  match c with CDevice d => V1Server.LDevice d | CState st => V1Server.LState st end.

Section process.
Context {HA : Arch} {HO : V2Server.SocketOS} {HP : V1Server.PipeOS} {HC : CodePage} (pad : nat -> Z).
Context {HW : Wintab.WintabDriver}.

(** The main thread processes a message, with nothing left to deliver. *)
Inductive message_step : process -> process -> Prop :=
  | message hwnd msg wParam lParam p b t : todo p = [] ->
      ProcessMessage hwnd msg wParam lParam (wintab p) = Ret b t ->
      message_step p (mkProcess (set_mHandler [] t) (given p ++ mHandler t)
                        (deliveries (v1 p) (mHandler t)) (v2 p) (v1 p)).

(** The main thread is in a call: [SetDevice] of the v2 server has two steps. *)
Inductive deliver_step : process -> process -> Prop :=
  | deliver_store d rest p c : todo p = ToV2 (CDevice d) :: rest ->
      V2Threads.lstep pad (V2Threads.LStore d) (v2 p) c -> deliver_step p (set_v2 c p)
  | deliver_sent d rest p c : todo p = ToV2 (CDevice d) :: rest ->
      V2Threads.lstep pad (V2Threads.LSent (V2Server.stored_device d)) (v2 p) c ->
      deliver_step p (set_todo rest (set_v2 c p))
  | deliver_state st rest p c : todo p = ToV2 (CState st) :: rest ->
      V2Threads.lstep pad (V2Threads.LState st) (v2 p) c ->
      deliver_step p (set_todo rest (set_v2 c p))
  | deliver_v1 a rest p c c' : todo p = ToV1 a :: rest -> v1 p = Some c ->
      V1Server.lstep pad (v1_label a) c c' -> deliver_step p (set_todo rest (set_v1 c' p)).

(** The threads of the servers. *)
Inductive thread_step : process -> process -> Prop :=
  | thread_v2 l p c : V2Threads.by_caller l = false -> V2Threads.lstep pad l (v2 p) c ->
      thread_step p (set_v2 c p)
  | thread_v1 l p c c' : V1Server.by_caller l = false -> v1 p = Some c ->
      V1Server.lstep pad l c c' -> thread_step p (set_v1 c' p).

Definition pstep (p p' : process) : Prop :=
  message_step p p' \/ deliver_step p p' \/ thread_step p p'.

(** The servers have been started and the tablet has just been connected. *)
Definition initial {HB : BuildConfig} {HK : ForegroundOverride.KernelCalls} {HJ : InjectDll.InjectOS}
    (fuel : nat) (junk : AXIS) (tid window : Z) (k : ForegroundOverride.kernel)
    (inject : option InjectableBuggyDriver) (p : process) : Prop :=
  exists t, Construct fuel junk tid inject (new_Tablet window [] k NoInstance) = Ret tt t /\
    wintab p = set_mHandler [] t /\ given p = mHandler t /\
    todo p = deliveries (v1 p) (mHandler t) /\
    (exists s, V2Threads.started s /\ v2 p = V2Threads.mkSys s V2Threads.Idle V2Threads.Ready) /\
    (v1 p = None \/ v1 p = Some (V1Server.new_V1Server, V1Server.Accepting)).

(** ** What the tablet hands on *)

Section tablet.
Context {H H' : Type}.

Lemma Impl_natural m w l (h : H') (s : Tablet H) :
  ProcessMessageImpl m w l (retype h s) = lift_res (retype h) (ProcessMessageImpl m w l s).
Proof.
  unfold ProcessMessageImpl, ActivateContext, print, WintabTablet.call, gets, modify, st_bind, st_ret.
  destruct (m =? WT_PROXIMITY); [done|]; destruct (m =? WT_CTXOVERLAP).
  { change (mContext (retype h s)) with (mContext s); destruct (_ && _); [|done].
    by destruct (wt_exports WTOverlap). }
  destruct (m =? WT_PACKET); [|destruct (m =? WT_PACKETEXT); [|done]];
    (destruct (wt_exports WTPacket); [|done]); cbn.
  - destruct (wt_packet _ _ _) as [q|]; [|done]; by destruct (apply_packet _ q _).
  - destruct (wt_packet_ext _ _ _) as [q|]; [|done]; by destruct (apply_control _ _).
Qed.

(** A message that is not handled leaves the state alone, and none touches the
    handler. *)
Lemma Impl_keeps m w l (s s' : Tablet H) b : ProcessMessageImpl m w l s = Ret b s' ->
  mHandler s' = mHandler s /\ (b = false -> mState s' = mState s).
Proof.
  unfold ProcessMessageImpl, ActivateContext, print, WintabTablet.call, gets, modify, st_bind, st_ret.
  destruct (m =? WT_PROXIMITY); [by intros [= <- <-]|]; destruct (m =? WT_CTXOVERLAP).
  { destruct (_ && _); [|by intros [= <- <-]]; destruct (wt_exports WTOverlap); [|done].
    by intros [= <- <-]. }
  destruct (m =? WT_PACKET); [|destruct (m =? WT_PACKETEXT); [|by intros [= <- <-]]];
    (destruct (wt_exports WTPacket); [|done]); cbn.
  - destruct (wt_packet _ _ _) as [q|]; [|by intros [= <- <-]].
    destruct (apply_packet _ q _); [by intros [= <- <-]|done].
  - destruct (wt_packet_ext _ _ _) as [q|]; [|by intros [= <- <-]].
    destruct (apply_control _ _); [by intros [= <- <-]|done].
Qed.
End tablet.

(** A message gives the handlers the new state, or nothing. *)
Lemma message_calls hwnd m w l (s s' : Tablet (list call)) b :
  ProcessMessage hwnd m w l s = Ret b s' -> mHandler s = [] ->
  mHandler s' = [CState (mState s')] \/ mHandler s' = [] /\ mState s' = mState s.
Proof.
  unfold ProcessMessage; intros E Hs; destruct (negb _); [injection E as _ <-; by right|].
  unfold gets in E; unfold st_bind at 1 in E; destruct (gInstance s); [injection E as _ <-; by right| |done].
  unfold st_bind at 1 in E; destruct (negb _); [injection E as _ <-; by right|].
  apply bind_Ret in E as (handled & s1 & E1 & E); destruct (Impl_keeps _ _ _ _ _ _ E1) as [Eh Est].
  destruct handled.
  - left; injection E as _ <-; cbn; by rewrite Eh, Hs.
  - right; injection E as _ <-; rewrite Eh; auto.
Qed.

(** The same message with any handler and with the collecting one. *)
Lemma message_natural {H} {HI : IHandler H} hwnd m w l (s s' : Tablet H) b :
  ProcessMessage hwnd m w l s = Ret b s' ->
  mHandler s' = mHandler s /\
    ProcessMessage hwnd m w l (retype [] s) = Ret b (retype (H' := list call) [] s') \/
  handle_state (mState s') (mHandler s) = Ret tt (mHandler s') /\
    ProcessMessage hwnd m w l (retype [] s) = Ret b (retype [CState (mState s')] s').
Proof.
  remember (ProcessMessage hwnd m w l (retype [] s)) as r eqn:Er; revert Er; unfold ProcessMessage.
  intros Er E; destruct (negb _); [injection E as <- <-; by left|].
  unfold gets in *; unfold st_bind at 1 in E; unfold st_bind at 1 in Er; cbn [retype gInstance mWindow] in Er.
  destruct (gInstance s); [injection E as <- <-; by left| |done].
  unfold st_bind at 1 in E; unfold st_bind at 1 in Er; cbn [retype mWindow] in Er.
  destruct (negb _); [injection E as <- <-; by left|].
  apply bind_Ret in E as (handled & s1 & E1 & E); destruct (Impl_keeps _ _ _ _ _ _ E1) as [Eh _].
  unfold st_bind at 1 in Er; rewrite Impl_natural, E1 in Er; cbn [lift_res] in Er; destruct handled; [right|left].
  - unfold st_bind at 1 in E; apply bind_Ret in E as ([] & s2 & E2 & [= <- <-]); unfold zoom in E2.
    rewrite Eh in E2; destruct (handle_state (mState s1) (mHandler s)) as [[] h| | |] eqn:Es; try done.
    by injection E2 as <-.
  - by injection E as <- <-.
Qed.

(** A constructor that returns has connected to the tablet last. *)
Lemma Construct_connects {H} {HI : IHandler H} {HB : BuildConfig} {HK : ForegroundOverride.KernelCalls}
    {HJ : InjectDll.InjectOS} fuel junk tid inject (s t : Tablet H) :
  Construct fuel junk tid inject s = Ret tt t ->
  exists s', mHandler s' = mHandler s /\ ConnectToTablet fuel junk s' = Ret tt t.
Proof.
  intros E; unfold Construct in E; apply bind_Ret in E as (window & s0 & [= _ <-] & E).
  apply bind_Ret in E as ([] & s1 & E1 & E).
  assert (mHandler s1 = mHandler s) as H1
    by (unfold zoom in E1; destruct (ForegroundOverride.OpenWriter _ _ _); [by injection E1 as _ <-|done..]).
  unfold on_throw at 1 in E; destruct (st_bind _ _ s1) as [[] t'| | |] eqn:E2; try done; injection E as ->.
  apply bind_Ret in E2 as (g & s2 & [= <- <-] & E2); destruct (gInstance s1); try done.
  destruct (negb wt_loaded); [done|]; apply bind_Ret in E2 as ([] & s3 & [= <-] & E2).
  unfold on_throw in E2; destruct (st_bind _ _ _) as [[] t'| | |] eqn:E3 in E2; try done; injection E2 as ->.
  apply bind_Ret in E3 as ([] & s4 & E4 & E3); exists s4; split; [|done]; rewrite <- H1.
  destruct inject as [d|]; [|by injection E4 as <-].
  assert (forall b exe, hijack fuel b exe (set_gInstance Instance s1) = Ret tt s4 -> mHandler s4 = mHandler s1) as Hh.
  { intros b exe; unfold hijack, zoom; destruct (negb _); [done|].
    destruct (InjectDll.InjectDllByExecutableFileName _ _ _ _ _); [by intros [= _ <-]|done..]. }
  destruct d; by eapply Hh.
Qed.

(** ** The invariant *)

(** The system and the driver are such that the loops of the constructor end. *)
Definition settles {HJ : InjectDll.InjectOS} (M N fuel : nat) : Prop :=
  (forall t n r, (M <= length t)%nat -> InjectDll.os_query t n <> InjectDll.LengthMismatch r) /\
  extensions_below N /\
  (M < fuel)%nat /\ (N < fuel)%nat /\ Z.of_nat fuel < 2 ^ 31 - 300.

Definition states_of (cs : list call) : list V2.State :=
  omap (fun c => match c with CState st => Some st | CDevice _ => None end) cs.
Definition v2_todo (ds : list delivery) : list V2.State :=
  omap (fun d => match d with ToV2 (CState st) => Some st | _ => None end) ds.
Definition v1_todo (ds : list delivery) : list V2.State :=
  omap (fun d => match d with ToV1 (CState st) => Some st | _ => None end) ds.
Definition v2_done (ls : list V2Threads.label) : list V2.State :=
  omap (fun l => match l with V2Threads.LState st => Some st | _ => None end) ls.
Definition v1_done (ls : list V1Server.label) : list V2.State :=
  omap (fun l => match l with V1Server.LState st => Some st | _ => None end) ls.

(** What is left of the deliveries of one call. *)
Definition part_of {A} (v1 : option A) (c : call) (ds : list delivery) : Prop :=
  ds = deliveries v1 [c] \/ ds = [] \/ is_Some v1 /\ ds = [ToV1 c].

(** Where the main thread is in a call to the v2 server, and whether that server
    has the device. *)
Definition v2_at (ds : list delivery) (c : V2Threads.sys) : Prop :=
  match ds with
  | ToV2 (CDevice d) :: _ =>
      V2Threads.caller_at c = V2Threads.Ready \/
      V2Threads.caller_at c = V2Threads.Sending (V2Server.stored_device d)
  | _ => V2Threads.caller_at c = V2Threads.Ready /\ V2Server.mDevice (V2Threads.object c) <> None
  end.

Record pinv (p : process) : Prop := {
  p_running : running (wintab p);
  p_idle : mHandler (wintab p) = [];
  p_last : forall st, last (states_of (given p)) = Some st -> st = mState (wintab p);
  p_part : exists c, call_wf c /\ part_of (v1 p) c (todo p);
  p_v2_at : v2_at (todo p) (v2 p);
  p_v2 : exists ls, V2History.ran pad ls (v2 p) /\
    states_of (given p) = v2_done ls ++ v2_todo (todo p);
  p_v1 : forall c, v1 p = Some c -> exists ls, V1History.ran pad ls c /\
    states_of (given p) = v1_done ls ++ v1_todo (todo p)
}.

Context {HD : DriverTypes} {HU : CodePageSpec}.

Lemma initial_pinv {HB : BuildConfig} {HK : ForegroundOverride.KernelCalls} {HJ : InjectDll.InjectOS}
    M N fuel junk tid window k inject p :
  settles M N fuel -> initial fuel junk tid window k inject p -> pinv p.
Proof.
  intros (HM & HN & Hf1 & Hf2 & Hf3) (t & E & Et & Eg & Ed & (s & Hs & E2) & E1).
  pose proof (Construct_within M N fuel junk tid inject (new_Tablet window [] k NoInstance)
    HM Hf1 HN Hf2 Hf3 ltac:(split; [by repeat split|by repeat split|constructor|done]) eq_refl) as Hr.
  rewrite E in Hr; cbn [within] in Hr.
  apply Construct_connects in E as (s' & Hs' & E); apply device_announced in E as (Eh & _).
  rewrite Hs' in Eh; injection Eh as Eh; cbn in Eh; rewrite <- Eh in Eg, Ed; set (d := mDeviceInfo t) in *.
  split.
  - rewrite Et; destruct Hr; split; try done; constructor.
  - by rewrite Et.
  - by rewrite Eg.
  - exists (CDevice d); split; [apply Hr|]; by left.
  - rewrite Ed, E2; by left.
  - rewrite E2; exists []; split; [by apply V2History.ran_start|]; rewrite Eg, Ed; by destruct (v1 p).
  - intros c Ec; destruct E1 as [E1|E1]; rewrite Ec in E1; [done|]; injection E1 as ->.
    exists []; split; [apply V1History.ran_start|]; by rewrite Eg, Ed, Ec.
Qed.

Lemma v2_done_snoc ls l : v2_done (ls ++ [l]) =
  v2_done ls ++ match l with V2Threads.LState st => [st] | _ => [] end.
Proof. unfold v2_done; rewrite omap_app; by destruct l. Qed.

Lemma v1_done_snoc ls l : v1_done (ls ++ [l]) =
  v1_done ls ++ match l with V1Server.LState st => [st] | _ => [] end.
Proof. unfold v1_done; rewrite omap_app; by destruct l. Qed.

Lemma states_of_snoc cs c : states_of (cs ++ [c]) =
  states_of cs ++ match c with CState st => [st] | CDevice _ => [] end.
Proof. unfold states_of; rewrite omap_app; by destruct c. Qed.

(** A message that is processed leaves a running tablet. *)
Lemma processed_running hwnd m w l (s t : Tablet (list call)) b : running s ->
  ProcessMessage hwnd m w l s = Ret b t -> running t.
Proof.
  intros Hs E; pose proof (ProcessMessage_exact hwnd m w l s Hs) as H; rewrite E in H.
  by destruct (fault hwnd m w l s).
Qed.

Lemma message_pinv p p' : pinv p -> message_step p p' -> pinv p'.
Proof.
  intros [H1 H2 H3 _ H5 (ls & Hr & Hl) H7] Hs; destruct Hs as [hwnd m w l p b t Ed Et].
  pose proof (processed_running hwnd m w l (wintab p) t b H1 Et) as Hrun.
  assert (running (set_mHandler [] t)) as Hrun0 by (destruct Hrun; split; try done; constructor).
  rewrite Ed in H5, Hl; unfold v2_todo in Hl; cbn in Hl; rewrite app_nil_r in Hl.
  destruct (message_calls _ _ _ _ _ _ _ Et H2) as [Ec|[Ec Em]].
  - rewrite Ec; split; cbn [wintab given todo v2 v1]; try done.
    + intros st; rewrite states_of_snoc, last_snoc; by intros [= <-].
    + exists (CState (mState t)); split; [apply Hrun|by left].
    + exists ls; split; [done|]; rewrite states_of_snoc, Hl; by destruct (v1 p).
    + intros c Ev; destruct (H7 c Ev) as (ls1 & Hr1 & Hl1); exists ls1; split; [done|].
      rewrite Ed in Hl1; unfold v1_todo in Hl1; cbn in Hl1; rewrite app_nil_r in Hl1.
      by rewrite states_of_snoc, Hl1, Ev.
  - rewrite Ec, app_nil_r; split; cbn [wintab given todo v2 v1]; try done.
    + intros st Est; cbn; rewrite Em; auto.
    + exists (CState (mState t)); split; [apply Hrun|right; by left].
    + exists ls; split; [done|]; by rewrite Hl, app_nil_r.
    + intros c Ev; destruct (H7 c Ev) as (ls1 & Hr1 & Hl1); exists ls1; split; [done|].
      by rewrite Ed in Hl1.
Qed.

(** The step of the v2 server that has the given label of the caller. *)
Ltac caller_step H :=
  inversion H; subst;
  try match goal with E : (if ?b then _ else _) = _ |- _ => by destruct b end.

(** Where the caller is after each of its steps on the v2 server. *)
Lemma lstep_store d c c' : V2Threads.lstep pad (V2Threads.LStore d) c c' ->
  V2Threads.caller_at c' = V2Threads.Sending (V2Server.stored_device d).
Proof. intros H; by caller_step H. Qed.

Lemma lstep_sent d c c' : V2Threads.lstep pad (V2Threads.LSent d) c c' ->
  V2Threads.caller_at c = V2Threads.Sending d /\ V2Threads.caller_at c' = V2Threads.Ready /\
  V2Server.mDevice (V2Threads.object c') = V2Server.mDevice (V2Threads.object c).
Proof. intros H; caller_step H; split_and!; try done; cbn; by eapply (fun H => proj1 (V2Threads.keeps_SendRaw _ _ _ _ _ H)). Qed.

Lemma lstep_state st c c' : V2Threads.lstep pad (V2Threads.LState st) c c' ->
  V2Threads.caller_at c' = V2Threads.Ready /\ V2Server.mDevice (V2Threads.object c') <> None.
Proof.
  intros H; caller_step H; split; [done|]; cbn.
  match goal with E' : V2Server.SetState _ _ ?s' = _ |- _ => rename E' into E; rename s' into s end.
  unfold V2Server.SetState, gets in E; unfold st_bind at 1 in E.
  destruct (V2Server.mDevice s) eqn:Ed; [|done]; apply bind_Ret in E as (b & s1 & E & [= <-]).
  apply V2Threads.keeps_SendRaw in E as [E _]; by rewrite E, Ed.
Qed.

(** The rest of a call's deliveries. *)
Lemma part_tail {A} (v1 : option A) c x rest : part_of v1 c (x :: rest) ->
  part_of v1 c rest /\ match x with ToV2 a | ToV1 a => a = c end /\
  forall a r, rest <> ToV2 a :: r.
Proof.
  unfold part_of; intros [E|[E|[Hv E]]]; [|done|].
  - injection E as -> E; destruct v1; subst; cbn; split_and!; eauto; by intros ? ? [=].
  - injection E as -> ->; split_and!; eauto; by intros ? ? [=].
Qed.

Lemma v2_at_rest ds c : (forall a r, ds <> ToV2 a :: r) ->
  V2Threads.caller_at c = V2Threads.Ready -> V2Server.mDevice (V2Threads.object c) <> None -> v2_at ds c.
Proof. intros Hd Hc Hm; unfold v2_at; destruct ds as [|[a|a] ds]; [done|by destruct (Hd a ds)|done]. Qed.

(** A step of the v2 server in the history of a process. *)
Lemma v2_history ls l c c' given left left' : V2History.ran pad ls c -> V2Threads.lstep pad l c c' ->
  states_of given = v2_done ls ++ left ->
  left = match l with V2Threads.LState st => [st] | _ => [] end ++ left' ->
  exists ls', V2History.ran pad ls' c' /\ states_of given = v2_done ls' ++ left'.
Proof.
  intros Hr Hl Eg ->; exists (ls ++ [l]); split; [by eapply V2History.ran_step|].
  by rewrite v2_done_snoc, <- app_assoc.
Qed.

Lemma v1_history ls l c c' given left left' : V1History.ran pad ls c -> V1Server.lstep pad l c c' ->
  states_of given = v1_done ls ++ left ->
  left = match l with V1Server.LState st => [st] | _ => [] end ++ left' ->
  exists ls', V1History.ran pad ls' c' /\ states_of given = v1_done ls' ++ left'.
Proof.
  intros Hr Hl Eg ->; exists (ls ++ [l]); split; [by eapply V1History.ran_step|].
  by rewrite v1_done_snoc, <- app_assoc.
Qed.

Lemma deliver_pinv p p' : pinv p -> deliver_step p p' -> pinv p'.
Proof.
  intros [H1 H2 H3 (c0 & Hc0 & Hp) H5 (ls & Hr & Hl) H7] Hs.
  destruct Hs as [d rest p c Ed Hs|d rest p c Ed Hs|st rest p c Ed Hs|a rest p c c' Ed Ev Hs];
    rewrite Ed in *; destruct (part_tail _ _ _ _ Hp) as (Hp' & <- & Hrest).
  - split; cbn [set_v2 wintab given todo v2 v1]; try done; try rewrite Ed; eauto.
    + right; by eapply lstep_store.
    + eapply v2_history; try done; by destruct rest.
  - apply lstep_sent in Hs as Hc; destruct Hc as (Ec & Ec' & Em).
    split; cbn [set_todo set_v2 wintab given todo v2 v1]; try done; eauto.
    + apply v2_at_rest; [done|done|]; rewrite Em.
      by rewrite (V2Threads.inv_caller _ _ (V2Threads.reachable_inv pad _ (V2History.ran_reachable pad _ _ Hr)) _ Ec).
    + by eapply v2_history.
  - apply lstep_state in Hs as Hc; destruct Hc as [Ec Em].
    split; cbn [set_todo set_v2 wintab given todo v2 v1]; try done; eauto.
    + by apply v2_at_rest.
    + by eapply v2_history.
  - destruct (H7 c Ev) as (ls1 & Hr1 & Hl1).
    split; cbn [set_todo set_v1 wintab given todo v2 v1]; try done; eauto.
    + exists a; split; [done|]; destruct Hp' as [->|[->|[_ ->]]]; [left|by right; left|by right; right].
      by rewrite Ev.
    + by apply v2_at_rest; [|apply H5..].
    + intros c1 [= <-]; eapply v1_history; try done; by destruct a.
Qed.

Lemma thread_pinv p p' : pinv p -> thread_step p p' -> pinv p'.
Proof.
  intros [H1 H2 H3 H4 H5 (ls & Hr & Hl) H7] Hs; destruct Hs as [l p c Hb Hs|l p c c' Hb Ev Hs].
  - split; cbn [set_v2 wintab given todo v2 v1]; try done.
    + destruct (V2Threads.step_keeps_device pad l _ _ Hs Hb) as [[Em _] Ec].
      unfold v2_at in *; by rewrite Em, Ec.
    + eapply v2_history; try done; by destruct l.
  - split; cbn [set_v1 wintab given todo v2 v1]; try done; eauto.
    + destruct H4 as (a & Ha & Hp); exists a; split; [done|]; rewrite Ev in Hp.
      destruct Hp as [Hp|[Hp|[_ Hp]]]; [by left|by right; left|right; by right].
    + intros c1 [= <-]; destruct (H7 c Ev) as (ls1 & Hr1 & Hl1); eapply v1_history; try done; by destruct l.
Qed.

Lemma pstep_pinv p p' : pinv p -> pstep p p' -> pinv p'.
Proof. intros Hp [?|[?|?]]; eauto using message_pinv, deliver_pinv, thread_pinv. Qed.

(** ** The main thread is never stuck *)

Lemma v2_delivers a rest p : pinv p -> todo p = ToV2 a :: rest -> exists p', deliver_step p p'.
Proof.
  intros [_ _ _ (c0 & Hc0 & Hp) H5 (ls & Hr & _) _] Ed; rewrite Ed in *.
  apply part_tail in Hp as (_ & <- & _).
  pose proof (V2Threads.reachable_inv pad _ (V2History.ran_reachable pad _ _ Hr)) as Hi.
  destruct (v2 p) as [s at_ cl] eqn:Ev; destruct a as [d|st]; cbn in H5.
  - destruct H5 as [->| ->].
    + eexists; eapply deliver_store; [done|]; rewrite Ev; by apply V2Threads.step_store.
    + destruct (V2Threads.inv_device _ _ Hi _ (V2Threads.inv_caller _ _ Hi _ eq_refl)) as (Hwf & _ & Hs).
      assert (returns (V2Server.Send pad (V2Server.stored_device d) s) (fun _ _ => True)) as Hsend
        by (eapply returns_weaken; [by apply (V2Server.Send_sent (H1 := V2.DeviceInfo_message) pad)|done]).
      apply returns_inv in Hsend as (b & s' & E & _).
      eexists; eapply deliver_sent; [done|]; rewrite Ev; by eapply V2Threads.step_send_device.
  - destruct H5 as [-> Hm]; destruct (V2Server.mDevice s) as [d|] eqn:Em; [|done].
    destruct (V2Threads.inv_device _ _ Hi d Em) as (Hwf & _ & _).
    destruct (returns_inv _ _ (V2Server.SetState_sent pad st s d Hc0 Em Hwf)) as ([] & s' & E & _).
    eexists; eapply deliver_state; [done|]; rewrite Ev; by apply V2Threads.step_set_state.
Qed.

Lemma v1_delivers a rest p : pinv p -> todo p = ToV1 a :: rest -> exists p', deliver_step p p'.
Proof.
  intros [_ _ _ (c0 & Hc0 & Hp) _ _ H7] Ed; rewrite Ed in *.
  assert (is_Some (v1 p) /\ a = c0) as [[[s ph] Ev] ->].
  { destruct Hp as [Hp|[Hp|[Hv Hp]]]; [|done|by injection Hp as ->]; by destruct (v1 p). }
  destruct (H7 _ Ev) as (ls & Hr & _).
  pose proof (V1Server.good_inv _ _ (V1Server.reachable_good pad _ (V1History.v1_ran_reachable pad _ _ Hr))) as Hi.
  destruct c0 as [d|st].
  - destruct (returns_inv _ _ (V1Server.SetDevice_inv pad d s Hc0 Hi)) as ([] & s' & E & _).
    eexists; eapply deliver_v1; [done|exact Ev|]; by apply V1Server.step_set_device.
  - destruct (returns_inv _ _ (V1Server.SetState_inv pad st s Hc0 Hi)) as ([] & s' & E & _).
    eexists; eapply deliver_v1; [done|exact Ev|]; by apply V1Server.step_set_state.
Qed.

(** ** What the clients have *)

Lemma v2_since ls : exists before, v2_done ls = before ++ V2History.since_accept ls.
Proof.
  induction ls as [|l ls [before IH]] using rev_ind; [by exists []|].
  rewrite v2_done_snoc, V2History.since_accept_app, IH.
  destruct l; cbn [V2History.since_step]; rewrite ?app_nil_r.
  1,2,4,6: by exists before.
  - exists before; by rewrite app_assoc.
  - exists (before ++ V2History.since_accept ls); by rewrite app_nil_r.
Qed.

Lemma v1_since ls : exists before, v1_done ls = before ++ V1History.since_connect ls.
Proof.
  induction ls as [|l ls [before IH]] using rev_ind; [by exists []|].
  rewrite v1_done_snoc, V1History.v1_since_app, IH.
  destruct l; cbn [V1History.since_step]; rewrite ?app_nil_r.
  1,4: by exists before.
  - exists before; by rewrite app_assoc.
  - exists (before ++ V1History.since_connect ls); by rewrite app_nil_r.
Qed.
End process.

(** Reachable from a process that has just been set up. *)
Definition reachable {HA : Arch} {HB : BuildConfig} {HO : V2Server.SocketOS} {HP : V1Server.PipeOS}
    {HC : CodePage} {HW : Wintab.WintabDriver} {HK : ForegroundOverride.KernelCalls}
    {HJ : InjectDll.InjectOS} (pad : nat -> Z) (p : process) : Prop :=
  exists M N fuel junk tid window k inject p0,
    settles M N fuel /\ initial fuel junk tid window k inject p0 /\ rtc (pstep pad) p0 p.

Section reachable.
Context {HA : Arch} {HB : BuildConfig} {HO : V2Server.SocketOS} {HP : V1Server.PipeOS} {HC : CodePage}.
Context {HW : Wintab.WintabDriver} {HK : ForegroundOverride.KernelCalls} {HJ : InjectDll.InjectOS}.
Context {HD : DriverTypes} {HU : CodePageSpec} (pad : nat -> Z).

Lemma reachable_pinv p : reachable pad p -> pinv pad p.
Proof.
  intros (M & N & fuel & junk & tid & window & k & inject & p0 & Hs & Hi & Hr).
  apply (initial_pinv pad M N _ _ _ _ _ _ _ Hs) in Hi; induction Hr; eauto using pstep_pinv.
Qed.

(** The state of the program between two window messages, as main.cpp has it and
    as a process. *)
Definition represents (p : process) (s : Tablet (MultiHandler server)) : Prop :=
  wintab p = retype [] s /\ todo p = [] /\ V2Threads.caller_at (v2 p) = V2Threads.Ready /\
  mHandler s = PtrV2 (V2Threads.object (v2 p)) ::
               match v1 p with Some (o, _) => [PtrV1 o] | None => [] end.

Lemma server_state_ret st h h' : handle_state (IHandler := server_handler pad) st h = Ret tt h' ->
  match h with
  | PtrV2 o => exists o', h' = PtrV2 o' /\ V2Server.SetState pad st o = Ret tt o'
  | PtrV1 o => exists o', h' = PtrV1 o' /\ V1Server.SetState pad st o = Ret tt o'
  end.
Proof.
  destruct h as [o|o]; cbn [handle_state server_handler V2Server_handler V1Server_handler];
    [destruct (V2Server.SetState pad st o) as [[] o'| | |]
    |destruct (V1Server.SetState pad st o) as [[] o'| | |]]; try done; intros [= <-]; eauto.
Qed.

(** The calls of one message, made by [MultiHandler] and as deliveries. *)
Lemma deliver_all st p s hs : represents p s -> V2.state_wf st ->
  handle_state (IHandler := MultiHandler_handler (HI := server_handler pad)) st (mHandler s) = Ret tt hs ->
  forall t g, let p0 := mkProcess t g (deliveries (v1 p) [CState st]) (v2 p) (v1 p) in
  exists c o, rtc (pstep pad) p0 (mkProcess t g [] c o) /\ V2Threads.caller_at c = V2Threads.Ready /\
    hs = PtrV2 (V2Threads.object c) :: match o with Some (o, _) => [PtrV1 o] | None => [] end.
Proof.
  intros (_ & _ & Ec & Eh) Hst E t g p0; rewrite Eh in E; apply for_each_ret in E.
  destruct (v2 p) as [o a cl] eqn:E2; cbn [V2Threads.object V2Threads.caller_at] in *; subst cl.
  apply Forall2_cons_inv_l in E as (h2 & hs1 & F2 & F1 & ->); apply server_state_ret in F2 as (o' & -> & F2).
  set (c := V2Threads.mkSys o' a V2Threads.Ready).
  assert (pstep pad p0 (set_todo (drop 1 (todo p0)) (set_v2 c p0))) as Hs1.
  { right; left; eapply deliver_state; [reflexivity|]; unfold p0; cbn [v2]; by apply V2Threads.step_set_state. }
  unfold p0 in *; clear p0; exists c; destruct (v1 p) as [[o1 ph]|] eqn:E1; cbn in Hs1.
  - apply Forall2_cons_inv_l in F1 as (h1 & hs2 & F1 & F0 & ->); apply Forall2_nil_inv_l in F0 as ->.
    apply server_state_ret in F1 as (o1' & -> & F1); exists (Some (o1', ph)); split_and!; [|done|done].
    eapply rtc_l; [exact Hs1|]; apply rtc_once; right; left.
    refine (deliver_v1 pad (CState st) [] (mkProcess t g [ToV1 (CState st)] c (Some (o1, ph)))
      (o1, ph) (o1', ph) eq_refl eq_refl _); by apply V1Server.step_set_state.
  - apply Forall2_nil_inv_l in F1 as ->; exists None; split_and!; [|done|done].
    by apply rtc_once.
Qed.
End reachable.

(** ** A concrete run *)

Module Sample.
#[local] Existing Instance arch64.
#[local] Existing Instance TabletProofs.Sample.config.
#[local] Existing Instance TabletProofs.Sample.driver.
#[local] Existing Instance ForegroundOverride.Sample.calls.
#[local] Existing Instance InjectDll.Sample.os.
#[local] Existing Instance V2Server.Sample.os.
#[local] Existing Instance V1Server.Sample.os.
#[local] Existing Instance Utf8.Sample.codepage.
Definition pad : nat -> Z := V2Server.Sample.pad.

(** What is left of a state by an operation that returns. *)
Definition after {S A} (m : ST S A) (s : S) : S := match m s with Ret _ s' => s' | _ => s end.

Definition new_tablet : Tablet (list call) := new_Tablet 77 [] ForegroundOverride.Sample.fresh NoInstance.
Definition tablet0 : Tablet (list call) :=
  after (Construct 4 TabletProofs.Sample.axis 1 (Some HuionAlternate)) new_tablet.
Definition device : V2.DeviceInfo := mDeviceInfo tablet0.

(** The device goes to both servers, each gets a client, and a packet comes. *)
Definition o1 : V2Server.V2Server :=
  V2Server.set_mDevice (Some (V2Server.stored_device device)) V2Server.Sample.object.
Definition o2 : V2Server.V2Server := after (V2Server.Send pad (V2Server.stored_device device)) o1.
Definition o3 : V2Server.V2Server := after V2Accept.AcceptClient o2.
Definition u1 : V1Server.V1Server := after (V1Server.SetDevice pad device) V1Server.new_V1Server.
Definition u2 : V1Server.V1Server := after (V1Server.AcceptClient pad) u1.
Definition tablet1 : Tablet (list call) :=
  after (ProcessMessage 77 WT_PACKET 1 1) (set_mHandler [] tablet0).
Definition o4 : V2Server.V2Server := after (V2Server.SetState pad (mState tablet1)) o3.
Definition u3 : V1Server.V1Server := after (V1Server.SetState pad (mState tablet1)) u2.

Definition sys (o : V2Server.V2Server) (a : V2Threads.acceptor) : V2Threads.sys :=
  V2Threads.mkSys o a V2Threads.Ready.
Definition start : process :=
  mkProcess (set_mHandler [] tablet0) [CDevice device] [ToV2 (CDevice device); ToV1 (CDevice device)]
    (sys V2Server.Sample.object V2Threads.Idle) (Some (V1Server.new_V1Server, V1Server.Accepting)).
Definition told : process :=
  mkProcess (set_mHandler [] tablet0) [CDevice device] [] (sys o2 V2Threads.Idle) (Some (u1, V1Server.Accepting)).
Definition served : process :=
  mkProcess (set_mHandler [] tablet0) [CDevice device] [] (sys o3 V2Threads.Accepted) (Some (u2, V1Server.Watching)).
Definition moved : process :=
  mkProcess (set_mHandler [] tablet1) [CDevice device; CState (mState tablet1)]
    [ToV1 (CState (mState tablet1))] (sys o4 V2Threads.Accepted) (Some (u2, V1Server.Watching)).

Lemma start_settles : settles 0 1 4.
Proof.
  split_and!; try done.
  - intros t j Hj; cbn; destruct (Z.eqb_spec (WTI_EXTENSIONS + j) WTI_EXTENSIONS); [lia|done].
  - lia.
  - lia.
Qed.

Lemma start_initial : initial 4 TabletProofs.Sample.axis 1 77 ForegroundOverride.Sample.fresh
  (Some HuionAlternate) start.
Proof.
  exists tablet0; split_and!; try (vm_compute; reflexivity); [|by right].
  exists V2Server.Sample.object; split; [apply V2Threads.Sample.object_started|done].
Qed.

Lemma running_device (t : Tablet (list call)) :
  running (set_mHandler [] t) -> V2.deviceinfo_wf (mDeviceInfo t).
Proof. by intros []. Qed.

Lemma sample_wf : V2.deviceinfo_wf device /\ V2.state_wf (mState tablet1).
Proof.
  pose proof (initial_pinv pad
    0 1 4 _ _ _ _ _ _ start_settles start_initial) as Hi.
  pose proof (p_running _ _ Hi) as Hr; cbn [wintab start] in Hr; split; [by apply running_device|].
  apply (run_state tablet1), (processed_running (HD := sane_types (SaneDriver := TabletProofs.Sample.driver_sane 1))
    77 WT_PACKET 1 1 (set_mHandler [] tablet0) tablet1 true); [exact Hr|vm_compute; reflexivity].
Qed.

(** Both servers are told the device. *)
Lemma start_told : rtc (pstep pad) start told.
Proof.
  destruct sample_wf as [Hd _].
  eapply rtc_l; [right; left|eapply rtc_l; [right; left|apply rtc_once; right; left]].
  - refine (deliver_store pad device _ start (V2Threads.mkSys o1 V2Threads.Idle
      (V2Threads.Sending (V2Server.stored_device device))) eq_refl _); by apply V2Threads.step_store.
  - eapply (deliver_sent pad device _ _ (sys o2 V2Threads.Idle)); [reflexivity|].
    apply (V2Threads.step_send_device pad _ _ _ false); vm_compute; reflexivity.
  - eapply (deliver_v1 pad (CDevice device) [] (mkProcess _ _ _ _ _) _ (u1, V1Server.Accepting) eq_refl eq_refl).
    apply V1Server.step_set_device; [done|]; vm_compute; reflexivity.
Qed.

(** Both get a client. *)
Definition created : V1Server.V1Server := after V1Server.CreatePipe u1.
Definition connected : V1Server.V1Server := after (V1Server.ConnectPipe 7) created.
Definition published : V1Server.V1Server := after (V1Server.move_to_mPipe 7) connected.

Lemma v1_thread l c c' : V1Server.by_caller l = false -> V1Server.lstep pad l c c' ->
  let serving c := mkProcess (set_mHandler [] tablet0) [CDevice device] [] (sys o3 V2Threads.Accepted) (Some c) in
  pstep pad (serving c) (serving c').
Proof. intros Hl E serving; right; right; by refine (thread_v1 pad l (serving c) c c' Hl eq_refl E). Qed.

Lemma told_served : rtc (pstep pad) told served.
Proof.
  eapply rtc_l; [right; right|].
  { refine (thread_v2 pad V2Threads.LAccept told (sys o3 V2Threads.Accepted) eq_refl _).
    apply (V2Threads.step_accept pad true); vm_compute; reflexivity. }
  apply (rtc_l _ _ _ _ (v1_thread V1Server.LOther (u1, V1Server.Accepting) (created, V1Server.Created 7) eq_refl
    ltac:(apply (V1Server.step_create pad (Some 7)); vm_compute; reflexivity))).
  apply (rtc_l _ _ _ _ (v1_thread V1Server.LOther (created, V1Server.Created 7) (connected, V1Server.Connected 7) eq_refl
    ltac:(apply (V1Server.step_connect pad 7 true); vm_compute; reflexivity))).
  apply (rtc_l _ _ _ _ (v1_thread V1Server.LAccept (connected, V1Server.Connected 7) (published, V1Server.Greeting) eq_refl
    ltac:(apply (V1Server.step_publish pad 7); vm_compute; reflexivity))).
  apply rtc_once, (v1_thread V1Server.LOther (published, V1Server.Greeting) (u2, V1Server.Watching) eq_refl).
  apply V1Server.step_greet; vm_compute; reflexivity.
Qed.

(** The packet is processed, and is sent to the v2 client. *)
Definition pending : process :=
  mkProcess (set_mHandler [] tablet1) [CDevice device; CState (mState tablet1)]
    [ToV2 (CState (mState tablet1)); ToV1 (CState (mState tablet1))]
    (sys o3 V2Threads.Accepted) (Some (u2, V1Server.Watching)).

Lemma served_pending : pstep pad served pending.
Proof.
  assert (ProcessMessage 77 WT_PACKET 1 1 (wintab served) = Ret true tablet1) as Et by (vm_compute; reflexivity).
  assert (mHandler tablet1 = [CState (mState tablet1)]) as Ec by (vm_compute; reflexivity).
  pose proof (message 77 WT_PACKET 1 1 served true tablet1 eq_refl Et) as H; rewrite Ec in H; by left.
Qed.

Lemma pending_moved : pstep pad pending moved.
Proof.
  right; left; refine (deliver_state pad (mState tablet1) [ToV1 (CState (mState tablet1))]
    pending (sys o4 V2Threads.Accepted) eq_refl _).
  apply V2Threads.step_set_state; [apply sample_wf|]; vm_compute; reflexivity.
Qed.

Lemma served_reachable : reachable pad served.
Proof.
  exists 0%nat, 1%nat, 4%nat, TabletProofs.Sample.axis, 1, 77, ForegroundOverride.Sample.fresh,
    (Some HuionAlternate), start; split_and!; [apply start_settles|apply start_initial|].
  etrans; [apply start_told|apply told_served].
Qed.

Lemma moved_reachable : reachable pad moved.
Proof.
  destruct served_reachable as (M & N & fuel & junk & tid & window & k & inject & p0 & Hs & Hi & Hr).
  exists M, N, fuel, junk, tid, window, k, inject, p0; split_and!; [done|done|].
  etrans; [exact Hr|]; eapply rtc_l; [apply served_pending|apply rtc_once, pending_moved].
Qed.

(** The program in the state of [served], and what a packet makes of it. *)
Definition program : Tablet (MultiHandler server) := retype [PtrV2 o3; PtrV1 u2] tablet0.
Lemma represents_retype (t : Tablet (list call)) g o a u ph :
  represents (mkProcess (set_mHandler [] t) g [] (sys o a) (Some (u, ph))) (retype [PtrV2 o; PtrV1 u] t).
Proof. by repeat split. Qed.

Lemma served_program : represents served program.
Proof. unfold served, program; apply represents_retype. Qed.

Definition on_packet : ST (Tablet (MultiHandler server)) bool :=
  ProcessMessage (HI := MultiHandler_handler (HI := server_handler pad)) 77 WT_PACKET 1 1.
Definition program' : Tablet (MultiHandler server) := after on_packet program.
End Sample.

(** ** Properties *)

(** C2: clients follow the pen.  However the main thread and the threads of the
    two servers interleave, what the connected client of each server has been sent
    is a contiguous part of the states the tablet has produced, in order, up to at
    most the one the main thread is just handing on; a v1 client has them
    converted.  The last state produced is the current state of the tablet. *)
Theorem clients_follow_pen {HA : Arch} {HB : BuildConfig} {HO : V2Server.SocketOS} {HP : V1Server.PipeOS}
    {HC : CodePage} {HU : CodePageSpec} {HW : WintabDriver} {HD : DriverTypes}
    {HK : ForegroundOverride.KernelCalls} {HJ : InjectDll.InjectOS} (pad : nat -> Z) (p : process) :
  reachable pad p ->
  let produced := states_of (given p) in
  (forall k, V2Server.mClientSocket (V2Threads.object (v2 p)) = Some k ->
     exists before sent, produced = before ++ sent ++ v2_todo (todo p) /\
       Forall2 V2History.carries
         (V2History.states_in (V2Threads.client_log (V2Server.trace (V2Threads.object (v2 p))))) sent) /\
  (forall s ph h, v1 p = Some (s, ph) -> V1Server.mPipe s = Some h ->
     exists before sent, produced = before ++ sent ++ v1_todo (todo p) /\
       Forall2 V1History.carries (V1History.states_in (V1History.client_log (V1Server.trace s))) sent) /\
  (length (v2_todo (todo p)) <= 1)%nat /\ (length (v1_todo (todo p)) <= 1)%nat /\
  (forall st, last produced = Some st -> mState (wintab p) = st).
Proof.
  intros Hr produced; apply reachable_pinv in Hr as [_ _ H3 (c & _ & Hp) _ (ls & Hr & Hl) H7]; split_and!.
  - intros k Hk; destruct (v2_since ls) as [before Hb]; exists before, (V2History.since_accept ls).
    split; [by rewrite app_assoc, <- Hb|]; apply (V2History.ran_states pad); [done|congruence].
  - intros s ph h Hv Hk; destruct (H7 _ Hv) as (ls1 & Hr1 & Hl1); destruct (v1_since ls1) as [before Hb].
    exists before, (V1History.since_connect ls1); split; [by rewrite app_assoc, <- Hb|].
    apply (V1History.v1_ran_states pad ls1 (s, ph)); [done|cbn; congruence].
  - destruct Hp as [->|[->|[_ ->]]]; destruct c, (v1 p); cbn; lia.
  - destruct Hp as [->|[->|[_ ->]]]; destruct c, (v1 p); cbn; lia.
  - intros st Hst; symmetry; auto.
Qed.

Lemma clients_follow_pen_witness :
  V2Server.mClientSocket Sample.o4 = Some 5 /\
  exists before sent,
    [mState Sample.tablet1] = before ++ sent /\
    Forall2 V2History.carries
      (V2History.states_in (V2Threads.client_log (V2Server.trace Sample.o4))) sent.
Proof.
  pose proof (@clients_follow_pen arch64 TabletProofs.Sample.config V2Server.Sample.os V1Server.Sample.os
    Utf8.Sample.codepage Utf8.Sample.spec TabletProofs.Sample.driver
    (sane_types (SaneDriver := TabletProofs.Sample.driver_sane 1))
    ForegroundOverride.Sample.calls InjectDll.Sample.os Sample.pad Sample.moved Sample.moved_reachable) as [H _].
  assert (V2Server.mClientSocket Sample.o4 = Some 5) as Hk by (vm_compute; reflexivity).
  split; [exact Hk|]; destruct (H 5 Hk) as (before & sent & E & F); exists before, sent; split; [|exact F].
  rewrite app_nil_r in E; exact E.
Defined.



(** C15: the process refines the program.  What [WintabTablet::ProcessMessage] does
    in main.cpp, with [MultiHandler] in front of the servers, is a run of the
    process: from a state that represents the program's, the message and the calls
    it leads to end in one that represents what the program ends in. *)
Theorem process_refines_program {HA : Arch} {HB : BuildConfig} {HO : V2Server.SocketOS}
    {HP : V1Server.PipeOS} {HC : CodePage} {HU : CodePageSpec} {HW : WintabDriver} {HD : DriverTypes}
    {HK : ForegroundOverride.KernelCalls} {HJ : InjectDll.InjectOS} (pad : nat -> Z)
    (p : process) (s s' : Tablet (MultiHandler server)) (hwnd msg wParam lParam : Z) (b : bool) :
  reachable pad p -> represents p s ->
  ProcessMessage (HI := MultiHandler_handler (HI := server_handler pad)) hwnd msg wParam lParam s = Ret b s' ->
  exists p', rtc (pstep pad) p p' /\ represents p' s'.
Proof.
  intros Hr Hs E; pose proof Hs as (Ew & Ed & Ec & Eh).
  destruct (message_natural _ _ _ _ _ _ _ E) as [[Eh' Em]|[Est Em]]; rewrite <- Ew in Em.
  - pose proof (message _ _ _ _ p b _ Ed Em) as Hm; eexists; split; [apply rtc_once; by left|].
    repeat split; try done; by rewrite Eh', Eh.
  - pose proof (message _ _ _ _ p b _ Ed Em) as Hm.
    assert (V2.state_wf (mState s')) as Hwf.
    { exact (run_state _ (processed_running _ _ _ _ _ _ _ (p_running _ _ (reachable_pinv pad p Hr)) Em)). }
    destruct (deliver_all pad _ p s _ Hs Hwf Est (retype [] s') (given p ++ [CState (mState s')]))
      as (c & o & Hd & Hc & Hh).
    eexists; split; [eapply rtc_l; [left; exact Hm|exact Hd]|]; by repeat split.
Qed.

Lemma process_refines_program_witness :
  exists p', rtc (@pstep arch64 V2Server.Sample.os V1Server.Sample.os Utf8.Sample.codepage Sample.pad
                    TabletProofs.Sample.driver) Sample.served p' /\
    represents p' Sample.program'.
Proof.
  refine (@process_refines_program arch64 TabletProofs.Sample.config V2Server.Sample.os V1Server.Sample.os
    Utf8.Sample.codepage Utf8.Sample.spec TabletProofs.Sample.driver
    (sane_types (SaneDriver := TabletProofs.Sample.driver_sane 1))
    ForegroundOverride.Sample.calls InjectDll.Sample.os Sample.pad Sample.served Sample.program
    Sample.program' 77 WT_PACKET 1 1 true Sample.served_reachable _ _).
  - apply Sample.served_program.
  - vm_compute; reflexivity.
Defined.

End Process.
