(* ===== verification/ProcessLife.v ===== *)
(** * The end of the process

    The process of [Process] from the message loop to the end of [main]: the
    objects leave their scope in the reverse order of their construction, first
    the tablet, then the v1 server, then the v2 server.  The threads of a server
    go on while the objects before it are destroyed, and those of the v2 server
    also after its listening socket has been closed; each destructor waits for
    the threads of its own server. *)

From S2P Require Import Prelude Layout V2Messages V1Messages Utf8 V1Server V1History V2Server V2Accept V2Discovery.
From S2P Require Import V2Reading V2Threads V2History Handler ForegroundOverride InjectDll Wintab WintabTablet.
From S2P Require Import TabletProofs TabletLife Process.
Import Handler Wintab WintabTablet TabletProofs Process.

Module ProcessLife.

(** Where the main thread is. *)
Inductive stage :=
  | Looping       (* in the message loop *)
  | TabletGone    (* the tablet has been destroyed *)
  | V1Gone        (* so has the v1 server *)
  | Closing       (* the v2 server is in Stop, its listening socket closed *)
  | Gone.         (* the v2 server has been destroyed *)

#[global] Instance stage_dec : EqDecision stage.
Proof. solve_decision. Defined.

Record life := mkLife { proc : process; at_stage : stage }.

Definition set_wintab (t : Tablet (list call)) (p : process) : process :=
  mkProcess t (given p) (todo p) (v2 p) (v1 p).

Section life.
Context {HA : Arch} {HO : V2Server.SocketOS} {HP : V1Server.PipeOS} {HC : CodePage} (pad : nat -> Z).
Context {HW : Wintab.WintabDriver}.

(** The main thread leaves the scope.  [Stop] of the v1 server joins both threads
    and resets the pipe: it goes on when the accept thread has ended.  [Stop] of
    the v2 server closes the listening socket, [close_v2], and then joins. *)
Inductive scope_step : life -> life -> Prop :=
  | destroy_tablet p t : todo p = [] -> Destroy (wintab p) = Ret tt t ->
      scope_step (mkLife p Looping) (mkLife (set_wintab t p) TabletGone)
  | no_v1 p : v1 p = None -> scope_step (mkLife p TabletGone) (mkLife p V1Gone)
  | destroy_v1 p s s' : v1 p = Some (s, V1Server.Exited) -> V1Server.reset_mPipe s = Ret tt s' ->
      scope_step (mkLife p TabletGone) (mkLife (set_v1 (s', V1Server.Exited) p) V1Gone)
  | close_v2 p c : V2Threads.lstep pad V2Threads.LClose (v2 p) c ->
      scope_step (mkLife p V1Gone) (mkLife (set_v2 c p) Closing)
  | destroy_v2 p s s' : v2 p = V2Threads.mkSys s V2Threads.Exited V2Threads.Ready ->
      (modify (V2Server.log V2Server.EThreadsJoined) ;; V2Discovery.after_stop) s = Ret tt s' ->
      scope_step (mkLife p Closing)
        (mkLife (set_v2 (V2Threads.mkSys s' V2Threads.Exited V2Threads.Ready) p) Gone).

(** The threads of a server run until its destructor has returned. *)
Inductive server_step : life -> life -> Prop :=
  | server_v2 l p c a : a <> Gone -> V2Threads.by_caller l = false -> V2Threads.lstep pad l (v2 p) c ->
      server_step (mkLife p a) (mkLife (set_v2 c p) a)
  | server_v1 l p c c' : V1Server.by_caller l = false -> v1 p = Some c -> V1Server.lstep pad l c c' ->
      server_step (mkLife p TabletGone) (mkLife (set_v1 c' p) TabletGone).

Definition life_step (x y : life) : Prop :=
  (exists p p', x = mkLife p Looping /\ y = mkLife p' Looping /\ pstep pad p p') \/
  scope_step x y \/ server_step x y.

(** The main thread waits for its own calls or for a thread that has not ended. *)
Definition waits (x : life) : Prop :=
  match at_stage x with
  | Looping => todo (proc x) <> []
  | TabletGone => exists s ph, v1 (proc x) = Some (s, ph) /\ ph <> V1Server.Exited
  | Closing => V2Threads.acceptor_at (v2 (proc x)) <> V2Threads.Exited
  | V1Gone | Gone => False
  end.

(** ** The invariant *)

(** The tablet holds nothing outside the process. *)
Definition shut (t : Tablet (list call)) : Prop :=
  TabletLife.contexts (WintabTablet.driver t) = Some None /\
  ForegroundOverride.owner (mForegroundOverride t) = None /\ gInstance t = NoInstance.

(** Every state of the tablet has been handed to the servers. *)
Record handed_on (p : process) : Prop := {
  h_todo : todo p = [];
  h_ready : V2Threads.caller_at (v2 p) = V2Threads.Ready;
  h_v2 : exists ls, V2History.ran pad ls (v2 p) /\ states_of (given p) = v2_done ls;
  h_v1 : forall c, v1 p = Some c ->
    exists ls, V1History.ran pad ls c /\ states_of (given p) = v1_done ls
}.

Definition v1_left (p : process) : Prop :=
  forall s ph, v1 p = Some (s, ph) -> ph = V1Server.Exited /\ V1Server.mPipe s = None.
Definition v2_closed (p : process) : Prop := V2Server.mListenSocket (V2Threads.object (v2 p)) = None.

Definition linv (tid : Z) (x : life) : Prop :=
  let p := proc x in
  match at_stage x with
  | Looping => pinv pad p /\ TabletLife.open tid (wintab p)
  | TabletGone => shut (wintab p) /\ handed_on p
  | V1Gone => shut (wintab p) /\ handed_on p /\ v1_left p
  | Closing => shut (wintab p) /\ handed_on p /\ v1_left p /\ v2_closed p
  | Gone => shut (wintab p) /\ v1_left p /\ v2_closed p /\
      V2Threads.acceptor_at (v2 p) = V2Threads.Exited /\ V2Server.mClientSocket (V2Threads.object (v2 p)) = None /\
      exists s, handed_on (set_v2 (V2Threads.mkSys s V2Threads.Exited V2Threads.Ready) p)
  end.

Context {HS : SaneDriver} {HU : CodePageSpec} (tid : Z).

Lemma pstep_open p p' : TabletLife.open tid (wintab p) -> pstep pad p p' -> TabletLife.open tid (wintab p').
Proof.
  intros Ho [H|[H|H]]; [|by destruct H|by destruct H].
  destruct H as [hwnd m w l p b t Ed Et]; pose proof (TabletLife.life_process tid hwnd m w l (wintab p) Ho) as H.
  by rewrite Et in H.
Qed.

Lemma done_handed_on p : pinv pad p -> todo p = [] -> handed_on p.
Proof.
  intros Hp Ed; destruct (p_v2 _ _ Hp) as (ls & Hr & Hl); pose proof (p_v2_at _ _ Hp) as Ha.
  rewrite Ed in Hl, Ha; unfold v2_todo in Hl; cbn in Hl; rewrite app_nil_r in Hl; split; [done|apply Ha|eauto|].
  intros c Ec; destruct (p_v1 _ _ Hp c Ec) as (ls1 & Hr1 & Hl1); exists ls1; split; [done|].
  rewrite Ed in Hl1; unfold v1_todo in Hl1; cbn in Hl1; by rewrite app_nil_r in Hl1.
Qed.

(** Steps of the servers that hand nothing on. *)
Lemma handed_on_v2 l p c : handed_on p -> V2Threads.lstep pad l (v2 p) c ->
  (forall st, l <> V2Threads.LState st) -> V2Threads.caller_at c = V2Threads.Ready -> handed_on (set_v2 c p).
Proof.
  intros [H1 H2 (ls & Hr & Hl) H4] Hs Hn Hc; split; try done.
  exists (ls ++ [l]); split; [by eapply V2History.ran_step|].
  cbn [set_v2 given]; rewrite v2_done_snoc, Hl.
  destruct l; try by rewrite app_nil_r. by destruct (Hn st).
Qed.

Lemma handed_on_v1 l p c c' : handed_on p -> v1 p = Some c -> V1Server.lstep pad l c c' ->
  V1Server.by_caller l = false -> handed_on (set_v1 c' p).
Proof.
  intros [H1 H2 H3 H4] Ec Hs Hn; split; try done; intros ? [= <-]; cbn [set_v1 given].
  destruct (H4 c Ec) as (ls & Hr & Hl); exists (ls ++ [l]); split; [by eapply V1History.ran_step|].
  rewrite v1_done_snoc, Hl; destruct l; try done; by rewrite app_nil_r.
Qed.

Lemma close_frame c c' : V2Threads.lstep pad V2Threads.LClose c c' ->
  V2Threads.caller_at c' = V2Threads.Ready /\ V2Server.mListenSocket (V2Threads.object c') = None.
Proof.
  intros H; inversion H; subst; [by destruct b|].
  match goal with E : V2Server.reset_mListenSocket _ = _ |- _ => by injection E as <- end.
Qed.

Lemma scope_linv x y : linv tid x -> scope_step x y -> linv tid y.
Proof.
  intros Hx Hs; destruct Hs as [p t Ed Et|p E1|p s s' E1 Es|p c Hc|p s s' E2 Es].
  - destruct Hx as [Hp Ho]; pose proof (TabletLife.destroy_whole tid _ Ho) as Hd; cbn [proc] in Hd.
    rewrite Et in Hd; destruct Hd as (H1 & _ & H2 & H3); split; [done|].
    destruct (done_handed_on p Hp Ed) as [G1 G2 G3 G4]; by split.
  - destruct Hx as [H1 H2]; split_and!; [done|done|]; intros s ph; cbn; congruence.
  - destruct Hx as [H1 H2]; split_and!; [done| |].
    + by eapply (handed_on_v1 V1Server.LOther); [|exact E1|apply V1Server.step_stop|].
    + intros u ph [= <- <-]; split; [done|]; by injection Es as <-.
  - destruct Hx as (H1 & H2 & H3), (close_frame _ _ Hc) as [G1 G2]; split_and!; [done| |done|done].
    by eapply handed_on_v2.
  - destruct Hx as (H1 & H2 & H3 & H4); cbn [proc at_stage linv] in *; unfold v2_closed in *; rewrite E2 in H4.
    assert (V2Server.mListenSocket s' = None /\ V2Server.mClientSocket s' = None) as [G1 G2].
    { injection Es as <-; split; [|done]; cbn; unfold V2Server.close_client; cbn.
      by destruct (V2Server.mClientSocket s). }
    split_and!; try done; exists s; destruct H2 as [F1 F2 F3 F4]; rewrite E2 in F2, F3; by split.
Qed.

Lemma server_linv x y : linv tid x -> server_step x y -> linv tid y.
Proof.
  intros Hx Hs; destruct Hs as [l p c a Ha Hb Hs|l p c c' Hb E1 Hs].
  - destruct (V2Threads.step_keeps_device pad l _ _ Hs Hb) as [[_ Hl] Hc].
    assert (handed_on p -> handed_on (set_v2 c p)) as Hh.
    { intros Hp; eapply handed_on_v2; [done|exact Hs|by destruct l|]; rewrite Hc; apply Hp. }
    destruct a; cbn [linv proc at_stage] in *; [| | | |done].
    + destruct Hx as [Hp Ho]; split; [|done]; eapply thread_pinv; [exact Hp|by eapply thread_v2].
    + destruct Hx as (H1 & H2); auto.
    + destruct Hx as (H1 & H2 & H3); auto.
    + destruct Hx as (H1 & H2 & H3 & H4); split_and!; auto.
      unfold v2_closed in *; cbn; destruct Hl; congruence.
  - destruct Hx as [H1 H2]; split; [done|]; by eapply handed_on_v1.
Qed.

Lemma life_linv x y : linv tid x -> life_step x y -> linv tid y.
Proof.
  intros Hx [(p & p' & -> & -> & Hs)|[Hs|Hs]]; [|by eapply scope_linv|by eapply server_linv].
  destruct Hx as [Hp Ho]; split; [exact (pstep_pinv pad p p' Hp Hs)|by eapply pstep_open].
Qed.

(** Nothing but a thread that has not ended keeps the main thread. *)
Lemma scope_goes_on x : linv tid x -> at_stage x <> Gone -> ~ waits x -> exists y, scope_step x y.
Proof.
  destruct x as [p a]; unfold waits; cbn [proc at_stage]; intros Hx Ha Hw; destruct a; [..|done].
  - destruct Hx as [_ Ho]; destruct (todo p) eqn:Ed; [|by destruct Hw].
    destruct (returns_inv _ _ (TabletLife.destroy_whole tid _ Ho)) as ([] & t & Et & _).
    eexists; by eapply destroy_tablet.
  - destruct (v1 p) as [[s ph]|] eqn:E1; [|eexists; by apply no_v1].
    destruct ph; [by destruct Hw; eauto..|]; eexists; by eapply destroy_v1.
  - destruct Hx as (_ & Hh & _); pose proof (h_ready _ Hh) as Hr; cbn in Hr.
    destruct (v2 p) as [s b c] eqn:E2; cbn in Hr; subst c.
    eexists; eapply close_v2; rewrite E2; by apply V2Threads.step_close.
  - destruct Hx as (_ & Hh & _); pose proof (h_ready _ Hh) as Hr; cbn in Hr.
    destruct (v2 p) as [s b c] eqn:E2; cbn in Hr, Hw; subst c.
    destruct b; try by destruct Hw. eexists; by eapply destroy_v2.
Qed.

(** ** What the clients have at the end *)

Lemma v2_todo_deliveries {A} (o : option A) cs : v2_todo (deliveries o cs) = states_of cs.
Proof.
  induction cs as [|[d|st] cs IH]; [done| |]; unfold v2_todo, states_of in *; destruct o; cbn; by rewrite <- IH.
Qed.
Lemma v1_todo_deliveries {A} (c : A) cs : v1_todo (deliveries (Some c) cs) = states_of cs.
Proof. induction cs as [|[d|st] cs IH]; [done| |]; unfold v1_todo, states_of in *; cbn; by rewrite <- IH. Qed.

(** From one point of the process to a later one: the steps of a server, and the
    states it has been handed in them. *)
Definition v2_moves (p p' : process) : Prop := exists ls new,
  V2History.steps pad ls (v2 p) (v2 p') /\ states_of (given p') = states_of (given p) ++ new /\
  v2_todo (todo p) ++ new = V2History.handed ls ++ v2_todo (todo p').
Definition v1_moves (p p' : process) : Prop := forall c', v1 p' = Some c' -> exists c ls new,
  v1 p = Some c /\ V1History.steps pad ls c c' /\ states_of (given p') = states_of (given p) ++ new /\
  v1_todo (todo p) ++ new = V1History.handed ls ++ v1_todo (todo p').

Lemma v2_moves_refl p : v2_moves p p.
Proof. exists [], []; split_and!; [constructor|by rewrite app_nil_r|by rewrite app_nil_r]. Qed.
Lemma v1_moves_refl p : v1_moves p p.
Proof. intros c Hc; exists c, [], []; split_and!; [done|constructor|by rewrite app_nil_r|by rewrite app_nil_r]. Qed.

(** A step in which the v2 server takes one step, or none. *)
Lemma v2_moves_step l p p1 p2 : v2_moves p p1 -> V2Threads.lstep pad l (v2 p1) (v2 p2) -> given p2 = given p1 ->
  v2_todo (todo p1) = V2History.handed [l] ++ v2_todo (todo p2) -> v2_moves p p2.
Proof.
  intros (ls & new & Hs & Eg & Et) Hl E1 E2; exists (ls ++ [l]), new; rewrite E1; split_and!; [|done|].
  - by eapply V2History.steps_more.
  - rewrite Et, E2, app_assoc; f_equal; unfold V2History.handed; by rewrite omap_app.
Qed.
Lemma v2_moves_still new p p1 p2 : v2_moves p p1 -> v2 p2 = v2 p1 -> states_of (given p2) = states_of (given p1) ++ new ->
  v2_todo (todo p1) ++ new = v2_todo (todo p2) -> v2_moves p p2.
Proof.
  intros (ls & new1 & Hs & Eg & Et) E1 E2 E3; exists ls, (new1 ++ new); split_and!.
  - by rewrite E1.
  - by rewrite E2, Eg, app_assoc.
  - by rewrite app_assoc, Et, <- app_assoc, E3.
Qed.

Lemma v1_moves_step l c c1 p p1 p2 : v1_moves p p1 -> v1 p1 = Some c -> v1 p2 = Some c1 ->
  V1Server.lstep pad l c c1 -> given p2 = given p1 ->
  v1_todo (todo p1) = V1History.handed [l] ++ v1_todo (todo p2) -> v1_moves p p2.
Proof.
  intros Hm Ec Ec1 Hl E1 E2 c2 Hc2; destruct (Hm c Ec) as (c0 & ls & new & E0 & Hs & Eg & Et).
  rewrite Ec1 in Hc2; injection Hc2 as <-.
  exists c0, (ls ++ [l]), new; rewrite E1; split_and!; [done| |done|].
  - by eapply V1History.steps_more.
  - rewrite Et, E2, app_assoc; f_equal; unfold V1History.handed; by rewrite omap_app.
Qed.
Lemma v1_moves_still new p p1 p2 : v1_moves p p1 -> v1 p2 = v1 p1 -> states_of (given p2) = states_of (given p1) ++ new ->
  (v1 p1 <> None -> v1_todo (todo p1) ++ new = v1_todo (todo p2)) -> v1_moves p p2.
Proof.
  intros Hm E1 E2 E3 c' Hc'; rewrite E1 in Hc'; destruct (Hm c' Hc') as (c0 & ls & new1 & E0 & Hs & Eg & Et).
  exists c0, ls, (new1 ++ new); split_and!; [done|done| |].
  - by rewrite E2, Eg, app_assoc.
  - by rewrite app_assoc, Et, <- app_assoc, E3 by congruence.
Qed.

Lemma pstep_moves p p1 p2 : pstep pad p1 p2 ->
  (v2_moves p p1 -> v2_moves p p2) /\ (v1_moves p p1 -> v1_moves p p2).
Proof.
  intros [Hs|[Hs|Hs]].
  - destruct Hs as [hwnd m w l p1 b t Ed Et]; split; intros Hm.
    + eapply (v2_moves_still (states_of (mHandler t))); [exact Hm|done|unfold states_of; by rewrite <- omap_app|].
      rewrite Ed; cbn [todo]; by rewrite v2_todo_deliveries.
    + eapply (v1_moves_still (states_of (mHandler t))); [exact Hm|done|unfold states_of; by rewrite <- omap_app|].
      rewrite Ed; cbn [todo]; intros Hv; destruct (v1 p1); [by rewrite v1_todo_deliveries|done].
  - destruct Hs as [d rest p1 c Ed Hs|d rest p1 c Ed Hs|st rest p1 c Ed Hs|a rest p1 c c' Ed Ev Hs]; split; intros Hm;
      first [eapply v2_moves_step; [exact Hm|exact Hs|done|solve [done|by rewrite Ed]]
            |eapply (v2_moves_still []); [exact Hm|done|by rewrite app_nil_r|by rewrite app_nil_r, Ed]
            |eapply (v1_moves_still []); [exact Hm|done|by rewrite app_nil_r|
               intros _; rewrite app_nil_r; solve [done|by rewrite Ed]]|idtac].
    eapply v1_moves_step; [exact Hm|exact Ev|done|exact Hs|done|]; rewrite Ed; by destruct a.
  - destruct Hs as [l p1 c Hb Hs|l p1 c c' Hb Ev Hs]; split; intros Hm.
    + eapply v2_moves_step; [exact Hm|exact Hs|done|by destruct l].
    + eapply (v1_moves_still []); [exact Hm|done|by rewrite app_nil_r|by rewrite app_nil_r].
    + eapply (v2_moves_still []); [exact Hm|done|by rewrite app_nil_r|by rewrite app_nil_r].
    + eapply v1_moves_step; [exact Hm|exact Ev|done|exact Hs|done|by destruct l].
Qed.

Lemma life_moves x y : rtc life_step x y ->
  v1_moves (proc x) (proc y) /\ (at_stage y <> Gone -> at_stage x <> Gone /\ v2_moves (proc x) (proc y)).
Proof.
  revert y; refine (rtc_ind_r _ x _ _); [auto using v1_moves_refl, v2_moves_refl|intros y z H Hs [IH1 IH2]].
  assert (forall p, v1 p = v1 (proc y) -> given p = given (proc y) -> todo p = todo (proc y) ->
    v1_moves (proc x) p) as Hv1.
  { intros p E1 E2 E3; apply (v1_moves_still [] _ (proc y)); [done|done|by rewrite E2, app_nil_r|].
    by rewrite E3, app_nil_r. }
  assert (forall p, at_stage y <> Gone -> v2 p = v2 (proc y) -> given p = given (proc y) -> todo p = todo (proc y) ->
    at_stage x <> Gone /\ v2_moves (proc x) p) as Hv2.
  { intros p Hy E1 E2 E3; destruct (IH2 Hy) as [Hx Hm]; split; [done|].
    apply (v2_moves_still [] _ (proc y)); [done|done|by rewrite E2, app_nil_r|by rewrite E3, app_nil_r]. }
  destruct Hs as [(p & p' & -> & -> & Hs)|[Hs|Hs]].
  - destruct (pstep_moves (proc x) _ _ Hs) as [G2 G1]; split; [by apply G1|]; intros _.
    destruct (IH2 ltac:(done)); split; [done|by apply G2].
  - destruct Hs as [p t Ed Et|p E1|p s s' E1 Es|p c Hc|p s s' E2 Es]; cbn [proc at_stage] in *;
      (split; [|intros Ha]); try by auto.
    + by eapply (v1_moves_step V1Server.LOther); [exact IH1|exact E1|done|apply V1Server.step_stop|..].
    + destruct (IH2 ltac:(done)); split; [done|]; by eapply v2_moves_step.
  - destruct Hs as [l p c a Ha Hb Hs|l p c c' Hb E1 Hs]; cbn [proc at_stage] in *; (split; [|intros Ha']); try by auto.
    + destruct (IH2 ltac:(done)); split; [done|]; eapply v2_moves_step; [done|exact Hs|done|by destruct l].
    + eapply v1_moves_step; [exact IH1|exact E1|done|exact Hs|done|by destruct l].
Qed.

Lemma v1_released p s ph : handed_on p -> v1_left p -> v1 p = Some (s, ph) ->
  ph = V1Server.Exited /\ V1Server.discipline (V1Server.trace s) = Some None.
Proof.
  intros Hh Hv E1; destruct (Hv _ _ E1) as [-> Em], (h_v1 _ Hh _ E1) as (ls & Hr & _); split; [done|].
  pose proof (V1Server.good_held _ _ (V1Server.reachable_good pad _ (V1History.v1_ran_reachable pad _ _ Hr))) as H.
  cbn in H; unfold V1Server.held in H; by rewrite H, Em.
Qed.

(** A life that has been handed on to the servers, with the v2 server it had when
    its threads ended. *)
Lemma handed_somehow x : linv tid x -> at_stage x <> Looping -> exists s, handed_on s /\
  todo s = todo (proc x) /\ v1 s = v1 (proc x) /\ (at_stage x <> Gone -> v2 s = v2 (proc x)).
Proof.
  intros Hx Ha; destruct x as [p []]; cbn in *; [done|..].
  - exists p; split_and!; [apply Hx|done..].
  - exists p; split_and!; [apply Hx|done..].
  - exists p; split_and!; [apply Hx|done..].
  - destruct Hx as (_ & _ & _ & _ & Hk & s & Hs); eexists; split; [exact Hs|by split_and!].
Qed.

Lemma linv_v2 x : linv tid x -> at_stage x <> Gone -> V2Threads.reachable pad (v2 (proc x)).
Proof.
  intros Hx Ha; destruct (decide (at_stage x = Looping)) as [El|El].
  - destruct x as [p a]; cbn in El; subst a; destruct Hx as [Hp _], (p_v2 _ _ Hp) as (ls & Hr & _).
    by eapply V2History.ran_reachable.
  - destruct (handed_somehow x Hx El) as (q & Hq & _ & _ & E2), (h_v2 _ Hq) as (ls & Hr & _).
    rewrite <- E2 by done; by eapply V2History.ran_reachable.
Qed.

Lemma linv_v1 x c : linv tid x -> v1 (proc x) = Some c -> exists ls, V1History.ran pad ls c.
Proof.
  intros Hx Ec; destruct (decide (at_stage x = Looping)) as [El|El].
  - destruct x as [p a]; cbn in El; subst a; destruct Hx as [Hp _], (p_v1 _ _ Hp c Ec) as (ls & Hr & _); eauto.
  - destruct (handed_somehow x Hx El) as (q & Hq & _ & E1 & _); rewrite <- E1 in Ec.
    destruct (h_v1 _ Hq c Ec) as (ls & Hr & _); eauto.
Qed.

(** What a client is sent from the state [x] of the process to the state [y], at
    the end. *)
Lemma v2_gets_rest x y : linv tid x -> linv tid y -> rtc life_step x y -> at_stage y <> Looping ->
  let s := V2Threads.object (v2 (proc x)) in let s' := V2Threads.object (v2 (proc y)) in
  V2Server.mClientSocket s' <> None ->
  V2History.accept_count (V2Server.trace s') = V2History.accept_count (V2Server.trace s) ->
  exists new sent, states_of (given (proc y)) = states_of (given (proc x)) ++ new /\
    V2History.states_in (V2Threads.client_log (V2Server.trace s')) =
      V2History.states_in (V2Threads.client_log (V2Server.trace s)) ++ sent /\
    Forall2 V2History.carries sent (v2_todo (todo (proc x)) ++ new).
Proof.
  intros Hx Hy Hr Hl s s' Hk Hn.
  assert (at_stage y <> Gone) as Hg by (destruct y as [p []]; try done; by destruct Hy as (_ & _ & _ & _ & ? & _)).
  destruct (life_moves x y Hr) as [_ Hm], (Hm Hg) as [Hgx (ls & new & Hs & Eg & Et)].
  destruct (handed_somehow y Hy Hl) as (q & Hq & Ed & _); rewrite <- Ed, (h_todo _ Hq) in Et.
  cbn in Et; rewrite app_nil_r in Et.
  destruct (V2History.steps_states pad ls _ _ (linv_v2 x Hx Hgx) Hs Hk Hn) as (sent & E & HF).
  exists new, sent; by rewrite Et.
Qed.

Lemma v1_gets_rest x y u ph u' ph' : linv tid x -> linv tid y -> rtc life_step x y -> at_stage y <> Looping ->
  v1 (proc x) = Some (u, ph) -> v1 (proc y) = Some (u', ph') ->
  V1Server.mPipe u <> None -> V1Server.mPipe u' <> None ->
  V1History.create_count (V1Server.trace u') = V1History.create_count (V1Server.trace u) ->
  exists new sent, states_of (given (proc y)) = states_of (given (proc x)) ++ new /\
    V1History.states_in (V1History.client_log (V1Server.trace u')) =
      V1History.states_in (V1History.client_log (V1Server.trace u)) ++ sent /\
    Forall2 V1History.carries sent (v1_todo (todo (proc x)) ++ new).
Proof.
  intros Hx Hy Hr Hl Ex Ey Hk Hk' Hn; destruct (linv_v1 x _ Hx Ex) as [ls0 Hr0].
  destruct (life_moves x y Hr) as [Hm _], (Hm _ Ey) as (c & ls & new & Ec & Hs & Eg & Et).
  rewrite Ex in Ec; injection Ec as <-.
  destruct (handed_somehow y Hy Hl) as (q & Hq & Ed & _); rewrite <- Ed, (h_todo _ Hq) in Et.
  cbn in Et; rewrite app_nil_r in Et.
  pose proof (V1Server.good_held _ _ (V1Server.reachable_good pad _ (V1History.v1_ran_reachable pad _ _ Hr0))) as Hh.
  assert (V1Server.local ph = None) as Hp by (cbn in Hh; destruct (V1Server.local ph); [by destruct Hh|done]).
  destruct (V1History.v1_steps_states pad ls0 ls _ _ Hr0 Hs Hp Hn) as [_ H].
  destruct (H Hk') as (sent & E & HF); exists new, sent; by rewrite Et.
Qed.
End life.

Definition v1_over (a : stage) : bool := match a with Looping | TabletGone => false | _ => true end.
Definition v2_over (a : stage) : bool := match a with Closing | Gone => true | _ => false end.

(** Reachable from a process that has just been set up by the thread [tid]. *)
Definition reachable {HA : Arch} {HB : BuildConfig} {HO : V2Server.SocketOS} {HP : V1Server.PipeOS}
    {HC : CodePage} {HW : Wintab.WintabDriver} {HK : ForegroundOverride.KernelCalls}
    {HJ : InjectDll.InjectOS} (pad : nat -> Z) (tid : Z) (x : life) : Prop :=
  exists M N fuel junk window k inject p0,
    settles M N fuel /\ InjectDll.modules_fit /\ axis_ok junk /\ (forall n, ForegroundOverride.owner k <> Some (tid, n)) /\
    initial fuel junk tid window k inject p0 /\ rtc (life_step pad) (mkLife p0 Looping) x.

Section reachable.
Context {HA : Arch} {HB : BuildConfig} {HO : V2Server.SocketOS} {HP : V1Server.PipeOS} {HC : CodePage}.
Context {HW : Wintab.WintabDriver} {HK : ForegroundOverride.KernelCalls} {HJ : InjectDll.InjectOS}.
Context {HS : SaneDriver} {HU : CodePageSpec} (pad : nat -> Z) (tid : Z).

Lemma initial_linv M N fuel junk window k inject p :
  settles M N fuel -> InjectDll.modules_fit -> axis_ok junk -> (forall n, ForegroundOverride.owner k <> Some (tid, n)) ->
  initial fuel junk tid window k inject p -> linv pad tid (mkLife p Looping).
Proof.
  intros Hs Hmod Hj Hk Hi; split; [by eapply initial_pinv|].
  destruct Hs as (HM & HN & Hf1 & Hf2 & Hf3), Hi as (t & E & Et & _).
  pose proof (TabletLife.construct_whole tid M N fuel junk inject (new_Tablet window [] k NoInstance)
    HM Hf1 Hmod HN Hf2 Hf3 Hj ltac:(split; [by repeat split|by repeat split|constructor|done])
    eq_refl eq_refl eq_refl Hk) as Hr.
  rewrite E in Hr; destruct Hr as (_ & Ho & _); cbn [proc]; by rewrite Et.
Qed.

Lemma reachable_linv x : reachable pad tid x -> linv pad tid x.
Proof.
  intros (M & N & fuel & junk & window & k & inject & p0 & Hs & Hmod & Hj & Hk & Hi & Hr).
  apply (initial_linv M N) in Hi; [|done..]; induction Hr; eauto using life_linv.
Qed.
End reachable.

(** ** A concrete run: the device is announced, and the program ends *)

Module Sample.
#[local] Existing Instance arch64.
#[local] Existing Instance TabletProofs.Sample.config.
#[local] Existing Instance TabletProofs.Sample.driver.
#[local] Existing Instance ForegroundOverride.Sample.calls.
#[local] Existing Instance InjectDll.Sample.os.
#[local] Existing Instance Utf8.Sample.codepage.
#[local] Instance sockets : V2Server.SocketOS :=
  V2Server.Sample.os_with (fun _ _ _ => V2Server.RecvData []) (fun _ => true).
#[local] Instance pipes : V1Server.PipeOS := {|
  V1Server.os_create_pipe _ _ := inr 7; V1Server.os_connect_pipe _ _ := None;
  V1Server.os_peek_pipe _ _ := true; V1Server.os_write_file _ _ data := Some (Z.of_nat (length data));
  V1Server.os_stop_requested _ := true |}.
Import Process.Sample.

Definition s0 : V2Server.V2Server := V2Server.set_mListenSocket (Some 4) V2Server.Sample.object.
Definition s1 : V2Server.V2Server := V2Server.set_mDevice (Some (V2Server.stored_device device)) s0.
Definition s2 : V2Server.V2Server := after (V2Server.Send pad (V2Server.stored_device device)) s1.
Definition s3 : V2Server.V2Server := after V2Server.reset_mListenSocket s2.
Definition s4 : V2Server.V2Server := after (V2Server.stop_requested ;; V2Server.reset_mListenSocket) s3.
Definition s5 : V2Server.V2Server :=
  after (modify (V2Server.log V2Server.EThreadsJoined) ;; V2Discovery.after_stop) s4.
Definition r1 : V1Server.V1Server := after (V1Server.SetDevice pad device) V1Server.new_V1Server.
Definition r2 : V1Server.V1Server := after V1Server.stop_requested r1.
Definition r3 : V1Server.V1Server := after V1Server.reset_mPipe r2.
Definition tablet_gone : Tablet (list call) := after Destroy (set_mHandler [] tablet0).

Definition begin : process :=
  mkProcess (set_mHandler [] tablet0) [CDevice device] [ToV2 (CDevice device); ToV1 (CDevice device)]
    (sys s0 V2Threads.Idle) (Some (V1Server.new_V1Server, V1Server.Accepting)).
Definition handed : process :=
  mkProcess (set_mHandler [] tablet0) [CDevice device] [] (sys s2 V2Threads.Idle) (Some (r1, V1Server.Accepting)).
Definition left_ (s : V2Server.V2Server) a r ph : process :=
  mkProcess tablet_gone [CDevice device] [] (sys s a) (Some (r, ph)).

Lemma begin_handed : rtc (life_step pad) (mkLife begin Looping) (mkLife handed Looping).
Proof.
  destruct sample_wf as [Hd _].
  eapply rtc_l; [left; eexists _, _; split_and!; [done|reflexivity|right; left]|
    eapply rtc_l; [left; eexists _, _; split_and!; [done|reflexivity|right; left]|
      apply rtc_once; left; eexists _, _; split_and!; [done|reflexivity|right; left]]].
  - refine (deliver_store pad device _ begin (V2Threads.mkSys s1 V2Threads.Idle
      (V2Threads.Sending (V2Server.stored_device device))) eq_refl _); by apply V2Threads.step_store.
  - eapply (deliver_sent pad device _ _ (sys s2 V2Threads.Idle)); [reflexivity|].
    apply (V2Threads.step_send_device pad _ _ _ false); vm_compute; reflexivity.
  - eapply (deliver_v1 pad (CDevice device) [] (mkProcess _ _ _ _ _) _ (r1, V1Server.Accepting) eq_refl eq_refl).
    apply V1Server.step_set_device; [done|]; vm_compute; reflexivity.
Qed.

Lemma handed_gone : rtc (life_step pad) (mkLife handed Looping)
  (mkLife (left_ s5 V2Threads.Exited r3 V1Server.Exited) Gone).
Proof.
  eapply rtc_l; [right; left; apply (destroy_tablet pad handed tablet_gone); [done|vm_compute; reflexivity]|].
  eapply rtc_l; [right; right; refine (server_v1 pad V1Server.LOther (left_ s2 V2Threads.Idle r1 V1Server.Accepting)
    _ (r2, V1Server.Exited) eq_refl eq_refl _); apply V1Server.step_exit; vm_compute; reflexivity|].
  eapply rtc_l; [right; left; refine (destroy_v1 pad (left_ s2 V2Threads.Idle r2 V1Server.Exited) r2 r3 eq_refl _);
    vm_compute; reflexivity|].
  eapply rtc_l; [right; left; refine (close_v2 pad (left_ s2 V2Threads.Idle r3 V1Server.Exited)
    (sys s3 V2Threads.Idle) _); apply V2Threads.step_close; vm_compute; reflexivity|].
  eapply rtc_l; [right; right; refine (server_v2 pad V2Threads.LOther (left_ s3 V2Threads.Idle r3 V1Server.Exited)
    (sys s4 V2Threads.Exited) Closing _ eq_refl _); [done|];
    eapply V2Threads.step_exit; vm_compute; reflexivity|].
  apply rtc_once; right; left.
  refine (destroy_v2 pad (left_ s4 V2Threads.Exited r3 V1Server.Exited) s4 s5 eq_refl _); vm_compute; reflexivity.
Qed.

Lemma gone_reachable : reachable pad 1 (mkLife (left_ s5 V2Threads.Exited r3 V1Server.Exited) Gone).
Proof.
  exists 0%nat, 1%nat, 4%nat, TabletProofs.Sample.axis, 77, ForegroundOverride.Sample.fresh,
    (Some HuionAlternate), begin; split_and!; [apply start_settles|intros t p ms cb [= <- <-]; by vm_compute|done|done| |].
  - exists tablet0; split_and!; try (vm_compute; reflexivity); [|by right].
    exists s0; split; [by repeat constructor|done].
  - etrans; [apply begin_handed|apply handed_gone].
Qed.
End Sample.

(** Another run: with a client on each server, the pen moves and the program is
    left. *)
Module Leaving.
#[local] Existing Instance arch64.
#[local] Existing Instance TabletProofs.Sample.config.
#[local] Existing Instance TabletProofs.Sample.driver.
#[local] Existing Instance ForegroundOverride.Sample.calls.
#[local] Existing Instance InjectDll.Sample.os.
#[local] Existing Instance V2Server.Sample.os.
#[local] Existing Instance V1Server.Sample.os.
#[local] Existing Instance Utf8.Sample.codepage.
Import Process.Sample.

Definition tablet_end : Tablet (list call) := after Destroy (set_mHandler [] tablet1).
Definition arrived : process :=
  mkProcess (set_mHandler [] tablet1) [CDevice device; CState (mState tablet1)] []
    (sys o4 V2Threads.Accepted) (Some (u3, V1Server.Watching)).
Definition left_loop : life := mkLife (set_wintab tablet_end arrived) TabletGone.

Lemma looping p p' : rtc (pstep pad) p p' -> rtc (life_step pad) (mkLife p Looping) (mkLife p' Looping).
Proof. induction 1 as [|p p' p'' Hs _ IH]; [apply rtc_refl|]; eapply rtc_l; [left; eauto|exact IH]. Qed.

Lemma served_alive : reachable pad 1 (mkLife served Looping).
Proof.
  exists 0%nat, 1%nat, 4%nat, TabletProofs.Sample.axis, 77, ForegroundOverride.Sample.fresh,
    (Some HuionAlternate), start.
  split_and!; [apply start_settles|intros t p ms cb [= <- <-]; by vm_compute|done|done|apply start_initial|].
  apply looping; etrans; [apply start_told|apply told_served].
Qed.

Lemma served_left : rtc (life_step pad) (mkLife served Looping) left_loop.
Proof.
  etrans; [apply looping; eapply rtc_l; [apply served_pending|apply rtc_once, pending_moved]|].
  eapply rtc_l; [left; eexists _, _; split_and!; [done|reflexivity|right; left]|apply rtc_once; right; left].
  - eapply (deliver_v1 pad (CState (mState tablet1)) [] moved _ (u3, V1Server.Watching) eq_refl eq_refl).
    apply V1Server.step_set_state; [apply sample_wf|]; vm_compute; reflexivity.
  - apply (destroy_tablet pad arrived tablet_end); [done|vm_compute; reflexivity].
Qed.
End Leaving.

(** ** Properties *)

(** C4: the process gives everything back, in order, and loses nothing on the way
    out.  While the main thread handles messages the tablet has its one context
    open and the mutex of the override is with the main thread; from its destructor
    on both are given back.  Take any state [x] of the process and any state [y]
    it is in later, on its way out, with the threads of the servers going on all
    the time.  A client that is connected in [y], and that no other client has
    replaced since [x], has been sent exactly one message for every state that the
    main thread still had to hand on in [x] and for every state the tablet has
    produced since, in order, after what it had been sent before.  Once the v1
    server is gone, its accept thread has ended and every pipe it opened is closed;
    once the v2 server is in [Stop] nothing listens any more, and once it is gone
    its accept thread has ended and no client is left open.  Every destructor
    returns as soon as the accept thread it waits for has ended.  This is for a
    driver as [SaneDriver] describes it, with at most 1024 modules in the process
    that is looked for. *)
Theorem process_ends {HA : Arch} {HB : BuildConfig} {HO : V2Server.SocketOS} {HP : V1Server.PipeOS}
    {HC : CodePage} {HU : CodePageSpec} {HW : WintabDriver} {HS : SaneDriver}
    {HK : ForegroundOverride.KernelCalls} {HJ : InjectDll.InjectOS} (pad : nat -> Z) (tid : Z) (x y : life) :
  reachable pad tid x -> rtc (life_step pad) x y ->
  let t := wintab (proc y) in
  let s := V2Threads.object (v2 (proc x)) in
  let s' := V2Threads.object (v2 (proc y)) in
  let held := (TabletLife.contexts (WintabTablet.driver t), ForegroundOverride.owner (mForegroundOverride t)) in
  held = (if decide (at_stage y = Looping) then (Some (Some (mContext t)), Some (tid, 1%nat)) else (Some None, None)) /\
  (at_stage y <> Looping ->
     (V2Server.mClientSocket s' <> None ->
      V2History.accept_count (V2Server.trace s') = V2History.accept_count (V2Server.trace s) ->
      exists new sent, states_of (given (proc y)) = states_of (given (proc x)) ++ new /\
        V2History.states_in (V2Threads.client_log (V2Server.trace s')) =
          V2History.states_in (V2Threads.client_log (V2Server.trace s)) ++ sent /\
        Forall2 V2History.carries sent (v2_todo (todo (proc x)) ++ new)) /\
     (forall u ph u' ph', v1 (proc x) = Some (u, ph) -> v1 (proc y) = Some (u', ph') ->
      V1Server.mPipe u <> None -> V1Server.mPipe u' <> None ->
      V1History.create_count (V1Server.trace u') = V1History.create_count (V1Server.trace u) ->
      exists new sent, states_of (given (proc y)) = states_of (given (proc x)) ++ new /\
        V1History.states_in (V1History.client_log (V1Server.trace u')) =
          V1History.states_in (V1History.client_log (V1Server.trace u)) ++ sent /\
        Forall2 V1History.carries sent (v1_todo (todo (proc x)) ++ new))) /\
  (v1_over (at_stage y) = true -> forall u ph, v1 (proc y) = Some (u, ph) ->
     ph = V1Server.Exited /\ V1Server.discipline (V1Server.trace u) = Some None) /\
  (v2_over (at_stage y) = true -> V2Server.mListenSocket s' = None) /\
  (at_stage y = Gone -> V2Threads.acceptor_at (v2 (proc y)) = V2Threads.Exited /\ V2Server.mClientSocket s' = None) /\
  (at_stage y <> Gone -> ~ waits y -> exists z, scope_step pad y z).
Proof.
  intros Hr Hxy; apply reachable_linv in Hr as Hx; assert (linv pad tid y) as Hy
    by (clear Hr; induction Hxy; eauto using life_linv).
  cbv zeta; split; [|split; [|split; [|split; [|split]]]].
  - clear Hxy; destruct y as [p []]; cbn in *; [destruct Hy as [_ (-> & _ & Ho)]|destruct Hy as [(-> & Ho & _) _]..];
      f_equal; exact Ho.
  - intros Ha; split; [by apply (v2_gets_rest pad tid)|intros u ph u' ph'; by apply (v1_gets_rest pad tid)].
  - intros Ha u ph Eu; destruct (handed_somehow pad tid y Hy) as (q & Hq & _ & E1 & _); [by destruct (at_stage y)|].
    rewrite <- E1 in Eu; apply (v1_released pad q u ph Hq); [|exact Eu].
    unfold v1_left; rewrite E1; clear Hxy; destruct y as [p []]; cbn in *; try done; apply Hy.
  - intros Ha; clear Hxy; destruct y as [p []]; try done; apply Hy.
  - intros Ha; clear Hxy; destruct y as [p a]; cbn in Ha; subst a; split; apply Hy.
  - by apply (scope_goes_on pad tid).
Qed.

Lemma process_ends_witness :
  (TabletLife.contexts (WintabTablet.driver Sample.tablet_gone) = Some None /\
   V1Server.discipline (V1Server.trace Sample.r3) = Some None /\ V2Server.mListenSocket Sample.s5 = None) /\
  V2Server.mClientSocket Process.Sample.o4 = Some 5 /\
  exists sent,
    V2History.states_in (V2Threads.client_log (V2Server.trace Process.Sample.o4)) =
      V2History.states_in (V2Threads.client_log (V2Server.trace Process.Sample.o3)) ++ sent /\
    Forall2 V2History.carries sent [mState Process.Sample.tablet1].
Proof.
  split.
  - pose proof (@process_ends arch64 TabletProofs.Sample.config Sample.sockets Sample.pipes
      Utf8.Sample.codepage Utf8.Sample.spec TabletProofs.Sample.driver (TabletProofs.Sample.driver_sane 1)
      ForegroundOverride.Sample.calls InjectDll.Sample.os Process.Sample.pad 1 _ _ Sample.gone_reachable
      (rtc_refl _ _)) as (H1 & _ & H2 & H3 & _).
    split; [exact (f_equal fst H1)|]; split; [|exact (H3 eq_refl)].
    exact (proj2 (H2 eq_refl _ _ eq_refl)).
  - assert (V2Server.mClientSocket Process.Sample.o4 = Some 5) as Hk by (vm_compute; reflexivity).
    pose proof (@process_ends arch64 TabletProofs.Sample.config V2Server.Sample.os V1Server.Sample.os
      Utf8.Sample.codepage Utf8.Sample.spec TabletProofs.Sample.driver (TabletProofs.Sample.driver_sane 1)
      ForegroundOverride.Sample.calls InjectDll.Sample.os Process.Sample.pad 1 _ _ Leaving.served_alive
      Leaving.served_left) as (_ & H & _).
    destruct (H ltac:(done)) as [H2 _]; split; [exact Hk|].
    destruct H2 as (new & sent & En & Es & HF); [cbn; by rewrite Hk|vm_compute; reflexivity|].
    exists sent; split; [exact Es|]; change ([mState Process.Sample.tablet1] = [] ++ new) in En.
    cbn in En; rewrite En; exact HF.
Defined.

End ProcessLife.
